(* ===== verification/_CoqProject ===== *)
-Q . S2P
Prelude.v
Device.v
BlockBtree.v
NodeRep.v
Merge.v
Storage.v
Journal.v
StoreSpec.v
FreeChain.v
Heap.v
Btree.v
Leaf.v
Internal.v
Tree.v
TreeRead.v
TreeWrite.v
BtreeSpec.v
Verify.v
Checkpoint.v
Compact.v
ScanSpec.v
Ghosts.v
FsTypes.v
Fs.v
FsSpec.v
FsOps.v
Snapshot.v
Posix.v
FsData.v
Serving.v
Fuse.v
FuseSpec.v
Pages.v
Recovery.v
Reclaim.v
SnapDelete.v
Commit.v
Crash.v
Running.v
Gc.v
Truncate.v
Runs.v
Fuzz.v
FuzzSpec.v
FuzzRun.v
Main.v
