(* ===== verification/Prelude.v ===== *)
(** * rfs: a copy-on-write file system, modelled and verified

    rfs stores a file system in one B-tree of 4 KiB blocks. Keys are tagged with
    the id of the snapshot that wrote them, so a snapshot is a new leaf of the
    snapshot tree and costs no copying; a write-ahead journal of logged tree writes
    makes commits cheap between checkpoints.

    ** The program and the files that model it

    - src/device.rs, the byte devices: [Device]. [BlockDevice] is the trait,
      [BlockDeviceLaws] what the layers above rely on, proved for [FileDevice] and
      [MemDevice], which are byte vectors.
    - src/block_btree.rs, the node layout and the merged view of a node's runs:
      [BlockBtree] (every accessor and mutator on the bytes), [NodeRep] (the bytes
      spell a list of bsets; each method is a list function), [Merge] (lookup and
      iteration across runs).
    - src/storage.rs, superblock, journal frames, cache and allocator: [Storage];
      [StoreSpec] and [Heap] say what it promises, [FreeChain] what becomes of the
      free-list chain after a mount. The CRC is third-party code and
      a parameter ([Crc32]); the only thing assumed of it is that it is a 32-bit
      value ([Crc32Range]). Concrete runs use a byte sum for it.
    - src/journal.rs, the ring of frames and the recovery scan: [Journal].
    - src/btree.rs: [Btree] is the code; [Leaf], [Internal] and [Tree] the
      invariants of leaves, inner nodes and whole trees; [TreeRead], [TreeWrite] the
      recursions; [BtreeSpec] the methods of [Btree] and [Tx] against a map from
      versioned keys to rows; [ScanSpec] the scans filtered by an ancestor chain,
      [Ghosts] what they return where the versions of keys interleave;
      [Checkpoint] the relocation of dirty nodes, [Compact] the in-place passes that
      drop a snapshot or dead whiteouts. [Verify] holds the checker, the
      counters and the dump, with the lines it prints as values.
    - src/fs.rs: [FsTypes] (keys, values, journal records) and [Fs] (every method).
      [FsSpec] and [FsOps] state each operation on the abstract map, [Snapshot] and
      [Posix] on what a subvolume sees, [FsData] on the bytes of files;
      [Serving] runs sequences of operations, writes included, [Truncate] cuts files;
      [SnapDelete] is the deletion of snapshots, [Reclaim] the background deletion of
      inodes, [Commit] says when a commit fits into the ring.
    - Images and crashes, across src/fs.rs, src/journal.rs and src/storage.rs:
      [Recovery] is [sync] and [open], [Crash] histories cut short by a loss of power,
      [Running] a mounted image with file data, [Gc] the garbage collector, [Runs]
      concrete runs that show defects.
    - src/fuse.rs: [Fuse] (every handler, the mutex, mounting), [FuseSpec] and
      [Pages] (paging through a directory).
    - src/main.rs, the command line: [Main].
    - fuzz/fuzz_targets/fs_ops.rs, the differential test: [Fuzz]; [FuzzSpec] and
      [FuzzRun] show that it passes.

    A Rust function is a definition with its name (prefixed where two modules share
    one, as [fs_read_at], [btree_find], [fuse_rename]). State is passed explicitly:
    a method on [&self] or [&mut self] is a computation in the monad [M S E] below,
    which keeps the state it reached when it fails. A call returns [Ok], returns
    [Err], panics ([Panic]: [unwrap], [expect], [assert!], a slice out of range) or,
    where the model bounds a recursion, runs out of fuel ([OutOfFuel]). Machine
    integers are [Z] with their wrap-around written out ([u8] .. [u64]), as in a
    release build; bytes are [Init.Byte.byte]; the node cache is a [gmap].

    ** What the theorems show

    - Tree. A [Btree] refines a finite map from (key, snapshot) to (value, kind):
      insertion with its compactions, splits and promotions, deletion by flip or
      whiteout, point and chain lookups, range scans; transactions are all or
      nothing; replaying the log of any writes rebuilds a map no lookup can tell
      apart ([BtreeSpec]). These are total: with room in the allocator (a budget of
      [OP_BLOCKS] blocks per write) the operation returns.
    - Leaves and runs. What compaction, flips, whiteout and snapshot drops do to
      lookups ([Leaf]); over the whole tree the passes remove exactly the rows they
      name and report their number ([Compact]); newest-run-wins search and the k-way iterator against a
      reference reading ([Merge]).
    - Scans. The chain-filtered scan agrees with lookups when the versions of a key
      are adjacent ([ScanSpec.visible_scan_agrees_with_lookup]); a name containing
      0xFF can separate them, and in general the scan decides once per run of adjacent
      versions, so that a deleted name may reappear
      ([Ghosts.visible_scan_decides_per_run]).
    - Journal. A torn or missing tail recovers exactly the groups committed before;
      a closed group is recovered whole ([Journal]). A commit overruns the ring exactly
      when its group is too long for it, which the code does not test ([Commit]).
    - Shape. After any sequence of the operations of [Serving] the tree passes the
      checker that the tests run on trees: occupancy, order, separator bounds, levels,
      flags, and leaves at one depth ([Serving.reachable_trees_verify]). Counting and
      dumping report exactly the stored keys ([Verify]).
    - Crashes. After any history of operations on names, inodes, snapshots and
      subvolumes (no file data), of checkpoints and of commits whose group fits into the
      ring, on a new image, and power lost between or inside them (before the superblock
      write of a checkpoint), a mount shows the map of the last commit or checkpoint
      ([Crash.crash_recovers_last_commit]), and the calls of the history return
      ([Crash.events_return]).
    - Durability and collection. A checkpoint and a mount keep every byte of every
      file ([Running.sync_then_mount_keeps_files]). Garbage collection frees exactly
      the blocks that neither the tree nor a live extent uses
      ([Gc.gc_frees_exactly_orphans]).
    - File contents. [read_at] returns the bytes a file holds and [write_at] changes
      its range alone ([FsData]); [truncate_extents] cuts a file whose blocks no other
      row names and keeps everything else ([Truncate.truncate_cuts_private_file]).
    - Store. Written nodes, superblocks and free lists read back; no block is handed
      out twice while the allocator runs ([StoreSpec]).
    - File system. Every state reached by operations on names, inodes, snapshots and
      subvolumes and by writes satisfies an invariant under which none of these panics
      or hangs ([Serving.reachable_states_are_well_formed]); snapshots are isolated
      from them, file bytes included ([Serving.snapshot_is_isolated]); truncates are not
      among these operations (see the defects). Deleting a snapshot, with the sweep behind
      it, returns and changes nothing another subvolume sees ([SnapDelete]); the ancestor walk ends on any stored links; [rename],
      [unlink], [rmdir] and the listing refine operations on maps of names and inodes,
      errors included ([Posix]).
    - Requests. [lookup] and [getattr] answer from that view, [create] and [mkdir]
      extend it, on a mount in memory ([FuseSpec]); paging through [readdir] with a reply
      buffer of any size that holds one entry is complete ([Pages]).
    - Command line and mount. [main] accepts one grammar, and what it mounts is
      served ([Main]).
    - Differential test. On any sequence of its writes, reads, checkpoints,
      collections, reclaims and snapshots, the whole test passes, the final collection
      and remount included ([FuzzRun.differential_test_passes]).
    - Defects, as theorems: a truncate gives away blocks that a snapshot still reads
      ([Truncate.truncate_gives_away_shared_block]); a commit whose group is longer than
      the ring overwrites its own frames ([Commit.commit_overruns_ring_iff]); deleted
      names reappear in listings ([Ghosts]); the first block a mount hands out is part of
      the free-list chain the superblock points at, so that file data can become the
      free list ([FreeChain]); a mount killed before its first commit has no root
      ([Main]). As single runs of the code, evaluated: a crash hands out a data block
      again, and an uncommitted truncate loses committed data ([Runs]).

    ** Bounds and fuel

    Recursions on block numbers take [TREE_FUEL] steps, more than a tree of any
    reachable height needs: the height is bounded by the number of blocks the
    invariant admits, and the theorems prove the fuel suffices. The merged iterator
    takes one step per stored entry. Loops over snapshot ids run at most [2 ^ 33]
    rounds ([SNAP_LOOP]); ids are 32 bits wide and the walk is strictly ascending, and
    each round of the sweep removes a snapshot. Dropping the rows of a snapshot takes
    at most [2 ^ 52] run numbers, one per block ([SnapDelete] asks for that many per
    snapshot).
    [open_on] takes the length bound of the free-list chain as fuel, and the theorems
    on it hold for every fuel from some number on. [roomy] bounds a running image:
    fewer than [2 ^ 46] blocks and [2 ^ 62] sequence numbers. A mount must have
    room to replay a full ring, [MOUNT_SLACK] writes; the theorems on commits ask that
    the group fits into the ring ([group_fits], decidable; at most 64 pending records
    always do).

    ** Not modelled

    Threads and locks other than the poisoning of the request mutex: the code
    serialises all requests through it. [debug_assert!], which a release build
    drops. The module list (src/lib.rs), the benchmarks, the text of error messages,
    the mount options handed to the FUSE library and the decoding of fuzzer input.
    Operating-system I/O errors of [FileDevice] beyond a failing read past the end.
    Command-line arguments that are not Unicode, on which the argument iterator panics.
    What a closure handed to [with_node_mut] has changed before it panics. The reply
    buffer of the FUSE library: [Pages.dir_buffer] states what is relied on, and a
    buffer bounded in bytes satisfies it.

    What is modelled but not covered by a theorem: a superblock write torn by a
    crash; crash safety of file data between checkpoints, which does not hold (see
    the defects); in the differential test, unlinking, deleting snapshots and
    remounting in the middle of a run, after which the free-list chain of the image
    is no longer protected (see the defects); crashes after a snapshot is deleted,
    whose key drops ([Compact]) are not logged. *)

(** ** Shared notations, automation and generic lemmas *)
From Stdlib Require Import Strings.Byte.
From stdpp Require Import base list gmap numbers sorting.

(** Lemmas that automate the common cases live in
    the hint database [rfs]. *)
Create HintDb rfs discriminated.

Abbreviation byte := Init.Byte.byte.
Declare Scope rfs_scope.
Delimit Scope rfs_scope with rfs.

(** ** Outcomes: a Rust call returns [Ok], returns [Err], panics, or (where
    the model bounds a recursion by fuel) has not returned yet. *)
Inductive outcome (E A : Type) : Type :=
  | Ok (a : A)
  | Err (e : E)
  | Panic
  | OutOfFuel.
Arguments Ok {E A} a.
Arguments Err {E A} e.
Arguments Panic {E A}.
Arguments OutOfFuel {E A}.

#[export] Instance outcome_ret {E} : MRet (outcome E) := λ A a, Ok a.
#[export] Instance outcome_bind {E} : MBind (outcome E) := λ A B k c,
  match c with
  | Ok a => k a
  | Err e => Err e
  | Panic => Panic
  | OutOfFuel => OutOfFuel
  end.
#[export] Instance outcome_fmap {E} : FMap (outcome E) := λ A B f c,
  match c with
  | Ok a => Ok (f a)
  | Err e => Err e
  | Panic => Panic
  | OutOfFuel => OutOfFuel
  end.

(** [Result::map_err], used by [From] conversions between error types. *)
Definition map_err {E F A} (f : E → F) (c : outcome E A) : outcome F A :=
  match c with
  | Ok a => Ok a
  | Err e => Err (f e)
  | Panic => Panic
  | OutOfFuel => OutOfFuel
  end.

(** [assert!(b)] and [Option::expect]/[unwrap]: a panic when the test fails. *)
Definition assert_that {E} (b : bool) : outcome E unit := if b then Ok tt else Panic.
Definition expect {E A} (o : option A) : outcome E A :=
  match o with Some a => Ok a | None => Panic end.

Definition is_ok {E A} (c : outcome E A) : bool := match c with Ok _ => true | _ => false end.

(** ** Stateful code: explicit state passing, the state survives an error. *)
Definition M (S E A : Type) : Type := S → outcome E A * S.

#[export] Instance M_ret {S E} : MRet (M S E) := λ A a s, (Ok a, s).
#[export] Instance M_bind {S E} : MBind (M S E) := λ A B k c s,
  match c s with
  | (Ok a, s') => k a s'
  | (Err e, s') => (Err e, s')
  | (Panic, s') => (Panic, s')
  | (OutOfFuel, s') => (OutOfFuel, s')
  end.

Definition gets {S E A} (f : S → A) : M S E A := λ s, (Ok (f s), s).
Definition modify {S E} (f : S → S) : M S E unit := λ s, (Ok tt, f s).
Definition lift {S E A} (c : outcome E A) : M S E A := λ s, (c, s).
Definition throw {S E A} (e : E) : M S E A := λ s, (Err e, s).
Definition out_of_fuel {S E A} : M S E A := λ s, (OutOfFuel, s).

(** Run a computation on a component of a larger state. *)
Definition zoom {S T E A} (get : T → S) (set : S → T → T) (c : M S E A) : M T E A :=
  λ t, let '(r, s') := c (get t) in (r, set s' t).

(** Convert the error type of a computation (the [?] operator's [From]). *)
Definition mapping_err {S E F A} (f : E → F) (c : M S E A) : M S F A :=
  λ s, let '(r, s') := c s in (map_err f r, s').

(** [for x in l { f(x)?; }] *)
Fixpoint forM_ {S E A} (l : list A) (f : A → M S E unit) : M S E unit :=
  match l with
  | [] => mret tt
  | x :: l => _ ← f x; forM_ l f
  end.

(** [for x in l { acc = f(acc, x)?; }] *)
Fixpoint foldM {S E A B} (f : B → A → M S E B) (b : B) (l : list A) : M S E B :=
  match l with
  | [] => mret b
  | x :: l => b' ← f b x; foldM f b' l
  end.

(** [loop { .. }] whose body continues with a new loop state ([inl]) or breaks
    with a result ([inr]). [loopM n] runs at most [2 ^ n] rounds, so a loop
    bounded by a machine integer is covered by a small [n]. *)
Fixpoint loopM {S E A B} (n : nat) (body : A → M S E (A + B)) (a : A) : M S E (A + B) :=
  match n with
  | O => body a
  | Datatypes.S n =>
      r ← loopM n body a;
      match r with
      | inl a => loopM n body a
      | inr b => mret (inr b)
      end
  end.
Definition whileM {S E A B} (n : nat) (body : A → M S E (A + B)) (a : A) : M S E B :=
  r ← loopM n body a;
  match r with
  | inl _ => out_of_fuel
  | inr b => mret b
  end.

(** Reduce the monad's plumbing, and nothing else. *)
Ltac mred := cbn [mbind outcome_bind mret outcome_ret fmap outcome_fmap expect].

Lemma outcome_bind_ok {E A B} (c : outcome E A) (k : A → outcome E B) a :
  c = Ok a → (c ≫= k) = k a.
Proof. intros ->. done. Qed.

Lemma M_bind_ok {S E A B} (c : M S E A) (k : A → M S E B) s a s' :
  c s = (Ok a, s') → (c ≫= k) s = k a s'.
Proof. intros H. unfold mbind, M_bind. by rewrite H. Qed.

Lemma gets_bind {S E A B} (f : S → A) (k : A → M S E B) s : (gets f ≫= k) s = k (f s) s.
Proof. done. Qed.
Lemma modify_bind {S E B} (f : S → S) (k : unit → M S E B) s : (modify f ≫= k) s = k tt (f s).
Proof. done. Qed.

Lemma outcome_bind_Ok_inv {E A B} (c : outcome E A) (k : A → outcome E B) b :
  (c ≫= k) = Ok b → ∃ a, c = Ok a ∧ k a = Ok b.
Proof. destruct c; try discriminate. eauto. Qed.

Lemma M_bind_Ok_inv {S E A B} (c : M S E A) (k : A → M S E B) s b s' :
  (c ≫= k) s = (Ok b, s') → ∃ a s1, c s = (Ok a, s1) ∧ k a s1 = (Ok b, s').
Proof.
  unfold mbind, M_bind. destruct (c s) as [[]]; intros; simplify_eq; eauto.
Qed.

(** A loop whose rounds decrease a measure bounded by [2 ^ n] never runs out of
    fuel. *)
Lemma loopM_measure {S E A B} (I : A → S → Prop) (mu : A → Z) (body : A → M S E (A + B)) :
  (∀ a s, I a s → match body a s with
                  | (Ok (inl a'), s') => I a' s' ∧ (0 ≤ mu a' < mu a)%Z
                  | (OutOfFuel, _) => False
                  | _ => True
                  end) →
  ∀ n a s, I a s → match loopM n body a s with
                   | (Ok (inl a'), s') => I a' s' ∧ (0 ≤ mu a')%Z ∧ (mu a' + 2 ^ Z.of_nat n ≤ mu a)%Z
                   | (OutOfFuel, _) => False
                   | _ => True
                   end.
Proof.
  intros Hb n. induction n as [|n IH]; intros a s Ha; cbn [loopM].
  { specialize (Hb a s Ha). destruct (body a s) as [[[a'|b]|e| |] s']; try done.
    destruct Hb as [? ?]. split; [done|]. change (2 ^ Z.of_nat 0)%Z with 1%Z. lia. }
  unfold mbind, M_bind. pose proof (IH a s Ha) as H1.
  destruct (loopM n body a s) as [[[a'|b]|e| |] s']; try done. destruct H1 as (HI & H0 & H1).
  pose proof (IH a' s' HI) as H2. destruct (loopM n body a' s') as [[[a''|b]|e| |] s'']; try done.
  destruct H2 as (HI2 & H20 & H2). split_and!; [done|done|].
  rewrite Nat2Z.inj_succ, Z.pow_succ_r by lia. lia.
Qed.

Lemma whileM_total {S E A B} (I : A → S → Prop) (mu : A → Z) n (body : A → M S E (A + B)) a s :
  (∀ a s, I a s → match body a s with
                  | (Ok (inl a'), s') => I a' s' ∧ (0 ≤ mu a' < mu a)%Z
                  | (OutOfFuel, _) => False
                  | _ => True
                  end) →
  I a s → (mu a < 2 ^ Z.of_nat n)%Z → (whileM n body a s).1 ≠ OutOfFuel.
Proof.
  intros Hb Ha Hm. unfold whileM, mbind, M_bind. pose proof (loopM_measure I mu body Hb n a s Ha) as H.
  destruct (loopM n body a s) as [[[a'|b]|e| |] s']; try done. destruct H as (_ & ? & ?). lia.
Qed.

(** [rounds body k a s b s']: the loop breaks with [b] in its [k]-th round. *)
Inductive rounds {S E A B} (body : A → M S E (A + B)) : nat → A → S → B → S → Prop :=
  | rounds_last a s b s' : body a s = (Ok (inr b), s') → rounds body 1 a s b s'
  | rounds_next k a s a1 s1 b s' :
      body a s = (Ok (inl a1), s1) → rounds body k a1 s1 b s' → rounds body (Datatypes.S k) a s b s'.

Lemma rounds_pos {S E A B} (body : A → M S E (A + B)) k a s b s' : rounds body k a s b s' → (1 ≤ k)%nat.
Proof. destruct 1; lia. Qed.

Lemma loopM_rounds {S E A B} (body : A → M S E (A + B)) n k a s b s' :
  rounds body k a s b s' →
  ((Z.of_nat k ≤ 2 ^ Z.of_nat n)%Z ∧ loopM n body a s = (Ok (inr b), s')) ∨
  (∃ k' a' s1, loopM n body a s = (Ok (inl a'), s1) ∧ rounds body k' a' s1 b s' ∧
     (Z.of_nat k = 2 ^ Z.of_nat n + Z.of_nat k')%Z).
Proof.
  revert k a s. induction n as [|n IH]; intros k a s Hr; cbn [loopM].
  - change (2 ^ Z.of_nat 0)%Z with 1%Z. inversion Hr; subst; [left; split; [lia|done]|right].
    eexists _, _, _. split_and!; [done|done|lia].
  - rewrite Nat2Z.inj_succ, Z.pow_succ_r by lia.
    destruct (IH k a s Hr) as [[Hk E1]|(k1 & a1 & s1 & E1 & Hr1 & Hk1)].
    + left. split; [lia|]. by rewrite (M_bind_ok _ _ _ _ _ E1).
    + rewrite (M_bind_ok _ _ _ _ _ E1).
      destruct (IH k1 a1 s1 Hr1) as [[Hk E2]|(k2 & a2 & s2 & E2 & Hr2 & Hk2)].
      * left. split; [lia|done].
      * right. exists k2, a2, s2. split_and!; [done|done|lia].
Qed.

(** A loop that breaks within [2 ^ n] rounds returns what it breaks with. *)
Lemma whileM_rounds {S E A B} (body : A → M S E (A + B)) n k a s b s' :
  rounds body k a s b s' → (Z.of_nat k ≤ 2 ^ Z.of_nat n)%Z → whileM n body a s = (Ok b, s').
Proof.
  intros Hr Hk. unfold whileM. destruct (loopM_rounds body n k a s b s' Hr) as [[_ E1]|(k' & a' & s1 & _ & Hr' & Hk')].
  - by rewrite (M_bind_ok _ _ _ _ _ E1).
  - apply rounds_pos in Hr'. lia.
Qed.

(** Distinct integers in a range are no more than the range. *)
Lemma NoDup_range_length (l : list Z) b : (0 ≤ b)%Z → NoDup l → Forall (λ k, 0 ≤ k < b)%Z l → (Z.of_nat (length l) ≤ b)%Z.
Proof.
  intros Hb Hd Hl. assert (length l ≤ length (Z.of_nat <$> seq 0 (Z.to_nat b)))%nat as Hle.
  { apply submseteq_length, NoDup_submseteq; [done|]. intros k Hk. rewrite Forall_forall in Hl. specialize (Hl k Hk).
    apply list_elem_of_fmap. exists (Z.to_nat k). split; [lia|]. apply elem_of_seq. lia. }
  rewrite length_fmap, length_seq in Hle. lia.
Qed.

Lemma mapM_ok {E A B} (f : A → outcome E B) (l : list A) :
  (∀ x, x ∈ l → ∃ y, f x = Ok y) → ∃ ys, mapM f l = Ok ys ∧ Forall2 (λ x y, f x = Ok y) l ys.
Proof.
  induction l as [|x l IH]; intros Hf; [exists []; by split|].
  destruct (Hf x) as [y Hy]; [by left|]. destruct IH as (ys & E1 & H2); [intros z Hz; apply Hf; by right|].
  exists (y :: ys). split; [|by constructor]. cbn [mapM]. rewrite Hy. mred. by rewrite E1.
Qed.

Lemma StronglySorted_sublist {A} (R : relation A) (l l' : list A) :
  l `sublist_of` l' → StronglySorted R l' → StronglySorted R l.
Proof.
  induction 1 as [|x l l' Hs IH|x l l' Hs IH]; [done| |]; intros [Hl Hf]%StronglySorted_inv; [|by apply IH].
  constructor; [by apply IH|]. rewrite Forall_forall in Hf |- *. intros y Hy. apply Hf. by eapply elem_of_sublist.
Qed.

(** ** Machine integers: a [w]-bit unsigned value is a [Z] in [0, 2^w). *)
Definition wrap (w z : Z) : Z := (z mod 2 ^ w)%Z.
Definition u8 (z : Z) : Z := wrap 8 z.
Definition u16 (z : Z) : Z := wrap 16 z.
Definition u32 (z : Z) : Z := wrap 32 z.
Definition u64 (z : Z) : Z := wrap 64 z.
Definition in_width (w z : Z) : Prop := (0 ≤ z < 2 ^ w)%Z.
Abbreviation U8_MAX := 255%Z.
Abbreviation U32_MAX := 4294967295%Z.
Abbreviation U64_MAX := 18446744073709551615%Z.
Definition sat_sub (a b : Z) : Z := Z.max 0 (a - b).
Definition sat_add64 (a b : Z) : Z := Z.min U64_MAX (a + b).

Lemma wrap_small w z : in_width w z → wrap w z = z.
Proof. intros H. apply Z.mod_small, H. Qed.

Lemma wrap_in_width w z : (0 ≤ w)%Z → in_width w (wrap w z).
Proof. intros. apply Z.mod_pos_bound. by apply Z.pow_pos_nonneg. Qed.

#[export] Instance in_width_dec w z : Decision (in_width w z).
Proof. unfold in_width. apply _. Defined.

(** ** Bytes *)
Definition b2z (b : byte) : Z := Z.of_N (Byte.to_N b).
Definition z2b (z : Z) : byte :=
  match Byte.of_N (Z.to_N (u8 z)) with Some b => b | None => Byte.x00 end.

#[export] Instance byte_eq_dec : EqDecision byte := Byte.byte_eq_dec.

Lemma b2z_range b : in_width 8 (b2z b).
Proof. unfold in_width, b2z. pose proof (Byte.to_N_bounded b). lia. Qed.

Lemma b2z_z2b z : b2z (z2b z) = u8 z.
Proof.
  unfold z2b, b2z. pose proof (wrap_in_width 8 z ltac:(lia)) as Hr.
  destruct (Byte.of_N (Z.to_N (u8 z))) as [b|] eqn:E.
  - apply Byte.to_of_N in E. rewrite E. unfold in_width, u8 in *. lia.
  - apply Byte.of_N_None_iff in E. unfold in_width, u8 in *. lia.
Qed.

Lemma z2b_b2z b : z2b (b2z b) = b.
Proof.
  unfold z2b, u8. rewrite wrap_small by apply b2z_range.
  unfold b2z. by rewrite N2Z.id, Byte.of_to_N.
Qed.

#[export] Instance b2z_inj : Inj (=) (=) b2z.
Proof. intros a b H. rewrite <- (z2b_b2z a), H. apply z2b_b2z. Qed.

(** [to_le_bytes] / [from_le_bytes] and their big-endian counterparts. *)
Fixpoint to_le (n : nat) (z : Z) : list byte :=
  match n with
  | O => []
  | S n => z2b z :: to_le n (z / 256)
  end.
Fixpoint from_le (bs : list byte) : Z :=
  match bs with
  | [] => 0
  | b :: bs => b2z b + 256 * from_le bs
  end.
Definition to_be (n : nat) (z : Z) : list byte := reverse (to_le n z).
Definition from_be (bs : list byte) : Z := from_le (reverse bs).

Lemma length_to_le n z : length (to_le n z) = n.
Proof. revert z. induction n; simpl; auto. Qed.

Lemma length_to_be n z : length (to_be n z) = n.
Proof. unfold to_be. rewrite length_reverse. apply length_to_le. Qed.

Lemma from_le_range bs : in_width (8 * Z.of_nat (length bs)) (from_le bs).
Proof.
  unfold in_width. induction bs as [|b bs IH]; [simpl; lia|].
  cbn [from_le length]. pose proof (b2z_range b) as Hb. unfold in_width in Hb.
  rewrite Nat2Z.inj_succ, Z.mul_succ_r, Z.pow_add_r by lia. lia.
Qed.

Lemma from_to_le n z : from_le (to_le n z) = wrap (8 * Z.of_nat n) z.
Proof.
  unfold wrap. revert z. induction n as [|n IH]; intros z.
  { simpl. by rewrite Z.mod_1_r. }
  cbn [to_le from_le]. rewrite IH, b2z_z2b. unfold u8, wrap.
  replace (8 * Z.of_nat (S n))%Z with (8 + 8 * Z.of_nat n)%Z by lia.
  rewrite Z.pow_add_r by lia. change (2 ^ 8)%Z with 256%Z.
  rewrite Z.rem_mul_r; [done|lia|]. apply Z.pow_pos_nonneg; lia.
Qed.

Lemma to_from_le bs : to_le (length bs) (from_le bs) = bs.
Proof.
  induction bs as [|b bs IH]; [done|]. cbn [from_le length to_le].
  assert ((b2z b + 256 * from_le bs) / 256 = from_le bs)%Z as ->.
  { pose proof (b2z_range b) as Hb. unfold in_width in Hb.
    rewrite Z.mul_comm, Z.div_add by lia. rewrite Z.div_small by lia. lia. }
  rewrite IH. f_equal. apply (inj b2z). rewrite b2z_z2b. unfold u8, wrap.
  rewrite Z.mul_comm, Z.mod_add by done. apply Z.mod_small, b2z_range.
Qed.

Lemma from_to_le_small n z : in_width (8 * Z.of_nat n) z → from_le (to_le n z) = z.
Proof. intros. rewrite from_to_le. by apply wrap_small. Qed.

Lemma to_from_le_len n bs : length bs = n → to_le n (from_le bs) = bs.
Proof. intros <-. apply to_from_le. Qed.

Lemma from_to_be_small n z : in_width (8 * Z.of_nat n) z → from_be (to_be n z) = z.
Proof. intros. unfold from_be, to_be. rewrite reverse_involutive. by apply from_to_le_small. Qed.

Lemma to_from_be_len n bs : length bs = n → to_be n (from_be bs) = bs.
Proof.
  intros H. unfold to_be, from_be.
  rewrite to_from_le_len by (by rewrite length_reverse). apply reverse_involutive.
Qed.

Lemma from_be_range bs : in_width (8 * Z.of_nat (length bs)) (from_be bs).
Proof. unfold from_be. rewrite <- (length_reverse bs). apply from_le_range. Qed.

(** ** Lexicographic comparison of byte slices ([<[u8] as Ord>::cmp]). *)
Fixpoint bytes_cmp (a b : list byte) : comparison :=
  match a, b with
  | [], [] => Eq
  | [], _ :: _ => Lt
  | _ :: _, [] => Gt
  | x :: a, y :: b =>
      match Z.compare (b2z x) (b2z y) with
      | Eq => bytes_cmp a b
      | c => c
      end
  end.
Definition bytes_lt (a b : list byte) : Prop := bytes_cmp a b = Lt.
Definition bytes_ltb (a b : list byte) : bool :=
  match bytes_cmp a b with Lt => true | _ => false end.
Definition bytes_eqb (a b : list byte) : bool := bool_decide (a = b).
Infix "≺" := bytes_lt (at level 70) : rfs_scope.
#[local] Open Scope rfs_scope.

Lemma bytes_cmp_refl a : bytes_cmp a a = Eq.
Proof. induction a; simpl; [done|]. by rewrite Z.compare_refl. Qed.

Lemma bytes_cmp_eq a b : bytes_cmp a b = Eq ↔ a = b.
Proof.
  split; [|intros ->; apply bytes_cmp_refl].
  revert b. induction a as [|x a IH]; intros [|y b]; simpl; try done.
  destruct (Z.compare_spec (b2z x) (b2z y)) as [E|E|E]; try done.
  intros H. f_equal; [by apply (inj b2z)|auto].
Qed.

Lemma bytes_cmp_antisym a b : bytes_cmp b a = CompOpp (bytes_cmp a b).
Proof.
  revert b. induction a as [|x a IH]; intros [|y b]; simpl; try done.
  rewrite (Z.compare_antisym (b2z x)). destruct (Z.compare (b2z x) (b2z y)); simpl; auto.
Qed.

Lemma bytes_cmp_gt a b : bytes_cmp a b = Gt ↔ b ≺ a.
Proof. unfold bytes_lt. rewrite (bytes_cmp_antisym a b). by destruct (bytes_cmp a b). Qed.

Lemma bytes_lt_irrefl a : ¬ a ≺ a.
Proof. unfold bytes_lt. by rewrite bytes_cmp_refl. Qed.

Lemma bytes_lt_trans a b c : a ≺ b → b ≺ c → a ≺ c.
Proof.
  unfold bytes_lt. revert b c.
  induction a as [|x a IH]; intros [|y b] [|z c]; simpl; try done.
  destruct (Z.compare_spec (b2z x) (b2z y)); try done;
    destruct (Z.compare_spec (b2z y) (b2z z)); try done; intros;
    destruct (Z.compare_spec (b2z x) (b2z z)); try lia; eauto.
Qed.

#[export] Instance bytes_lt_strict : StrictOrder bytes_lt.
Proof. split; [intros a; apply bytes_lt_irrefl|intros a b c; apply bytes_lt_trans]. Qed.
#[export] Instance bytes_lt_dec : RelDecision bytes_lt.
Proof. intros a b. unfold bytes_lt. apply _. Defined.

Lemma bytes_ltb_true a b : bytes_ltb a b = true ↔ a ≺ b.
Proof. unfold bytes_ltb, bytes_lt. by destruct (bytes_cmp a b). Qed.
Lemma bytes_ltb_false a b : bytes_ltb a b = false ↔ ¬ a ≺ b.
Proof. unfold bytes_ltb, bytes_lt. by destruct (bytes_cmp a b). Qed.
Lemma bytes_eqb_true a b : bytes_eqb a b = true ↔ a = b.
Proof. apply bool_decide_eq_true. Qed.

Lemma bytes_trichotomy a b : a ≺ b ∨ a = b ∨ b ≺ a.
Proof.
  destruct (bytes_cmp a b) eqn:E; [right; left|left|right; right].
  - by apply bytes_cmp_eq. - done. - by apply bytes_cmp_gt.
Qed.

Lemma bytes_not_lt a b : ¬ a ≺ b ↔ a = b ∨ b ≺ a.
Proof.
  split.
  - destruct (bytes_trichotomy a b); naive_solver.
  - intros [->|H] H'; [by apply (bytes_lt_irrefl b)|].
    by apply (bytes_lt_irrefl a), (bytes_lt_trans a b a).
Qed.

(** Nothing of the length is below a string of zeros. *)
Lemma bytes_cmp_zeros n k : (n ≤ length k)%nat → bytes_cmp k (replicate n Byte.x00) ≠ Lt.
Proof.
  revert k. induction n as [|n IH]; intros k Hl; [by destruct k|].
  destruct k as [|b k]; [cbn in Hl; lia|]. cbn [replicate bytes_cmp]. change (b2z Byte.x00) with 0%Z.
  pose proof (b2z_range b) as [Hb _]. destruct (Z.compare_spec (b2z b) 0%Z); [|lia|done].
  apply IH. cbn in Hl. lia.
Qed.

Lemma bytes_cmp_app p a b : bytes_cmp (p ++ a) (p ++ b) = bytes_cmp a b.
Proof. induction p; simpl; [done|]. by rewrite Z.compare_refl. Qed.

(** Strings that start with blocks of one length compare block first. *)
Lemma bytes_cmp_app_len a b x y :
  length a = length b →
  bytes_cmp (a ++ x) (b ++ y) = match bytes_cmp a b with Eq => bytes_cmp x y | c => c end.
Proof.
  revert b. induction a as [|c a IH]; intros [|d b] Hl; simplify_eq/=; [done|].
  destruct (b2z c ?= b2z d)%Z; [by apply IH|done|done].
Qed.

(** Among strings of one length, byte order is the order of the big-endian
    numbers they spell. *)
Lemma from_le_app a b :
  from_le (a ++ b) = (from_le a + 2 ^ (8 * Z.of_nat (length a)) * from_le b)%Z.
Proof.
  induction a as [|x a IH]; [cbn -[Z.mul]; lia|]. cbn [from_le app length]. rewrite IH.
  replace (8 * Z.of_nat (S (length a)))%Z with (8 + 8 * Z.of_nat (length a))%Z by lia.
  rewrite Z.pow_add_r by lia. lia.
Qed.

Lemma bytes_cmp_from_be a b :
  length a = length b → bytes_cmp a b = Z.compare (from_be a) (from_be b).
Proof.
  revert b. induction a as [|x a IH]; intros [|y b] Hl; simplify_eq/=; [done|].
  unfold from_be in *. rewrite !reverse_cons, !from_le_app, !length_reverse, Hl. cbn [from_le].
  pose proof (from_be_range a) as Ra. pose proof (from_be_range b) as Rb.
  unfold from_be, in_width in *. rewrite Hl in Ra.
  pose proof (b2z_range x). pose proof (b2z_range y). unfold in_width in *.
  set (P := (2 ^ (8 * Z.of_nat (length b)))%Z) in *.
  destruct (Z.compare_spec (b2z x) (b2z y)) as [E|E|E].
  - rewrite IH by done. rewrite E.
    destruct (Z.compare_spec (from_le (reverse a)) (from_le (reverse b))); symmetry;
      [apply Z.compare_eq_iff|apply Z.compare_lt_iff|apply Z.compare_gt_iff]; lia.
  - symmetry. apply Z.compare_lt_iff. nia.
  - symmetry. apply Z.compare_gt_iff. nia.
Qed.

Lemma bytes_cmp_to_be_app n x y a b :
  in_width (8 * Z.of_nat n) x → in_width (8 * Z.of_nat n) y →
  bytes_cmp (to_be n x ++ a) (to_be n y ++ b) = match Z.compare x y with Eq => bytes_cmp a b | c => c end.
Proof.
  intros. rewrite bytes_cmp_app_len by (by rewrite !length_to_be).
  rewrite bytes_cmp_from_be by (by rewrite !length_to_be). by rewrite !from_to_be_small.
Qed.

Lemma bytes_cmp_to_be n x y :
  in_width (8 * Z.of_nat n) x → in_width (8 * Z.of_nat n) y →
  bytes_cmp (to_be n x) (to_be n y) = Z.compare x y.
Proof.
  intros. rewrite bytes_cmp_from_be by (by rewrite !length_to_be).
  by rewrite !from_to_be_small.
Qed.

(** ** Slices. [slice l a b] is [&l[a..b]]; [splice l off src] is
    [l[off..off + src.len()].copy_from_slice(src)]. Both panic out of range. *)
Definition slice {E A} (l : list A) (a b : nat) : outcome E (list A) :=
  if (a <=? b)%nat && (b <=? length l)%nat then Ok (take (b - a) (drop a l)) else Panic.
Definition overwrite {A} (l : list A) (off : nat) (src : list A) : list A :=
  take off l ++ src ++ drop (off + length src) l.
Definition splice {E A} (l : list A) (off : nat) (src : list A) : outcome E (list A) :=
  if (off + length src <=? length l)%nat then Ok (overwrite l off src) else Panic.
(** Indexing [l[i]] and assignment [l[i] = x]. *)
Definition index {E A} (l : list A) (i : nat) : outcome E A := expect (l !! i).
Definition assign {E A} (l : list A) (i : nat) (x : A) : outcome E (list A) :=
  if (i <? length l)%nat then Ok (<[i:=x]> l) else Panic.

Lemma slice_app {E A} (p m s : list A) a b :
  a = length p → b = (length p + length m)%nat → slice (E:=E) (p ++ m ++ s) a b = Ok m.
Proof.
  intros -> ->. unfold slice. rewrite !length_app.
  rewrite (proj2 (Nat.leb_le _ _)), (proj2 (Nat.leb_le _ _)) by lia. simpl.
  rewrite drop_app_length. f_equal.
  replace (_ + _ - _)%nat with (length m) by lia. apply take_app_length.
Qed.

Lemma overwrite_app {A} (p m s src : list A) off :
  off = length p → length src = length m → overwrite (p ++ m ++ s) off src = p ++ src ++ s.
Proof.
  intros -> H. unfold overwrite. rewrite take_app_length, H. do 2 f_equal.
  by rewrite <- drop_drop, drop_app_length, drop_app_length.
Qed.

Lemma splice_app {E A} (p m s src : list A) off :
  off = length p → length src = length m →
  splice (E:=E) (p ++ m ++ s) off src = Ok (p ++ src ++ s).
Proof.
  intros Ho H. unfold splice. rewrite (proj2 (Nat.leb_le _ _)).
  - f_equal. by apply overwrite_app.
  - rewrite !length_app. lia.
Qed.

Lemma slice_app_0 {E A} (m s : list A) b :
  b = length m → slice (E:=E) (m ++ s) 0 b = Ok m.
Proof. intros ->. by apply (slice_app [] m s). Qed.

Lemma splice_app_0 {E A} (m s src : list A) :
  length src = length m → splice (E:=E) (m ++ s) 0 src = Ok (src ++ s).
Proof. intros H. by apply (splice_app [] m s). Qed.

Lemma length_overwrite {A} (l src : list A) off :
  (off + length src ≤ length l)%nat → length (overwrite l off src) = length l.
Proof. intros. unfold overwrite. rewrite !length_app, length_take, length_drop. lia. Qed.

Lemma slice_length {E A} (l r : list A) a b :
  slice (E:=E) l a b = Ok r → length r = (b - a)%nat ∧ (a ≤ b ≤ length l)%nat.
Proof.
  unfold slice. destruct (a <=? b)%nat eqn:H1, (b <=? length l)%nat eqn:H2; try done.
  apply Nat.leb_le in H1, H2. intros [= <-]. rewrite length_take, length_drop. lia.
Qed.

Lemma slice_ok {E A} (l : list A) a b :
  (a ≤ b ≤ length l)%nat → slice (E:=E) l a b = Ok (take (b - a) (drop a l)).
Proof. intros [H1 H2]. unfold slice. by rewrite (proj2 (Nat.leb_le _ _) H1), (proj2 (Nat.leb_le _ _) H2). Qed.

Lemma splice_ok {E A} (l : list A) off src :
  (off + length src ≤ length l)%nat → splice (E:=E) l off src = Ok (overwrite l off src).
Proof. intros H. unfold splice. by rewrite (proj2 (Nat.leb_le _ _) H). Qed.

Lemma lookup_overwrite {A} (l src : list A) off i :
  (off + length src ≤ length l)%nat →
  overwrite l off src !! i = if decide (off ≤ i < off + length src)%nat then src !! (i - off)%nat else l !! i.
Proof.
  intros Hl. unfold overwrite. destruct (decide (i < off)%nat) as [Hi|Hi].
  { rewrite lookup_app_l, lookup_take_lt by (rewrite ?length_take; lia). by rewrite decide_False by lia. }
  rewrite lookup_app_r, length_take_le by (rewrite ?length_take; lia). case_decide.
  - by rewrite lookup_app_l by lia.
  - rewrite lookup_app_r, lookup_drop by lia. f_equal. lia.
Qed.

(** Fixed-size records laid out back to back. *)
Fixpoint chunks_n {A} (n k : nat) (l : list A) : list (list A) :=
  match n with
  | O => []
  | S n => take k l :: chunks_n n k (drop k l)
  end.

Lemma length_chunks_n {A} n k (l : list A) : length (chunks_n n k l) = n.
Proof. revert l. induction n; simpl; auto. Qed.

Lemma chunks_n_concat {A} k (ls : list (list A)) :
  Forall (λ c, length c = k) ls → chunks_n (length ls) k (concat ls) = ls.
Proof.
  induction 1 as [|c ls Hc _ IH]; simpl; [done|].
  by rewrite <- Hc, take_app_length, drop_app_length, Hc, IH.
Qed.

Lemma length_concat_fixed {A} k (ls : list (list A)) :
  Forall (λ c, length c = k) ls → length (concat ls) = (length ls * k)%nat.
Proof. induction 1; simpl; [done|]. rewrite length_app. lia. Qed.

(** ** [slice::binary_search_by]: the loop of the standard library. *)
Inductive search_result : Type :=
  | Found (i : nat)
  | Absent (i : nat).
#[export] Instance search_result_eq_dec : EqDecision search_result.
Proof. solve_decision. Defined.

Fixpoint binary_search_loop {A} (fuel : nat) (cmp : A → comparison) (l : list A)
    (base size : nat) : nat :=
  match fuel with
  | O => base
  | S fuel =>
      if (size <=? 1)%nat then base else
      let half := (size / 2)%nat in
      let mid := (base + half)%nat in
      let base' := match cmp <$> (l !! mid) with Some Gt => base | _ => mid end in
      binary_search_loop fuel cmp l base' (size - half)
  end.

Definition binary_search_by {A} (cmp : A → comparison) (l : list A) : search_result :=
  match l with
  | [] => Absent 0
  | _ =>
      let base := binary_search_loop (length l) cmp l 0 (length l) in
      match cmp <$> (l !! base) with
      | Some Eq => Found base
      | Some Lt => Absent (base + 1)
      | _ => Absent base
      end
  end.

(** [cmp] against a fixed target is monotone along the list, and hits [Eq] at
    most once. *)
Definition cmp_ordered {A} (cmp : A → comparison) (l : list A) : Prop :=
  ∀ i j x y, i < j → l !! i = Some x → l !! j = Some y → cmp y ≠ Gt → cmp x = Lt.

Lemma cmp_ordered_gt {A} (cmp : A → comparison) l i j x y :
  cmp_ordered cmp l → i < j → l !! i = Some x → l !! j = Some y → cmp x ≠ Lt → cmp y = Gt.
Proof. intros Ho Hij Hi Hj Hx. destruct (cmp y) eqn:E; [..|done]; exfalso; apply Hx; eapply Ho; eauto; by rewrite E. Qed.

Lemma binary_search_loop_spec {A} (cmp : A → comparison) l fuel base size :
  cmp_ordered cmp l → size ≤ fuel → 0 < size → base + size ≤ length l →
  (0 < base → ∀ x, l !! base = Some x → cmp x ≠ Gt) →
  (∀ j y, base + size ≤ j → l !! j = Some y → cmp y = Gt) →
  let r := binary_search_loop fuel cmp l base size in
  r < length l ∧ (0 < r → ∀ x, l !! r = Some x → cmp x ≠ Gt) ∧
  (∀ j y, r < j → l !! j = Some y → cmp y = Gt).
Proof.
  intros Ho. revert base size.
  induction fuel as [|fuel IH]; intros base size Hf Hs Hb Hlo Hhi; [lia|].
  cbn [binary_search_loop]. destruct (Nat.leb_spec size 1).
  { split_and!; [lia|done|]. intros j y ??. apply (Hhi j); [lia|done]. }
  assert (size / 2 < size ∧ 0 < size / 2) as [Hh1 Hh2].
  { split; [apply Nat.div_lt; lia|apply Nat.div_str_pos; lia]. }
  pose proof (Nat.Div0.mul_div_le size 2) as Hh3.
  destruct (lookup_lt_is_Some_2 l (base + size / 2)) as [m Hm]; [lia|].
  rewrite Hm. cbn [fmap option_fmap option_map].
  destruct (cmp m) eqn:Ec; (apply IH; [lia|lia|lia|..]).
  - intros _ x Hx. simplify_eq. by rewrite Ec.
  - intros j y ??. apply (Hhi j); [lia|done].
  - intros _ x Hx. simplify_eq. by rewrite Ec.
  - intros j y ??. apply (Hhi j); [lia|done].
  - done.
  - intros j y Hj Hy. destruct (decide (j = base + size / 2)) as [->|]; [congruence|].
    eapply (cmp_ordered_gt _ _ (base + size / 2) j); eauto; [lia|by rewrite Ec].
Qed.

(** The contract of [binary_search_by] on a strictly ordered slice. *)
Lemma binary_search_spec {A} (cmp : A → comparison) l :
  cmp_ordered cmp l →
  match binary_search_by cmp l with
  | Found i => ∃ x, l !! i = Some x ∧ cmp x = Eq
  | Absent i => i ≤ length l ∧
      (∀ j x, j < i → l !! j = Some x → cmp x = Lt) ∧
      (∀ j x, i ≤ j → l !! j = Some x → cmp x = Gt)
  end.
Proof.
  intros Ho. unfold binary_search_by. destruct l as [|a l'] eqn:El.
  { split_and!; [simpl; lia|intros; lia|by intros]. }
  rewrite <- El in *. clear a l' El.
  destruct (decide (length l = 0)) as [E0|E0].
  { apply nil_length_inv in E0 as ->. simpl. split_and!; [lia|done|done]. }
  destruct (binary_search_loop_spec cmp l (length l) 0 (length l)) as (Hr & Hlo & Hhi);
    [done|lia|lia|lia|lia|..].
  { intros j y Hj Hy. apply lookup_lt_Some in Hy. lia. }
  set (r := binary_search_loop _ _ _ _ _) in *.
  destruct (lookup_lt_is_Some_2 l r Hr) as [x Hx]. rewrite Hx. cbn.
  destruct (cmp x) eqn:Ec.
  - eauto.
  - split_and!; [lia| |].
    + intros j y Hj Hy. destruct (decide (j = r)) as [->|]; [congruence|].
      eapply (Ho j r); eauto; [lia|by rewrite Ec].
    + intros j y Hj Hy. apply (Hhi j); [lia|done].
  - split_and!; [lia| |].
    + intros j y Hj Hy. destruct (decide (0 < r)) as [H0|]; [|lia].
      exfalso. by apply (Hlo H0 x Hx).
    + intros j y Hj Hy. destruct (decide (j = r)) as [->|]; [congruence|].
      apply (Hhi j); [lia|done].
Qed.

(** ** Loops whose body may panic *)
Fixpoint foldO {E A B} (f : B → A → outcome E B) (b : B) (l : list A) : outcome E B :=
  match l with
  | [] => Ok b
  | x :: l => b' ← f b x; foldO f b' l
  end.

(** [binary_search_by] with a comparison that may panic on a probed element. *)
Fixpoint binary_search_loopO {E A} (fuel : nat) (cmp : A → outcome E comparison) (l : list A)
    (base size : nat) : outcome E nat :=
  match fuel with
  | O => Ok base
  | S fuel =>
      if (size <=? 1)%nat then Ok base else
      let half := (size / 2)%nat in
      let mid := (base + half)%nat in
      x ← index l mid;
      c ← cmp x;
      binary_search_loopO fuel cmp l (match c with Gt => base | _ => mid end) (size - half)
  end.

Definition binary_search_byO {E A} (cmp : A → outcome E comparison) (l : list A)
    : outcome E search_result :=
  match l with
  | [] => Ok (Absent 0)
  | _ =>
      base ← binary_search_loopO (length l) cmp l 0 (length l);
      x ← index l base;
      c ← cmp x;
      Ok (match c with Eq => Found base | Lt => Absent (base + 1) | Gt => Absent base end)
  end.

Lemma binary_search_loopO_pure {E A} (cmp : A → outcome E comparison) (c : A → comparison) l
    fuel base size :
  Forall (λ x, cmp x = Ok (c x)) l → base + size ≤ length l →
  binary_search_loopO fuel cmp l base size = Ok (binary_search_loop fuel c l base size).
Proof.
  intros Hc. revert base size. induction fuel as [|fuel IH]; intros base size Hb; [done|].
  cbn [binary_search_loop binary_search_loopO]. destruct (Nat.leb_spec size 1); [done|].
  assert (size / 2 < size) by (apply Nat.div_lt; lia).
  destruct (lookup_lt_is_Some_2 l (base + size / 2)) as [m Hm]; [lia|].
  unfold index. rewrite Hm. cbn [expect mbind outcome_bind].
  rewrite (proj1 (Forall_lookup _ _) Hc _ _ Hm).
  cbn [mbind outcome_bind fmap option_fmap option_map].
  rewrite IH; [by destruct (c m)|]. destruct (c m); lia.
Qed.

Lemma binary_search_loop_lt {A} (c : A → comparison) l f n b s :
  0 < s → b + s ≤ n → binary_search_loop f c l b s < n.
Proof.
  revert b s.
  induction f as [|f IH]; intros b s Hs Hn; cbn [binary_search_loop]; [lia|].
  destruct (Nat.leb_spec s 1); [lia|].
  assert (s / 2 < s) by (apply Nat.div_lt; lia).
  apply IH; [lia|]. destruct (l !! _) as [x|]; cbn [fmap option_fmap option_map];
    [destruct (c x)|]; lia.
Qed.

Lemma binary_search_byO_pure {E A} (cmp : A → outcome E comparison) (c : A → comparison) l :
  Forall (λ x, cmp x = Ok (c x)) l → binary_search_byO cmp l = Ok (binary_search_by c l).
Proof.
  intros Hc. destruct l as [|a l']; [done|]. set (l := a :: l') in *.
  change (binary_search_byO cmp l) with
    (base ← binary_search_loopO (length l) cmp l 0 (length l);
     x ← index l base; r ← cmp x;
     Ok (match r with Eq => Found base | Lt => Absent (base + 1) | Gt => Absent base end)).
  unfold binary_search_by. change (a :: l') with l.
  rewrite (binary_search_loopO_pure cmp c) by (done || lia).
  cbn [mbind outcome_bind]. unfold index.
  destruct (lookup_lt_is_Some_2 l (binary_search_loop (length l) c l 0 (length l))) as [x Hx].
  { apply binary_search_loop_lt; cbn; lia. }
  rewrite Hx. cbn. rewrite (proj1 (Forall_lookup _ _) Hc _ _ Hx). cbn. by destruct (c x).
Qed.
