(* ===== verification/Device.v ===== *)
(** * Device: the block-device layer (src/device.rs) and the error values that
    travel up from it.

    [BlockDevice] is the trait; [FileDevice] and [MemDevice] are its two
    implementations, both over a flat byte vector. [BlockDeviceLaws] is what
    the storage layer relies on: a completed write is read back, it touches
    only its own byte range, and [sync] changes no contents. *)
From Stdlib Require Import Strings.Byte.
From stdpp Require Import base list numbers.
From S2P Require Import Prelude.
#[local] Open Scope Z_scope.

(** The texts passed to [io::Error::other]. *)
Inductive io_message : Type :=
  | SuperblockSizeMismatch
  | UnsupportedVersion (version : Z)
  | MalformedRecord.

(** [std::io::Error], as far as the code distinguishes its values. *)
Inductive io_error : Type :=
  | UnexpectedEof
  | OutOfMemory
  | NotFoundIo
  | AlreadyExistsIo
  | OtherIo (msg : io_message).

(** [btree::Error]. *)
Inductive error : Type :=
  | BlockNotFound (nr : Z)
  | Io (e : io_error)
  | BadMagic (block got expected : Z)
  | ChecksumMismatch (block : Z).

#[export] Instance io_message_eq_dec : EqDecision io_message.
Proof. solve_decision. Defined.
#[export] Instance io_error_eq_dec : EqDecision io_error.
Proof. solve_decision. Defined.
#[export] Instance error_eq_dec : EqDecision error.
Proof. solve_decision. Defined.

(** ** The trait *)
Class BlockDevice (D : Type) : Type := {
  (** [read_at(&self, buf, offset)]: the bytes [buf] (of the given length) is filled with. *)
  read_at : nat → Z → D → outcome io_error (list byte);
  write_at : list byte → Z → M D io_error unit;
  sync : M D io_error unit;
  set_len : Z → M D io_error unit;
}.

(** Two byte ranges [off, off + n) that do not meet. *)
Definition ranges_disjoint (off1 : Z) (n1 : nat) (off2 : Z) (n2 : nat) : Prop :=
  off1 + Z.of_nat n1 ≤ off2 ∨ off2 + Z.of_nat n2 ≤ off1.

Class BlockDeviceLaws (D : Type) `{BlockDevice D} : Prop := {
  read_at_length d n off bs : read_at n off d = Ok bs → length bs = n;
  read_write_same d d' buf off :
    0 ≤ off → write_at buf off d = (Ok tt, d') → read_at (length buf) off d' = Ok buf;
  read_write_disjoint d d' buf off n off' bs :
    0 ≤ off → 0 ≤ off' → ranges_disjoint off (length buf) off' n →
    write_at buf off d = (Ok tt, d') →
    read_at n off' d = Ok bs → read_at n off' d' = Ok bs;
  read_sync d d' n off : sync d = (Ok tt, d') → read_at n off d' = read_at n off d;
}.

(** A device whose writes and syncs succeed, as both devices of the code do here. *)
Class BlockDeviceTotal (D : Type) `{BlockDevice D} : Prop := {
  write_total b off (d : D) : ∃ d', write_at b off d = (Ok tt, d');
  sync_total (d : D) : ∃ d', sync d = (Ok tt, d');
}.

(** [Vec::resize(n, 0)]. *)
Definition resize (n : nat) (l : list byte) : list byte :=
  take n l ++ replicate (n - length l)%nat Byte.x00.

(** A write that zero-extends the vector when it ends past it. *)
Definition extend_write (buf : list byte) (off : nat) (l : list byte) : list byte :=
  let stop := (off + length buf)%nat in
  let l' := if (length l <? stop)%nat then resize stop l else l in
  overwrite l' off buf.

(** ** [FileDevice]: [pread]/[pwrite] on a regular file. [read_exact_at] fails
    with [UnexpectedEof] past the end; [write_all_at] past the end leaves a
    hole that reads as zeros, and an empty write does nothing. *)
Record FileDevice : Type := { file : list byte }.

Definition file_read_at (n : nat) (off : Z) (d : FileDevice) : outcome io_error (list byte) :=
  let start := Z.to_nat off in
  if (n =? 0)%nat then Ok []
  else if (start + n <=? length (file d))%nat then Ok (take n (drop start (file d)))
  else Err UnexpectedEof.

Definition file_write_at (buf : list byte) (off : Z) : M FileDevice io_error unit := λ d,
  match buf with
  | [] => (Ok tt, d)
  | _ => (Ok tt, {| file := extend_write buf (Z.to_nat off) (file d) |})
  end.

Definition file_sync : M FileDevice io_error unit := λ d, (Ok tt, d).

Definition file_set_len (len : Z) : M FileDevice io_error unit := λ d,
  (Ok tt, {| file := resize (Z.to_nat len) (file d) |}).

#[export] Instance FileDevice_BlockDevice : BlockDevice FileDevice := {
  read_at := file_read_at;
  write_at := file_write_at;
  sync := file_sync;
  set_len := file_set_len;
}.

(** ** [MemDevice]: one growable, zero-filled byte vector. *)
Record MemDevice : Type := { data : list byte }.

Definition mem_new : MemDevice := {| data := [] |}.

Definition mem_read_at (n : nat) (off : Z) (d : MemDevice) : outcome io_error (list byte) :=
  let buf := replicate n Byte.x00 in
  let start := Z.to_nat off in
  if (start <? length (data d))%nat then
    let stop := Nat.min (start + n) (length (data d)) in
    src ← slice (data d) start stop;
    splice buf 0 src
  else Ok buf.

Definition mem_write_at (buf : list byte) (off : Z) : M MemDevice io_error unit := λ d,
  let stop := (Z.to_nat off + length buf)%nat in
  let grown := if (length (data d) <? stop)%nat then resize stop (data d) else data d in
  match splice grown (Z.to_nat off) buf with
  | Ok data' => (Ok tt, {| data := data' |})
  | Err e => (Err e, d)
  | Panic => (Panic, d)
  | OutOfFuel => (OutOfFuel, d)
  end.

Definition mem_sync : M MemDevice io_error unit := λ d, (Ok tt, d).

Definition mem_set_len (len : Z) : M MemDevice io_error unit := λ d,
  (Ok tt, {| data := resize (Z.to_nat len) (data d) |}).

#[export] Instance MemDevice_BlockDevice : BlockDevice MemDevice := {
  read_at := mem_read_at;
  write_at := mem_write_at;
  sync := mem_sync;
  set_len := mem_set_len;
}.

(** ** Lemmas on flat byte vectors *)

(** The byte at position [i] of a zero-extended vector. *)
Definition byte_at (l : list byte) (i : nat) : byte := default Byte.x00 (l !! i).

Lemma length_resize n l : length (resize n l) = n.
Proof. unfold resize. rewrite length_app, length_take, length_replicate. lia. Qed.

Lemma byte_at_resize n l i :
  (length l ≤ n)%nat → byte_at (resize n l) i = byte_at l i.
Proof.
  intros Hn. unfold byte_at, resize. rewrite take_ge by done.
  destruct (decide (i < length l)%nat).
  { by rewrite lookup_app_l. }
  rewrite lookup_app_r by lia. rewrite (lookup_ge_None_2 l i) by lia.
  destruct (_ !! (i - length l)%nat) eqn:E; [|done].
  by apply lookup_replicate in E as [-> _].
Qed.

Lemma length_extend_write buf off l :
  length (extend_write buf off l) = Nat.max (length l) (off + length buf).
Proof.
  unfold extend_write. destruct (Nat.ltb_spec (length l) (off + length buf)).
  - rewrite length_overwrite; rewrite length_resize; lia.
  - rewrite length_overwrite; lia.
Qed.

Lemma byte_at_overwrite l src off i :
  (off + length src ≤ length l)%nat →
  byte_at (overwrite l off src) i =
    if decide (off ≤ i < off + length src)%nat then byte_at src (i - off) else byte_at l i.
Proof.
  intros Hl. unfold byte_at, overwrite.
  destruct (decide (i < off)%nat).
  { rewrite lookup_app_l by (rewrite length_take; lia).
    rewrite lookup_take_lt by lia. by rewrite decide_False by lia. }
  rewrite lookup_app_r by (rewrite length_take; lia). rewrite length_take_le by lia.
  destruct (decide (i < off + length src)%nat).
  { rewrite lookup_app_l by lia. by rewrite decide_True by lia. }
  rewrite lookup_app_r by lia. rewrite lookup_drop.
  rewrite decide_False by lia. do 2 f_equal. lia.
Qed.

Lemma byte_at_extend_write buf off l i :
  byte_at (extend_write buf off l) i =
    if decide (off ≤ i < off + length buf)%nat then byte_at buf (i - off) else byte_at l i.
Proof.
  unfold extend_write. destruct (Nat.ltb_spec (length l) (off + length buf)).
  - rewrite byte_at_overwrite by (rewrite length_resize; lia).
    case_decide; [done|]. apply byte_at_resize. lia.
  - by apply byte_at_overwrite.
Qed.

(** Two lists of one length with the same bytes are equal. *)
Lemma list_eq_byte_at (l1 l2 : list byte) :
  length l1 = length l2 → (∀ i, (i < length l1)%nat → byte_at l1 i = byte_at l2 i) → l1 = l2.
Proof.
  intros Hlen H. apply list_eq_same_length with (length l1); [done|done|].
  intros i x y Hi Hx Hy. specialize (H i Hi). unfold byte_at in H.
  by rewrite Hx, Hy in H.
Qed.

Lemma byte_at_window n start l i :
  (i < n)%nat → byte_at (take n (drop start l)) i = byte_at l (start + i).
Proof. intros. unfold byte_at. by rewrite lookup_take_lt, lookup_drop. Qed.

(** What each device returns, byte by byte. *)
Lemma file_read_spec n off d bs :
  file_read_at n off d = Ok bs →
  length bs = n ∧ (∀ i, (i < n)%nat → byte_at bs i = byte_at (file d) (Z.to_nat off + i)).
Proof.
  unfold file_read_at. destruct (Nat.eqb_spec n 0).
  { intros [= <-]. simpl. split; [done|lia]. }
  destruct (Nat.leb_spec (Z.to_nat off + n) (length (file d))); [|done].
  intros [= <-]. split; [rewrite length_take, length_drop; lia|].
  intros. by apply byte_at_window.
Qed.

Lemma mem_read_spec n off d :
  ∃ bs, mem_read_at n off d = Ok bs ∧ length bs = n ∧
  (∀ i, (i < n)%nat → byte_at bs i = byte_at (data d) (Z.to_nat off + i)).
Proof.
  unfold mem_read_at. destruct (Nat.ltb_spec (Z.to_nat off) (length (data d))) as [Hlt|Hge].
  - set (stop := Nat.min _ _). unfold slice.
    rewrite (proj2 (Nat.leb_le _ _)), (proj2 (Nat.leb_le stop _)) by lia. cbn.
    set (src := take _ _).
    assert (length src = stop - Z.to_nat off)%nat as Hsrc
      by (subst src; rewrite length_take, length_drop; lia).
    unfold splice. rewrite length_replicate, (proj2 (Nat.leb_le _ _)) by lia.
    eexists; split; [done|]. split.
    { rewrite length_overwrite; rewrite length_replicate; lia. }
    intros i Hi. rewrite byte_at_overwrite by (rewrite length_replicate; lia).
    case_decide.
    + rewrite Nat.sub_0_r. apply byte_at_window. lia.
    + unfold byte_at. rewrite lookup_replicate_2 by lia.
      by rewrite lookup_ge_None_2 by lia.
  - eexists; split; [done|]. split; [apply length_replicate|].
    intros i Hi. unfold byte_at. rewrite lookup_replicate_2 by lia.
    by rewrite lookup_ge_None_2 by lia.
Qed.

Lemma mem_write_spec buf off d :
  mem_write_at buf off d = (Ok tt, {| data := extend_write buf (Z.to_nat off) (data d) |}).
Proof.
  unfold mem_write_at, extend_write, splice.
  destruct (Nat.ltb_spec (length (data d)) (Z.to_nat off + length buf)).
  - by rewrite length_resize, Nat.leb_refl.
  - by rewrite (proj2 (Nat.leb_le _ _)) by lia.
Qed.

Lemma mem_read_Ok_inv n off d bs :
  mem_read_at n off d = Ok bs →
  length bs = n ∧ (∀ i, (i < n)%nat → byte_at bs i = byte_at (data d) (Z.to_nat off + i)).
Proof. intros H. destruct (mem_read_spec n off d) as (bs' & E & ?). by replace bs with bs' by congruence. Qed.

(** Reading a window is determined by its bytes, on both devices. *)
Lemma mem_read_intro n off d bs :
  length bs = n → (∀ i, (i < n)%nat → byte_at bs i = byte_at (data d) (Z.to_nat off + i)) →
  mem_read_at n off d = Ok bs.
Proof.
  intros Hl Hb. destruct (mem_read_spec n off d) as (bs' & E & Hl' & Hb'). rewrite E. f_equal.
  apply list_eq_byte_at; [congruence|]. intros i Hi. rewrite Hb', Hb by lia. done.
Qed.

Lemma file_read_intro n off d bs :
  length bs = n → (Z.to_nat off + n ≤ length (file d))%nat →
  (∀ i, (i < n)%nat → byte_at bs i = byte_at (file d) (Z.to_nat off + i)) →
  file_read_at n off d = Ok bs.
Proof.
  intros Hl Hn Hb. unfold file_read_at. destruct (Nat.eqb_spec n 0).
  { subst n. by rewrite (nil_length_inv bs). }
  rewrite (proj2 (Nat.leb_le _ _)) by done. f_equal.
  apply list_eq_byte_at; [rewrite length_take, length_drop; lia|].
  intros i Hi. rewrite length_take, length_drop in Hi.
  rewrite byte_at_window by lia. by rewrite Hb by lia.
Qed.

#[export] Instance MemDevice_laws : BlockDeviceLaws MemDevice.
Proof.
  split; cbn.
  - intros d n off bs H. by apply mem_read_Ok_inv in H as [? _].
  - intros d d' buf off Ho. rewrite mem_write_spec. intros [= <-].
    apply mem_read_intro; [done|]. intros i Hi. cbn.
    rewrite byte_at_extend_write, decide_True by lia. f_equal. lia.
  - intros d d' buf off n off' bs Ho Ho' Hd. rewrite mem_write_spec. intros [= <-] H.
    apply mem_read_Ok_inv in H as [Hl Hb]. apply mem_read_intro; [done|].
    intros i Hi. cbn. rewrite byte_at_extend_write, decide_False; [auto|].
    unfold ranges_disjoint in Hd. lia.
  - intros d d' n off [= <-]. done.
Qed.

#[export] Instance FileDevice_laws : BlockDeviceLaws FileDevice.
Proof.
  split; cbn.
  - intros d n off bs H. by apply file_read_spec in H as [? _].
  - intros d d' [|b buf] off Ho; intros [= <-]; [done|].
    apply file_read_intro; [done|cbn [file]; rewrite length_extend_write; cbn; lia|].
    intros i Hi. cbn [file]. rewrite byte_at_extend_write, decide_True by lia. f_equal. lia.
  - intros d d' [|b buf] off n off' bs Ho Ho' Hd; intros [= <-] H; [done|].
    pose proof H as H2. apply file_read_spec in H2 as [Hl Hb].
    destruct (decide (n = 0%nat)) as [->|Hn].
    { unfold file_read_at in *. done. }
    apply file_read_intro; [done| |].
    + cbn [file]. rewrite length_extend_write. unfold file_read_at in H.
      destruct (Nat.eqb_spec n 0); [done|].
      destruct (Nat.leb_spec (Z.to_nat off' + n) (length (file d))); [lia|done].
    + intros i Hi. cbn [file]. rewrite byte_at_extend_write, decide_False; [auto|].
      unfold ranges_disjoint in Hd. cbn [length] in *. lia.
  - intros d d' n off [= <-]. done.
Qed.

#[export] Instance MemDevice_total : BlockDeviceTotal MemDevice.
Proof. split; [intros b off d; eexists; apply mem_write_spec|by eexists]. Qed.
#[export] Instance FileDevice_total : BlockDeviceTotal FileDevice.
Proof. split; [by intros [|x b] off d; eexists|by eexists]. Qed.
