(* ===== verification/BlockBtree.v ===== *)
(** * BlockBtree: the on-disk node layout (src/block_btree.rs).

    A node is a 64-byte header and a 4032-byte body; the body holds up to four
    bsets (sorted runs), each a 16-byte header followed by 136-byte entries.
    The definitions work on the bytes of the body exactly as the code does:
    every slice is bounds-checked and a failing one is a [Panic]. *)
From Stdlib Require Import Strings.Byte.
From stdpp Require Import base list numbers.
From S2P Require Import Prelude Device.

Abbreviation res := (outcome error).

Definition BLOCK_SIZE : nat := Z.to_nat 4096.
Definition MAGIC_NUMBER : Z := 0x39C5BB39.
Definition MAX_KEY_SIZE : nat := 32.
Definition SNAP_ID_BYTES : nat := 4.
Definition MAX_LOGICAL_KEY_SIZE : nat := MAX_KEY_SIZE - 4.
Definition MAX_VALUE_SIZE : nat := 96.
Definition ROOT_SNAP : Z := U32_MAX.
Definition BSET_TREE_NR_MAX : nat := 4.
Definition BSET_SOFT_LIMIT : nat := 7.
Definition BSET_FLAG_NEEDS_WHITEOUT : Z := 1.
Definition ENTRY_SIZE : nat := 136.
Definition HEADER_SIZE : nat := 64.
Definition BSET_HEADER_SIZE : nat := 16.
Definition BODY_SIZE : nat := BLOCK_SIZE - HEADER_SIZE.
Definition MAX_ENTRIES : nat := (BODY_SIZE - BSET_TREE_NR_MAX * BSET_HEADER_SIZE) / ENTRY_SIZE.
Definition MAX_INTERNAL_KEYS : nat := MAX_ENTRIES - 2.

(** ** Entry kinds *)
Inductive EntryKind : Type := Live | Deleted | Whiteout.
#[export] Instance EntryKind_eq_dec : EqDecision EntryKind.
Proof. solve_decision. Defined.

Definition kind_from_u8 (b : Z) : EntryKind :=
  if decide (b = 0%Z) then Live
  else if decide (b = 1%Z) then Deleted
  else if decide (b = 2%Z) then Whiteout
  else Live.
Definition kind_to_u8 (k : EntryKind) : Z :=
  match k with Live => 0 | Deleted => 1 | Whiteout => 2 end.
Definition is_tombstone (k : EntryKind) : bool :=
  match k with Deleted | Whiteout => true | Live => false end.

(** ** Node header *)
Record NodeHeader : Type := {
  nh_magic : Z;
  nh_level : Z;
  nh_bset_count : Z;
  nh_flags : Z;
  nh_pad0 : Z;
  nh_generation : Z;
  nh_pad1 : list byte;
  nh_checksum : Z;
  nh_reserved : list byte;
}.

Definition encode_node_header (h : NodeHeader) : list byte :=
  to_le 4 (nh_magic h) ++ [z2b (nh_level h); z2b (nh_bset_count h); z2b (nh_flags h); z2b (nh_pad0 h)]
  ++ to_le 8 (nh_generation h) ++ nh_pad1 h ++ to_le 8 (nh_checksum h) ++ nh_reserved h.

Definition decode_node_header (bs : list byte) : NodeHeader := {|
  nh_magic := from_le (take 4 bs);
  nh_level := b2z (byte_at bs 4);
  nh_bset_count := b2z (byte_at bs 5);
  nh_flags := b2z (byte_at bs 6);
  nh_pad0 := b2z (byte_at bs 7);
  nh_generation := from_le (take 8 (drop 8 bs));
  nh_pad1 := take 8 (drop 16 bs);
  nh_checksum := from_le (take 8 (drop 24 bs));
  nh_reserved := take 32 (drop 32 bs);
|}.

(** ** Bset header *)
Record BsetHeader : Type := {
  bh_seq : Z;
  bh_nkeys : Z;
  bh_flags : Z;
  bh_pad : Z;
}.

Definition encode_bset_header (h : BsetHeader) : list byte :=
  to_le 8 (bh_seq h) ++ to_le 2 (bh_nkeys h) ++ to_le 2 (bh_flags h) ++ to_le 4 (bh_pad h).

Definition decode_bset_header (bs : list byte) : BsetHeader := {|
  bh_seq := from_le (take 8 bs);
  bh_nkeys := from_le (take 2 (drop 8 bs));
  bh_flags := from_le (take 2 (drop 10 bs));
  bh_pad := from_le (take 4 (drop 12 bs));
|}.

(** ** Disk entry. [de_payload] is the [Payload] newtype: value bytes in a
    leaf, a child block number in its first eight bytes in an internal node
    (native endian; little-endian here). *)
Record DiskEntry : Type := {
  de_key : list byte;
  de_key_len : Z;
  de_value_len : Z;
  de_kind : Z;
  de_pad : list byte;
  de_payload : list byte;
}.
#[export] Instance DiskEntry_eq_dec : EqDecision DiskEntry.
Proof. solve_decision. Defined.

Definition encode_entry (e : DiskEntry) : list byte :=
  de_key e ++ [z2b (de_key_len e); z2b (de_value_len e); z2b (de_kind e)] ++ de_pad e ++ de_payload e.

Definition decode_entry (bs : list byte) : DiskEntry := {|
  de_key := take 32 bs;
  de_key_len := b2z (byte_at bs 32);
  de_value_len := b2z (byte_at bs 33);
  de_kind := b2z (byte_at bs 34);
  de_pad := take 5 (drop 35 bs);
  de_payload := take 96 (drop 40 bs);
|}.

Definition with_key (k : list byte) (len : Z) (e : DiskEntry) : DiskEntry :=
  {| de_key := k; de_key_len := len; de_value_len := de_value_len e; de_kind := de_kind e;
     de_pad := de_pad e; de_payload := de_payload e |}.
Definition with_kind (k : Z) (e : DiskEntry) : DiskEntry :=
  {| de_key := de_key e; de_key_len := de_key_len e; de_value_len := de_value_len e; de_kind := k;
     de_pad := de_pad e; de_payload := de_payload e |}.
Definition with_payload (len : Z) (p : list byte) (e : DiskEntry) : DiskEntry :=
  {| de_key := de_key e; de_key_len := de_key_len e; de_value_len := len; de_kind := de_kind e;
     de_pad := de_pad e; de_payload := p |}.

Definition payload_child (p : list byte) : res Z := from_le <$> slice p 0 8.
Definition payload_set_child (child : Z) (p : list byte) : res (list byte) :=
  splice p 0 (to_le 8 child).

Definition key_len_nat (e : DiskEntry) : nat := Z.to_nat (de_key_len e).

Definition logical_key_bytes (e : DiskEntry) : res (list byte) :=
  slice (de_key e) 0 (key_len_nat e).
Definition key_bytes (e : DiskEntry) : res (list byte) :=
  slice (de_key e) 0 (key_len_nat e + SNAP_ID_BYTES).
Definition snap_id (e : DiskEntry) : res Z :=
  let n := key_len_nat e in from_be <$> slice (de_key e) n (n + SNAP_ID_BYTES).
Definition set_snap_id (snap : Z) (e : DiskEntry) : res DiskEntry :=
  k ← splice (de_key e) (key_len_nat e) (to_be SNAP_ID_BYTES snap);
  Ok (with_key k (de_key_len e) e).
Definition kind_enum (e : DiskEntry) : EntryKind := kind_from_u8 (de_kind e).
Definition set_kind (k : EntryKind) (e : DiskEntry) : DiskEntry := with_kind (kind_to_u8 k) e.

(** [fill(0)] of the tail [l[from..]]. *)
Definition fill_zero_from {E} (l : list byte) (from : nat) : outcome E (list byte) :=
  splice l from (replicate (length l - from) Byte.x00).

Definition set_key (sortable : list byte) (e : DiskEntry) : res DiskEntry :=
  _ ← assert_that (SNAP_ID_BYTES <=? length sortable)%nat;
  let total := Nat.min (length sortable) MAX_KEY_SIZE in
  k ← splice (de_key e) 0 (take total sortable);
  k ← fill_zero_from k total;
  Ok (with_key k (u8 (Z.of_nat (total - SNAP_ID_BYTES))) e).

Definition set_key_with_snap (logical : list byte) (snap : Z) (e : DiskEntry) : res DiskEntry :=
  let n := Nat.min (length logical) MAX_LOGICAL_KEY_SIZE in
  k ← splice (de_key e) 0 (take n logical);
  k ← splice k n (to_be SNAP_ID_BYTES snap);
  k ← fill_zero_from k (n + SNAP_ID_BYTES);
  Ok (with_key k (u8 (Z.of_nat n)) e).

Definition empty_entry : DiskEntry := {|
  de_key := replicate MAX_KEY_SIZE Byte.x00;
  de_key_len := 0;
  de_value_len := 0;
  de_kind := kind_to_u8 Live;
  de_pad := replicate 5 Byte.x00;
  de_payload := replicate MAX_VALUE_SIZE Byte.x00;
|}.

(** ** Nodes *)
Record BtreeNodeRaw : Type := {
  header : NodeHeader;
  body : list byte;
}.

Definition encode_node (n : BtreeNodeRaw) : list byte := encode_node_header (header n) ++ body n.
Definition decode_node (bs : list byte) : BtreeNodeRaw :=
  {| header := decode_node_header (take HEADER_SIZE bs); body := drop HEADER_SIZE bs |}.

Definition with_body (b : list byte) (n : BtreeNodeRaw) : BtreeNodeRaw :=
  {| header := header n; body := b |}.
Definition with_header_fields (level count gen sum : Z) (h : NodeHeader) : NodeHeader :=
  {| nh_magic := nh_magic h; nh_level := level; nh_bset_count := count; nh_flags := nh_flags h;
     nh_pad0 := nh_pad0 h; nh_generation := gen; nh_pad1 := nh_pad1 h; nh_checksum := sum;
     nh_reserved := nh_reserved h |}.
Definition set_bset_count (c : Z) (n : BtreeNodeRaw) : BtreeNodeRaw :=
  let h := header n in
  {| header := with_header_fields (nh_level h) c (nh_generation h) (nh_checksum h) h; body := body n |}.
Definition set_generation (g : Z) (n : BtreeNodeRaw) : BtreeNodeRaw :=
  let h := header n in
  {| header := with_header_fields (nh_level h) (nh_bset_count h) g (nh_checksum h) h; body := body n |}.
Definition set_checksum (c : Z) (n : BtreeNodeRaw) : BtreeNodeRaw :=
  let h := header n in
  {| header := with_header_fields (nh_level h) (nh_bset_count h) (nh_generation h) c h; body := body n |}.

Definition node_new (level : Z) : BtreeNodeRaw := {|
  header := {| nh_magic := MAGIC_NUMBER; nh_level := level; nh_bset_count := 0; nh_flags := 0;
               nh_pad0 := 0; nh_generation := 0; nh_pad1 := replicate 8 Byte.x00;
               nh_checksum := 0; nh_reserved := replicate 32 Byte.x00 |};
  body := replicate BODY_SIZE Byte.x00;
|}.

Definition level (n : BtreeNodeRaw) : Z := nh_level (header n).
Definition generation (n : BtreeNodeRaw) : Z := nh_generation (header n).
Definition bset_count (n : BtreeNodeRaw) : nat := Z.to_nat (nh_bset_count (header n)).

(** *** Body navigation *)
Definition read_bset_header (n : BtreeNodeRaw) (off : nat) : res BsetHeader :=
  bs ← slice (body n) off (off + BSET_HEADER_SIZE);
  Ok (decode_bset_header bs).

Definition write_bset_header (n : BtreeNodeRaw) (off : nat) (h : BsetHeader) : res BtreeNodeRaw :=
  b ← splice (body n) off (encode_bset_header h);
  Ok (with_body b n).

(** Walk [count] bset headers from [off]: the loop shared by [bset_offset]
    and [start_new_bset]. *)
Fixpoint skip_bsets (n : BtreeNodeRaw) (count off : nat) : res nat :=
  match count with
  | O => Ok off
  | S count =>
      h ← read_bset_header n off;
      skip_bsets n count (off + (BSET_HEADER_SIZE + Z.to_nat (bh_nkeys h) * ENTRY_SIZE))
  end.

Definition bset_offset (n : BtreeNodeRaw) (target : nat) : res nat := skip_bsets n target 0.

Definition entries_at (n : BtreeNodeRaw) (off nkeys : nat) : res (list DiskEntry) :=
  let start := (off + BSET_HEADER_SIZE)%nat in
  bs ← slice (body n) start (start + nkeys * ENTRY_SIZE);
  Ok (decode_entry <$> chunks_n nkeys ENTRY_SIZE bs).

(** A mutation through the slice [entries_at_mut(node, off, nkeys)]. *)
Definition entries_at_mut (n : BtreeNodeRaw) (off nkeys : nat)
    (f : list DiskEntry → res (list DiskEntry)) : res BtreeNodeRaw :=
  es ← entries_at n off nkeys;
  es' ← f es;
  b ← splice (body n) (off + BSET_HEADER_SIZE) (concat (encode_entry <$> es'));
  Ok (with_body b n).

Definition bset_header (n : BtreeNodeRaw) (i : nat) : res BsetHeader :=
  off ← bset_offset n i; read_bset_header n off.

Definition total_stored (n : BtreeNodeRaw) : res nat :=
  foldO (λ sum b, h ← bset_header n b; Ok (sum + Z.to_nat (bh_nkeys h))%nat) 0 (seq 0 (bset_count n)).

Definition nkeys (n : BtreeNodeRaw) : res nat :=
  total ← total_stored n;
  Ok (if (0 <? level n)%Z && (0 <? total)%nat then total - 1 else total).

Definition has_whiteout_flag (h : BsetHeader) : bool :=
  negb (Z.land (bh_flags h) BSET_FLAG_NEEDS_WHITEOUT =? 0)%Z.

Definition bset_needs_whiteout (n : BtreeNodeRaw) (i : nat) : res bool :=
  h ← bset_header n i; Ok (has_whiteout_flag h).

Definition set_bset_needs_whiteout (i : nat) (needs : bool) (n : BtreeNodeRaw) : res BtreeNodeRaw :=
  off ← bset_offset n i;
  h ← read_bset_header n off;
  let flags := if needs then Z.lor (bh_flags h) BSET_FLAG_NEEDS_WHITEOUT
               else Z.land (bh_flags h) (Z.lxor 65535 BSET_FLAG_NEEDS_WHITEOUT) in
  write_bset_header n off
    {| bh_seq := bh_seq h; bh_nkeys := bh_nkeys h; bh_flags := flags; bh_pad := bh_pad h |}.

Definition any_bset_needs_whiteout (n : BtreeNodeRaw) : res bool :=
  foldO (λ (acc : bool) b, if acc then Ok true else bset_needs_whiteout n b) false
        (seq 0 (bset_count n)).

Definition bset_entries (n : BtreeNodeRaw) (i : nat) : res (list DiskEntry) :=
  off ← bset_offset n i;
  h ← read_bset_header n off;
  entries_at n off (Z.to_nat (bh_nkeys h)).

Definition bset_entries_mut (i : nat) (f : list DiskEntry → res (list DiskEntry))
    (n : BtreeNodeRaw) : res BtreeNodeRaw :=
  off ← bset_offset n i;
  h ← read_bset_header n off;
  entries_at_mut n off (Z.to_nat (bh_nkeys h)) f.

(** [|e| e.key_bytes().cmp(key)] *)
Definition cmp_key (key : list byte) (e : DiskEntry) : res comparison :=
  k ← key_bytes e; Ok (bytes_cmp k key).

Definition bset_search (n : BtreeNodeRaw) (i : nat) (key : list byte) : res search_result :=
  es ← bset_entries n i;
  binary_search_byO (cmp_key key) es.

Definition iter_all_entries (n : BtreeNodeRaw) : res (list (nat * nat)) :=
  foldO (λ acc b, es ← bset_entries n b; Ok (acc ++ ((λ i, (b, i)) <$> seq 0 (length es))))
        [] (seq 0 (bset_count n)).

Definition entry_at (n : BtreeNodeRaw) (b i : nat) : res DiskEntry :=
  es ← bset_entries n b; index es i.

(** [f] applied to [*entry_at_mut(b, i)]. *)
Definition entry_at_mut (b i : nat) (f : DiskEntry → res DiskEntry) (n : BtreeNodeRaw)
    : res BtreeNodeRaw :=
  bset_entries_mut b (λ es, e ← index es i; e' ← f e; assign es i e') n.

(** Copy a value of at most 96 bytes into a payload, zero-filling the rest. *)
Definition set_payload_value (val : list byte) (e : DiskEntry) : res DiskEntry :=
  let len := Nat.min (length val) MAX_VALUE_SIZE in
  p ← splice (de_payload e) 0 (take len val);
  p ← fill_zero_from p len;
  Ok (with_payload (u8 (Z.of_nat len)) p e).

Definition set_value_at (b i : nat) (val : list byte) (n : BtreeNodeRaw) : res BtreeNodeRaw :=
  entry_at_mut b i (set_payload_value val) n.

Definition value_bytes_at (n : BtreeNodeRaw) (b i : nat) : res (list byte) :=
  e ← entry_at n b i;
  slice (de_payload e) 0 (Z.to_nat (de_value_len e)).

Definition child_block_at (n : BtreeNodeRaw) (b i : nat) : res Z :=
  e ← entry_at n b i; payload_child (de_payload e).

Definition set_child_block_at (b i : nat) (nr : Z) (n : BtreeNodeRaw) : res BtreeNodeRaw :=
  entry_at_mut b i (λ e, p ← payload_set_child nr (de_payload e); Ok (with_payload (de_value_len e) p e)) n.

(** *** Layout-mutating helpers *)
Definition start_new_bset (seq : Z) (n : BtreeNodeRaw) : res BtreeNodeRaw :=
  let c := bset_count n in
  _ ← assert_that (c <? BSET_TREE_NR_MAX)%nat;
  off ← skip_bsets n c 0;
  n' ← write_bset_header n off {| bh_seq := seq; bh_nkeys := 0; bh_flags := 0; bh_pad := 0 |};
  Ok (set_bset_count (u8 (Z.of_nat (c + 1))) n').

Definition append_to_last_bset (e : DiskEntry) (n : BtreeNodeRaw) : res BtreeNodeRaw :=
  total ← total_stored n;
  _ ← assert_that (total <? MAX_ENTRIES)%nat;
  _ ← assert_that (0 <? bset_count n)%nat;
  let bset_idx := (bset_count n - 1)%nat in
  off ← bset_offset n bset_idx;
  h ← read_bset_header n off;
  let nk := Z.to_nat (bh_nkeys h) in
  let entry_off := (off + BSET_HEADER_SIZE + nk * ENTRY_SIZE)%nat in
  b ← splice (body n) entry_off (encode_entry e);
  write_bset_header (with_body b n) off
    {| bh_seq := bh_seq h; bh_nkeys := u16 (Z.of_nat (nk + 1)); bh_flags := bh_flags h; bh_pad := 0 |}.

(** [entries.copy_within(at..len - 1, at + 1); entries[at] = e]. *)
Definition shift_insert (at_ : nat) (e : DiskEntry) (es : list DiskEntry) : res (list DiskEntry) :=
  moved ← slice es at_ (length es - 1);
  es ← splice es (at_ + 1) moved;
  assign es at_ e.

Definition sort_insert_into_last_bset (e : DiskEntry) (n : BtreeNodeRaw)
    : res (search_result * BtreeNodeRaw) :=
  _ ← assert_that (0 <? bset_count n)%nat;
  let bset_idx := (bset_count n - 1)%nat in
  off ← bset_offset n bset_idx;
  h ← read_bset_header n off;
  let nk := Z.to_nat (bh_nkeys h) in
  k ← key_bytes e;
  s ← bset_search n bset_idx k;
  match s with
  | Found found =>
      n' ← entries_at_mut n off nk (λ es, assign es found e);
      Ok (Found found, n')
  | Absent insert_at =>
      total ← total_stored n;
      _ ← assert_that (total <? MAX_ENTRIES)%nat;
      n' ← entries_at_mut n off (nk + 1) (shift_insert insert_at e);
      n'' ← write_bset_header n' off
        {| bh_seq := bh_seq h; bh_nkeys := u16 (Z.of_nat (nk + 1)); bh_flags := bh_flags h; bh_pad := 0 |};
      Ok (Absent insert_at, n'')
  end.

Definition search_internal (n : BtreeNodeRaw) (key : list byte) : res search_result :=
  es ← bset_entries n 0;
  let k := (length es - 1)%nat in
  binary_search_byO (cmp_key key) (take k es).

(** *** Single-bset accessors *)
Definition entry (n : BtreeNodeRaw) (i : nat) : res DiskEntry := entry_at n 0 i.
Definition entry_mut (i : nat) (f : DiskEntry → res DiskEntry) (n : BtreeNodeRaw) : res BtreeNodeRaw :=
  entry_at_mut 0 i f n.
Definition search (n : BtreeNodeRaw) (key : list byte) : res search_result :=
  if (0 <? level n)%Z then search_internal n key else bset_search n 0 key.
Definition child_block (n : BtreeNodeRaw) (i : nat) : res Z := child_block_at n 0 i.
Definition set_child_block (i : nat) (nr : Z) (n : BtreeNodeRaw) : res BtreeNodeRaw :=
  set_child_block_at 0 i nr n.
Definition value_bytes (n : BtreeNodeRaw) (i : nat) : res (list byte) := value_bytes_at n 0 i.
Definition set_value (i : nat) (val : list byte) (n : BtreeNodeRaw) : res BtreeNodeRaw :=
  set_value_at 0 i val n.
Definition set_nkeys (k : nat) (n : BtreeNodeRaw) : res BtreeNodeRaw :=
  let stored := if (0 <? level n)%Z then (k + 1)%nat else k in
  h ← read_bset_header n 0;
  write_bset_header n 0
    {| bh_seq := bh_seq h; bh_nkeys := u16 (Z.of_nat stored); bh_flags := bh_flags h; bh_pad := 0 |}.

(** ** Merged search and iteration *)
Record MergedHit : Type := { hit_bset : nat; hit_entry : nat; hit_seq : Z }.

Definition merged_find_step (n : BtreeNodeRaw) (key : list byte) (best : option MergedHit) (b : nat)
    : res (option MergedHit) :=
  s ← bset_search n b key;
  match s with
  | Absent _ => Ok best
  | Found idx =>
      h ← bset_header n b;
      let hit := {| hit_bset := b; hit_entry := idx; hit_seq := bh_seq h |} in
      Ok (match best with
          | Some old => if (bh_seq h <=? hit_seq old)%Z then best else Some hit
          | None => Some hit
          end)
  end.

Definition merged_find (n : BtreeNodeRaw) (key : list byte) : res (option MergedHit) :=
  foldO (merged_find_step n key) None (seq 0 (bset_count n)).

Definition merged_lower_bound_cursors (n : BtreeNodeRaw) (key : list byte) : res (list nat) :=
  foldO (λ out b,
    s ← bset_search n b key;
    assign out b (match s with Found i | Absent i => i end))
    (replicate BSET_TREE_NR_MAX 0) (seq 0 (Nat.min (bset_count n) BSET_TREE_NR_MAX)).

Record MergedIter : Type := {
  mi_node : BtreeNodeRaw;
  mi_cursors : list nat;
  mi_lens : list nat;
  mi_seqs : list Z;
  mi_bset_count : nat;
}.

Definition merged_iter_new (n : BtreeNodeRaw) : res MergedIter :=
  '(lens, seqs) ← foldO (λ '(lens, seqs) b,
      h ← bset_header n b;
      lens' ← assign lens b (Z.to_nat (bh_nkeys h));
      seqs' ← assign seqs b (bh_seq h);
      Ok (lens', seqs'))
    (replicate BSET_TREE_NR_MAX 0, replicate BSET_TREE_NR_MAX 0%Z) (seq 0 (bset_count n));
  Ok {| mi_node := n; mi_cursors := replicate BSET_TREE_NR_MAX 0; mi_lens := lens;
        mi_seqs := seqs; mi_bset_count := bset_count n |}.

Definition with_cursors (c : list nat) (it : MergedIter) : MergedIter :=
  {| mi_node := mi_node it; mi_cursors := c; mi_lens := mi_lens it; mi_seqs := mi_seqs it;
     mi_bset_count := mi_bset_count it |}.

Definition merged_iter_with_lower_bound (n : BtreeNodeRaw) (key : list byte) : res MergedIter :=
  it ← merged_iter_new n;
  c ← merged_lower_bound_cursors n key;
  Ok (with_cursors c it).

(** The key under bset [b]'s cursor, or [None] when that run is exhausted. *)
Definition cursor_key (it : MergedIter) (cursors : list nat) (b : nat) : res (option (list byte)) :=
  c ← index cursors b;
  len ← index (mi_lens it) b;
  if (len <=? c)%nat then Ok None else
  es ← bset_entries (mi_node it) b;
  e ← index es c;
  k ← key_bytes e;
  Ok (Some k).

(** First loop of [next]: the smallest key under a cursor, higher seq on ties. *)
Definition best_step (it : MergedIter) (best : option (nat * Z * list byte)) (b : nat)
    : res (option (nat * Z * list byte)) :=
  ok ← cursor_key it (mi_cursors it) b;
  match ok with
  | None => Ok best
  | Some key =>
      s ← index (mi_seqs it) b;
      Ok (match best with
          | None => Some (b, s, key)
          | Some (_, bs, bk) =>
              match bytes_cmp key bk with
              | Lt => Some (b, s, key)
              | Eq => if (bs <? s)%Z then Some (b, s, key) else best
              | Gt => best
              end
          end)
  end.

(** Second loop of [next]: advance every cursor that stands on the emitted key. *)
Definition advance_step (it : MergedIter) (bkey : list byte) (cursors : list nat) (b : nat)
    : res (list nat) :=
  ok ← cursor_key it cursors b;
  match ok with
  | Some key =>
      if bytes_eqb key bkey then c ← index cursors b; assign cursors b (c + 1)%nat
      else Ok cursors
  | None => Ok cursors
  end.

Definition merged_next (it : MergedIter) : res (option ((nat * nat) * MergedIter)) :=
  best ← foldO (best_step it) None (seq 0 (mi_bset_count it));
  match best with
  | None => Ok None
  | Some (best_b, _, bkey) =>
      best_idx ← index (mi_cursors it) best_b;
      c ← foldO (advance_step it bkey) (mi_cursors it) (seq 0 (mi_bset_count it));
      Ok (Some ((best_b, best_idx), with_cursors c it))
  end.

(** [for (b, i) in iter { ... }]; the body returns [false] to [break]. *)
Fixpoint merged_for {B} (fuel : nat) (it : MergedIter) (f : B → nat * nat → res (bool * B)) (acc : B)
    : res B :=
  match fuel with
  | O => OutOfFuel
  | S fuel =>
      o ← merged_next it;
      match o with
      | None => Ok acc
      | Some (p, it') =>
          '(go, acc') ← f acc p;
          if go : bool then merged_for fuel it' f acc' else Ok acc'
      end
  end.

(** Each [next] advances a cursor, so a node's entry count bounds the loop. *)
Definition merged_fuel : nat := S (BSET_TREE_NR_MAX * MAX_ENTRIES).

Definition merged_collect (n : BtreeNodeRaw) : res (list (nat * nat)) :=
  it ← merged_iter_new n;
  merged_for merged_fuel it (λ acc p, Ok (true, acc ++ [p])) [].
