(* ===== verification/NodeRep.v ===== *)
(** * NodeRep: the byte layout of a node represents a list of bsets.

    [node_rep n bs] says that the body bytes of [n] spell the bsets [bs]. Each
    accessor of [BlockBtree] returns the field of [bs] it stands for, and each
    layout-mutating method maps a represented node to the node representing
    the updated list: the refinement of the byte-level code by lists. *)
From Stdlib Require Import Strings.Byte.
From stdpp Require Import base list numbers.
From S2P Require Import Prelude Device BlockBtree.

(** ** The abstract node *)
Record bset : Type := {
  b_seq : Z;
  b_flags : Z;
  b_pad : Z;
  b_entries : list DiskEntry;
}.

Definition bset_hdr (b : bset) : BsetHeader :=
  {| bh_seq := b_seq b; bh_nkeys := Z.of_nat (length (b_entries b)); bh_flags := b_flags b;
     bh_pad := b_pad b |}.
Definition enc_bset (b : bset) : list byte :=
  encode_bset_header (bset_hdr b) ++ concat (encode_entry <$> b_entries b).
Definition enc_bsets (bs : list bset) : list byte := concat (enc_bset <$> bs).

Definition with_entries (es : list DiskEntry) (b : bset) : bset :=
  {| b_seq := b_seq b; b_flags := b_flags b; b_pad := b_pad b; b_entries := es |}.
Definition with_flags (f : Z) (b : bset) : bset :=
  {| b_seq := b_seq b; b_flags := f; b_pad := b_pad b; b_entries := b_entries b |}.
Definition unpadded (b : bset) : bset :=
  {| b_seq := b_seq b; b_flags := b_flags b; b_pad := 0; b_entries := b_entries b |}.
Definition empty_bset (seq : Z) : bset :=
  {| b_seq := seq; b_flags := 0; b_pad := 0; b_entries := [] |}.

(** Bytes [bset] occupies, and entries stored across bsets. *)
Definition bset_size (b : bset) : nat := BSET_HEADER_SIZE + length (b_entries b) * ENTRY_SIZE.
Definition bsets_size (bs : list bset) : nat := sum_list_with bset_size bs.
Definition total_entries (bs : list bset) : nat := sum_list_with (λ b, length (b_entries b)) bs.

Record entry_wf (e : DiskEntry) : Prop := {
  ewf_key : length (de_key e) = MAX_KEY_SIZE;
  ewf_key_len : (0 ≤ de_key_len e ≤ 28)%Z;
  ewf_value_len : (0 ≤ de_value_len e ≤ 96)%Z;
  ewf_kind : in_width 8 (de_kind e);
  ewf_pad : length (de_pad e) = 5;
  ewf_payload : length (de_payload e) = MAX_VALUE_SIZE;
}.

Record bset_wf (b : bset) : Prop := {
  bwf_seq : in_width 64 (b_seq b);
  bwf_flags : in_width 16 (b_flags b);
  bwf_pad : in_width 32 (b_pad b);
  bwf_len : (Z.of_nat (length (b_entries b)) < 2 ^ 16)%Z;
  bwf_entries : Forall entry_wf (b_entries b);
}.

Record node_rep (n : BtreeNodeRaw) (bs : list bset) : Prop := {
  rep_count : nh_bset_count (header n) = Z.of_nat (length bs);
  rep_max : length bs ≤ BSET_TREE_NR_MAX;
  rep_len : length (body n) = BODY_SIZE;
  rep_wf : Forall bset_wf bs;
  rep_body : ∃ tail, body n = enc_bsets bs ++ tail;
}.

(** Pure readings of a well-formed entry. *)
Definition key_of (e : DiskEntry) : list byte := take (key_len_nat e + SNAP_ID_BYTES) (de_key e).
Definition logical_of (e : DiskEntry) : list byte := take (key_len_nat e) (de_key e).
Definition snap_of (e : DiskEntry) : Z :=
  from_be (take SNAP_ID_BYTES (drop (key_len_nat e) (de_key e))).
Definition value_of (e : DiskEntry) : list byte := take (Z.to_nat (de_value_len e)) (de_payload e).
Definition child_of (e : DiskEntry) : Z := from_le (take 8 (de_payload e)).

Ltac consts := unfold BODY_SIZE, BLOCK_SIZE, HEADER_SIZE, BSET_HEADER_SIZE, ENTRY_SIZE,
  BSET_TREE_NR_MAX, MAX_LOGICAL_KEY_SIZE, MAX_KEY_SIZE, MAX_VALUE_SIZE, SNAP_ID_BYTES,
  BSET_SOFT_LIMIT in *.

Lemma MAX_ENTRIES_eq : MAX_ENTRIES = 29.
Proof. reflexivity. Qed.
Lemma MAX_INTERNAL_KEYS_eq : MAX_INTERNAL_KEYS = 27.
Proof. reflexivity. Qed.

(** ** Entries *)
Lemma length_encode_bset_header h : length (encode_bset_header h) = BSET_HEADER_SIZE.
Proof. unfold encode_bset_header. rewrite !length_app, !length_to_le. done. Qed.

Lemma length_encode_entry e : entry_wf e → length (encode_entry e) = ENTRY_SIZE.
Proof.
  intros []. unfold encode_entry. rewrite !length_app. cbn [length]. consts. lia.
Qed.

(** Splitting a concatenation at a known length. *)
Lemma take_app_len {A} (p s : list A) k : k = length p → take k (p ++ s) = p.
Proof. intros ->. apply take_app_length. Qed.
Lemma drop_app_len {A} (p s : list A) k : k = length p → drop k (p ++ s) = s.
Proof. intros ->. apply drop_app_length. Qed.
Lemma byte_at_app_len (p s : list byte) b k : k = length p → byte_at (p ++ b :: s) k = b.
Proof. intros ->. unfold byte_at. by rewrite list_lookup_middle. Qed.

Lemma z2b_u8 z : in_width 8 z → b2z (z2b z) = z.
Proof. intros. rewrite b2z_z2b. by apply wrap_small. Qed.

Lemma decode_encode_bset_header h :
  in_width 64 (bh_seq h) → in_width 16 (bh_nkeys h) → in_width 16 (bh_flags h) →
  in_width 32 (bh_pad h) → decode_bset_header (encode_bset_header h) = h.
Proof.
  intros. unfold encode_bset_header, decode_bset_header.
  rewrite (take_app_len (to_le 8 _)) by (by rewrite length_to_le).
  rewrite (drop_app_len (to_le 8 _)) by (by rewrite length_to_le).
  rewrite (take_app_len (to_le 2 _)) by (by rewrite length_to_le).
  replace 12 with (8 + (2 + 2)) by lia. replace 10 with (8 + 2) by lia.
  rewrite <- !drop_drop.
  rewrite !(drop_app_len (to_le 8 _)) by (by rewrite length_to_le).
  rewrite !(drop_app_len (to_le 2 _)) by (by rewrite length_to_le).
  rewrite (take_app_len (to_le 2 _)) by (by rewrite length_to_le).
  rewrite (take_ge (to_le 4 _)) by (rewrite length_to_le; lia).
  rewrite !from_to_le_small by done. by destruct h.
Qed.

Lemma decode_encode_entry e : entry_wf e → decode_entry (encode_entry e) = e.
Proof.
  intros []. consts. unfold encode_entry, decode_entry. cbn [app].
  set (k := de_key e) in *. set (p := de_pad e) in *. set (v := de_payload e) in *.
  set (x := z2b (de_key_len e)). set (y := z2b (de_value_len e)). set (z := z2b (de_kind e)).
  rewrite take_app_len, byte_at_app_len by lia.
  replace (k ++ x :: y :: z :: p ++ v) with ((k ++ [x]) ++ y :: z :: p ++ v) by (by rewrite <- app_assoc).
  rewrite byte_at_app_len by (rewrite length_app; cbn; lia).
  replace ((k ++ [x]) ++ y :: z :: p ++ v) with ((k ++ [x; y]) ++ z :: p ++ v)
    by (by rewrite <- !app_assoc).
  rewrite byte_at_app_len by (rewrite length_app; cbn; lia).
  replace ((k ++ [x; y]) ++ z :: p ++ v) with ((k ++ [x; y; z]) ++ p ++ v)
    by (by rewrite <- !app_assoc).
  rewrite (drop_app_len (k ++ [x; y; z])) by (rewrite length_app; cbn; lia).
  rewrite (take_app_len p), (app_assoc (k ++ _)) by lia.
  rewrite (drop_app_len ((k ++ _) ++ p)) by (rewrite !length_app; cbn; lia).
  rewrite (take_ge v) by lia. subst x y z k p v.
  rewrite !z2b_u8 by (unfold in_width in *; lia). by destruct e.
Qed.

Lemma key_bytes_ok e : entry_wf e → key_bytes e = Ok (key_of e).
Proof.
  intros []. unfold key_bytes, key_of, slice, key_len_nat. consts.
  rewrite (proj2 (Nat.leb_le _ _)), (proj2 (Nat.leb_le _ _)) by lia. cbn [andb].
  by rewrite Nat.sub_0_r, drop_0.
Qed.

Lemma logical_key_bytes_ok e : entry_wf e → logical_key_bytes e = Ok (logical_of e).
Proof.
  intros []. unfold logical_key_bytes, logical_of, slice, key_len_nat. consts.
  rewrite (proj2 (Nat.leb_le _ _)), (proj2 (Nat.leb_le _ _)) by lia. cbn [andb].
  by rewrite Nat.sub_0_r, drop_0.
Qed.

Lemma snap_id_ok e : entry_wf e → snap_id e = Ok (snap_of e).
Proof.
  intros []. unfold snap_id, snap_of, slice, key_len_nat. consts.
  rewrite (proj2 (Nat.leb_le _ _)), (proj2 (Nat.leb_le _ _)) by lia.
  cbn [andb fmap outcome_fmap]. do 3 f_equal. lia.
Qed.

Lemma value_slice_ok e :
  entry_wf e → slice (E:=error) (de_payload e) 0 (Z.to_nat (de_value_len e)) = Ok (value_of e).
Proof.
  intros []. unfold value_of, slice. consts.
  rewrite (proj2 (Nat.leb_le _ _)), (proj2 (Nat.leb_le _ _)) by lia. cbn [andb].
  by rewrite Nat.sub_0_r, drop_0.
Qed.

Lemma payload_child_ok e : entry_wf e → payload_child (de_payload e) = Ok (child_of e).
Proof.
  intros []. unfold payload_child, child_of, slice. consts.
  rewrite (proj2 (Nat.leb_le 8 _)) by lia. done.
Qed.

Lemma cmp_key_ok key e : entry_wf e → cmp_key key e = Ok (bytes_cmp (key_of e) key).
Proof. intros. unfold cmp_key. by rewrite key_bytes_ok. Qed.

(** The sortable key is the logical key followed by the snapshot id. *)
Lemma key_of_split e :
  entry_wf e → key_of e = logical_of e ++ to_be SNAP_ID_BYTES (snap_of e).
Proof.
  intros []. unfold key_of, logical_of, snap_of, key_len_nat. consts.
  rewrite to_from_be_len by (rewrite length_take, length_drop; lia).
  by rewrite take_take_drop.
Qed.

(** ** Reading a represented body *)
Lemma enc_bsets_app bs1 bs2 : enc_bsets (bs1 ++ bs2) = enc_bsets bs1 ++ enc_bsets bs2.
Proof. unfold enc_bsets. by rewrite fmap_app, concat_app. Qed.
Lemma enc_bsets_cons b bs : enc_bsets (b :: bs) = enc_bset b ++ enc_bsets bs.
Proof. done. Qed.
Lemma enc_bsets_single b : enc_bsets [b] = enc_bset b.
Proof. apply app_nil_r. Qed.
Lemma bsets_size_app bs1 bs2 : bsets_size (bs1 ++ bs2) = bsets_size bs1 + bsets_size bs2.
Proof. apply sum_list_with_app. Qed.
Lemma total_entries_app bs1 bs2 : total_entries (bs1 ++ bs2) = total_entries bs1 + total_entries bs2.
Proof. apply sum_list_with_app. Qed.
Lemma bsets_size_total bs :
  bsets_size bs = length bs * BSET_HEADER_SIZE + total_entries bs * ENTRY_SIZE.
Proof.
  induction bs as [|b bs IH]; [done|]. unfold bsets_size, total_entries in *.
  cbn [sum_list_with length]. unfold bset_size at 1. lia.
Qed.

Lemma encode_entries_fixed es :
  Forall entry_wf es → Forall (λ c, length c = ENTRY_SIZE) (encode_entry <$> es).
Proof. intros H. apply Forall_fmap. eapply Forall_impl; [|exact H]. intros e He. by apply length_encode_entry. Qed.

Lemma length_encode_entries es :
  Forall entry_wf es → length (concat (encode_entry <$> es)) = length es * ENTRY_SIZE.
Proof.
  intros. rewrite (length_concat_fixed ENTRY_SIZE) by (by apply encode_entries_fixed).
  by rewrite length_fmap.
Qed.

Lemma length_enc_bset b : Forall entry_wf (b_entries b) → length (enc_bset b) = bset_size b.
Proof.
  intros. unfold enc_bset. rewrite length_app, length_encode_bset_header.
  by rewrite length_encode_entries.
Qed.

Lemma length_enc_bsets bs : Forall bset_wf bs → length (enc_bsets bs) = bsets_size bs.
Proof.
  induction 1 as [|b bs Hb _ IH]; [done|]. rewrite enc_bsets_cons, length_app, IH.
  by rewrite length_enc_bset by apply Hb.
Qed.

Lemma decode_encode_entries es :
  Forall entry_wf es →
  decode_entry <$> chunks_n (length es) ENTRY_SIZE (concat (encode_entry <$> es)) = es.
Proof.
  intros Hes. rewrite <- (length_fmap encode_entry es).
  rewrite chunks_n_concat by (by apply encode_entries_fixed).
  rewrite <- list_fmap_compose. rewrite <- (list_fmap_id es) at 2.
  apply list_fmap_ext. intros i e He. apply decode_encode_entry.
  by eapply Forall_lookup_1.
Qed.

Lemma bset_hdr_decode b : bset_wf b → decode_bset_header (encode_bset_header (bset_hdr b)) = bset_hdr b.
Proof.
  intros []. apply decode_encode_bset_header; cbn; try done. unfold in_width. lia.
Qed.

Lemma read_bset_header_at n p b s off :
  body n = p ++ enc_bset b ++ s → bset_wf b → off = length p →
  read_bset_header n off = Ok (bset_hdr b).
Proof.
  intros Hb Hw ->. unfold read_bset_header. rewrite Hb. unfold enc_bset. rewrite <- app_assoc.
  rewrite slice_app by (by rewrite ?length_encode_bset_header). mred.
  by rewrite bset_hdr_decode.
Qed.

Lemma entries_at_at n p h es s off :
  body n = p ++ encode_bset_header h ++ concat (encode_entry <$> es) ++ s →
  Forall entry_wf es → off = length p →
  entries_at n off (length es) = Ok es.
Proof.
  intros Hb Hw ->. unfold entries_at. rewrite Hb, app_assoc.
  rewrite slice_app.
  - mred. by rewrite decode_encode_entries.
  - by rewrite length_app, length_encode_bset_header.
  - by rewrite length_app, length_encode_bset_header, length_encode_entries.
Qed.

Lemma skip_bsets_spec n bs1 bs2 tail :
  body n = enc_bsets bs1 ++ enc_bsets bs2 ++ tail → Forall bset_wf bs1 → Forall bset_wf bs2 →
  skip_bsets n (length bs2) (bsets_size bs1) = Ok (bsets_size (bs1 ++ bs2)).
Proof.
  revert bs1. induction bs2 as [|b bs2 IH]; intros bs1 Hb H1 H2.
  { by rewrite app_nil_r. }
  apply Forall_cons_1 in H2 as [Hw H2]. cbn [skip_bsets length].
  rewrite enc_bsets_cons, <- app_assoc in Hb.
  erewrite read_bset_header_at; [|done|done|by rewrite length_enc_bsets].
  cbn [mbind outcome_bind bset_hdr bh_nkeys]. rewrite Nat2Z.id.
  replace (bsets_size bs1 + _) with (bsets_size (bs1 ++ [b])).
  2: { rewrite bsets_size_app. cbn. unfold bset_size. lia. }
  rewrite IH.
  - by rewrite <- app_assoc.
  - rewrite Hb, enc_bsets_app, <- app_assoc. cbn. by rewrite app_nil_r.
  - apply Forall_app. auto.
  - done.
Qed.

Lemma rep_split n bs i b :
  node_rep n bs → bs !! i = Some b →
  ∃ tail, body n = enc_bsets (take i bs) ++ enc_bset b ++ (enc_bsets (drop (S i) bs) ++ tail).
Proof.
  intros [_ _ _ _ [tail Ht]] Hi. exists tail. rewrite Ht.
  rewrite <- (take_drop_middle bs i b Hi) at 1.
  by rewrite enc_bsets_app, enc_bsets_cons, <- !app_assoc.
Qed.

Section reading.
Context {n : BtreeNodeRaw} {bs : list bset} (Hrep : node_rep n bs).

Lemma bset_count_rep : bset_count n = length bs.
Proof using Hrep. unfold bset_count. by rewrite (rep_count _ _ Hrep), Nat2Z.id. Qed.

Lemma rep_wf_lookup i b : bs !! i = Some b → bset_wf b.
Proof using Hrep. intros. eapply Forall_lookup_1; [apply (rep_wf _ _ Hrep)|done]. Qed.

Lemma length_enc_prefix i : length (enc_bsets (take i bs)) = bsets_size (take i bs).
Proof using Hrep. apply length_enc_bsets, Forall_take, (rep_wf _ _ Hrep). Qed.

Lemma skip_bsets_rep i : i ≤ length bs → skip_bsets n i 0 = Ok (bsets_size (take i bs)).
Proof using Hrep.
  intros Hi. destruct (rep_body _ _ Hrep) as [tail Ht].
  pose proof (skip_bsets_spec n [] (take i bs) (enc_bsets (drop i bs) ++ tail)) as H.
  rewrite length_take_le in H by done. apply H; [|done|].
  - rewrite Ht. rewrite <- (take_drop i bs) at 1. by rewrite enc_bsets_app, <- app_assoc.
  - apply Forall_take, (rep_wf _ _ Hrep).
Qed.

Lemma bset_offset_rep i : i ≤ length bs → bset_offset n i = Ok (bsets_size (take i bs)).
Proof using Hrep. apply skip_bsets_rep. Qed.

Lemma read_bset_header_rep i b :
  bs !! i = Some b → read_bset_header n (bsets_size (take i bs)) = Ok (bset_hdr b).
Proof using Hrep.
  intros Hi. destruct (rep_split n bs i b Hrep Hi) as [tail Ht].
  eapply read_bset_header_at; [done|by eapply rep_wf_lookup|by rewrite length_enc_prefix].
Qed.

Lemma bset_header_rep i b : bs !! i = Some b → bset_header n i = Ok (bset_hdr b).
Proof using Hrep.
  intros Hi. pose proof (lookup_lt_Some _ _ _ Hi). unfold bset_header.
  rewrite bset_offset_rep by lia. mred. by apply read_bset_header_rep.
Qed.

Lemma entries_at_rep i b :
  bs !! i = Some b → entries_at n (bsets_size (take i bs)) (length (b_entries b)) = Ok (b_entries b).
Proof using Hrep.
  intros Hi. destruct (rep_split n bs i b Hrep Hi) as [tail Ht]. unfold enc_bset in Ht.
  rewrite <- app_assoc in Ht.
  eapply entries_at_at; [done| |by rewrite length_enc_prefix].
  by eapply bwf_entries, rep_wf_lookup.
Qed.

Lemma bset_entries_rep i b : bs !! i = Some b → bset_entries n i = Ok (b_entries b).
Proof using Hrep.
  intros Hi. pose proof (lookup_lt_Some _ _ _ Hi). unfold bset_entries.
  rewrite bset_offset_rep by lia. mred.
  rewrite (read_bset_header_rep i b Hi). cbn [mbind outcome_bind bset_hdr bh_nkeys].
  rewrite Nat2Z.id. by apply entries_at_rep.
Qed.

Lemma entry_at_rep i j b e :
  bs !! i = Some b → b_entries b !! j = Some e → entry_at n i j = Ok e.
Proof using Hrep. intros Hi Hj. unfold entry_at. rewrite (bset_entries_rep i b Hi). mred. unfold index. by rewrite Hj. Qed.

Lemma entry_wf_rep i j b e : bs !! i = Some b → b_entries b !! j = Some e → entry_wf e.
Proof using Hrep. intros Hi Hj. eapply Forall_lookup_1; [by eapply bwf_entries, rep_wf_lookup|done]. Qed.

Lemma value_bytes_at_rep i j b e :
  bs !! i = Some b → b_entries b !! j = Some e → value_bytes_at n i j = Ok (value_of e).
Proof using Hrep.
  intros Hi Hj. unfold value_bytes_at. rewrite (entry_at_rep i j b e) by done. mred.
  apply value_slice_ok. by eapply entry_wf_rep.
Qed.

Lemma child_block_at_rep i j b e :
  bs !! i = Some b → b_entries b !! j = Some e → child_block_at n i j = Ok (child_of e).
Proof using Hrep.
  intros Hi Hj. unfold child_block_at. rewrite (entry_at_rep i j b e) by done. mred.
  apply payload_child_ok. by eapply entry_wf_rep.
Qed.

Lemma bset_search_rep i b key :
  bs !! i = Some b →
  bset_search n i key = Ok (binary_search_by (λ e, bytes_cmp (key_of e) key) (b_entries b)).
Proof using Hrep.
  intros Hi. unfold bset_search. rewrite (bset_entries_rep i b Hi). mred.
  apply binary_search_byO_pure. eapply Forall_impl.
  - intros e He. by apply cmp_key_ok.
  - by eapply bwf_entries, rep_wf_lookup.
Qed.

Lemma fold_total_rep bs1 bs2 acc :
  bs = bs1 ++ bs2 →
  foldO (λ sum b, h ← bset_header n b; Ok (sum + Z.to_nat (bh_nkeys h))%nat) acc
    (seq (length bs1) (length bs2)) = Ok (acc + total_entries bs2).
Proof using Hrep.
  revert bs1 acc. induction bs2 as [|b bs2 IH]; intros bs1 acc Hbs.
  { unfold total_entries. cbn. f_equal. lia. }
  cbn [length seq foldO]. rewrite (bset_header_rep (length bs1) b).
  2: { rewrite Hbs. by rewrite list_lookup_middle. }
  cbn [mbind outcome_bind bset_hdr bh_nkeys]. rewrite Nat2Z.id.
  replace (S (length bs1)) with (length (bs1 ++ [b])) by (rewrite length_app; cbn; lia).
  rewrite IH by (rewrite Hbs, <- app_assoc; done).
  unfold total_entries. cbn. f_equal. lia.
Qed.

Lemma total_stored_rep : total_stored n = Ok (total_entries bs).
Proof using Hrep. unfold total_stored. rewrite bset_count_rep. by apply (fold_total_rep [] bs 0). Qed.

Lemma nkeys_leaf_rep : level n = 0%Z → nkeys n = Ok (total_entries bs).
Proof using Hrep. intros Hl. unfold nkeys. rewrite total_stored_rep, Hl. done. Qed.
End reading.

(** ** Writing a represented body *)

(** Every header field fits the bytes it is stored in. *)
Record header_wf (h : NodeHeader) : Prop := {
  hwf_magic : in_width 32 (nh_magic h);
  hwf_level : in_width 8 (nh_level h);
  hwf_count : in_width 8 (nh_bset_count h);
  hwf_flags : in_width 8 (nh_flags h);
  hwf_pad0 : in_width 8 (nh_pad0 h);
  hwf_generation : in_width 64 (nh_generation h);
  hwf_pad1 : length (nh_pad1 h) = 8;
  hwf_checksum : in_width 64 (nh_checksum h);
  hwf_reserved : length (nh_reserved h) = 32;
}.

(** What of the header survives a body edit. *)
Record same_kind (n n' : BtreeNodeRaw) : Prop := {
  sk_level : level n' = level n;
  sk_generation : generation n' = generation n;
  sk_magic : nh_magic (header n') = nh_magic (header n);
  sk_header : header_wf (header n) → header_wf (header n');
}.
#[export] Instance same_kind_preorder : PreOrder same_kind.
Proof. split; [by split|]. intros x y z [] []. split; [congruence..|auto]. Qed.

Lemma with_entries_wf es b :
  bset_wf b → Forall entry_wf es → (Z.of_nat (length es) < 2 ^ 16)%Z → bset_wf (with_entries es b).
Proof. intros [] ??. by split. Qed.
Lemma unpadded_wf b : bset_wf b → bset_wf (unpadded b).
Proof. intros []. split; cbn; try done. Qed.
Lemma empty_bset_wf seq : in_width 64 seq → bset_wf (empty_bset seq).
Proof. intros. split; cbn; try done. Qed.
#[export] Hint Resolve with_entries_wf unpadded_wf empty_bset_wf : rfs.

Lemma rep_intro n bs tail :
  nh_bset_count (header n) = Z.of_nat (length bs) → length bs ≤ BSET_TREE_NR_MAX →
  length (body n) = BODY_SIZE → Forall bset_wf bs → body n = enc_bsets bs ++ tail → node_rep n bs.
Proof. split; eauto. Qed.

(** Replace one bset by another of the same size. *)
Lemma rep_replace n bs i b b' tail :
  node_rep n bs → bs !! i = Some b → bset_wf b' → bset_size b' = bset_size b →
  body n = enc_bsets (take i bs) ++ enc_bset b ++ (enc_bsets (drop (S i) bs) ++ tail) →
  node_rep (with_body (enc_bsets (take i bs) ++ enc_bset b' ++ (enc_bsets (drop (S i) bs) ++ tail)) n)
           (<[i:=b']> bs).
Proof.
  intros Hr Hi Hw Hs Hb. pose proof (lookup_lt_Some _ _ _ Hi).
  pose proof (rep_wf_lookup Hr i b Hi) as Hwb. destruct Hr as [Hc Hm Hl Hf _].
  apply (rep_intro _ _ tail); cbn [header body with_body].
  - by rewrite length_insert.
  - by rewrite length_insert.
  - rewrite <- Hl, Hb, !length_app, !length_enc_bset by (apply Hw || apply Hwb). lia.
  - apply Forall_insert; done.
  - rewrite insert_take_drop by done.
    by rewrite enc_bsets_app, enc_bsets_cons, <- !app_assoc.
Qed.

(** Replace the last bset by one of any size that fits. *)
Lemma rep_replace_last n bs b b' tail' :
  node_rep n (bs ++ [b]) → bset_wf b' →
  length (enc_bsets bs ++ enc_bset b' ++ tail') = BODY_SIZE →
  node_rep (with_body (enc_bsets bs ++ enc_bset b' ++ tail') n) (bs ++ [b']).
Proof.
  intros [Hc Hm Hl Hf _] Hw Hlen. rewrite length_app in *. cbn [length] in *.
  apply (rep_intro _ _ tail'); cbn [header body with_body].
  - by rewrite length_app.
  - by rewrite length_app.
  - by rewrite length_app.
  - apply Forall_app in Hf as [Hf _]. apply Forall_app. split; [done|]. by constructor.
  - by rewrite enc_bsets_app, enc_bsets_single, <- app_assoc.
Qed.

Lemma rep_last_body n bs b :
  node_rep n (bs ++ [b]) →
  ∃ tail, body n = enc_bsets bs ++ enc_bset b ++ tail ∧
    bsets_size bs + bset_size b + length tail = BODY_SIZE.
Proof.
  intros Hr. destruct (rep_body _ _ Hr) as [tail Ht]. exists tail.
  rewrite enc_bsets_app, enc_bsets_single, <- app_assoc in Ht. split; [done|].
  pose proof (rep_wf _ _ Hr) as Hf. apply Forall_app in Hf as [Hf1 Hf2].
  apply Forall_cons_1 in Hf2 as [Hb _].
  rewrite <- (rep_len _ _ Hr), Ht, !length_app, length_enc_bsets, length_enc_bset by (done || apply Hb).
  lia.
Qed.

Lemma last_lookup {A} (l : list A) x : (l ++ [x]) !! length l = Some x.
Proof. by rewrite list_lookup_middle. Qed.

Lemma last_index n bs b : node_rep n (bs ++ [b]) → bset_count n - 1 = length bs.
Proof. intros Hr. rewrite (bset_count_rep Hr), length_app. cbn. lia. Qed.

Lemma take_last {A} (l : list A) x : take (length l) (l ++ [x]) = l.
Proof. apply take_app_length. Qed.

Section writing.
Context {n : BtreeNodeRaw} {bs : list bset} (Hrep : node_rep n bs).

(** Rewriting a bset header of unchanged [nkeys]. *)
Lemma write_bset_header_rep i b b' :
  bs !! i = Some b → bset_wf b' → b_entries b' = b_entries b →
  ∃ n', write_bset_header n (bsets_size (take i bs)) (bset_hdr b') = Ok n' ∧
    node_rep n' (<[i:=b']> bs) ∧ same_kind n n'.
Proof using Hrep.
  intros Hi Hw He. destruct (rep_split n bs i b Hrep Hi) as [tail Ht].
  unfold write_bset_header. rewrite Ht. unfold enc_bset. rewrite <- !app_assoc.
  rewrite splice_app; [|by rewrite (length_enc_prefix Hrep)|by rewrite !length_encode_bset_header].
  mred. eexists. split; [done|]. split; [|by split].
  rewrite <- He. rewrite (app_assoc (encode_bset_header (bset_hdr b'))).
  change (encode_bset_header _ ++ concat _) with (enc_bset b').
  eapply rep_replace; [done|done|done| |done]. unfold bset_size. by rewrite He.
Qed.

Lemma set_bset_needs_whiteout_rep i b needs :
  bs !! i = Some b →
  ∃ n' f, set_bset_needs_whiteout i needs n = Ok n' ∧ node_rep n' (<[i:=with_flags f b]> bs) ∧
    same_kind n n' ∧ Z.testbit f 0 = needs.
Proof using Hrep.
  intros Hi. pose proof (lookup_lt_Some _ _ _ Hi).
  pose proof (rep_wf_lookup Hrep i b Hi) as Hw.
  unfold set_bset_needs_whiteout. rewrite (bset_offset_rep Hrep) by lia. mred.
  rewrite (read_bset_header_rep Hrep i b Hi). mred. cbn [bset_hdr bh_seq bh_nkeys bh_flags bh_pad].
  set (f := if needs then _ else _).
  assert (in_width 16 f) as Hf.
  { pose proof (bwf_flags _ Hw) as [Hf0 Hf1]. unfold in_width. subst f.
    destruct needs; unfold BSET_FLAG_NEEDS_WHITEOUT.
    - split; [apply Z.lor_nonneg; lia|]. apply Z.log2_lt_cancel.
      rewrite Z.log2_lor by lia. rewrite (Z.log2_pow2 16) by lia.
      apply Z.max_lub_lt; [|cbn; lia]. destruct (decide (b_flags b = 0%Z)) as [->|]; [cbn; lia|].
      apply Z.log2_lt_pow2; lia.
    - split; [apply Z.land_nonneg; lia|].
      apply Z.le_lt_trans with (b_flags b); [|done].
      apply Z.ldiff_le; [done|]. apply Z.bits_inj'. intros k Hk.
      rewrite Z.ldiff_spec, Z.land_spec, Z.bits_0.
      by destruct (Z.testbit (b_flags b) k), (Z.testbit _ k). }
  destruct (write_bset_header_rep i b (with_flags f b)) as (n' & E & Hr' & Hs); [done| |done|].
  { destruct Hw. by split. }
  exists n', f. split; [done|]. split_and!; [done|done|].
  subst f. unfold BSET_FLAG_NEEDS_WHITEOUT. destruct needs.
  - rewrite Z.lor_spec. by rewrite orb_true_r.
  - rewrite Z.land_spec. by rewrite andb_false_r.
Qed.

(** Editing the entries of a bset in place, keeping their number. *)
Lemma bset_entries_mut_rep i b f es' :
  bs !! i = Some b → f (b_entries b) = Ok es' → length es' = length (b_entries b) →
  Forall entry_wf es' →
  ∃ n', bset_entries_mut i f n = Ok n' ∧
    entries_at_mut n (bsets_size (take i bs)) (length (b_entries b)) f = Ok n' ∧
    node_rep n' (<[i:=with_entries es' b]> bs) ∧ same_kind n n'.
Proof using Hrep.
  intros Hi Hf Hlen Hw. pose proof (lookup_lt_Some _ _ _ Hi).
  pose proof (rep_wf_lookup Hrep i b Hi) as Hwb.
  destruct (rep_split n bs i b Hrep Hi) as [tail Ht].
  assert (entries_at_mut n (bsets_size (take i bs)) (length (b_entries b)) f =
    Ok (with_body (enc_bsets (take i bs) ++ enc_bset (with_entries es' b) ++
      (enc_bsets (drop (S i) bs) ++ tail)) n)) as E.
  { unfold entries_at_mut. rewrite (entries_at_rep Hrep i b Hi). mred. rewrite Hf. mred.
    rewrite Ht. unfold enc_bset at 1. rewrite <- !app_assoc, (app_assoc (enc_bsets (take i bs))).
    rewrite splice_app.
    - mred. unfold enc_bset, bset_hdr. cbn [b_entries with_entries b_seq b_flags b_pad].
      by rewrite Hlen, <- !app_assoc.
    - by rewrite length_app, (length_enc_prefix Hrep), length_encode_bset_header.
    - rewrite !length_encode_entries by (done || apply Hwb). by rewrite Hlen. }
  eexists. split; [|split; [exact E|split]].
  - unfold bset_entries_mut. rewrite (bset_offset_rep Hrep) by lia. mred.
    rewrite (read_bset_header_rep Hrep i b Hi). mred. cbn [bset_hdr bh_nkeys].
    by rewrite Nat2Z.id.
  - eapply rep_replace; [done|done| | |done].
    + apply with_entries_wf; [done|done|]. rewrite Hlen. apply Hwb.
    + unfold bset_size. cbn. by rewrite Hlen.
  - by split.
Qed.

Lemma entry_at_mut_rep i j b e e' f :
  bs !! i = Some b → b_entries b !! j = Some e → f e = Ok e' → entry_wf e' →
  ∃ n', entry_at_mut i j f n = Ok n' ∧
    node_rep n' (<[i:=with_entries (<[j:=e']> (b_entries b)) b]> bs) ∧ same_kind n n'.
Proof using Hrep.
  intros Hi Hj Hf Hw. unfold entry_at_mut. pose proof (lookup_lt_Some _ _ _ Hj).
  destruct (bset_entries_mut_rep i b
    (λ es, e ← index es j; e' ← f e; assign es j e') (<[j:=e']> (b_entries b)))
    as (n' & E & _ & Hr & Hs); [done| | | |].
  - unfold index. rewrite Hj. mred. rewrite Hf. mred. unfold assign.
    by rewrite (proj2 (Nat.ltb_lt _ _)) by done.
  - by rewrite length_insert.
  - apply Forall_insert; [|done]. apply (rep_wf_lookup Hrep i b Hi).
  - eauto.
Qed.

Lemma start_new_bset_rep seq :
  length bs < BSET_TREE_NR_MAX → total_entries bs ≤ MAX_ENTRIES → in_width 64 seq →
  ∃ n', start_new_bset seq n = Ok n' ∧ node_rep n' (bs ++ [empty_bset seq]) ∧ same_kind n n'.
Proof using Hrep.
  intros Hl Ht Hs. unfold start_new_bset. rewrite (bset_count_rep Hrep).
  rewrite (proj2 (Nat.ltb_lt _ _)) by done. cbn [assert_that]. mred.
  rewrite (skip_bsets_rep Hrep), firstn_all by lia. mred.
  destruct (rep_body _ _ Hrep) as [tail Hb].
  assert (BSET_HEADER_SIZE ≤ length tail) as Hfit.
  { pose proof (rep_len _ _ Hrep) as Hlen. rewrite Hb, length_app in Hlen.
    rewrite length_enc_bsets, bsets_size_total in Hlen by apply (rep_wf _ _ Hrep).
    rewrite MAX_ENTRIES_eq in Ht. consts. lia. }
  unfold write_bset_header. rewrite Hb, <- (take_drop BSET_HEADER_SIZE tail).
  rewrite splice_app; [|by rewrite length_enc_bsets by apply (rep_wf _ _ Hrep)|].
  2: { rewrite length_encode_bset_header, length_take. lia. }
  mred. eexists. split; [done|]. split.
  2: { split; [done..|]. intros []. split; try done. by apply (wrap_in_width 8). }
  apply (rep_intro _ _ (drop BSET_HEADER_SIZE tail)); cbn [header set_bset_count nh_bset_count
    with_header_fields body with_body].
  - unfold u8. rewrite length_app. cbn [length]. apply wrap_small. unfold in_width. consts. lia.
  - rewrite length_app. cbn. lia.
  - rewrite <- (rep_len _ _ Hrep), Hb, !length_app, length_encode_bset_header, length_drop. lia.
  - apply Forall_app. split; [apply (rep_wf _ _ Hrep)|]. constructor; [by apply empty_bset_wf|done].
  - rewrite enc_bsets_app, enc_bsets_single, <- app_assoc. unfold enc_bset. by rewrite app_nil_r.
Qed.
End writing.

(** Growing the last bset. *)
Lemma total_entries_last bs b :
  total_entries (bs ++ [b]) = total_entries bs + length (b_entries b).
Proof. rewrite total_entries_app. unfold total_entries at 2. cbn. lia. Qed.

(** Room for one more entry behind the last bset. *)
Lemma rep_last_room n bs b (tail : list byte) :
  node_rep n (bs ++ [b]) → total_entries (bs ++ [b]) < MAX_ENTRIES →
  bsets_size bs + bset_size b + length tail = BODY_SIZE → ENTRY_SIZE ≤ length tail.
Proof.
  intros Hr Ht Hlen. pose proof (rep_max _ _ Hr) as Hm.
  rewrite length_app in Hm. cbn [length] in Hm.
  rewrite total_entries_last, MAX_ENTRIES_eq in Ht. rewrite bsets_size_total in Hlen.
  unfold bset_size in Hlen. consts. lia.
Qed.

(** [nkeys] after adding one entry stays a [u16]. *)
Lemma u16_succ_len n bs b :
  node_rep n (bs ++ [b]) → total_entries (bs ++ [b]) < MAX_ENTRIES →
  u16 (Z.of_nat (length (b_entries b) + 1)) = Z.of_nat (length (b_entries b) + 1).
Proof.
  intros _ Ht. rewrite total_entries_last, MAX_ENTRIES_eq in Ht.
  apply wrap_small. unfold in_width. lia.
Qed.

Lemma append_to_last_bset_rep n bs b e :
  node_rep n (bs ++ [b]) → total_entries (bs ++ [b]) < MAX_ENTRIES → entry_wf e →
  ∃ n', append_to_last_bset e n = Ok n' ∧
    node_rep n' (bs ++ [unpadded (with_entries (b_entries b ++ [e]) b)]) ∧ same_kind n n'.
Proof.
  intros Hr Ht He. pose proof (rep_wf_lookup Hr _ _ (last_lookup bs b)) as Hwb.
  unfold append_to_last_bset. rewrite (total_stored_rep Hr). mred.
  rewrite (proj2 (Nat.ltb_lt _ _) Ht). cbn [assert_that]. mred.
  rewrite (proj2 (Nat.ltb_lt 0 _)) by (rewrite (bset_count_rep Hr), length_app; cbn; lia).
  cbn [assert_that]. mred. rewrite (last_index n bs b Hr).
  rewrite (bset_offset_rep Hr), take_last by (rewrite length_app; lia). mred.
  pose proof (read_bset_header_rep Hr _ _ (last_lookup bs b)) as Hh. rewrite take_last in Hh.
  rewrite Hh. mred. cbn [bset_hdr bh_seq bh_nkeys bh_flags bh_pad]. rewrite Nat2Z.id.
  destruct (rep_last_body n bs b Hr) as (tail & Hb & Hlen).
  pose proof (rep_last_room n bs b tail Hr Ht Hlen) as Hroom.
  rewrite Hb, <- (take_drop ENTRY_SIZE tail), (app_assoc (enc_bsets bs)).
  assert (Forall bset_wf bs) as Hwbs by (pose proof (rep_wf _ _ Hr) as H; by apply Forall_app in H as [? _]).
  rewrite splice_app.
  2: { rewrite length_app, length_enc_bsets, length_enc_bset by (done || apply Hwb).
       unfold bset_size. lia. }
  2: { rewrite length_encode_entry by done. rewrite length_take. lia. }
  mred. unfold write_bset_header. cbn [body with_body].
  unfold enc_bset. rewrite <- !app_assoc.
  rewrite splice_app; [|by rewrite length_enc_bsets|by rewrite !length_encode_bset_header].
  mred. eexists. split; [done|].
  split; [|by split].
  rewrite (u16_succ_len n bs b Hr Ht).
  set (b' := unpadded _).
  replace (enc_bsets bs ++ _) with (enc_bsets bs ++ enc_bset b' ++ drop ENTRY_SIZE tail).
  - change (with_body ?x (with_body ?y n)) with (with_body x n).
    apply (rep_replace_last n bs b b' (drop ENTRY_SIZE tail)); [done| |].
    + apply unpadded_wf, with_entries_wf; [done| |].
      * apply Forall_app. split; [apply Hwb|by constructor].
      * rewrite length_app. cbn [length]. rewrite total_entries_last, MAX_ENTRIES_eq in Ht. lia.
    + rewrite !length_app, length_enc_bsets, length_enc_bset, length_drop; [|..].
      * unfold bset_size in *. cbn [b' unpadded with_entries b_entries].
        rewrite length_app. cbn [length]. consts. lia.
      * cbn [b' unpadded with_entries b_entries]. apply Forall_app. split; [apply Hwb|by constructor].
      * done.
  - subst b'. unfold enc_bset, bset_hdr. cbn [unpadded with_entries b_entries b_seq b_flags b_pad].
    rewrite fmap_app, concat_app, length_app. cbn [fmap list_fmap concat length].
    by rewrite app_nil_r, <- !app_assoc.
Qed.

(** The list [sort_insert_into_last_bset] builds when it opens a slot at [j]. *)
Definition insert_slot (j : nat) (e : DiskEntry) (es : list DiskEntry) : list DiskEntry :=
  take j es ++ e :: drop j es.

Lemma length_insert_slot j e es : length (insert_slot j e es) = S (length es).
Proof.
  unfold insert_slot. rewrite length_app. cbn [length]. rewrite length_take, length_drop. lia.
Qed.

Lemma insert_slot_wf j e es : entry_wf e → Forall entry_wf es → Forall entry_wf (insert_slot j e es).
Proof.
  intros. apply Forall_app. split; [by apply Forall_take|].
  constructor; [done|by apply Forall_drop].
Qed.

Lemma shift_insert_spec j e es junk :
  j ≤ length es → shift_insert j e (es ++ [junk]) = Ok (insert_slot j e es).
Proof.
  intros Hj. unfold shift_insert. rewrite length_app. cbn [length].
  replace (length es + 1 - 1) with (length es) by lia.
  assert (slice (E:=error) (es ++ [junk]) j (length es) = Ok (drop j es)) as ->.
  { rewrite <- (take_drop j es) at 1. rewrite <- app_assoc. apply slice_app.
    - rewrite length_take. lia.
    - rewrite length_take, length_drop. lia. }
  mred. unfold splice. rewrite length_app, length_drop. cbn [length].
  rewrite (proj2 (Nat.leb_le _ _)) by lia. mred.
  unfold overwrite, assign. rewrite length_drop.
  replace (j + 1 + (length es - j)) with (length (es ++ [junk])) by (rewrite length_app; cbn; lia).
  rewrite drop_all, app_nil_r.
  assert (take (j + 1) (es ++ [junk]) = take j es ++ take 1 (drop j (es ++ [junk]))) as E.
  { rewrite <- take_take_drop. f_equal. rewrite take_app_le by lia. done. }
  assert (∃ x, take 1 (drop j (es ++ [junk])) = [x]) as [x Hx].
  { destruct (drop j (es ++ [junk])) as [|x r] eqn:Ed; [|by exists x; rewrite take_0 || eauto].
    apply (f_equal length) in Ed. rewrite length_drop, length_app in Ed. cbn in Ed. lia. }
  rewrite E, Hx. rewrite !length_app, length_take, length_drop. cbn [length].
  rewrite (proj2 (Nat.ltb_lt _ _)) by lia. f_equal.
  rewrite <- app_assoc. cbn [app]. unfold insert_slot.
  rewrite insert_app_r_alt by (rewrite length_take; lia).
  rewrite length_take, Nat.min_l, Nat.sub_diag by lia. done.
Qed.

Lemma entries_at_junk n p h es tail off :
  body n = p ++ encode_bset_header h ++ concat (encode_entry <$> es) ++ tail →
  Forall entry_wf es → off = length p → ENTRY_SIZE ≤ length tail →
  entries_at n off (length es + 1) = Ok (es ++ [decode_entry (take ENTRY_SIZE tail)]).
Proof.
  intros Hb Hw -> Ht. unfold entries_at.
  set (raw := (encode_entry <$> es) ++ [take ENTRY_SIZE tail]).
  assert (Forall (λ c, length c = ENTRY_SIZE) raw) as Hraw.
  { apply Forall_app. split; [by apply encode_entries_fixed|].
    constructor; [rewrite length_take; lia|done]. }
  assert (length raw = length es + 1) as Hl by (subst raw; rewrite length_app, length_fmap; done).
  assert (body n = (p ++ encode_bset_header h) ++ concat raw ++ drop ENTRY_SIZE tail) as Hb'.
  { rewrite Hb. subst raw. rewrite concat_app. cbn [concat].
    by rewrite app_nil_r, <- !app_assoc, take_drop. }
  rewrite Hb', slice_app; [mred|..].
  - rewrite <- Hl, chunks_n_concat by done. subst raw. f_equal. rewrite fmap_app. cbn [fmap list_fmap].
    f_equal. rewrite <- (decode_encode_entries es Hw) at 2.
    rewrite <- (length_fmap encode_entry es), chunks_n_concat by (by apply encode_entries_fixed). done.
  - by rewrite length_app, length_encode_bset_header.
  - rewrite (length_concat_fixed ENTRY_SIZE), Hl by done.
    by rewrite length_app, length_encode_bset_header.
Qed.

Lemma grow_last_rep n bs b f es' :
  node_rep n (bs ++ [b]) → total_entries (bs ++ [b]) < MAX_ENTRIES →
  (∀ junk, f (b_entries b ++ [junk]) = Ok es') → length es' = S (length (b_entries b)) →
  Forall entry_wf es' →
  ∃ n1 n', entries_at_mut n (bsets_size bs) (length (b_entries b) + 1) f = Ok n1 ∧
    write_bset_header n1 (bsets_size bs)
      {| bh_seq := b_seq b; bh_nkeys := u16 (Z.of_nat (length (b_entries b) + 1));
         bh_flags := b_flags b; bh_pad := 0 |} = Ok n' ∧
    node_rep n' (bs ++ [unpadded (with_entries es' b)]) ∧ same_kind n n'.
Proof.
  intros Hr Ht Hf Hlen Hw.
  pose proof (rep_wf_lookup Hr _ _ (last_lookup bs b)) as Hwb.
  assert (Forall bset_wf bs) as Hwbs
    by (pose proof (rep_wf _ _ Hr) as H; by apply Forall_app in H as [? _]).
  destruct (rep_last_body n bs b Hr) as (tail & Hb & Hsz).
  pose proof (rep_last_room n bs b tail Hr Ht Hsz) as Hroom.
  unfold entries_at_mut. pose proof Hb as Hb2. unfold enc_bset in Hb2. rewrite <- app_assoc in Hb2.
  erewrite entries_at_junk; [mred|exact Hb2|apply Hwb|by rewrite length_enc_bsets|done].
  rewrite Hf. mred. rewrite Hb2, app_assoc, <- (take_drop ENTRY_SIZE tail).
  rewrite (app_assoc (concat _)).
  rewrite splice_app.
  2: { by rewrite length_app, length_enc_bsets, length_encode_bset_header. }
  2: { rewrite length_app, !length_encode_entries, length_take by (done || apply Hwb). consts. lia. }
  mred. do 2 eexists. split; [done|].
  unfold write_bset_header. cbn [body with_body]. rewrite <- !app_assoc.
  rewrite splice_app; [|by rewrite length_enc_bsets|by rewrite !length_encode_bset_header].
  mred. split; [done|]. split; [|by split].
  rewrite (u16_succ_len n bs b Hr Ht). set (b' := unpadded _).
  replace (enc_bsets bs ++ _) with (enc_bsets bs ++ enc_bset b' ++ drop ENTRY_SIZE tail).
  - change (with_body ?x (with_body ?y n)) with (with_body x n).
    apply (rep_replace_last n bs b b' (drop ENTRY_SIZE tail)); [done| |].
    + apply unpadded_wf, with_entries_wf; [done|done|].
      rewrite Hlen. rewrite total_entries_last, MAX_ENTRIES_eq in Ht. lia.
    + rewrite !length_app, length_enc_bsets, length_enc_bset, length_drop; [|done..].
      unfold bset_size in *. cbn [b' unpadded with_entries b_entries]. rewrite Hlen. consts. lia.
  - subst b'. unfold enc_bset, bset_hdr. cbn [unpadded with_entries b_entries b_seq b_flags b_pad].
    rewrite Hlen, <- !app_assoc. do 4 f_equal. lia.
Qed.

(** [sort_insert_into_last_bset]: the slot it reports is the one binary search
    finds, and the last bset gains or replaces exactly that slot. *)
Lemma sort_insert_rep n bs b e :
  node_rep n (bs ++ [b]) → total_entries (bs ++ [b]) < MAX_ENTRIES → entry_wf e →
  let r := binary_search_by (λ x, bytes_cmp (key_of x) (key_of e)) (b_entries b) in
  match r with Found j => j < length (b_entries b) | Absent j => j ≤ length (b_entries b) end →
  ∃ n', sort_insert_into_last_bset e n = Ok (r, n') ∧ same_kind n n' ∧
    node_rep n' (bs ++ [match r with
                        | Found j => with_entries (<[j:=e]> (b_entries b)) b
                        | Absent j => unpadded (with_entries (insert_slot j e (b_entries b)) b)
                        end]).
Proof.
  intros Hr Ht He r Hrange. pose proof (rep_wf_lookup Hr _ _ (last_lookup bs b)) as Hwb.
  unfold sort_insert_into_last_bset.
  rewrite (proj2 (Nat.ltb_lt 0 _)) by (rewrite (bset_count_rep Hr), length_app; cbn; lia).
  cbn [assert_that]. mred. rewrite (last_index n bs b Hr).
  rewrite (bset_offset_rep Hr), take_last by (rewrite length_app; lia). mred.
  pose proof (read_bset_header_rep Hr _ _ (last_lookup bs b)) as Hh. rewrite take_last in Hh.
  rewrite Hh. mred. cbn [bset_hdr bh_seq bh_nkeys bh_flags bh_pad]. rewrite Nat2Z.id.
  rewrite key_bytes_ok by done. mred.
  rewrite (bset_search_rep Hr _ _ _ (last_lookup bs b)). mred. fold r.
  destruct r as [j|j].
  - destruct (bset_entries_mut_rep Hr (length bs) b (λ es, assign es j e) (<[j:=e]> (b_entries b)))
      as (n' & _ & E & Hr' & Hs); [apply last_lookup| |by rewrite length_insert| |].
    + unfold assign. by rewrite (proj2 (Nat.ltb_lt _ _) Hrange).
    + apply Forall_insert; [apply Hwb|done].
    + rewrite take_last in E. rewrite E. mred. exists n'. split; [done|]. split; [done|].
      rewrite insert_app_r_alt, Nat.sub_diag in Hr' by done. done.
  - rewrite (total_stored_rep Hr). mred. rewrite (proj2 (Nat.ltb_lt _ _) Ht). cbn [assert_that]. mred.
    destruct (grow_last_rep n bs b (shift_insert j e) (insert_slot j e (b_entries b)))
      as (n1 & n' & E1 & E2 & Hr' & Hs); [done|done| | | |].
    + intros junk. by apply shift_insert_spec.
    + apply length_insert_slot.
    + apply insert_slot_wf; [done|apply Hwb].
    + rewrite E1. mred. rewrite E2. mred. eauto.
Qed.

(** [set_nkeys] on a single-bset node publishes the entries already laid out. *)
Lemma set_nkeys_rep n b k es' tail' :
  node_rep n [b] →
  body n = encode_bset_header (bset_hdr b) ++ concat (encode_entry <$> es') ++ tail' →
  Forall entry_wf es' → length es' = (if (0 <? level n)%Z then k + 1 else k) →
  (Z.of_nat (length es') < 2 ^ 16)%Z →
  ∃ n', set_nkeys k n = Ok n' ∧ node_rep n' [unpadded (with_entries es' b)] ∧ same_kind n n' ∧
    body n' = enc_bset (unpadded (with_entries es' b)) ++ tail'.
Proof.
  intros Hr Hb Hw Hlen H16. unfold set_nkeys.
  pose proof (rep_wf_lookup Hr 0 b eq_refl) as Hwb.
  pose proof (read_bset_header_rep Hr 0 b eq_refl : read_bset_header n 0 = _) as Hh.
  rewrite Hh. mred. rewrite <- Hlen.
  unfold write_bset_header. rewrite Hb.
  rewrite <- (app_nil_l (encode_bset_header (bset_hdr b) ++ _)).
  rewrite splice_app; [|done|by rewrite !length_encode_bset_header].
  mred. cbn [app bset_hdr bh_seq bh_flags]. eexists. split; [done|].
  assert (u16 (Z.of_nat (length es')) = Z.of_nat (length es')) as ->
    by (apply wrap_small; unfold in_width; lia).
  set (b' := unpadded (with_entries es' b)).
  assert (encode_bset_header {| bh_seq := b_seq b; bh_nkeys := Z.of_nat (length es');
    bh_flags := b_flags b; bh_pad := 0 |} ++ concat (encode_entry <$> es') ++ tail'
    = enc_bset b' ++ tail') as Eb by (unfold enc_bset; by rewrite <- app_assoc).
  split_and!; [|by split|exact Eb].
  pose proof (rep_replace_last n [] b b' tail' Hr) as H. cbn [app] in H. rewrite Eb. apply H.
  - apply unpadded_wf. by apply with_entries_wf.
  - rewrite <- Eb. rewrite <- (rep_len _ _ Hr), Hb. cbn [enc_bsets fmap list_fmap concat app].
    rewrite !length_app, !length_encode_bset_header. done.
Qed.
