(* ===== verification/Merge.v ===== *)
(** * Merge: cross-bset search and the k-way merged iterator
    (src/block_btree.rs, second half) against a reference.

    The reference reading of a leaf is [view]: the entry of the newest bset
    that holds the key. [merged_find] and [MergedIter] are proved to compute
    exactly that reading, the iterator in strictly ascending key order. *)
From Stdlib Require Import Strings.Byte.
From stdpp Require Import base list numbers sorting.
From S2P Require Import Prelude Device BlockBtree NodeRep.
#[local] Open Scope rfs_scope.

(** ** Reference: keyed lists and the merged reading *)
Fixpoint assoc (k : list byte) (es : list DiskEntry) : option DiskEntry :=
  match es with
  | [] => None
  | e :: es => if decide (key_of e = k) then Some e else assoc k es
  end.

Definition keys_sorted (es : list DiskEntry) : Prop := StronglySorted bytes_lt (key_of <$> es).

(** Later lists shadow earlier ones. *)
Fixpoint view_lists (rs : list (list DiskEntry)) (k : list byte) : option DiskEntry :=
  match rs with
  | [] => None
  | r :: rs => match view_lists rs k with Some e => Some e | None => assoc k r end
  end.

Definition view (bs : list bset) (k : list byte) : option DiskEntry := view_lists (b_entries <$> bs) k.

(** The invariant of a leaf: every run is strictly sorted and seqs grow from
    run to run, so "highest seq" is "last run". *)
Record runs_wf (bs : list bset) : Prop := {
  runs_sorted : Forall (λ b, keys_sorted (b_entries b)) bs;
  runs_seqs : StronglySorted Z.lt (b_seq <$> bs);
}.

Lemma assoc_Some k es e :
  keys_sorted es → assoc k es = Some e ↔ ∃ i, es !! i = Some e ∧ key_of e = k.
Proof.
  unfold keys_sorted. induction es as [|x es IH]; cbn [assoc fmap list_fmap].
  { intros _. split; [done|]. by intros (i & ? & _). }
  intros [Hs Hx]%StronglySorted_inv. case_decide as Hk.
  - split; [intros [= ->]; by exists 0|]. intros ([|i] & Hi & Hke); [cbn in Hi; congruence|].
    change (es !! i = Some e) in Hi. exfalso. apply (bytes_lt_irrefl k). rewrite <- Hk at 1. rewrite <- Hke.
    eapply (Forall_lookup_1 _ _ i); [exact Hx|]. by rewrite list_lookup_fmap, Hi.
  - rewrite IH by done. split; [intros (i & ? & ?); by exists (S i)|].
    intros ([|i] & Hi & Hke); cbn in Hi; [congruence|eauto].
Qed.

Lemma assoc_None k es : assoc k es = None ↔ ∀ i e, es !! i = Some e → key_of e ≠ k.
Proof.
  induction es as [|x es IH]; cbn [assoc]; [naive_solver|]. case_decide as Hk.
  - split; [done|]. intros H. by destruct (H 0 x).
  - rewrite IH. split; [intros H [|i] e He; cbn in He; [by simplify_eq|eauto]|].
    intros H i e He. by apply (H (S i)).
Qed.

Lemma assoc_key k es e : assoc k es = Some e → key_of e = k ∧ e ∈ es.
Proof.
  induction es as [|x es IH]; cbn [assoc]; [done|]. case_decide; intros Ha; simplify_eq.
  - split; [done|]. apply elem_of_cons. by left.
  - destruct (IH Ha) as [? ?]. split; [done|]. apply elem_of_cons. by right.
Qed.

Lemma keys_sorted_drop c es : keys_sorted es → keys_sorted (drop c es).
Proof.
  unfold keys_sorted. rewrite <- (take_drop c es) at 1. rewrite fmap_app.
  apply StronglySorted_app_1_r.
Qed.

Lemma keys_sorted_cons e es :
  keys_sorted (e :: es) ↔ Forall (λ x, key_of e ≺ key_of x) es ∧ keys_sorted es.
Proof.
  unfold keys_sorted. cbn [fmap list_fmap]. rewrite StronglySorted_cons, Forall_fmap. done.
Qed.

Lemma keys_sorted_lookup es i j x y :
  keys_sorted es → i < j → es !! i = Some x → es !! j = Some y → key_of x ≺ key_of y.
Proof.
  intros Hs Hij Hi Hj. rewrite <- (take_drop_middle es i x Hi) in Hs.
  unfold keys_sorted in Hs. rewrite fmap_app in Hs. apply StronglySorted_app_1_r in Hs.
  change (keys_sorted (x :: drop (S i) es)) in Hs. apply keys_sorted_cons in Hs as [Hs _].
  refine (Forall_lookup_1 _ _ (j - S i) _ Hs _).
  rewrite lookup_drop. by replace (S i + (j - S i)) with j by lia.
Qed.

(** Binary search on a sorted run finds what [assoc] finds. *)
Lemma search_sorted k es :
  keys_sorted es →
  match binary_search_by (λ e, bytes_cmp (key_of e) k) es with
  | Found i => ∃ e, es !! i = Some e ∧ key_of e = k ∧ assoc k es = Some e
  | Absent i => i ≤ length es ∧ assoc k es = None ∧
      (∀ j e, j < i → es !! j = Some e → key_of e ≺ k) ∧
      (∀ j e, i ≤ j → es !! j = Some e → k ≺ key_of e)
  end.
Proof.
  intros Hs. pose proof (binary_search_spec (λ e, bytes_cmp (key_of e) k) es) as H.
  destruct (binary_search_by _ es) as [i|i].
  - destruct H as (e & He & Hc).
    { intros i1 i2 x y Hij Hx Hy Hcy.
      assert (key_of x ≺ key_of y) by (by eapply keys_sorted_lookup).
      destruct (bytes_cmp (key_of y) k) eqn:E; [..|done].
      - apply bytes_cmp_eq in E. by subst k.
      - by eapply bytes_lt_trans. }
    apply bytes_cmp_eq in Hc. exists e. split_and!; [done|done|]. apply assoc_Some; eauto.
  - destruct H as (Hi & Hlo & Hhi).
    { intros i1 i2 x y Hij Hx Hy Hcy.
      assert (key_of x ≺ key_of y) by (by eapply keys_sorted_lookup).
      destruct (bytes_cmp (key_of y) k) eqn:E; [..|done].
      - apply bytes_cmp_eq in E. by subst k.
      - by eapply bytes_lt_trans. }
    assert (∀ j e, i ≤ j → es !! j = Some e → k ≺ key_of e) as Hhi'
      by (intros j e Hj He; apply bytes_cmp_gt; by eapply Hhi).
    split_and!; [done| |done|done]. apply assoc_None. intros j e He Hk. subst k.
    destruct (decide (j < i)) as [Hj|Hj].
    + apply (bytes_lt_irrefl (key_of e)). by apply (Hlo j e).
    + apply (bytes_lt_irrefl (key_of e)). apply (Hhi' j e); [lia|done].
Qed.

(** ** The merged reading, by index *)
Lemma view_lists_None rs k :
  view_lists rs k = None ↔ ∀ i r, rs !! i = Some r → assoc k r = None.
Proof.
  induction rs as [|r rs IH]; cbn [view_lists]; [naive_solver|].
  destruct (view_lists rs k) as [e|] eqn:E.
  - split; [done|]. intros H. destruct (proj2 IH); [|done]. intros i r' Hr. by apply (H (S i)).
  - split; [|intros H; by apply (H 0)]. intros H [|i] r' Hr; cbn in Hr; [by simplify_eq|].
    by eapply (proj1 IH).
Qed.

Lemma view_lists_Some rs k i r e :
  rs !! i = Some r → assoc k r = Some e →
  (∀ j r', i < j → rs !! j = Some r' → assoc k r' = None) → view_lists rs k = Some e.
Proof.
  revert i. induction rs as [|r0 rs IH]; intros [|i] Hi Hk Hj; cbn in Hi; simplify_eq; cbn [view_lists].
  - rewrite (proj2 (view_lists_None rs k)); [done|]. intros j r' Hr. apply (Hj (S j)); [lia|done].
  - erewrite IH; [done|done|done|]. intros j r' Hij Hr. apply (Hj (S j)); [lia|done].
Qed.

Lemma view_lists_ext rs rs' k :
  Forall2 (λ r r', assoc k r = assoc k r') rs rs' → view_lists rs k = view_lists rs' k.
Proof. induction 1 as [|r r' rs rs' Hr _ IH]; cbn [view_lists]; [done|]. by rewrite IH, Hr. Qed.

Lemma view_app bs1 bs2 k :
  view (bs1 ++ bs2) k = match view bs2 k with Some e => Some e | None => view bs1 k end.
Proof.
  unfold view. rewrite fmap_app. induction (b_entries <$> bs1) as [|r rs IH]; cbn [app view_lists].
  - by destruct (view_lists _ k).
  - rewrite IH. by destruct (view_lists (b_entries <$> bs2) k).
Qed.

Lemma view_single b k : view [b] k = assoc k (b_entries b).
Proof. done. Qed.

Lemma view_key bs k e : view bs k = Some e → key_of e = k ∧ ∃ b, b ∈ bs ∧ e ∈ b_entries b.
Proof.
  unfold view. induction bs as [|b bs IH]; cbn [fmap list_fmap view_lists]; [done|].
  destruct (view_lists _ k) eqn:E.
  - intros [= ->]. destruct (IH eq_refl) as (? & b' & ? & ?). split; [done|].
    exists b'. split; [|done]. apply elem_of_cons. by right.
  - intros H. apply assoc_key in H as [? ?]. split; [done|]. exists b.
    split; [|done]. apply elem_of_cons. by left.
Qed.

(** ** [merged_find] *)
Lemma runs_seqs_lookup bs i j a b :
  runs_wf bs → i < j → bs !! i = Some a → bs !! j = Some b → (b_seq a < b_seq b)%Z.
Proof.
  intros [_ Hs] Hij Hi Hj. rewrite <- (take_drop_middle bs i a Hi), fmap_app in Hs.
  apply StronglySorted_app_1_r in Hs. cbn [fmap list_fmap] in Hs.
  apply StronglySorted_inv in Hs as [_ Hs].
  eapply (Forall_lookup_1 _ _ (j - S i)); [exact Hs|].
  rewrite list_lookup_fmap, lookup_drop. replace (S i + (j - S i)) with j by lia. by rewrite Hj.
Qed.

Lemma runs_sorted_lookup bs i b : runs_wf bs → bs !! i = Some b → keys_sorted (b_entries b).
Proof. intros [H _] Hi. by eapply (Forall_lookup_1 _ _ _ _ H Hi). Qed.

Lemma foldO_app {E A B} (f : B → A → outcome E B) b l1 l2 :
  foldO f b (l1 ++ l2) = (b' ← foldO f b l1; foldO f b' l2).
Proof.
  revert b. induction l1 as [|x l1 IH]; intros b; cbn [app foldO]; [done|].
  destruct (f b x); mred; [apply IH|done..].
Qed.

Lemma foldO_seq_S {E B} (f : B → nat → outcome E B) b m :
  foldO f b (seq 0 (S m)) = (b' ← foldO f b (seq 0 m); f b' m).
Proof.
  rewrite seq_S, foldO_app. destruct (foldO f b (seq 0 m)); mred; [|done..].
  cbn [foldO]. by destruct (f _ _).
Qed.

(** What a partial result of the [merged_find] loop means. *)
Definition hit_ok (bs : list bset) (k : list byte) (r : option MergedHit) : Prop :=
  match r with
  | Some h => ∃ b e, bs !! hit_bset h = Some b ∧ b_entries b !! hit_entry h = Some e ∧
      key_of e = k ∧ hit_seq h = b_seq b ∧ view bs k = Some e ∧
      (∀ j b', hit_bset h < j → bs !! j = Some b' → assoc k (b_entries b') = None)
  | None => view bs k = None
  end.

Lemma hit_ok_app bs b k r :
  hit_ok bs k r → view [b] k = None → hit_ok (bs ++ [b]) k r.
Proof.
  intros Hr Hb. destruct r as [h|]; cbn [hit_ok] in *.
  - destruct Hr as (b0 & e & Hb0 & He & Hk & Hs & Hv & Hl). exists b0, e.
    split_and!; [by apply lookup_app_l_Some|done|done|done|by rewrite view_app, Hb, Hv|].
    intros j b' Hj [Hb'|[_ Hb']]%lookup_app_Some; [by eapply Hl|].
    destruct (j - length bs) as [|m]; [|done]. cbn in Hb'. simplify_eq. done.
  - by rewrite view_app, Hb.
Qed.

Lemma merged_find_prefix n bs k m :
  node_rep n bs → runs_wf bs → m ≤ length bs →
  ∃ r, foldO (merged_find_step n k) None (seq 0 m) = Ok r ∧ hit_ok (take m bs) k r.
Proof.
  intros Hr Hw. induction m as [|m IH]; intros Hm; [by exists None|].
  destruct IH as (r & E & Hok); [lia|]. rewrite foldO_seq_S, E. mred. unfold merged_find_step.
  destruct (lookup_lt_is_Some_2 bs m) as [b Hb]; [lia|].
  rewrite (bset_search_rep Hr m b k Hb). mred. rewrite (take_S_r _ _ _ Hb).
  pose proof (search_sorted k (b_entries b) (runs_sorted_lookup _ _ _ Hw Hb)) as Hs.
  destruct (binary_search_by _ _) as [i|i].
  - destruct Hs as (e & He & Hk & Ha). rewrite (bset_header_rep Hr m b Hb). mred.
    cbn [bset_hdr bh_seq].
    assert (hit_ok (take m bs ++ [b]) k (Some {| hit_bset := m; hit_entry := i; hit_seq := b_seq b |}))
      as Hhit.
    { exists b, e. cbn [hit_bset hit_entry hit_seq]. split_and!; [|done|done|done| |].
      - rewrite lookup_app_r, length_take, Nat.min_l, Nat.sub_diag; [done|lia|rewrite length_take; lia].
      - by rewrite view_app, view_single, Ha.
      - intros j b' Hj Hb'%lookup_lt_Some. rewrite length_app, length_take in Hb'. cbn in Hb'. lia. }
    destruct r as [h|]; [|by eauto].
    destruct Hok as (b0 & e0 & Hb0 & He0 & Hk0 & Hs0 & Hv0 & _).
    assert (hit_bset h < m) by (apply lookup_lt_Some in Hb0; rewrite length_take in Hb0; lia).
    rewrite lookup_take_lt in Hb0 by done.
    pose proof (runs_seqs_lookup bs _ m b0 b Hw ltac:(done) Hb0 Hb) as Hlt.
    destruct (Z.leb_spec (b_seq b) (hit_seq h)); [lia|]. by eauto.
  - destruct Hs as (_ & Ha & _). eexists. split; [done|]. by apply hit_ok_app.
Qed.

Lemma merged_find_spec n bs k :
  node_rep n bs → runs_wf bs → ∃ r, merged_find n k = Ok r ∧ hit_ok bs k r.
Proof.
  intros Hr Hw. destruct (merged_find_prefix n bs k (length bs) Hr Hw) as (r & E & Hok); [done|].
  exists r. unfold merged_find. rewrite (bset_count_rep Hr). by rewrite firstn_all in Hok.
Qed.

(** ** The iterator *)
Record iter_rep (it : MergedIter) (bs : list bset) (cs : list nat) : Prop := {
  ir_node : node_rep (mi_node it) bs;
  ir_count : mi_bset_count it = length bs;
  ir_cursors : mi_cursors it = cs;
  ir_len : length bs ≤ length cs;
  ir_lens i b : bs !! i = Some b → mi_lens it !! i = Some (length (b_entries b));
  ir_seqs i b : bs !! i = Some b → mi_seqs it !! i = Some (b_seq b);
}.

(** The entries still ahead of each cursor. *)
Definition rests (bs : list bset) (cs : list nat) : list (list DiskEntry) :=
  zip_with (λ b c, drop c (b_entries b)) bs cs.

(** Bset [i]'s cursor stands on an entry with key [k]. *)
Definition stands_on (bs : list bset) (cs : list nat) (i : nat) (e : DiskEntry) : Prop :=
  ∃ b c, bs !! i = Some b ∧ cs !! i = Some c ∧ b_entries b !! c = Some e.

Lemma cursor_lookup it bs cs i b :
  iter_rep it bs cs → bs !! i = Some b → ∃ c, cs !! i = Some c.
Proof.
  intros Hi Hb. apply lookup_lt_is_Some_2. apply lookup_lt_Some in Hb.
  pose proof (ir_len _ _ _ Hi). lia.
Qed.

Lemma cursor_key_rep it bs cs cs0 i b c :
  iter_rep it bs cs0 → bs !! i = Some b → cs !! i = Some c →
  cursor_key it cs i = Ok (key_of <$> (b_entries b !! c)).
Proof.
  intros Hi Hb Hc. unfold cursor_key, index. rewrite Hc. mred.
  rewrite (ir_lens _ _ _ Hi i b Hb). mred.
  destruct (Nat.leb_spec (length (b_entries b)) c).
  { by rewrite lookup_ge_None_2 by lia. }
  destruct (lookup_lt_is_Some_2 (b_entries b) c) as [e He]; [lia|].
  rewrite (bset_entries_rep (ir_node _ _ _ Hi) i b Hb). mred. rewrite He. mred.
  rewrite key_bytes_ok; [done|]. by eapply (entry_wf_rep (ir_node _ _ _ Hi)).
Qed.

(** [r] is the best candidate among the first [m] cursors. *)
Definition best_ok (bs : list bset) (cs : list nat) (m : nat) (r : option (nat * Z * list byte)) : Prop :=
  match r with
  | None => ∀ i e, i < m → ¬ stands_on bs cs i e
  | Some (w, s, k) => w < m ∧ (∃ e, stands_on bs cs w e ∧ key_of e = k) ∧
      (∃ b, bs !! w = Some b ∧ s = b_seq b) ∧
      (∀ i e, i < m → stands_on bs cs i e → ¬ key_of e ≺ k ∧ (w < i → key_of e ≠ k))
  end.

Lemma stands_on_inj bs cs i e e' : stands_on bs cs i e → stands_on bs cs i e' → e = e'.
Proof. intros (b & c & ? & ? & ?) (b' & c' & ? & ? & ?). by simplify_eq. Qed.

Lemma best_step_ok it bs cs m r b :
  iter_rep it bs cs → runs_wf bs → bs !! m = Some b → best_ok bs cs m r →
  ∃ r', best_step it r m = Ok r' ∧ best_ok bs cs (S m) r'.
Proof.
  intros Hi Hw Hb Hr. destruct (cursor_lookup _ _ _ _ _ Hi Hb) as [c Hc].
  unfold best_step. rewrite (ir_cursors _ _ _ Hi), (cursor_key_rep _ _ _ _ _ _ _ Hi Hb Hc). mred.
  destruct (b_entries b !! c) as [e|] eqn:He; cbn [fmap option_fmap option_map].
  2: { exists r. split; [done|].
       assert (∀ e, ¬ stands_on bs cs m e) as Hno by (intros e (b' & c' & ? & ? & ?); simplify_eq).
       destruct r as [[[w s] k]|]; cbn [best_ok] in *.
       - destruct Hr as (? & ? & ? & Hall). split_and!; [lia|done|done|].
         intros i e Him Hst. apply Hall; [|done]. destruct (decide (i = m)) as [->|]; [by destruct (Hno e)|lia].
       - intros i e Him Hst. destruct (decide (i = m)) as [->|]; [by apply (Hno e)|]. apply (Hr i e); [lia|done]. }
  assert (stands_on bs cs m e) as Hst by (by exists b, c).
  unfold index. rewrite (ir_seqs _ _ _ Hi m b Hb). mred. eexists. split; [done|].
  assert (∀ k, key_of e = k → (∀ i x, i < m → stands_on bs cs i x → ¬ key_of x ≺ k) →
    best_ok bs cs (S m) (Some (m, b_seq b, k))) as Hnew.
  { intros k Hk Hall. cbn [best_ok]. split_and!; [lia|eauto|eauto|]. intros i x Him Hx.
    destruct (decide (i = m)) as [->|].
    - rewrite (stands_on_inj _ _ _ _ _ Hx Hst), Hk. split; [apply bytes_lt_irrefl|lia].
    - split; [apply (Hall i); [lia|done]|lia]. }
  destruct r as [[[w s] k]|]; [|apply Hnew; [done|]; intros i x Him Hx; by destruct (Hr i x)].
  destruct Hr as (Hwm & (ew & Hew & Hkw) & (bw & Hbw & ->) & Hall).
  destruct (bytes_cmp (key_of e) k) eqn:Ec.
  - apply bytes_cmp_eq in Ec.
    pose proof (runs_seqs_lookup bs w m bw b Hw Hwm Hbw Hb).
    destruct (Z.ltb_spec (b_seq bw) (b_seq b)); [|lia].
    rewrite Ec. apply Hnew; [done|]. intros i x Him Hx. by apply (Hall i x).
  - apply Hnew; [done|]. intros i x Him Hx Hlt. destruct (Hall i x Him Hx) as [Hn _].
    apply Hn. by eapply bytes_lt_trans.
  - cbn [best_ok]. split_and!; [lia|eauto|eauto|]. intros i x Him Hx.
    destruct (decide (i = m)) as [->|]; [|apply Hall; [lia|done]].
    rewrite (stands_on_inj _ _ _ _ _ Hx Hst). apply bytes_cmp_gt in Ec. split.
    + intros H. apply (bytes_lt_irrefl k). by eapply bytes_lt_trans.
    + intros _ Hk. rewrite Hk in Ec. by apply (bytes_lt_irrefl k).
Qed.

Lemma best_fold_ok it bs cs m :
  iter_rep it bs cs → runs_wf bs → m ≤ length bs →
  ∃ r, foldO (best_step it) None (seq 0 m) = Ok r ∧ best_ok bs cs m r.
Proof.
  intros Hi Hw. induction m as [|m IH]; intros Hm.
  { exists None. split; [done|]. intros i e H. lia. }
  destruct IH as (r & E & Hr); [lia|]. rewrite foldO_seq_S, E. mred.
  destruct (lookup_lt_is_Some_2 bs m) as [b Hb]; [lia|]. by eapply best_step_ok.
Qed.

(** One cursor of the state after emitting key [k]. *)
Definition advanced (bs : list bset) (k : list byte) (i c : nat) : nat :=
  match bs !! i with
  | Some b => match b_entries b !! c with
              | Some e => if decide (key_of e = k) then S c else c
              | None => c
              end
  | None => c
  end.

Lemma advance_fold_ok it bs cs k m :
  iter_rep it bs cs → m ≤ length bs →
  ∃ cs', foldO (advance_step it k) cs (seq 0 m) = Ok cs' ∧ length cs' = length cs ∧
    ∀ i c, cs !! i = Some c → cs' !! i = Some (if decide (i < m) then advanced bs k i c else c).
Proof.
  intros Hi. induction m as [|m IH]; intros Hm.
  { exists cs. split; [done|]. split; [done|]. intros i c Hc. by rewrite decide_False by lia. }
  destruct IH as (cs' & E & Hl & Hcs'); [lia|]. rewrite foldO_seq_S, E. mred.
  destruct (lookup_lt_is_Some_2 bs m) as [b Hb]; [lia|].
  destruct (cursor_lookup _ _ _ _ _ Hi Hb) as [c Hc].
  pose proof (Hcs' m c Hc) as Hc'. rewrite decide_False in Hc' by lia.
  unfold advance_step. rewrite (cursor_key_rep _ _ cs' _ _ _ _ Hi Hb Hc'). mred.
  assert (∀ d, (d = advanced bs k m c) → ∀ cs'' : list nat, (∀ i x, cs' !! i = Some x →
     cs'' !! i = Some (if decide (i = m) then d else x)) →
     ∀ i x, cs !! i = Some x → cs'' !! i = Some (if decide (i < S m) then advanced bs k i x else x)) as Hgen.
  { intros d Hd cs'' Hcs'' i x Hx. pose proof (Hcs' i x Hx) as Hx'. rewrite (Hcs'' i _ Hx').
    f_equal. destruct (decide (i = m)) as [->|].
    - rewrite decide_True by lia. by simplify_eq.
    - destruct (decide (i < m)); [rewrite (decide_True _ _ (P := i < S m)) by lia; done|].
      by rewrite decide_False by lia. }
  unfold advanced in Hgen. rewrite Hb in Hgen.
  assert (∀ i x, cs' !! i = Some x → cs' !! i = Some (if decide (i = m) then c else x)) as Hsame.
  { intros i x Hx. rewrite Hx. case_decide; [|done]. by simplify_eq. }
  destruct (b_entries b !! c) as [e|] eqn:He; cbn [fmap option_fmap option_map].
  2: { exists cs'. split; [done|]. split; [done|]. by apply (Hgen c eq_refl). }
  destruct (bytes_eqb (key_of e) k) eqn:Ek.
  - apply bytes_eqb_true in Ek. unfold index, assign. rewrite Hc'. mred.
    rewrite (proj2 (Nat.ltb_lt _ _)) by (by eapply lookup_lt_Some).
    eexists. split; [done|]. split; [by rewrite length_insert|].
    apply (Hgen (S c)); [by rewrite decide_True|]. intros i x Hx.
    destruct (decide (i = m)) as [->|Him].
    + rewrite list_lookup_insert_eq by (by eapply lookup_lt_Some). f_equal. lia.
    + by rewrite list_lookup_insert_ne by done.
  - exists cs'. split; [done|]. split; [done|]. apply (Hgen c); [|done].
    rewrite decide_False; [done|]. intros Hk. apply bytes_eqb_true in Hk. congruence.
Qed.

(** *** What one [next] does to the entries ahead *)
Definition drop_key (k : list byte) (r : list DiskEntry) : list DiskEntry :=
  match r with
  | e :: r' => if decide (key_of e = k) then r' else r
  | [] => []
  end.

Lemma rests_lookup bs cs i b c :
  bs !! i = Some b → cs !! i = Some c → rests bs cs !! i = Some (drop c (b_entries b)).
Proof. intros Hb Hc. unfold rests. rewrite lookup_zip_with, Hb. cbn. by rewrite Hc. Qed.

Lemma rests_lookup_inv bs cs i r :
  rests bs cs !! i = Some r → ∃ b c, bs !! i = Some b ∧ cs !! i = Some c ∧ r = drop c (b_entries b).
Proof.
  unfold rests. intros (b & c & Hr & Hb & Hc)%lookup_zip_with_Some. by exists b, c.
Qed.

Lemma drop_cons_lookup {A} (l : list A) c x r : drop c l = x :: r → l !! c = Some x ∧ r = drop (S c) l.
Proof.
  intros H. assert (l !! c = Some x) as Hc.
  { rewrite <- (Nat.add_0_r c), <- lookup_drop, H. done. }
  split; [done|]. rewrite (drop_S _ _ _ Hc) in H. by simplify_eq.
Qed.

Lemma drop_nil_lookup {A} (l : list A) c : l !! c = None → drop c l = [].
Proof. intros H. apply drop_ge. by apply lookup_ge_None. Qed.

(** A run's head under the cursor. *)
Lemma rests_stands bs cs i e r :
  rests bs cs !! i = Some (e :: r) → stands_on bs cs i e.
Proof.
  intros (b & c & Hb & Hc & Hd)%rests_lookup_inv. symmetry in Hd.
  apply drop_cons_lookup in Hd as [He _]. by exists b, c.
Qed.

Lemma rests_advanced bs cs cs' k :
  length cs' = length cs →
  (∀ i c, cs !! i = Some c → i < length bs → cs' !! i = Some (advanced bs k i c)) →
  rests bs cs' = drop_key k <$> rests bs cs.
Proof.
  intros Hl Hadv. apply list_eq. intros i. rewrite list_lookup_fmap.
  destruct (bs !! i) as [b|] eqn:Hb.
  2: { unfold rests. by rewrite !lookup_zip_with, Hb. }
  destruct (cs !! i) as [c|] eqn:Hc.
  2: { assert (cs' !! i = None) as Hc' by (apply lookup_ge_None in Hc; apply lookup_ge_None; lia).
       unfold rests. by rewrite !lookup_zip_with, Hb; cbn; rewrite Hc, Hc'. }
  pose proof (Hadv i c Hc (lookup_lt_Some _ _ _ Hb)) as Hc'.
  rewrite (rests_lookup _ _ _ _ _ Hb Hc), (rests_lookup _ _ _ _ _ Hb Hc').
  cbn [fmap option_fmap option_map]. f_equal. unfold advanced. rewrite Hb.
  destruct (b_entries b !! c) as [e|] eqn:He.
  - rewrite (drop_S _ _ _ He). cbn [drop_key]. case_decide; [done|]. by rewrite (drop_S _ _ _ He).
  - by rewrite (drop_nil_lookup _ _ He).
Qed.

Section step.
Context (rs : list (list DiskEntry)) (k : list byte).
Hypothesis rs_sorted : Forall keys_sorted rs.
Hypothesis rs_min : ∀ i e r, rs !! i = Some (e :: r) → ¬ key_of e ≺ k.

Lemma head_min i r e : rs !! i = Some r → e ∈ r → ¬ key_of e ≺ k.
Proof using rs_sorted rs_min.
  intros Hi He Hlt. destruct r as [|x r]; [by apply elem_of_nil in He|].
  pose proof (Forall_lookup_1 _ _ _ _ rs_sorted Hi) as Hs. apply keys_sorted_cons in Hs as [Hx _].
  apply elem_of_cons in He as [->|He]; [by eapply rs_min|].
  apply (rs_min i x r Hi). eapply bytes_lt_trans; [|exact Hlt].
  by apply (proj1 (Forall_forall _ _) Hx).
Qed.

Lemma drop_key_above i r e : rs !! i = Some r → e ∈ drop_key k r → k ≺ key_of e.
Proof using rs_sorted rs_min.
  intros Hi He. pose proof (Forall_lookup_1 _ _ _ _ rs_sorted Hi) as Hs.
  destruct r as [|x r]; cbn [drop_key] in He; [by apply elem_of_nil in He|].
  apply keys_sorted_cons in Hs as [Hx _]. case_decide as Hk.
  - rewrite <- Hk. by apply (proj1 (Forall_forall _ _) Hx).
  - assert (k ≺ key_of x) as Hkx.
    { destruct (proj1 (bytes_not_lt _ _) (rs_min i x r Hi)) as [|]; [done|done]. }
    apply elem_of_cons in He as [->|He]; [done|].
    eapply bytes_lt_trans; [done|]. by apply (proj1 (Forall_forall _ _) Hx).
Qed.

Lemma drop_key_assoc i r k' :
  rs !! i = Some r → assoc k' (drop_key k r) = if decide (k' = k) then None else assoc k' r.
Proof using rs_sorted rs_min.
  intros Hi. case_decide as Hk.
  - subst k'. apply assoc_None. intros j e He Hke.
    pose proof (drop_key_above i r e Hi (list_elem_of_lookup_2 _ _ _ He)) as Hlt.
    rewrite Hke in Hlt. by apply bytes_lt_irrefl in Hlt.
  - destruct r as [|x r]; cbn [drop_key assoc]; [done|]. case_decide as Hx; [|done].
    by rewrite decide_False by congruence.
Qed.

Lemma drop_key_sorted : Forall keys_sorted (drop_key k <$> rs).
Proof using rs_sorted.
  apply Forall_fmap. eapply Forall_impl; [exact rs_sorted|]. intros [|x r] Hs; cbn; [done|].
  case_decide; [|done]. by apply keys_sorted_cons in Hs as [_ ?].
Qed.

Lemma drop_key_view k' :
  view_lists (drop_key k <$> rs) k' = if decide (k' = k) then None else view_lists rs k'.
Proof using rs_sorted rs_min.
  case_decide as Hk.
  - apply view_lists_None. intros i r Hr. rewrite list_lookup_fmap in Hr.
    destruct (rs !! i) as [r0|] eqn:Hi; simplify_eq/=.
    rewrite (drop_key_assoc i r0 k Hi). by rewrite decide_True.
  - apply view_lists_ext. apply Forall2_fmap_l. apply Forall_Forall2_diag.
    apply Forall_lookup. intros i r Hi. unfold compose. rewrite (drop_key_assoc i r k' Hi).
    by rewrite decide_False.
Qed.
End step.

(** [next], on a represented iterator: exhausted, or the smallest key ahead. *)
Lemma merged_next_spec it bs cs :
  iter_rep it bs cs → runs_wf bs →
  (merged_next it = Ok None ∧ ∀ i r, rests bs cs !! i = Some r → r = []) ∨
  (∃ w c b e it' cs', merged_next it = Ok (Some ((w, c), it')) ∧ iter_rep it' bs cs' ∧
     bs !! w = Some b ∧ b_entries b !! c = Some e ∧
     rests bs cs' = drop_key (key_of e) <$> rests bs cs ∧
     rests bs cs !! w = Some (e :: drop (S c) (b_entries b)) ∧
     (∀ i e' r, rests bs cs !! i = Some (e' :: r) →
        ¬ key_of e' ≺ key_of e ∧ (w < i → key_of e' ≠ key_of e))).
Proof.
  intros Hi Hw. unfold merged_next. rewrite (ir_count _ _ _ Hi).
  destruct (best_fold_ok it bs cs (length bs) Hi Hw) as (r & E & Hr); [done|].
  rewrite E. mred. destruct r as [[[w s] k]|]; cbn [best_ok] in Hr; [right|left].
  - destruct Hr as (Hwl & (e & (b & c & Hb & Hc & He) & Hk) & _ & Hall). subst k.
    rewrite (ir_cursors _ _ _ Hi). unfold index. rewrite Hc. mred.
    destruct (advance_fold_ok it bs cs (key_of e) (length bs) Hi) as (cs' & E' & Hl & Hadv); [done|].
    rewrite E'. mred. exists w, c, b, e. do 2 eexists. split; [done|]. split_and!.
    + split; cbn; [apply Hi|apply Hi|done| |apply Hi|apply Hi]. rewrite Hl. apply Hi.
    + done.
    + done.
    + apply rests_advanced; [done|]. intros i c0 Hc0 Hlt. rewrite (Hadv i c0 Hc0).
      by rewrite decide_True.
    + rewrite (rests_lookup _ _ _ _ _ Hb Hc). by rewrite (drop_S _ _ _ He).
    + intros i e' r Hr. apply Hall.
      * apply rests_lookup_inv in Hr as (b' & ? & Hb' & _). by eapply lookup_lt_Some.
      * by eapply rests_stands.
  - split; [done|]. intros i r Hrr. destruct r as [|e r]; [done|]. exfalso.
    apply (Hr i e); [|by eapply rests_stands].
    apply rests_lookup_inv in Hrr as (b' & ? & Hb' & _). by eapply lookup_lt_Some.
Qed.

(** [for] with [break] over an already merged list. *)
Fixpoint for_break {B} (f : B → nat * nat → res (bool * B)) (acc : B) (ps : list (nat * nat)) : res B :=
  match ps with
  | [] => Ok acc
  | p :: ps =>
      '(go, acc') ← f acc p;
      if go : bool then for_break f acc' ps else Ok acc'
  end.

Definition ahead (rs : list (list DiskEntry)) : nat := sum_list_with length rs.

Lemma ahead_le rs k : ahead (drop_key k <$> rs) ≤ ahead rs.
Proof.
  unfold ahead. induction rs as [|[|x r] rs IH]; cbn [fmap list_fmap drop_key sum_list_with length] in *; [lia|lia|].
  case_decide; cbn [length]; lia.
Qed.

Lemma ahead_lt rs w e r : rs !! w = Some (e :: r) → ahead (drop_key (key_of e) <$> rs) < ahead rs.
Proof.
  revert w. induction rs as [|r0 rs IH]; intros [|w] Hw; [done|done| |].
  - assert (r0 = e :: r) as -> by (cbn in Hw; congruence).
    pose proof (ahead_le rs (key_of e)). unfold ahead in *.
    cbn [fmap list_fmap drop_key sum_list_with]. rewrite decide_True by done. cbn [length]. lia.
  - pose proof (IH w Hw) as IH'. unfold ahead in *. cbn [fmap list_fmap sum_list_with].
    enough (length (drop_key (key_of e) r0) ≤ length r0) by lia.
    destruct r0 as [|x r0]; cbn [drop_key length]; [lia|]. case_decide; cbn [length]; lia.
Qed.

(** [ps] lists positions of the entries [es]. *)
Definition positions (bs : list bset) (ps : list (nat * nat)) (es : list DiskEntry) : Prop :=
  Forall2 (λ p e, ∃ b, bs !! p.1 = Some b ∧ b_entries b !! p.2 = Some e) ps es.

Lemma merged_for_spec it bs cs :
  iter_rep it bs cs → runs_wf bs → Forall keys_sorted (rests bs cs) →
  ∃ ps es, positions bs ps es ∧ keys_sorted es ∧ (∀ k, assoc k es = view_lists (rests bs cs) k) ∧
    ∀ B fuel (f : B → nat * nat → res (bool * B)) acc,
      ahead (rests bs cs) < fuel → merged_for fuel it f acc = for_break f acc ps.
Proof.
  remember (ahead (rests bs cs)) as m eqn:Hm. revert it cs Hm.
  induction (lt_wf m) as [m _ IH]. intros it cs Hm Hi Hw Hs.
  destruct (merged_next_spec it bs cs Hi Hw) as
    [[E Hnil]|(w & c & b & e & it' & cs' & E & Hi' & Hb & He & Hrs & Hwr & Hall)].
  - exists [], []. split_and!; [constructor|constructor| |].
    + intros k. symmetry. apply view_lists_None. intros i r Hr. by rewrite (Hnil i r Hr).
    + intros B [|fuel] f acc Hf; [lia|]. cbn [merged_for]. rewrite E. done.
  - assert (ahead (rests bs cs') < m) as Hlt by (rewrite Hrs, Hm; by eapply ahead_lt).
    assert (∀ i x r, rests bs cs !! i = Some (x :: r) → ¬ key_of x ≺ key_of e) as Hmin
      by (intros i x r Hx; by apply (Hall i x r)).
    destruct (IH _ Hlt it' cs' eq_refl Hi' Hw) as (ps & es & Hps & Hes & Hview & Hfor).
    { rewrite Hrs. by apply drop_key_sorted. }
    exists ((w, c) :: ps), (e :: es). split_and!.
    + constructor; [|done]. by exists b.
    + apply keys_sorted_cons. split; [|done]. apply Forall_lookup. intros i x Hx.
      assert (assoc (key_of x) es = Some x) as Hax by (apply assoc_Some; eauto).
      rewrite Hview in Hax.
      destruct (decide (key_of x = key_of e)) as [Heq|Hne].
      * exfalso. rewrite Hrs, drop_key_view in Hax by done. rewrite decide_True in Hax by done. done.
      * destruct (view_lists_None (rests bs cs') (key_of x)) as [_ Hnone].
        destruct (bytes_trichotomy (key_of e) (key_of x)) as [|[?|Hgt]]; [done|congruence|].
        exfalso. rewrite Hnone in Hax; [done|]. intros j r Hr.
        rewrite Hrs, list_lookup_fmap in Hr.
        destruct (rests bs cs !! j) as [r0|] eqn:Hr0; [|done]. injection Hr as <-.
        apply assoc_None. intros q y Hy Hyx.
        apply (bytes_lt_irrefl (key_of e)). eapply bytes_lt_trans; [|exact Hgt].
        rewrite <- Hyx. eapply (drop_key_above (rests bs cs)); [done|done|done|].
        by eapply list_elem_of_lookup_2.
    + intros k. cbn [assoc]. rewrite Hview, Hrs, drop_key_view by done.
      case_decide as Hk.
      * subst k. symmetry. eapply view_lists_Some; [exact Hwr| |].
        { cbn [assoc]. by rewrite decide_True. }
        intros j r' Hj Hr'. apply assoc_None. intros q y Hy Hyk.
        destruct r' as [|x r']; [done|]. destruct (Hall j x r' Hr') as [Hn Hne]. specialize (Hne Hj).
        assert (key_of e ≺ key_of x) as Hex by (destruct (proj1 (bytes_not_lt _ _) Hn); [congruence|done]).
        pose proof (Forall_lookup_1 _ _ _ _ Hs Hr') as Hsr. apply keys_sorted_cons in Hsr as [Hxr _].
        destruct q as [|q]; [cbn in Hy; congruence|].
        apply (bytes_lt_irrefl (key_of e)). rewrite <- Hyk at 2. eapply bytes_lt_trans; [exact Hex|].
        by apply (Forall_lookup_1 _ _ q _ Hxr).
      * by rewrite decide_False by congruence.
    + intros B [|fuel] f acc Hf; [lia|]. cbn [merged_for for_break]. rewrite E. mred.
      destruct (f acc (w, c)) as [[[] acc']|?| |]; mred; [|done..]. apply Hfor. lia.
Qed.

(** The body bounds the number of entries a represented node holds. *)
Lemma rep_total_le n bs : node_rep n bs → total_entries bs ≤ 29.
Proof.
  intros Hr. pose proof (rep_len _ _ Hr) as Hl. destruct (rep_body _ _ Hr) as [tail Ht].
  rewrite Ht, length_app, length_enc_bsets, bsets_size_total in Hl by apply (rep_wf _ _ Hr).
  consts. lia.
Qed.

Lemma iter_new_prefix n bs m :
  node_rep n bs → m ≤ length bs →
  ∃ lens seqs, foldO (λ '(lens, seqs) b,
      h ← bset_header n b;
      lens' ← assign lens b (Z.to_nat (bh_nkeys h));
      seqs' ← assign seqs b (bh_seq h);
      Ok (lens', seqs'))
    (replicate BSET_TREE_NR_MAX 0, replicate BSET_TREE_NR_MAX 0%Z) (seq 0 m) = Ok (lens, seqs) ∧
    length lens = BSET_TREE_NR_MAX ∧ length seqs = BSET_TREE_NR_MAX ∧
    ∀ i b, i < m → bs !! i = Some b →
      lens !! i = Some (length (b_entries b)) ∧ seqs !! i = Some (b_seq b).
Proof.
  intros Hr. induction m as [|m IH]; intros Hm.
  { do 2 eexists. split; [done|]. split_and!; [done|done|]. intros. lia. }
  destruct IH as (lens & seqs & E & Hl & Hs & Hall); [lia|]. rewrite foldO_seq_S, E. mred.
  destruct (lookup_lt_is_Some_2 bs m) as [b Hb]; [lia|].
  rewrite (bset_header_rep Hr m b Hb). mred. cbn [bset_hdr bh_nkeys bh_seq]. rewrite Nat2Z.id.
  pose proof (rep_max _ _ Hr). unfold assign.
  rewrite (proj2 (Nat.ltb_lt m (length lens))) by lia. mred.
  rewrite (proj2 (Nat.ltb_lt m (length seqs))) by lia. mred.
  do 2 eexists. split; [done|]. rewrite !length_insert. split_and!; [done|done|].
  intros i b' Hi Hb'. destruct (decide (i = m)) as [->|].
  - simplify_eq. by rewrite !list_lookup_insert_eq by lia.
  - rewrite !list_lookup_insert_ne by done. apply Hall; [lia|done].
Qed.

Lemma merged_iter_new_rep n bs :
  node_rep n bs → ∃ it, merged_iter_new n = Ok it ∧ iter_rep it bs (replicate BSET_TREE_NR_MAX 0).
Proof.
  intros Hr. destruct (iter_new_prefix n bs (length bs) Hr) as (lens & seqs & E & Hl & Hs & Hall); [done|].
  unfold merged_iter_new. rewrite (bset_count_rep Hr), E. mred. eexists. split; [done|].
  split; cbn [mi_node mi_bset_count mi_cursors mi_lens mi_seqs]; [done|done|done|..].
  - rewrite length_replicate. apply Hr.
  - intros i b Hb. apply Hall; [by eapply lookup_lt_Some|done].
  - intros i b Hb. apply Hall; [by eapply lookup_lt_Some|done].
Qed.

Lemma rests_start bs k : length bs ≤ k → rests bs (replicate k 0) = b_entries <$> bs.
Proof.
  revert k. induction bs as [|b bs IH]; intros [|k] Hk; cbn in *; [done|done|lia|].
  f_equal. apply IH. lia.
Qed.

(** The iterator over a whole leaf: it terminates within [merged_fuel], and
    every [for] loop over it is a loop over the merged list. *)
Lemma merged_all n bs :
  node_rep n bs → runs_wf bs →
  ∃ it ps es, merged_iter_new n = Ok it ∧ positions bs ps es ∧ keys_sorted es ∧
    (∀ k, assoc k es = view bs k) ∧
    ∀ B (f : B → nat * nat → res (bool * B)) acc, merged_for merged_fuel it f acc = for_break f acc ps.
Proof.
  intros Hr Hw. destruct (merged_iter_new_rep n bs Hr) as (it & E & Hi).
  assert (rests bs (replicate BSET_TREE_NR_MAX 0) = b_entries <$> bs) as Hrs
    by apply rests_start, (rep_max _ _ Hr).
  destruct (merged_for_spec it bs _ Hi Hw) as (ps & es & Hps & Hs & Hv & Hf).
  { rewrite Hrs. apply Forall_fmap. apply Hw. }
  rewrite Hrs in Hv, Hf. exists it, ps, es. split_and!; [done|done|done|done|].
  intros B f acc. apply Hf. pose proof (rep_total_le n bs Hr).
  unfold ahead, merged_fuel. rewrite MAX_ENTRIES_eq. consts.
  enough (sum_list_with length (b_entries <$> bs) = total_entries bs) by lia.
  unfold total_entries. clear. induction bs; cbn; [done|]. lia.
Qed.

Lemma for_break_append ps acc :
  for_break (λ acc p, Ok (true, acc ++ [p])) acc ps = Ok (acc ++ ps).
Proof.
  revert acc. induction ps as [|p ps IH]; intros acc; cbn [for_break]; [by rewrite app_nil_r|].
  mred. rewrite IH, <- app_assoc. done.
Qed.

Lemma merged_collect_ok n bs :
  node_rep n bs → runs_wf bs →
  ∃ ps es, merged_collect n = Ok ps ∧ positions bs ps es ∧ keys_sorted es ∧ ∀ k, assoc k es = view bs k.
Proof.
  intros Hr Hw. destruct (merged_all n bs Hr Hw) as (it & ps & es & E & Hps & Hs & Hv & Hf).
  exists ps, es. unfold merged_collect. rewrite E. mred. by rewrite Hf, for_break_append.
Qed.

(** A strictly sorted list is determined by what it associates with each key. *)
Lemma keys_sorted_unique es1 es2 :
  keys_sorted es1 → keys_sorted es2 → (∀ k, assoc k es1 = assoc k es2) → es1 = es2.
Proof.
  revert es2. induction es1 as [|x es1 IH]; intros [|y es2] H1 H2 Hk.
  - done.
  - specialize (Hk (key_of y)). cbn in Hk. by rewrite decide_True in Hk.
  - specialize (Hk (key_of x)). cbn in Hk. by rewrite decide_True in Hk.
  - pose proof H1 as [Hx H1']%keys_sorted_cons. pose proof H2 as [Hy H2']%keys_sorted_cons.
    assert (x = y) as ->.
    { pose proof (Hk (key_of x)) as Ex. pose proof (Hk (key_of y)) as Ey. cbn [assoc] in Ex, Ey.
      rewrite decide_True in Ex by done. rewrite (decide_True _ _ (P := key_of y = key_of y)) in Ey by done.
      case_decide as D1; [congruence|]. case_decide as D2; [congruence|]. exfalso.
      symmetry in Ex. apply assoc_key in Ex as [_ Ex]. apply assoc_key in Ey as [_ Ey].
      apply (bytes_lt_irrefl (key_of x)). eapply bytes_lt_trans.
      - by apply (proj1 (Forall_forall _ _) Hx).
      - by apply (proj1 (Forall_forall _ _) Hy). }
    f_equal. apply IH; [done|done|]. intros k. specialize (Hk k). cbn [assoc] in Hk.
    case_decide as D; [|done].
    assert (∀ es, Forall (λ z, key_of y ≺ key_of z) es → assoc k es = None) as Hn.
    { intros es Hes. apply assoc_None. intros i z Hz Hzk.
      pose proof (Forall_lookup_1 _ _ _ _ Hes Hz) as Hlt. cbn in Hlt.
      rewrite D, Hzk in Hlt. by apply bytes_lt_irrefl in Hlt. }
    by rewrite !Hn.
Qed.

(** ** Properties *)

(** Cross-run lookup. [merged_find] returns, for every key, the position of
    the copy in the newest run that holds it, and nothing when no run does. *)
Theorem merged_find_newest_wins n bs k :
  node_rep n bs → runs_wf bs → ∃ r, merged_find n k = Ok r ∧ hit_ok bs k r.
Proof. apply merged_find_spec. Qed.

(** C30: the k-way merged iterator terminates and yields each stored key once, in
    strictly ascending order, always at the position of its newest copy. *)
Theorem merged_iterator_is_sorted_view n bs :
  node_rep n bs → runs_wf bs →
  ∃ ps es, merged_collect n = Ok ps ∧ positions bs ps es ∧ keys_sorted es ∧
    ∀ k, assoc k es = view bs k.
Proof. apply merged_collect_ok. Qed.

