(* ===== verification/Storage.v ===== *)
(** * Storage: superblock, journal frames and the block store (src/storage.rs).

    [BlockStore] is the cache and allocator over a [BlockDevice]; its methods
    are state-passing computations that keep the state they reached when they
    fail. The CRC is third-party code: it is the parameter [crc32]. *)
From Stdlib Require Import Strings.Byte.
From stdpp Require Import base list numbers gmap.
From S2P Require Import Prelude Device BlockBtree.
#[local] Open Scope Z_scope.

(** [crc32fast::hash], a function from bytes to a [u32]. *)
Class Crc32 : Type := crc32 : list byte → Z.
Class Crc32Range `{Crc32} : Prop := crc32_range bs : in_width 32 (crc32 bs).

Definition SUPERBLOCK_BLOCK_NR : Z := 0.
Definition JOURNAL_MAGIC : Z := 0x524A4E4C.
Definition JOURNAL_BLOCKS : Z := 64.
Definition FIRST_JOURNAL_BLOCK : Z := 1.
Definition ENTRIES_PER_BLOCK : Z := 16.
Definition JOURNAL_CAPACITY : Z := JOURNAL_BLOCKS * ENTRIES_PER_BLOCK.
Definition FIRST_DATA_BLOCK_NR : Z := FIRST_JOURNAL_BLOCK + JOURNAL_BLOCKS.
Definition SUPERBLOCK_MAGIC : Z := 0x52465342.
Definition SUPERBLOCK_VERSION : Z := 4.
Definition JOURNAL_FRAME_SIZE : Z := 256.
Definition JOURNAL_OP_CAPACITY : nat := 184.
Definition BLOCK_BYTES : Z := 4096.

(** The bytes of one little-endian field at [off]. *)
Definition field (bs : list byte) (off width : nat) : Z := from_le (take width (drop off bs)).

(** ** Superblock *)
Record Superblock : Type := {
  sb_magic : Z;
  sb_version : Z;
  sb_root_block : Z;
  sb_next_block_nr : Z;
  sb_next_bset_seq : Z;
  sb_next_ino : Z;
  sb_journal_seq : Z;
  sb_next_snap_id : Z;
  sb_next_subvol_id : Z;
  sb_current_subvol : Z;
  sb_checksum : Z;
  sb_free_head : Z;
  sb_reserved : list byte;
}.

Definition RESERVED_BYTES : nat := (BLOCK_SIZE - 72)%nat.

Definition encode_superblock (sb : Superblock) : list byte :=
  to_le 4 (sb_magic sb) ++ to_le 4 (sb_version sb) ++ to_le 8 (sb_root_block sb)
  ++ to_le 8 (sb_next_block_nr sb) ++ to_le 8 (sb_next_bset_seq sb) ++ to_le 8 (sb_next_ino sb)
  ++ to_le 8 (sb_journal_seq sb) ++ to_le 4 (sb_next_snap_id sb) ++ to_le 4 (sb_next_subvol_id sb)
  ++ to_le 4 (sb_current_subvol sb) ++ to_le 4 (sb_checksum sb) ++ to_le 8 (sb_free_head sb)
  ++ sb_reserved sb.

Definition decode_superblock (bs : list byte) : Superblock := {|
  sb_magic := field bs 0 4;
  sb_version := field bs 4 4;
  sb_root_block := field bs 8 8;
  sb_next_block_nr := field bs 16 8;
  sb_next_bset_seq := field bs 24 8;
  sb_next_ino := field bs 32 8;
  sb_journal_seq := field bs 40 8;
  sb_next_snap_id := field bs 48 4;
  sb_next_subvol_id := field bs 52 4;
  sb_current_subvol := field bs 56 4;
  sb_checksum := field bs 60 4;
  sb_free_head := field bs 64 8;
  sb_reserved := drop 72 bs;
|}.

Definition sb_with_checksum (c : Z) (sb : Superblock) : Superblock := {|
  sb_magic := sb_magic sb; sb_version := sb_version sb; sb_root_block := sb_root_block sb;
  sb_next_block_nr := sb_next_block_nr sb; sb_next_bset_seq := sb_next_bset_seq sb;
  sb_next_ino := sb_next_ino sb; sb_journal_seq := sb_journal_seq sb;
  sb_next_snap_id := sb_next_snap_id sb; sb_next_subvol_id := sb_next_subvol_id sb;
  sb_current_subvol := sb_current_subvol sb; sb_checksum := c; sb_free_head := sb_free_head sb;
  sb_reserved := sb_reserved sb |}.

Definition superblock_fresh (root_block next_block_nr : Z) : Superblock := {|
  sb_magic := SUPERBLOCK_MAGIC; sb_version := SUPERBLOCK_VERSION; sb_root_block := root_block;
  sb_next_block_nr := next_block_nr; sb_next_bset_seq := 1; sb_next_ino := 0; sb_journal_seq := 0;
  sb_next_snap_id := U32_MAX - 1; sb_next_subvol_id := 1; sb_current_subvol := 0; sb_checksum := 0;
  sb_free_head := 0; sb_reserved := replicate RESERVED_BYTES Byte.x00 |}.

Section superblock.
Context `{Crc32}.

Definition sb_compute_checksum (sb : Superblock) : Z :=
  crc32 (encode_superblock (sb_with_checksum 0 sb)).

Definition sb_stamp_checksum (sb : Superblock) : Superblock :=
  let sb := sb_with_checksum 0 sb in sb_with_checksum (crc32 (encode_superblock sb)) sb.

Definition superblock_parse (bytes : list byte) : res Superblock :=
  if negb (length bytes =? BLOCK_SIZE)%nat then Err (Io (OtherIo SuperblockSizeMismatch)) else
  let sb := decode_superblock bytes in
  if negb (sb_magic sb =? SUPERBLOCK_MAGIC) then
    Err (BadMagic SUPERBLOCK_BLOCK_NR (sb_magic sb) SUPERBLOCK_MAGIC)
  else if negb (sb_version sb =? SUPERBLOCK_VERSION) then
    Err (Io (OtherIo (UnsupportedVersion (sb_version sb))))
  else if negb (sb_checksum sb =? sb_compute_checksum sb) then
    Err (ChecksumMismatch SUPERBLOCK_BLOCK_NR)
  else Ok sb.
End superblock.

(** ** Journal frames *)
Inductive FrameKind : Type := LoggedOp | CommitEnd.
#[export] Instance FrameKind_eq_dec : EqDecision FrameKind.
Proof. solve_decision. Defined.

Definition frame_kind_from_u8 (v : Z) : option FrameKind :=
  if decide (v = 1) then Some LoggedOp else if decide (v = 2) then Some CommitEnd else None.
Definition frame_kind_to_u8 (k : FrameKind) : Z := match k with LoggedOp => 1 | CommitEnd => 2 end.

Record JournalFrame : Type := {
  jf_magic : Z;
  jf_checksum : Z;
  jf_seq : Z;
  jf_frame_kind : Z;
  jf_op_kind : Z;
  jf_op_len : Z;
  jf_pad0 : list byte;
  jf_root_block : Z;
  jf_next_block_nr : Z;
  jf_next_bset_seq : Z;
  jf_next_ino : Z;
  jf_next_snap_id : Z;
  jf_next_subvol_id : Z;
  jf_current_subvol : Z;
  jf_pad1 : Z;
  jf_op_data : list byte;
}.

Definition encode_frame (f : JournalFrame) : list byte :=
  to_le 4 (jf_magic f) ++ to_le 4 (jf_checksum f) ++ to_le 8 (jf_seq f)
  ++ to_le 1 (jf_frame_kind f) ++ to_le 1 (jf_op_kind f) ++ to_le 2 (jf_op_len f) ++ jf_pad0 f
  ++ to_le 8 (jf_root_block f) ++ to_le 8 (jf_next_block_nr f) ++ to_le 8 (jf_next_bset_seq f)
  ++ to_le 8 (jf_next_ino f) ++ to_le 4 (jf_next_snap_id f) ++ to_le 4 (jf_next_subvol_id f)
  ++ to_le 4 (jf_current_subvol f) ++ to_le 4 (jf_pad1 f) ++ jf_op_data f.

Definition decode_frame (bs : list byte) : JournalFrame := {|
  jf_magic := field bs 0 4;
  jf_checksum := field bs 4 4;
  jf_seq := field bs 8 8;
  jf_frame_kind := field bs 16 1;
  jf_op_kind := field bs 17 1;
  jf_op_len := field bs 18 2;
  jf_pad0 := take 4 (drop 20 bs);
  jf_root_block := field bs 24 8;
  jf_next_block_nr := field bs 32 8;
  jf_next_bset_seq := field bs 40 8;
  jf_next_ino := field bs 48 8;
  jf_next_snap_id := field bs 56 4;
  jf_next_subvol_id := field bs 60 4;
  jf_current_subvol := field bs 64 4;
  jf_pad1 := field bs 68 4;
  jf_op_data := drop 72 bs;
|}.

Definition frame_new (seq : Z) (kind : FrameKind) : JournalFrame := {|
  jf_magic := JOURNAL_MAGIC; jf_checksum := 0; jf_seq := seq;
  jf_frame_kind := frame_kind_to_u8 kind; jf_op_kind := 0; jf_op_len := 0;
  jf_pad0 := replicate 4 Byte.x00; jf_root_block := 0; jf_next_block_nr := 0;
  jf_next_bset_seq := 0; jf_next_ino := 0; jf_next_snap_id := 0; jf_next_subvol_id := 0;
  jf_current_subvol := 0; jf_pad1 := 0; jf_op_data := replicate JOURNAL_OP_CAPACITY Byte.x00 |}.

Definition frame_with_op (op_kind op_len : Z) (op_data : list byte) (f : JournalFrame) : JournalFrame := {|
  jf_magic := jf_magic f; jf_checksum := jf_checksum f; jf_seq := jf_seq f;
  jf_frame_kind := jf_frame_kind f; jf_op_kind := op_kind; jf_op_len := op_len; jf_pad0 := jf_pad0 f;
  jf_root_block := jf_root_block f; jf_next_block_nr := jf_next_block_nr f;
  jf_next_bset_seq := jf_next_bset_seq f; jf_next_ino := jf_next_ino f;
  jf_next_snap_id := jf_next_snap_id f; jf_next_subvol_id := jf_next_subvol_id f;
  jf_current_subvol := jf_current_subvol f; jf_pad1 := jf_pad1 f; jf_op_data := op_data |}.

Definition frame_with_checksum (c : Z) (f : JournalFrame) : JournalFrame := {|
  jf_magic := jf_magic f; jf_checksum := c; jf_seq := jf_seq f;
  jf_frame_kind := jf_frame_kind f; jf_op_kind := jf_op_kind f; jf_op_len := jf_op_len f;
  jf_pad0 := jf_pad0 f;
  jf_root_block := jf_root_block f; jf_next_block_nr := jf_next_block_nr f;
  jf_next_bset_seq := jf_next_bset_seq f; jf_next_ino := jf_next_ino f;
  jf_next_snap_id := jf_next_snap_id f; jf_next_subvol_id := jf_next_subvol_id f;
  jf_current_subvol := jf_current_subvol f; jf_pad1 := jf_pad1 f; jf_op_data := jf_op_data f |}.

Definition logged_op (seq op_kind : Z) (data : list byte) : res JournalFrame :=
  _ ← assert_that (length data <=? JOURNAL_OP_CAPACITY)%nat;
  let f := frame_new seq LoggedOp in
  op_data ← splice (jf_op_data f) 0 data;
  Ok (frame_with_op op_kind (u16 (Z.of_nat (length data))) op_data f).

Definition commit_end (seq root_block next_block_nr next_bset_seq next_ino next_snap_id
    next_subvol_id current_subvol : Z) : JournalFrame :=
  let f := frame_new seq CommitEnd in {|
    jf_magic := jf_magic f; jf_checksum := jf_checksum f; jf_seq := jf_seq f;
    jf_frame_kind := jf_frame_kind f; jf_op_kind := jf_op_kind f; jf_op_len := jf_op_len f;
    jf_pad0 := jf_pad0 f; jf_root_block := root_block; jf_next_block_nr := next_block_nr;
    jf_next_bset_seq := next_bset_seq; jf_next_ino := next_ino; jf_next_snap_id := next_snap_id;
    jf_next_subvol_id := next_subvol_id; jf_current_subvol := current_subvol;
    jf_pad1 := jf_pad1 f; jf_op_data := jf_op_data f |}.

Definition frame_kind_of (f : JournalFrame) : option FrameKind := frame_kind_from_u8 (jf_frame_kind f).
Definition op_payload (f : JournalFrame) : res (list byte) :=
  slice (jf_op_data f) 0 (Z.to_nat (jf_op_len f)).

Section frames.
Context `{Crc32}.
Definition frame_compute_checksum (f : JournalFrame) : Z :=
  crc32 (encode_frame (frame_with_checksum 0 f)).
Definition frame_stamp_checksum (f : JournalFrame) : JournalFrame :=
  let f := frame_with_checksum 0 f in frame_with_checksum (crc32 (encode_frame f)) f.
Definition frame_is_valid (expected_seq : Z) (f : JournalFrame) : bool :=
  (jf_magic f =? JOURNAL_MAGIC) && (jf_seq f =? expected_seq)
  && bool_decide (is_Some (frame_kind_of f)) && (jf_checksum f =? frame_compute_checksum f).
End frames.

(** ** The block store *)
Record CachedNode : Type := { cn_node : BtreeNodeRaw; cn_dirty : bool }.

Record BlockStore (D : Type) : Type := {
  node_cache : gmap Z CachedNode;
  data_cache : gmap Z (list byte);
  next_block_nr : Z;
  free_list : list Z;
  last_chain_blocks : list Z;
  device : D;
  persistent : bool;
}.
Arguments node_cache {D}. Arguments data_cache {D}. Arguments next_block_nr {D}.
Arguments free_list {D}. Arguments last_chain_blocks {D}. Arguments device {D}.
Arguments persistent {D}.

(** A [Vec] used as a stack: [push] at the end, [pop] from the end. *)
Definition vec_pop {A} (l : list A) : option (A * list A) :=
  match last l with
  | Some x => Some (x, take (length l - 1) l)
  | None => None
  end.

(** [slice::chunks(k)]. *)
Fixpoint chunks_fuel {A} (fuel k : nat) (l : list A) : list (list A) :=
  match fuel, l with
  | S fuel, _ :: _ => take k l :: chunks_fuel fuel k (drop k l)
  | _, _ => []
  end.
Definition chunks {A} (k : nat) (l : list A) : list (list A) := chunks_fuel (length l) k l.

Definition FREE_CHAIN_ENTRIES : nat := ((BLOCK_SIZE - 16) / 8)%nat.

Section store.
Context {D : Type} `{!BlockDevice D} `{!Crc32}.
Abbreviation SM := (M (BlockStore D) error).

Definition with_device (d : D) (p : bool) : BlockStore D :=
  {| node_cache := ∅; data_cache := ∅; next_block_nr := FIRST_DATA_BLOCK_NR; free_list := [];
     last_chain_blocks := []; device := d; persistent := p |}.

Definition set_node_cache (c : gmap Z CachedNode) (s : BlockStore D) : BlockStore D :=
  {| node_cache := c; data_cache := data_cache s; next_block_nr := next_block_nr s;
     free_list := free_list s; last_chain_blocks := last_chain_blocks s; device := device s;
     persistent := persistent s |}.
Definition set_data_cache (c : gmap Z (list byte)) (s : BlockStore D) : BlockStore D :=
  {| node_cache := node_cache s; data_cache := c; next_block_nr := next_block_nr s;
     free_list := free_list s; last_chain_blocks := last_chain_blocks s; device := device s;
     persistent := persistent s |}.
Definition set_next_block_nr (n : Z) (s : BlockStore D) : BlockStore D :=
  {| node_cache := node_cache s; data_cache := data_cache s; next_block_nr := n;
     free_list := free_list s; last_chain_blocks := last_chain_blocks s; device := device s;
     persistent := persistent s |}.
Definition set_free_list (l : list Z) (s : BlockStore D) : BlockStore D :=
  {| node_cache := node_cache s; data_cache := data_cache s; next_block_nr := next_block_nr s;
     free_list := l; last_chain_blocks := last_chain_blocks s; device := device s;
     persistent := persistent s |}.
Definition set_chain_blocks (l : list Z) (s : BlockStore D) : BlockStore D :=
  {| node_cache := node_cache s; data_cache := data_cache s; next_block_nr := next_block_nr s;
     free_list := free_list s; last_chain_blocks := l; device := device s;
     persistent := persistent s |}.
Definition set_device (d : D) (s : BlockStore D) : BlockStore D :=
  {| node_cache := node_cache s; data_cache := data_cache s; next_block_nr := next_block_nr s;
     free_list := free_list s; last_chain_blocks := last_chain_blocks s; device := d;
     persistent := persistent s |}.

(** A device call under [?]: the [io::Error] becomes [Error::Io]. *)
Definition on_device {A} (c : M D io_error A) : SM A :=
  mapping_err Io (zoom device set_device c).
Definition device_read (len : nat) (off : Z) : SM (list byte) := λ s,
  (map_err Io (read_at len off (device s)), s).

Definition block_offset (nr : Z) : Z := u64 (nr * BLOCK_BYTES).

(** *** Allocation *)
Definition alloc : SM Z := λ s,
  match vec_pop (free_list s) with
  | Some (nr, l) => (Ok nr, set_free_list l s)
  | None => (Ok (next_block_nr s), set_next_block_nr (u64 (next_block_nr s + 1)) s)
  end.

Definition free (nr : Z) : SM unit :=
  _ ← modify (λ s, set_node_cache (delete nr (node_cache s)) s);
  _ ← modify (λ s, set_data_cache (delete nr (data_cache s)) s);
  modify (λ s, set_free_list (free_list s ++ [nr]) s).

Definition free_count (s : BlockStore D) : Z := Z.of_nat (length (free_list s)).
Definition free_list_snapshot (s : BlockStore D) : list Z := free_list s.
Definition chain_blocks_snapshot (s : BlockStore D) : list Z := last_chain_blocks s.

(** *** Node I/O *)
Definition node_crc (n : BtreeNodeRaw) : Z := crc32 (encode_node (set_checksum 0 n)).
Definition stamp_node (n : BtreeNodeRaw) : BtreeNodeRaw := set_checksum (node_crc n) n.

Definition verify_node_in_place (nr : Z) (n : BtreeNodeRaw) : res unit :=
  if negb (nh_magic (header n) =? MAGIC_NUMBER) then
    Err (BadMagic nr (nh_magic (header n)) MAGIC_NUMBER)
  else if negb (nh_checksum (header n) =? node_crc n) then Err (ChecksumMismatch nr)
  else Ok tt.

(** Fault a node in from the device: read, verify, publish it clean. *)
Definition fault_in (nr : Z) : SM BtreeNodeRaw :=
  bs ← device_read BLOCK_SIZE (block_offset nr);
  let node := decode_node bs in
  _ ← lift (verify_node_in_place nr node);
  _ ← modify (λ s, set_node_cache
        (<[nr := {| cn_node := node; cn_dirty := false |}]> (node_cache s)) s);
  mret node.

Definition with_node {R} (nr : Z) (f : BtreeNodeRaw → res R) : SM R :=
  c ← gets (λ s, node_cache s !! nr);
  match c with
  | Some c => lift (f (cn_node c))
  | None => node ← fault_in nr; lift (f node)
  end.

Definition with_node_mut {R} (nr : Z) (f : BtreeNodeRaw → res (BtreeNodeRaw * R)) : SM R :=
  c ← gets (λ s, node_cache s !! nr);
  node ← match c with
         | Some c => mret (cn_node c)
         | None => fault_in nr
         end;
  '(node', r) ← lift (f node);
  _ ← modify (λ s, set_node_cache
        (<[nr := {| cn_node := node'; cn_dirty := true |}]> (node_cache s)) s);
  mret r.

Definition with_cached_node {R} (nr : Z) (f : BtreeNodeRaw → bool → res R) : SM (option R) :=
  c ← gets (λ s, node_cache s !! nr);
  match c with
  | Some c => r ← lift (f (cn_node c) (cn_dirty c)); mret (Some r)
  | None => mret None
  end.

Definition write_node (nr : Z) (n : BtreeNodeRaw) : SM unit :=
  let copy := stamp_node n in
  _ ← on_device (write_at (encode_node copy) (block_offset nr));
  modify (λ s, set_node_cache
    (<[nr := {| cn_node := copy; cn_dirty := false |}]> (node_cache s)) s).

Definition flush_node (nr : Z) : SM unit :=
  c ← gets (λ s, node_cache s !! nr);
  match c with
  | None => mret tt
  | Some c =>
      if negb (cn_dirty c) then mret tt else
      let stamped := stamp_node (cn_node c) in
      _ ← modify (λ s, set_node_cache
            (<[nr := {| cn_node := stamped; cn_dirty := true |}]> (node_cache s)) s);
      _ ← on_device (write_at (encode_node stamped) (block_offset nr));
      modify (λ s, set_node_cache
            (<[nr := {| cn_node := stamped; cn_dirty := false |}]> (node_cache s)) s)
  end.

Definition flush_all : SM unit :=
  dirty ← gets (λ s, (filter (λ p, cn_dirty p.2 = true) (map_to_list (node_cache s))).*1);
  forM_ dirty flush_node.

(** *** Data blocks *)
Definition read_data (nr : Z) : SM (list byte) :=
  c ← gets (λ s, data_cache s !! nr);
  match c with
  | Some b => mret b
  | None =>
      bs ← device_read BLOCK_SIZE (block_offset nr);
      _ ← modify (λ s, set_data_cache (<[nr := bs]> (data_cache s)) s);
      mret bs
  end.

Definition write_data (nr : Z) (bytes : list byte) : SM unit :=
  _ ← on_device (write_at bytes (block_offset nr));
  modify (λ s, set_data_cache (<[nr := bytes]> (data_cache s)) s).

(** *** Superblock I/O *)
Definition write_superblock (sb : Superblock) : SM unit :=
  let sb := sb_stamp_checksum sb in
  on_device (write_at (encode_superblock sb) (block_offset SUPERBLOCK_BLOCK_NR)).

Definition read_superblock : SM Superblock :=
  buf ← device_read BLOCK_SIZE (block_offset SUPERBLOCK_BLOCK_NR);
  lift (superblock_parse buf).

Definition fsync : SM unit := on_device sync.

(** *** Free-list persistence *)

(** One chain block: [next: u64][n_entries: u64][entries...]. *)
Definition encode_chain_block (next : Z) (chunk : list Z) : res (list byte) :=
  let buf := replicate BLOCK_SIZE Byte.x00 in
  buf ← splice buf 0 (to_le 8 next);
  buf ← splice buf 8 (to_le 8 (Z.of_nat (length chunk)));
  foldO (λ buf '(i, entry), splice buf (16 + i * 8)%nat (to_le 8 entry)) buf
        (zip (seq 0 (length chunk)) chunk).

Definition persist_chunk '((head, chain) : Z * list Z) (chunk : list Z) : SM (Z * list Z) :=
  block_nr ← gets next_block_nr;
  _ ← modify (set_next_block_nr (u64 (block_nr + 1)));
  buf ← lift (encode_chain_block head chunk);
  _ ← write_data block_nr buf;
  mret (block_nr, chain ++ [block_nr]).

Definition persist_free_list : SM Z :=
  old_chain ← gets last_chain_blocks;
  _ ← modify (set_chain_blocks []);
  _ ← modify (λ s, set_free_list (free_list s ++ old_chain) s);
  list ← gets free_list;
  if (length list =? 0)%nat then mret 0 else
  '(head, chain_blocks) ← foldM persist_chunk (0, []) (chunks FREE_CHAIN_ENTRIES list);
  _ ← modify (set_chain_blocks chain_blocks);
  mret head.

Definition decode_chain_entries (buf : list byte) : res (list Z) :=
  n ← (from_le <$> slice buf 8 16);
  mapM (λ i, from_le <$> slice buf (16 + i * 8) (16 + i * 8 + 8))%nat
       (seq 0 (Z.to_nat (Z.min n (Z.of_nat FREE_CHAIN_ENTRIES)))).

(** The chain walk; a cyclic chain never terminates, hence the fuel. *)
Fixpoint load_chain (fuel : nat) (cur : Z) (list chain_blocks : list Z) : SM (Datatypes.list Z) :=
  match fuel with
  | O => out_of_fuel
  | S fuel =>
      if cur =? 0 then mret (list ++ chain_blocks) else
      let chain_blocks := chain_blocks ++ [cur] in
      buf ← read_data cur;
      next ← lift (from_le <$> slice buf 0 8);
      es ← lift (decode_chain_entries buf);
      load_chain fuel next (list ++ es) chain_blocks
  end.

Definition load_free_list (fuel : nat) (head : Z) : SM unit :=
  list ← load_chain fuel head [] [];
  modify (set_free_list list).
End store.

(** [BlockStore::in_memory] and the two image constructors. [open]/[create]
    of the path is the file system's; what they return is the device. *)
Definition in_memory : BlockStore MemDevice := with_device mem_new false.
Definition create_image : BlockStore FileDevice := with_device {| file := [] |} true.
Definition open_image (image : FileDevice) : BlockStore FileDevice := with_device image true.
