(* ===== verification/Journal.v ===== *)
(** * Journal: the write-ahead ring (src/journal.rs).

    The ring is a byte range of the device; a frame lives at the slot its
    sequence number selects. [scan_groups] recovers the complete commit groups
    from a start sequence, [next_seq_after_scan] where the next append goes. *)
From Stdlib Require Import Strings.Byte.
From stdpp Require Import base list numbers.
From S2P Require Import Prelude Device BlockBtree NodeRep Storage.
#[local] Open Scope Z_scope.

Record CommitGroup : Type := {
  cg_ops : list (Z * list byte);
  cg_end : JournalFrame;
}.

Definition frame_offset (seq : Z) : Z :=
  let ring_pos := seq mod JOURNAL_CAPACITY in
  let block_index := ring_pos / ENTRIES_PER_BLOCK + FIRST_JOURNAL_BLOCK in
  let slot_index := ring_pos mod ENTRIES_PER_BLOCK in
  block_index * BLOCK_BYTES + slot_index * JOURNAL_FRAME_SIZE.

Section journal.
Context {D : Type} `{!BlockDevice D} `{!Crc32}.

Definition append (f : JournalFrame) : M D error unit :=
  mapping_err Io (write_at (encode_frame f) (frame_offset (jf_seq f))).

Definition read_frame (seq : Z) (d : D) : res (option JournalFrame) :=
  bs ← map_err Io (read_at (Z.to_nat JOURNAL_FRAME_SIZE) (frame_offset seq) d);
  let frame := decode_frame bs in
  Ok (if frame_is_valid seq frame then Some frame else None).

(** The loop stops after a full ring of frames; [scan_fuel] covers it. *)
Definition scan_fuel : nat := S (Z.to_nat JOURNAL_CAPACITY).

Fixpoint scan_groups_loop (fuel : nat) (start_seq seq : Z) (d : D)
    (groups : list CommitGroup) (pending : list (Z * list byte)) : res (list CommitGroup) :=
  match fuel with
  | O => OutOfFuel
  | S fuel =>
      if JOURNAL_CAPACITY <=? u64 (seq - start_seq) then Ok groups else
      o ← read_frame seq d;
      match o with
      | None => Ok groups
      | Some frame =>
          match frame_kind_of frame with
          | Some LoggedOp =>
              payload ← op_payload frame;
              scan_groups_loop fuel start_seq (u64 (seq + 1)) d groups
                (pending ++ [(jf_op_kind frame, payload)])
          | Some CommitEnd =>
              scan_groups_loop fuel start_seq (u64 (seq + 1)) d
                (groups ++ [{| cg_ops := pending; cg_end := frame |}]) []
          | None => Ok groups
          end
      end
  end.
Definition scan_groups (start_seq : Z) (d : D) : res (list CommitGroup) :=
  scan_groups_loop scan_fuel start_seq start_seq d [] [].

Fixpoint next_seq_loop (fuel : nat) (start_seq seq last_group_end : Z) (d : D) : res Z :=
  match fuel with
  | O => OutOfFuel
  | S fuel =>
      if JOURNAL_CAPACITY <=? u64 (seq - start_seq) then Ok last_group_end else
      o ← read_frame seq d;
      match o with
      | None => Ok last_group_end
      | Some frame =>
          match frame_kind_of frame with
          | None => Ok last_group_end
          | Some k =>
              let seq := u64 (seq + 1) in
              next_seq_loop fuel start_seq seq
                (if decide (k = CommitEnd) then seq else last_group_end) d
          end
      end
  end.
Definition next_seq_after_scan (start_seq : Z) (d : D) : res Z :=
  next_seq_loop scan_fuel start_seq start_seq start_seq d.
End journal.

(** ** Frames on disk *)
Record frame_wf (f : JournalFrame) : Prop := {
  fwf_magic : in_width 32 (jf_magic f);
  fwf_checksum : in_width 32 (jf_checksum f);
  fwf_seq : in_width 64 (jf_seq f);
  fwf_kind : in_width 8 (jf_frame_kind f);
  fwf_op_kind : in_width 8 (jf_op_kind f);
  fwf_op_len : in_width 16 (jf_op_len f);
  fwf_pad0 : length (jf_pad0 f) = 4%nat;
  fwf_root : in_width 64 (jf_root_block f);
  fwf_nblk : in_width 64 (jf_next_block_nr f);
  fwf_nseq : in_width 64 (jf_next_bset_seq f);
  fwf_nino : in_width 64 (jf_next_ino f);
  fwf_nsnap : in_width 32 (jf_next_snap_id f);
  fwf_nsub : in_width 32 (jf_next_subvol_id f);
  fwf_cur : in_width 32 (jf_current_subvol f);
  fwf_pad1 : in_width 32 (jf_pad1 f);
  fwf_data : length (jf_op_data f) = JOURNAL_OP_CAPACITY;
}.

Lemma length_encode_frame f : frame_wf f → length (encode_frame f) = Z.to_nat JOURNAL_FRAME_SIZE.
Proof.
  intros []. unfold encode_frame. rewrite !length_app, !length_to_le, fwf_pad2, fwf_data0. done.
Qed.

Lemma decode_encode_frame f : frame_wf f → decode_frame (encode_frame f) = f.
Proof.
  destruct f as [mg ck sq fk ok ol p0 rb nb nq ni ns nv cu p1 od].
  intros []; cbn [jf_magic jf_checksum jf_seq jf_frame_kind jf_op_kind jf_op_len jf_pad0
    jf_root_block jf_next_block_nr jf_next_bset_seq jf_next_ino jf_next_snap_id
    jf_next_subvol_id jf_current_subvol jf_pad1 jf_op_data] in *.
  destruct p0 as [|a [|b [|c [|d [|]]]]]; try done.
  unfold decode_frame, encode_frame, field. f_equal;
    lazymatch goal with
    | |- from_le _ = ?z =>
        first [exact (from_to_le_small 8 z ltac:(assumption))
              |exact (from_to_le_small 4 z ltac:(assumption))
              |exact (from_to_le_small 2 z ltac:(assumption))
              |exact (from_to_le_small 1 z ltac:(assumption))]
    | _ => reflexivity
    end.
Qed.

Definition zero_checksum (f : JournalFrame) : JournalFrame := frame_with_checksum 0 f.

Section frames.
Context `{Crc32} `{!Crc32Range}.

Lemma stamp_wf f : frame_wf f → frame_wf (frame_stamp_checksum f).
Proof using All. intros []. split; cbn; done. Qed.

Lemma stamp_valid f :
  jf_magic f = JOURNAL_MAGIC → is_Some (frame_kind_of f) →
  frame_is_valid (jf_seq f) (frame_stamp_checksum f) = true.
Proof.
  intros Hm Hk. unfold frame_is_valid. cbn [frame_stamp_checksum frame_with_checksum jf_magic jf_seq].
  rewrite Hm, !Z.eqb_refl. cbn [andb].
  by rewrite bool_decide_eq_true_2 by done.
Qed.
End frames.

(** ** The ring *)
Lemma frame_offset_eq seq :
  frame_offset seq = BLOCK_BYTES + JOURNAL_FRAME_SIZE * (seq mod JOURNAL_CAPACITY).
Proof.
  unfold frame_offset, FIRST_JOURNAL_BLOCK, BLOCK_BYTES, JOURNAL_FRAME_SIZE, ENTRIES_PER_BLOCK.
  pose proof (Z.div_mod (seq mod JOURNAL_CAPACITY) 16). lia.
Qed.

Lemma ring_pos_range seq : 0 ≤ seq mod JOURNAL_CAPACITY < JOURNAL_CAPACITY.
Proof. apply Z.mod_pos_bound. done. Qed.

Lemma frame_offset_nonneg seq : 0 ≤ frame_offset seq.
Proof.
  rewrite frame_offset_eq. pose proof (ring_pos_range seq).
  unfold BLOCK_BYTES, JOURNAL_FRAME_SIZE. lia.
Qed.

Lemma frame_slots_disjoint s1 s2 :
  s1 mod JOURNAL_CAPACITY ≠ s2 mod JOURNAL_CAPACITY →
  ranges_disjoint (frame_offset s1) (Z.to_nat JOURNAL_FRAME_SIZE)
                  (frame_offset s2) (Z.to_nat JOURNAL_FRAME_SIZE).
Proof.
  intros Hne. unfold ranges_disjoint. rewrite !frame_offset_eq.
  unfold JOURNAL_FRAME_SIZE, BLOCK_BYTES. lia.
Qed.

Section ring.
Context {D : Type} `{!BlockDevice D} `{!BlockDeviceLaws D} `{!Crc32}.

(** A frame that [read_frame] will accept for its own sequence number. *)
Definition frame_ok (f : JournalFrame) : Prop :=
  frame_wf f ∧ frame_is_valid (jf_seq f) f = true.

Lemma append_Ok f d d' :
  append f d = (Ok tt, d') → write_at (encode_frame f) (frame_offset (jf_seq f)) d = (Ok tt, d').
Proof.
  unfold append, mapping_err. destruct (write_at _ _ d) as [[[]|e| |] dx]; cbn; congruence.
Qed.

Lemma read_frame_append_same f d d' :
  frame_ok f → append f d = (Ok tt, d') → read_frame (jf_seq f) d' = Ok (Some f).
Proof using All.
  intros [Hw Hv] Ha%append_Ok. unfold read_frame.
  pose proof (read_write_same _ _ _ _ (frame_offset_nonneg _) Ha) as Hr.
  rewrite length_encode_frame in Hr by done. rewrite Hr. cbn [map_err]. mred.
  by rewrite decode_encode_frame, Hv by done.
Qed.

(** An append leaves every other slot's bytes alone. *)
Lemma read_append_other f d d' s bs :
  frame_wf f → s mod JOURNAL_CAPACITY ≠ jf_seq f mod JOURNAL_CAPACITY →
  append f d = (Ok tt, d') →
  read_at (Z.to_nat JOURNAL_FRAME_SIZE) (frame_offset s) d = Ok bs →
  read_at (Z.to_nat JOURNAL_FRAME_SIZE) (frame_offset s) d' = Ok bs.
Proof using All.
  intros Hw Hne Ha%append_Ok Hr.
  eapply (read_write_disjoint d d' (encode_frame f) (frame_offset (jf_seq f)));
    [apply frame_offset_nonneg|apply frame_offset_nonneg| |done|done].
  rewrite length_encode_frame by done. by apply frame_slots_disjoint.
Qed.

Lemma read_frame_append_other f d d' s o :
  frame_wf f → s mod JOURNAL_CAPACITY ≠ jf_seq f mod JOURNAL_CAPACITY →
  append f d = (Ok tt, d') → read_frame s d = Ok o → read_frame s d' = Ok o.
Proof using All.
  intros Hw Hne Ha Hr. unfold read_frame in *.
  destruct (read_at _ (frame_offset s) d) as [bs|e| |] eqn:E; cbn [map_err] in Hr; try done.
  by rewrite (read_append_other f d d' s bs Hw Hne Ha E).
Qed.

(** A frame one full ring later lands in the same slot and evicts it. *)
Lemma read_frame_overwritten f d d' s :
  frame_ok f → s ≠ jf_seq f → s mod JOURNAL_CAPACITY = jf_seq f mod JOURNAL_CAPACITY →
  append f d = (Ok tt, d') → read_frame s d' = Ok None.
Proof using All.
  intros [Hw Hv] Hne Hm Ha%append_Ok. unfold read_frame.
  assert (frame_offset s = frame_offset (jf_seq f)) as -> by (by rewrite !frame_offset_eq, Hm).
  pose proof (read_write_same _ _ _ _ (frame_offset_nonneg _) Ha) as Hr.
  rewrite length_encode_frame in Hr by done. rewrite Hr. cbn [map_err]. mred.
  rewrite decode_encode_frame by done. unfold frame_is_valid.
  rewrite (proj2 (Z.eqb_neq _ _) (not_eq_sym Hne)), andb_false_r. done.
Qed.
End ring.

(** ** Reference: the commit groups spelled by a run of frames *)
Definition payload_of (f : JournalFrame) : list byte := take (Z.to_nat (jf_op_len f)) (jf_op_data f).

Fixpoint groups_from (fs : list JournalFrame) (pending : list (Z * list byte)) : list CommitGroup :=
  match fs with
  | [] => []
  | f :: fs =>
      match frame_kind_of f with
      | Some LoggedOp => groups_from fs (pending ++ [(jf_op_kind f, payload_of f)])
      | Some CommitEnd => {| cg_ops := pending; cg_end := f |} :: groups_from fs []
      | None => []
      end
  end.
Definition groups_of (fs : list JournalFrame) : list CommitGroup := groups_from fs [].

(** Frames up to and including the last [CommitEnd]. *)
Fixpoint committed_from (fs : list JournalFrame) (pos last : nat) : nat :=
  match fs with
  | [] => last
  | f :: fs =>
      match frame_kind_of f with
      | Some CommitEnd => committed_from fs (S pos) (S pos)
      | Some LoggedOp => committed_from fs (S pos) last
      | None => last
      end
  end.
Definition committed (fs : list JournalFrame) : nat := committed_from fs 0 0.

Lemma frame_valid_kind `{Crc32} s f : frame_is_valid s f = true → is_Some (frame_kind_of f) ∧ jf_seq f = s.
Proof.
  unfold frame_is_valid. intros H1. apply andb_true_iff in H1 as [H1 _].
  apply andb_true_iff in H1 as [H1 H2]. apply andb_true_iff in H1 as [_ H1].
  apply Z.eqb_eq in H1. by apply bool_decide_eq_true in H2.
Qed.

Lemma groups_from_app fs1 fs2 pending :
  Forall (λ f, is_Some (frame_kind_of f)) fs1 →
  ∃ rest, groups_from (fs1 ++ fs2) pending = groups_from fs1 pending ++ groups_from fs2 rest ∧
    (committed_from fs1 0 0 = length fs1 → (0 < length fs1)%nat → rest = []) ∧
    (fs1 = [] → rest = pending).
Proof.
  intros Hk. 
  assert (∀ p l, (l ≤ p)%nat → ∃ rest,
    groups_from (fs1 ++ fs2) pending = groups_from fs1 pending ++ groups_from fs2 rest ∧
    (committed_from fs1 p l = (p + length fs1)%nat → (0 < length fs1)%nat → rest = []) ∧
    (fs1 = [] → rest = pending)) as H.
  { revert pending. induction Hk as [|f fs1 [k Hf] _ IH]; intros pending p l Hl.
    { exists pending. split_and!; [done|cbn; lia|done]. }
    cbn [app groups_from committed_from length]. rewrite Hf. destruct k.
    - destruct (IH (pending ++ [(jf_op_kind f, payload_of f)]) (S p) l) as (rest & E & Hc & Hn); [lia|].
      exists rest. rewrite E. split_and!; [done| |done]. intros Hc' _.
      destruct fs1 as [|g fs1]; [cbn in Hc'; lia|]. apply Hc; [|cbn; lia]. rewrite Hc'. cbn. lia.
    - destruct (IH [] (S p) (S p)) as (rest & E & Hc & Hn); [lia|].
      exists rest. rewrite E. split_and!; [done| |done]. intros Hc' _.
      destruct fs1 as [|g fs1]; [by apply Hn|]. apply Hc; [|cbn; lia]. rewrite Hc'. cbn. lia. }
  apply (H 0%nat 0%nat). done.
Qed.

(** A run of logged ops with no [CommitEnd] contributes no group. *)
Lemma groups_from_ops ops pending :
  Forall (λ f, frame_kind_of f = Some LoggedOp) ops → groups_from ops pending = [].
Proof.
  intros H. revert pending. induction H as [|f ops Hf _ IH]; intros pending; cbn; [done|].
  by rewrite Hf, IH.
Qed.

Lemma groups_from_group ops e pending :
  Forall (λ f, frame_kind_of f = Some LoggedOp) ops → frame_kind_of e = Some CommitEnd →
  groups_from (ops ++ [e]) pending =
    [{| cg_ops := pending ++ ((λ f, (jf_op_kind f, payload_of f)) <$> ops); cg_end := e |}].
Proof.
  intros H He. revert pending. induction H as [|f ops Hf _ IH]; intros pending; cbn [app groups_from].
  - by rewrite He, app_nil_r.
  - by rewrite Hf, IH, <- app_assoc.
Qed.

(** ** The state of the ring *)
Section scan.
Context {D : Type} `{!BlockDevice D} `{!BlockDeviceLaws D} `{!Crc32}.

(** From [start], the ring holds exactly the frames [fs]; the slots after
    them carry nothing valid for their sequence numbers. *)
Record ring_state (d : D) (start : Z) (fs : list JournalFrame) : Prop := {
  rs_start : 0 ≤ start ∧ start + 2 * JOURNAL_CAPACITY < 2 ^ 64;
  rs_length : Z.of_nat (length fs) ≤ JOURNAL_CAPACITY;
  rs_frames i f : fs !! i = Some f →
    frame_ok f ∧ jf_op_len f ≤ 184 ∧ jf_seq f = start + Z.of_nat i ∧
    read_frame (start + Z.of_nat i) d = Ok (Some f);
  rs_ahead j : Z.of_nat (length fs) ≤ j < JOURNAL_CAPACITY →
    read_frame (start + j) d = Ok None;
}.

Lemma op_payload_ok f : frame_wf f → jf_op_len f ≤ 184 → op_payload f = Ok (payload_of f).
Proof.
  intros Hw Hl. unfold op_payload, payload_of, slice.
  rewrite (fwf_data _ Hw). unfold JOURNAL_OP_CAPACITY.
  rewrite (proj2 (Nat.leb_le 0 _)) by lia. rewrite (proj2 (Nat.leb_le _ 184)) by lia.
  cbn [andb]. by rewrite Nat.sub_0_r, drop_0.
Qed.

(** The scan loop, from any position of the run. *)
Lemma scan_loops d start fs1 fs2 fuel groups pending last :
  ring_state d start (fs1 ++ fs2) →
  (Z.to_nat JOURNAL_CAPACITY - length fs1 < fuel)%nat →
  scan_groups_loop fuel start (start + Z.of_nat (length fs1)) d groups pending
    = Ok (groups ++ groups_from fs2 pending) ∧
  next_seq_loop fuel start (start + Z.of_nat (length fs1)) (start + Z.of_nat last) d
    = Ok (start + Z.of_nat (committed_from fs2 (length fs1) last)).
Proof.
  revert fs1 fuel groups pending last.
  induction fs2 as [|f fs2 IH]; intros fs1 fuel groups pending last Hr Hf;
    (destruct fuel as [|fuel]; [lia|]); cbn [scan_groups_loop next_seq_loop].
  all: pose proof (rs_start _ _ _ Hr) as [Hs0 Hs1]; pose proof (rs_length _ _ _ Hr) as Hl.
  all: rewrite length_app in Hl.
  all: replace (u64 (start + Z.of_nat (length fs1) - start)) with (Z.of_nat (length fs1))
    by (symmetry; unfold u64; rewrite wrap_small; [lia|]; unfold in_width;
        unfold JOURNAL_CAPACITY, JOURNAL_BLOCKS, ENTRIES_PER_BLOCK in *; lia).
  - cbn [length] in Hl. destruct (Z.leb_spec JOURNAL_CAPACITY (Z.of_nat (length fs1))).
    { by rewrite app_nil_r. }
    rewrite (rs_ahead _ _ _ Hr) by (rewrite app_nil_r; lia). mred. cbn [groups_from committed_from].
    by rewrite app_nil_r.
  - cbn [length] in Hl. destruct (Z.leb_spec JOURNAL_CAPACITY (Z.of_nat (length fs1))); [lia|].
    destruct (rs_frames _ _ _ Hr (length fs1) f) as ([Hw Hv] & Hop & Hseq & Hrd).
    { by rewrite list_lookup_middle. }
    rewrite Hrd. mred. destruct (frame_valid_kind _ _ Hv) as [[k Hk] _]. rewrite Hk.
    replace (u64 (start + Z.of_nat (length fs1) + 1)) with (start + Z.of_nat (length (fs1 ++ [f]))).
    2: { symmetry. unfold u64. rewrite wrap_small, length_app; [cbn [length]; lia|].
         unfold in_width. unfold JOURNAL_CAPACITY, JOURNAL_BLOCKS, ENTRIES_PER_BLOCK in *. lia. }
    rewrite (cons_middle f fs1 fs2), app_assoc in Hr.
    assert (length (fs1 ++ [f]) = S (length fs1)) as Hlen by (rewrite length_app; cbn; lia).
    cbn [groups_from committed_from]. rewrite Hk. destruct k.
    + rewrite op_payload_ok by done. mred. cbn [decide].
      destruct (IH (fs1 ++ [f]) fuel groups (pending ++ [(jf_op_kind f, payload_of f)]) last Hr)
        as [E1 E2]; [lia|].
      rewrite E1. rewrite decide_False by done. by rewrite E2, Hlen.
    + destruct (IH (fs1 ++ [f]) fuel (groups ++ [{| cg_ops := pending; cg_end := f |}]) []
        (length (fs1 ++ [f])) Hr) as [E1 E2]; [lia|].
      rewrite E1, <- app_assoc. rewrite decide_True by done. by rewrite E2, Hlen.
Qed.

(** Recovery reads back exactly the groups the ring holds. *)
Lemma scan_ring d start fs :
  ring_state d start fs →
  scan_groups start d = Ok (groups_of fs) ∧
  next_seq_after_scan start d = Ok (start + Z.of_nat (committed fs)).
Proof.
  intros Hr. unfold scan_groups, next_seq_after_scan, groups_of, committed.
  pose proof (scan_loops d start [] fs scan_fuel [] [] 0 Hr) as Hscan.
  cbn [length app] in Hscan. rewrite Z.add_0_r in Hscan. apply Hscan. unfold scan_fuel. lia.
Qed.

(** Appending the next frame extends the run. *)
Lemma ring_append d d' start fs f :
  ring_state d start fs → Z.of_nat (length fs) < JOURNAL_CAPACITY →
  frame_ok f → jf_op_len f ≤ 184 → jf_seq f = start + Z.of_nat (length fs) →
  append f d = (Ok tt, d') → ring_state d' start (fs ++ [f]).
Proof using All.
  intros Hr Hlt Hok Hop Hseq Ha.
  assert (∀ j, 0 ≤ j < JOURNAL_CAPACITY → j ≠ Z.of_nat (length fs) →
    (start + j) mod JOURNAL_CAPACITY ≠ jf_seq f mod JOURNAL_CAPACITY) as Hslot.
  { intros j Hj Hne Hm. rewrite Hseq in Hm. unfold JOURNAL_CAPACITY, JOURNAL_BLOCKS, ENTRIES_PER_BLOCK in *.
    change (64 * 16) with 1024 in *.
    pose proof (Z.div_mod (start + j) 1024). pose proof (Z.div_mod (start + Z.of_nat (length fs)) 1024). lia. }
  split.
  - apply Hr.
  - rewrite length_app. cbn. lia.
  - intros i g Hg. destruct (decide (i < length fs)%nat).
    + rewrite lookup_app_l in Hg by done. destruct (rs_frames _ _ _ Hr i g Hg) as (?&?&?&?).
      split_and!; [done|done|done|]. eapply read_frame_append_other; [apply Hok| |done|done].
      apply Hslot; lia.
    + apply lookup_snoc_Some in Hg as [[? _]|[-> <-]]; [done|].
      split_and!; [done|done|done|]. rewrite <- Hseq. by eapply read_frame_append_same.
  - intros j Hj. rewrite length_app in Hj. cbn in Hj.
    eapply read_frame_append_other; [apply Hok|apply Hslot; lia|done|].
    apply (rs_ahead _ _ _ Hr). lia.
Qed.

(** A checkpoint moves the scan start past every frame: the ring is empty again. *)
Lemma ring_checkpoint d start fs :
  ring_state d start fs → start + Z.of_nat (length fs) + 2 * JOURNAL_CAPACITY < 2 ^ 64 →
  ring_state d (start + Z.of_nat (length fs)) [].
Proof.
  intros Hr Hs. pose proof (rs_start _ _ _ Hr). pose proof (rs_length _ _ _ Hr).
  split; cbn [length]; [lia|unfold JOURNAL_CAPACITY, JOURNAL_BLOCKS, ENTRIES_PER_BLOCK; lia|by intros|].
  intros j Hj. destruct (decide (Z.of_nat (length fs) + j < JOURNAL_CAPACITY)).
  - rewrite <- Z.add_assoc. apply (rs_ahead _ _ _ Hr). lia.
  - pose (i := Z.to_nat (Z.of_nat (length fs) + j - JOURNAL_CAPACITY)).
    assert (Z.of_nat i = Z.of_nat (length fs) + j - JOURNAL_CAPACITY) as Hi by (subst i; lia).
    clearbody i.
    destruct (lookup_lt_is_Some_2 fs i) as [f Hf]; [lia|].
    destruct (rs_frames _ _ _ Hr i f Hf) as (_ & _ & Hseq & Hrd).
    unfold read_frame in *.
    assert (frame_offset (start + Z.of_nat (length fs) + j) = frame_offset (start + Z.of_nat i)) as ->.
    { rewrite !frame_offset_eq. do 2 f_equal.
      replace (start + Z.of_nat (length fs) + j) with (start + Z.of_nat i + 1 * JOURNAL_CAPACITY) by lia.
      apply Z.mod_add. done. }
    destruct (read_at _ (frame_offset (start + Z.of_nat i)) d) as [bs|e| |]; cbn [map_err] in *; try done.
    mred. unfold mbind, outcome_bind in Hrd.
    destruct (frame_is_valid (start + Z.of_nat i) (decode_frame bs)) eqn:Ev; [|done].
    injection Hrd as Hd. rewrite Hd in *.
    destruct (frame_is_valid (start + Z.of_nat (length fs) + j) f) eqn:Ev2; [|done].
    apply frame_valid_kind in Ev2 as [_ Ev2]. exfalso.
    assert (0 < JOURNAL_CAPACITY) by done. lia.
Qed.

(** Appending a run of frames one by one. *)
Lemma ring_append_all d d' start fs gs :
  ring_state d start fs → Z.of_nat (length fs + length gs) ≤ JOURNAL_CAPACITY →
  (∀ i g, gs !! i = Some g → frame_ok g ∧ jf_op_len g ≤ 184 ∧
     jf_seq g = start + Z.of_nat (length fs + i)) →
  forM_ gs append d = (Ok tt, d') → ring_state d' start (fs ++ gs).
Proof using All.
  revert d fs. induction gs as [|g gs IH]; intros d fs Hr Hl Hg Ha.
  { injection Ha as <-. by rewrite app_nil_r. }
  cbn [forM_] in Ha. apply M_bind_Ok_inv in Ha as ([] & d1 & Ha1 & Ha2). cbn [length] in Hl.
  rewrite (cons_middle g fs gs), app_assoc.
  destruct (Hg 0%nat g eq_refl) as (? & ? & Hs).
  eapply (IH d1); [eapply ring_append; [exact Hr|lia|done|done| |done]|..].
  - rewrite Hs. f_equal. lia.
  - rewrite length_app. cbn. lia.
  - intros i g' Hi. destruct (Hg (S i) g' Hi) as (? & ? & Hs'). split_and!; [done|done|].
    rewrite Hs', length_app. cbn [length]. f_equal. lia.
  - done.
Qed.
End scan.

(** ** Commit groups and crashes *)

(** A run of whole groups: it is empty or its last frame is a [CommitEnd]. *)
Definition complete_run (fs : list JournalFrame) : Prop :=
  Forall (λ f, is_Some (frame_kind_of f)) fs ∧ committed fs = length fs.

Lemma committed_from_app fs1 fs2 p l :
  Forall (λ f, is_Some (frame_kind_of f)) fs1 →
  committed_from (fs1 ++ fs2) p l = committed_from fs2 (p + length fs1) (committed_from fs1 p l).
Proof.
  intros Hk. revert p l. induction Hk as [|f fs1 [k Hf] _ IH]; intros p l; cbn [app committed_from length].
  { by rewrite Nat.add_0_r. }
  rewrite Hf. destruct k; rewrite IH; f_equal; lia.
Qed.

Lemma committed_from_ops ops p l :
  Forall (λ f, frame_kind_of f = Some LoggedOp) ops → committed_from ops p l = l.
Proof. intros Ho. revert p. induction Ho as [|f ops Hf _ IH]; intros p; cbn; [done|]. by rewrite Hf. Qed.

Lemma groups_of_app fs1 fs2 :
  complete_run fs1 → groups_of (fs1 ++ fs2) = groups_of fs1 ++ groups_of fs2.
Proof.
  intros [Hk Hc]. unfold groups_of.
  destruct (groups_from_app fs1 fs2 [] Hk) as (rest & -> & Hr & Hn). do 2 f_equal.
  destruct fs1; [by apply Hn|]. apply Hr; [exact Hc|cbn; lia].
Qed.

Lemma ops_tail fs ops : complete_run fs → Forall (λ f, frame_kind_of f = Some LoggedOp) ops →
  groups_of (fs ++ ops) = groups_of fs ∧ committed (fs ++ ops) = length fs.
Proof.
  intros Hc Ho. rewrite groups_of_app by done. unfold groups_of at 2.
  rewrite groups_from_ops, app_nil_r by done. split; [done|].
  unfold committed. rewrite committed_from_app by apply Hc. rewrite committed_from_ops by done. apply Hc.
Qed.

Lemma group_tail fs ops e :
  complete_run fs → Forall (λ f, frame_kind_of f = Some LoggedOp) ops →
  frame_kind_of e = Some CommitEnd →
  groups_of (fs ++ ops ++ [e]) = groups_of fs ++
    [{| cg_ops := (λ f, (jf_op_kind f, payload_of f)) <$> ops; cg_end := e |}] ∧
  committed (fs ++ ops ++ [e]) = (length fs + length ops + 1)%nat.
Proof.
  intros Hc Ho He. rewrite groups_of_app by done. unfold groups_of at 2.
  rewrite groups_from_group by done. split; [done|].
  unfold committed. rewrite committed_from_app by apply Hc.
  rewrite committed_from_app by (eapply Forall_impl; [|exact Ho]; by intros f ->).
  cbn [committed_from]. rewrite He. lia.
Qed.

Section crash.
Context {D : Type} `{!BlockDevice D} `{!BlockDeviceLaws D} `{!Crc32}.

(** A torn write inside the slot of the next frame that the checksum catches
    leaves the run as it was. *)
Lemma ring_torn d d' start fs junk o :
  ring_state d start fs → Z.of_nat (length fs) < JOURNAL_CAPACITY →
  0 ≤ o → o + Z.of_nat (length junk) ≤ JOURNAL_FRAME_SIZE →
  write_at junk (frame_offset (start + Z.of_nat (length fs)) + o) d = (Ok tt, d') →
  read_frame (start + Z.of_nat (length fs)) d' = Ok None →
  ring_state d' start fs.
Proof using All.
  intros Hr Hlt Ho Hl Hw Hn.
  assert (∀ j r, 0 ≤ j < JOURNAL_CAPACITY → j ≠ Z.of_nat (length fs) →
    read_frame (start + j) d = Ok r → read_frame (start + j) d' = Ok r) as Hkeep.
  { intros j r Hj Hne Hrd. unfold read_frame in *.
    destruct (read_at _ (frame_offset (start + j)) d) as [bs|e| |] eqn:E; cbn [map_err] in Hrd; try done.
    rewrite (read_write_disjoint d d' junk (frame_offset (start + Z.of_nat (length fs)) + o)
      (Z.to_nat JOURNAL_FRAME_SIZE) (frame_offset (start + j)) bs); try done.
    - pose proof (frame_offset_nonneg (start + Z.of_nat (length fs))). lia.
    - apply frame_offset_nonneg.
    - destruct (frame_slots_disjoint (start + j) (start + Z.of_nat (length fs))) as [Hd|Hd].
      + unfold JOURNAL_CAPACITY, JOURNAL_BLOCKS, ENTRIES_PER_BLOCK in *.
        change (64 * 16) with 1024 in *.
        pose proof (Z.div_mod (start + j) 1024).
        pose proof (Z.div_mod (start + Z.of_nat (length fs)) 1024). lia.
      + right. rewrite Z2Nat.id in Hd by done. rewrite Z2Nat.id by done. lia.
      + left. rewrite Z2Nat.id in Hd by done. lia. }
  split; [apply Hr|apply Hr| |].
  - intros i g Hg. destruct (rs_frames _ _ _ Hr i g Hg) as (?&?&?&?).
    apply lookup_lt_Some in Hg. split_and!; [done..|]. apply Hkeep; [lia|lia|done].
  - intros j Hj. destruct (decide (j = Z.of_nat (length fs))) as [->|]; [done|].
    apply Hkeep; [lia|done|]. by apply (rs_ahead _ _ _ Hr).
Qed.

(** The frames of one commit group, numbered from where the run stands. *)
Definition group_frames (start : Z) (n : nat) (ops : list JournalFrame) (e : JournalFrame) : Prop :=
  Forall (λ f, frame_kind_of f = Some LoggedOp) ops ∧ frame_kind_of e = Some CommitEnd ∧
  ∀ i g, (ops ++ [e]) !! i = Some g →
    frame_ok g ∧ jf_op_len g ≤ 184 ∧ jf_seq g = start + Z.of_nat (n + i).

Lemma ring_append_prefix d d' start fs ops e k :
  ring_state d start fs → group_frames start (length fs) ops e →
  Z.of_nat (length fs + length ops + 1) ≤ JOURNAL_CAPACITY →
  forM_ (take k (ops ++ [e])) append d = (Ok tt, d') →
  ring_state d' start (fs ++ take k (ops ++ [e])).
Proof using All.
  intros Hr (_ & _ & Hg) Hl Ha. eapply ring_append_all; [done| | |done].
  - rewrite length_take, length_app. cbn. lia.
  - intros i g Hi. apply Hg. by apply lookup_take_Some in Hi as [Hi _].
Qed.

(** C25: crash atomicity of a commit. When power fails after any [k] frames of a
    group have been appended (and a torn write may have scribbled inside the
    slot of the next one, caught by its checksum), recovery sees only the
    groups committed before and appends will resume over the torn group. *)
Theorem crash_before_commit_end d d1 d2 start fs ops e k junk o :
  ring_state d start fs → complete_run fs → group_frames start (length fs) ops e →
  Z.of_nat (length fs + length ops + 1) ≤ JOURNAL_CAPACITY →
  (k ≤ length ops)%nat →
  forM_ (take k (ops ++ [e])) append d = (Ok tt, d1) →
  0 ≤ o → o + Z.of_nat (length junk) ≤ JOURNAL_FRAME_SIZE →
  write_at junk (frame_offset (start + Z.of_nat (length fs + k)) + o) d1 = (Ok tt, d2) →
  read_frame (start + Z.of_nat (length fs + k)) d2 = Ok None →
  scan_groups start d2 = Ok (groups_of fs) ∧
  next_seq_after_scan start d2 = Ok (start + Z.of_nat (length fs)).
Proof using All.
  intros Hr Hc Hg Hl Hk Ha Ho Hj Hw Hn.
  pose proof (ring_append_prefix _ _ _ _ _ _ _ Hr Hg Hl Ha) as Hr1.
  rewrite take_app_le in Hr1 by done.
  assert (length (fs ++ take k ops) = (length fs + k)%nat) as Hlen
    by (rewrite length_app, length_take; lia).
  rewrite <- Hlen in Hw, Hn.
  pose proof (ring_torn _ _ _ _ _ _ Hr1 ltac:(lia) Ho Hj Hw Hn) as Hr2.
  destruct (ops_tail fs (take k ops) Hc) as [E1 E2]; [by apply Forall_take, Hg|].
  apply scan_ring in Hr2. by rewrite E1, E2 in Hr2.
Qed.

(** Durability of a commit. Once the closing [CommitEnd] frame is in the
    ring, recovery returns the earlier groups followed by this one with its
    operations in order, and the next append goes after it. *)
Lemma commit_is_recovered d d' start fs ops e :
  ring_state d start fs → complete_run fs → group_frames start (length fs) ops e →
  Z.of_nat (length fs + length ops + 1) ≤ JOURNAL_CAPACITY →
  forM_ (ops ++ [e]) append d = (Ok tt, d') →
  scan_groups start d' = Ok (groups_of fs ++
    [{| cg_ops := (λ f, (jf_op_kind f, payload_of f)) <$> ops; cg_end := e |}]) ∧
  next_seq_after_scan start d' = Ok (start + Z.of_nat (length fs + length ops + 1)).
Proof using All.
  intros Hr Hc Hg Hl Ha.
  assert (take (length (ops ++ [e])) (ops ++ [e]) = ops ++ [e]) as Ht by (apply take_ge; lia).
  rewrite <- Ht in Ha. apply (ring_append_prefix _ _ _ _ _ _ _ Hr Hg Hl) in Ha.
  rewrite Ht in Ha. destruct (group_tail fs ops e Hc (proj1 Hg) (proj1 (proj2 Hg))) as [E1 E2].
  apply scan_ring in Ha. by rewrite E1, E2 in Ha.
Qed.

End crash.

(** ** Concrete instances *)

(** A checksum function for the concrete runs below. *)
Definition sum_crc : Crc32 := λ bs, u32 (foldr (λ b a, b2z b + a) 0 bs).

Lemma ring_fresh (c : Crc32) start :
  0 ≤ start → start + 2 * JOURNAL_CAPACITY < 2 ^ 64 → ring_state mem_new start [].
Proof. intros Hs0 Hs1. split; [done|done|done|]. intros j _. vm_compute. done. Qed.

Definition frame_op1 : JournalFrame := @frame_stamp_checksum sum_crc
  match logged_op 1 7 [Byte.x61; Byte.x62] with Ok f => f | _ => frame_new 1 LoggedOp end.
Definition frame_end2 : JournalFrame := @frame_stamp_checksum sum_crc (commit_end 2 65 66 1 1 4 1 0).

Lemma demo_frames : @group_frames sum_crc 1 0 [frame_op1] frame_end2.
Proof.
  split; [by repeat constructor|split; [done|]]. intros [|[|i]] g; cbn [app lookup]; [| |done];
    intros [= <-]; (split_and!; [split; [by repeat split|vm_compute; reflexivity]|done|done]).
Qed.

Definition demo_torn : MemDevice := (append frame_op1 mem_new).2.
Definition demo_torn' : MemDevice :=
  (write_at [Byte.x4c; Byte.x4e] (frame_offset 2) demo_torn).2.

Lemma crash_before_commit_end_witness :
  @scan_groups _ _ sum_crc 1 demo_torn' = Ok [] ∧
  @next_seq_after_scan _ _ sum_crc 1 demo_torn' = Ok 1.
Proof.
  apply (@crash_before_commit_end _ _ _ sum_crc mem_new demo_torn demo_torn' 1 []
    [frame_op1] frame_end2 1 [Byte.x4c; Byte.x4e] 0);
    [by apply ring_fresh|done|apply demo_frames|done|done|reflexivity|done|done
    |reflexivity|vm_compute; reflexivity].
Defined.

