(* ===== verification/StoreSpec.v ===== *)
(** * StoreSpec: what the block store promises (src/storage.rs).

    Nodes and superblocks written to the device read back verified, corrupted
    ones are refused, the allocator never hands out a block that is in use, and
    a persisted free list loads back. *)
From Stdlib Require Import Strings.Byte.
From stdpp Require Import base list numbers gmap sorting.
From S2P Require Import Prelude Device BlockBtree NodeRep Storage Journal.
#[local] Open Scope Z_scope.

(** ** Node images *)
Definition node_wf (n : BtreeNodeRaw) : Prop :=
  header_wf (header n) ∧ length (body n) = BODY_SIZE.

(** A node a fault accepts once it is stamped. *)
Definition node_sound (n : BtreeNodeRaw) : Prop := node_wf n ∧ nh_magic (header n) = MAGIC_NUMBER.

Lemma length_encode_node_header h : header_wf h → length (encode_node_header h) = HEADER_SIZE.
Proof.
  intros Hh. unfold encode_node_header.
  rewrite !length_app, !length_to_le, (hwf_pad1 _ Hh), (hwf_reserved _ Hh). done.
Qed.

Lemma length_encode_node n : node_wf n → length (encode_node n) = BLOCK_SIZE.
Proof.
  intros [Hh Hb]. unfold encode_node. rewrite length_app, length_encode_node_header, Hb by done.
  reflexivity.
Qed.

Lemma decode_encode_node_header h : header_wf h → decode_node_header (encode_node_header h) = h.
Proof.
  destruct h as [mg lv ct fl p0 gn p1 ck rs]. intros [Hmg Hlv Hct Hfl Hp0 Hgn Hp1 Hck Hrs].
  cbn [nh_magic nh_level nh_bset_count nh_flags nh_pad0 nh_generation nh_pad1 nh_checksum nh_reserved] in *.
  unfold encode_node_header, decode_node_header.
  cbn [nh_magic nh_level nh_bset_count nh_flags nh_pad0 nh_generation nh_pad1 nh_checksum nh_reserved].
  destruct p1 as [|a0 [|a1 [|a2 [|a3 [|a4 [|a5 [|a6 [|a7 [|]]]]]]]]]; try done.
  f_equal.
  - exact (from_to_le_small 4 mg Hmg).
  - by apply z2b_u8.
  - by apply z2b_u8.
  - by apply z2b_u8.
  - by apply z2b_u8.
  - exact (from_to_le_small 8 gn Hgn).
  - exact (from_to_le_small 8 ck Hck).
  - change (take 32 rs = rs). apply take_ge. lia.
Qed.

Lemma decode_encode_node n : node_wf n → decode_node (encode_node n) = n.
Proof.
  intros [Hh Hb]. unfold decode_node, encode_node.
  rewrite take_app_len, drop_app_len by (by rewrite length_encode_node_header).
  rewrite decode_encode_node_header by done. by destruct n.
Qed.

Section nodes.
Context `{Crc32} `{!Crc32Range}.

Lemma stamp_node_wf n : node_wf n → node_wf (stamp_node n).
Proof using All.
  intros [[] Hb]. split; [|done]. split; try done. cbn.
  pose proof (crc32_range (encode_node (set_checksum 0 n))) as Hc. unfold in_width, node_crc in *. lia.
Qed.

Lemma verify_stamped nr n :
  nh_magic (header n) = MAGIC_NUMBER → verify_node_in_place nr (stamp_node n) = Ok tt.
Proof.
  intros Hm. unfold verify_node_in_place. cbn [stamp_node set_checksum header with_header_fields nh_magic].
  rewrite Hm, Z.eqb_refl. cbn [negb].
  change (nh_checksum (header (stamp_node n))) with (node_crc n).
  assert (node_crc (stamp_node n) = node_crc n) as -> by done.
  by rewrite Z.eqb_refl.
Qed.
End nodes.

(** The store with both caches dropped, as a fresh mount sees it. *)
Definition cold {D} (s : BlockStore D) : BlockStore D := set_data_cache ∅ (set_node_cache ∅ s).

Lemma block_offset_nonneg nr : 0 ≤ block_offset nr.
Proof. unfold block_offset, u64, wrap. apply Z.mod_pos_bound. done. Qed.

Lemma block_offset_small nr : 0 ≤ nr < 2 ^ 52 → block_offset nr = nr * BLOCK_BYTES.
Proof. intros. unfold block_offset, u64. apply wrap_small. unfold in_width, BLOCK_BYTES. lia. Qed.

Lemma blocks_disjoint a b :
  0 ≤ a < 2 ^ 52 → 0 ≤ b < 2 ^ 52 → a ≠ b →
  ranges_disjoint (block_offset a) BLOCK_SIZE (block_offset b) BLOCK_SIZE.
Proof.
  intros Ha Hb Hne. rewrite !block_offset_small by done. unfold ranges_disjoint, BLOCK_BYTES, BLOCK_SIZE. lia.
Qed.

Definition block_ok (nr : Z) : Prop := 0 ≤ nr < 2 ^ 52.

Section same_bytes.
Context {D : Type} `{!BlockDevice D} `{!BlockDeviceLaws D}.

(** What can be read of block [k] stays the same. *)
Definition same_bytes (k : Z) (d d' : D) : Prop := ∀ o len bs,
  0 ≤ o → o + Z.of_nat len ≤ BLOCK_BYTES →
  read_at len (block_offset k + o) d = Ok bs → read_at len (block_offset k + o) d' = Ok bs.
#[export] Instance same_bytes_preorder k : PreOrder (same_bytes k).
Proof. split; [by intros d o len bs|]. intros d1 d2 d3 H1 H2 o len bs Ho Hl Hr. apply H2; [done|done|]. by apply H1. Qed.

Lemma same_bytes_block k d d' bs :
  same_bytes k d d' → read_at BLOCK_SIZE (block_offset k) d = Ok bs → read_at BLOCK_SIZE (block_offset k) d' = Ok bs.
Proof. intros Hs. rewrite <- (Z.add_0_r (block_offset k)). apply Hs; done. Qed.

Lemma write_same_bytes k nr b d d' :
  block_ok k → block_ok nr → k ≠ nr → length b = BLOCK_SIZE → write_at b (block_offset nr) d = (Ok tt, d') → same_bytes k d d'.
Proof using All.
  intros Hk Hnr Hne Hb Hw o len bs Ho Hl. pose proof (block_offset_nonneg k). pose proof (block_offset_nonneg nr).
  apply (read_write_disjoint d d' b (block_offset nr)); [done|lia| |done]. rewrite Hb.
  pose proof (blocks_disjoint nr k Hnr Hk (not_eq_sym Hne)) as [Hd|Hd]; [left; lia|right].
  revert Hd. unfold BLOCK_SIZE. unfold BLOCK_BYTES in Hl. lia.
Qed.
End same_bytes.

Section device.
Context {D : Type} `{!BlockDevice D} `{!BlockDeviceLaws D} `{!Crc32}.

Lemma on_device_Ok {A} (c : M D io_error A) s a s' :
  on_device c s = (Ok a, s') → ∃ d', c (device s) = (Ok a, d') ∧ s' = set_device d' s.
Proof.
  unfold on_device, mapping_err, zoom. destruct (c (device s)) as [[]]; cbn; intros; simplify_eq; eauto.
Qed.

Lemma write_node_Ok nr n s s' :
  write_node nr n s = (Ok tt, s') →
  ∃ d', write_at (encode_node (stamp_node n)) (block_offset nr) (device s) = (Ok tt, d') ∧
    s' = set_node_cache (<[nr := {| cn_node := stamp_node n; cn_dirty := false |}]> (node_cache s)) (set_device d' s).
Proof.
  unfold write_node. intros (?&s1&H1&H2)%M_bind_Ok_inv. apply on_device_Ok in H1 as (d' & Hw & ->).
  destruct x. exists d'. split; [done|]. by injection H2 as <-.
Qed.

(** Reading a node image back from the device. *)
Lemma fault_in_image nr n s :
  node_wf (stamp_node n) → nh_magic (header n) = MAGIC_NUMBER →
  read_at BLOCK_SIZE (block_offset nr) (device s) = Ok (encode_node (stamp_node n)) →
  fault_in nr s = (Ok (stamp_node n),
    set_node_cache (<[nr := {| cn_node := stamp_node n; cn_dirty := false |}]> (node_cache s)) s).
Proof.
  intros Hw Hm Hr. unfold fault_in, device_read, mbind, M_bind. rewrite Hr. cbn [map_err].
  rewrite decode_encode_node by done. unfold lift. by rewrite verify_stamped.
Qed.
End device.

(** ** The superblock *)
Record superblock_wf (sb : Superblock) : Prop := {
  swf_magic : in_width 32 (sb_magic sb);
  swf_version : in_width 32 (sb_version sb);
  swf_root : in_width 64 (sb_root_block sb);
  swf_nblk : in_width 64 (sb_next_block_nr sb);
  swf_nseq : in_width 64 (sb_next_bset_seq sb);
  swf_nino : in_width 64 (sb_next_ino sb);
  swf_jseq : in_width 64 (sb_journal_seq sb);
  swf_nsnap : in_width 32 (sb_next_snap_id sb);
  swf_nsub : in_width 32 (sb_next_subvol_id sb);
  swf_cur : in_width 32 (sb_current_subvol sb);
  swf_checksum : in_width 32 (sb_checksum sb);
  swf_free : in_width 64 (sb_free_head sb);
  swf_reserved : length (sb_reserved sb) = RESERVED_BYTES;
}.

Lemma length_encode_superblock sb : superblock_wf sb → length (encode_superblock sb) = BLOCK_SIZE.
Proof.
  intros Hw. unfold encode_superblock. rewrite !length_app, !length_to_le, (swf_reserved _ Hw). reflexivity.
Qed.

Lemma decode_encode_superblock sb : superblock_wf sb → decode_superblock (encode_superblock sb) = sb.
Proof.
  destruct sb as [mg vr rb nb nq ni js ns nv cu ck fh rs]. intros [].
  cbn [sb_magic sb_version sb_root_block sb_next_block_nr sb_next_bset_seq sb_next_ino sb_journal_seq
    sb_next_snap_id sb_next_subvol_id sb_current_subvol sb_checksum sb_free_head sb_reserved] in *.
  unfold decode_superblock, encode_superblock, field. f_equal;
    lazymatch goal with
    | |- from_le _ = ?z =>
        first [exact (from_to_le_small 8 z ltac:(assumption))
              |exact (from_to_le_small 4 z ltac:(assumption))]
    | _ => reflexivity
    end.
Qed.

Section superblock_spec.
Context `{Crc32} `{!Crc32Range}.

Lemma sb_stamp_wf sb : superblock_wf sb → superblock_wf (sb_stamp_checksum sb).
Proof using All. intros []. split; try done. apply crc32_range. Qed.

Lemma parse_stamped sb :
  superblock_wf sb → sb_magic sb = SUPERBLOCK_MAGIC → sb_version sb = SUPERBLOCK_VERSION →
  superblock_parse (encode_superblock (sb_stamp_checksum sb)) = Ok (sb_stamp_checksum sb).
Proof using All.
  intros Hw Hm Hv. pose proof (sb_stamp_wf sb Hw) as Hs. unfold superblock_parse.
  rewrite length_encode_superblock, Nat.eqb_refl by done. cbn [negb].
  rewrite decode_encode_superblock by done.
  change (sb_magic (sb_stamp_checksum sb)) with (sb_magic sb).
  change (sb_version (sb_stamp_checksum sb)) with (sb_version sb).
  rewrite Hm, Hv, !Z.eqb_refl. done.
Qed.
End superblock_spec.

(** ** The allocator *)

(** Blocks the store keeps for itself: the free ones, and the chain that lists them. *)
Definition unheld {D} (s : BlockStore D) : list Z := free_list s ++ last_chain_blocks s.
(** Blocks handed out and not returned. *)
Definition held {D} (s : BlockStore D) (nr : Z) : Prop :=
  FIRST_DATA_BLOCK_NR ≤ nr < next_block_nr s ∧ nr ∉ unheld s.

Record alloc_ok {D} (s : BlockStore D) : Prop := {
  ao_next : FIRST_DATA_BLOCK_NR ≤ next_block_nr s < 2 ^ 64 - 1;
  ao_nodup : NoDup (unheld s);
  ao_range nr : nr ∈ unheld s → FIRST_DATA_BLOCK_NR ≤ nr < next_block_nr s;
}.

Lemma vec_pop_Some {A} (l : list A) x l' : vec_pop l = Some (x, l') ↔ l = l' ++ [x].
Proof.
  unfold vec_pop. destruct l as [|y l _] using rev_ind; [by split; [|destruct l']|].
  rewrite last_snoc, length_app. cbn [length]. replace (length l + 1 - 1)%nat with (length l) by lia.
  rewrite take_app_length. split; [by intros [= -> ->]|]. intros [-> ->]%app_inj_tail. done.
Qed.

Lemma vec_pop_None {A} (l : list A) : vec_pop l = None ↔ l = [].
Proof. unfold vec_pop. destruct l as [|y l _] using rev_ind; [done|]. rewrite last_snoc. split; [done|]. by destruct l. Qed.

Lemma elem_of_snoc {A} (l : list A) x : x ∈ l ++ [x].
Proof. apply elem_of_app. right. by apply list_elem_of_singleton. Qed.

Section allocator.
Context {D : Type} `{!BlockDevice D} `{!Crc32}.

(** The two branches of [alloc], without the other fields. *)
Lemma alloc_cases (s : BlockStore D) :
  (∃ nr l, free_list s = l ++ [nr] ∧ alloc s = (Ok nr, set_free_list l s)) ∨
  (free_list s = [] ∧ alloc s = (Ok (next_block_nr s), set_next_block_nr (u64 (next_block_nr s + 1)) s)).
Proof.
  unfold alloc. destruct (vec_pop (free_list s)) as [[nr l]|] eqn:E.
  - left. apply vec_pop_Some in E. eauto.
  - right. by apply vec_pop_None in E.
Qed.

Lemma alloc_spec (s : BlockStore D) :
  alloc_ok s → next_block_nr s < 2 ^ 64 - 2 →
  ∃ nr s', alloc s = (Ok nr, s') ∧ alloc_ok s' ∧ ¬ held s nr ∧
    FIRST_DATA_BLOCK_NR ≤ nr ∧ (∀ k, held s' k ↔ k = nr ∨ held s k) ∧
    node_cache s' = node_cache s ∧ data_cache s' = data_cache s ∧ device s' = device s.
Proof.
  intros [Hn Hd Hr] Hmax. assert (0 < FIRST_DATA_BLOCK_NR) as Hpos by done. unfold held, unheld in *.
  destruct (alloc_cases s) as [(nr & l & El & E)|[El E]]; rewrite E; rewrite El in Hd, Hr |- *.
  - rewrite <- app_assoc in Hd, Hr |- *. pose proof (Hr nr) as Hnr.
    assert (∀ k, k ∈ l ++ [nr] ++ last_chain_blocks s ↔ k = nr ∨ k ∈ l ++ last_chain_blocks s) as Hin
      by (intros k; rewrite !elem_of_app, list_elem_of_singleton; tauto).
    specialize (Hnr (proj2 (Hin nr) (or_introl eq_refl))).
    assert (NoDup (nr :: l ++ last_chain_blocks s)) as [Hx Hd']%NoDup_cons by (by rewrite Permutation_middle).
    exists nr, (set_free_list l s). split_and!; [done| | |lia| |done|done|done].
    + split; cbn; [done|done|]. intros k Hk. apply Hr, Hin. by right.
    + intros [_ Hf]. apply Hf, Hin. by left.
    + intros k. cbn [set_free_list free_list last_chain_blocks next_block_nr]. rewrite Hin.
      destruct (decide (k = nr)) as [->|Hne]; tauto.
  - cbn [app] in Hd, Hr |- *.
    assert (u64 (next_block_nr s + 1) = next_block_nr s + 1) as Eu
      by (apply wrap_small; unfold in_width; lia). rewrite Eu.
    exists (next_block_nr s), (set_next_block_nr (next_block_nr s + 1) s).
    split_and!; [done| | |lia| |done|done|done].
    + split; unfold unheld; cbn; rewrite ?El; cbn [app]; [lia|done|]. intros k Hk%Hr. lia.
    + intros [? _]. lia.
    + intros k. cbn [set_next_block_nr free_list last_chain_blocks next_block_nr]. rewrite El. cbn [app].
      split; [intros [Hk Hn']; destruct (decide (k = next_block_nr s)); [by left|right; split; [lia|done]]|].
      intros [->|[? ?]]; (split; [lia|]); [|done]. intros Hk%Hr. lia.
Qed.

Lemma free_eq nr (s : BlockStore D) :
  free nr s = (Ok tt, set_free_list (free_list s ++ [nr])
    (set_data_cache (delete nr (data_cache s)) (set_node_cache (delete nr (node_cache s)) s))).
Proof. done. Qed.

Lemma free_spec nr (s : BlockStore D) :
  alloc_ok s → held s nr →
  ∃ s', free nr s = (Ok tt, s') ∧ alloc_ok s' ∧ (∀ k, held s' k ↔ k ≠ nr ∧ held s k) ∧
    node_cache s' !! nr = None ∧ data_cache s' !! nr = None ∧ device s' = device s.
Proof.
  intros [Hn Hd Hr] [Hb Hf]. eexists. split; [apply free_eq|].
  assert (∀ k, k ∈ (free_list s ++ [nr]) ++ last_chain_blocks s ↔ k = nr ∨ k ∈ unheld s) as Hin
    by (intros k; unfold unheld; rewrite !elem_of_app, list_elem_of_singleton; tauto).
  split_and!.
  - split; unfold unheld; cbn; [done| |].
    + rewrite <- app_assoc. cbn [app]. rewrite <- Permutation_middle. by constructor.
    + intros k [->|Hk]%Hin; [done|by apply Hr].
  - intros k. unfold held at 1, unheld at 1.
    cbn [set_free_list set_data_cache set_node_cache free_list last_chain_blocks next_block_nr]. rewrite Hin. unfold held. tauto.
  - apply lookup_delete_eq.
  - apply lookup_delete_eq.
  - done.
Qed.

(** *** Interleavings of allocation and release *)

(** A client holds the blocks in [own]; it may allocate, or release one it holds. *)
Inductive alloc_step : BlockStore D * gset Z → BlockStore D * gset Z → Prop :=
  | step_alloc s own nr s' :
      next_block_nr s < 2 ^ 64 - 2 → alloc s = (Ok nr, s') →
      alloc_step (s, own) (s', {[nr]} ∪ own)
  | step_free s own nr s' :
      nr ∈ own → free nr s = (Ok tt, s') → alloc_step (s, own) (s', own ∖ {[nr]}).

Definition alloc_inv (c : BlockStore D * gset Z) : Prop :=
  alloc_ok c.1 ∧ ∀ k, k ∈ c.2 → held c.1 k.

Lemma alloc_step_inv c c' : alloc_inv c → alloc_step c c' → alloc_inv c'.
Proof.
  intros [Ho Hh] Hstep. destruct Hstep as [s own nr s' Hmax E|s own nr s' Hin E]; cbn [fst snd] in *.
  - destruct (alloc_spec s Ho Hmax) as (nr' & s1 & E' & Ho' & _ & _ & Hheld & _).
    rewrite E in E'. injection E' as <- <-. split; [done|]. cbn [fst snd].
    intros k [Hk%elem_of_singleton|Hk]%elem_of_union; apply Hheld; auto.
  - destruct (free_spec nr s Ho (Hh nr Hin)) as (s1 & E' & Ho' & Hheld & _).
    rewrite E in E'. injection E' as <-. split; [done|]. cbn [fst snd].
    intros k [Hk Hne%not_elem_of_singleton]%elem_of_difference. apply Hheld. auto.
Qed.
End allocator.

(** ** The free-list chain on disk *)
Definition enc_entries (chunk : list Z) : list byte := concat (to_le 8 <$> chunk).

Lemma length_enc_entries chunk : length (enc_entries chunk) = (8 * length chunk)%nat.
Proof.
  unfold enc_entries. induction chunk as [|x chunk IH]; cbn [fmap list_fmap concat length]; [done|].
  rewrite length_app, length_to_le, IH. lia.
Qed.

Definition chain_block (next : Z) (chunk : list Z) : list byte :=
  to_le 8 next ++ to_le 8 (Z.of_nat (length chunk)) ++ enc_entries chunk
  ++ replicate (BLOCK_SIZE - 16 - 8 * length chunk) Byte.x00.

Lemma fill_chunk {E} i chunk p rest :
  length p = (16 + i * 8)%nat → (8 * length chunk ≤ length rest)%nat →
  foldO (E:=E) (λ buf '(i, entry), splice buf (16 + i * 8)%nat (to_le 8 entry)) (p ++ rest)
    (zip (seq i (length chunk)) chunk) = Ok (p ++ enc_entries chunk ++ drop (8 * length chunk) rest).
Proof.
  revert i p rest. induction chunk as [|x chunk IH]; intros i p rest Hp Hl.
  { cbn. by rewrite drop_0. }
  cbn [length seq zip zip_with foldO] in *.
  rewrite <- (take_drop 8 rest) at 1. rewrite splice_app; [|lia|rewrite length_to_le, length_take; lia]. mred.
  rewrite app_assoc. rewrite (IH (S i)).
  - rewrite <- app_assoc. unfold enc_entries. cbn [fmap list_fmap concat]. rewrite <- app_assoc, drop_drop.
    do 5 f_equal. lia.
  - rewrite length_app, length_to_le, Hp. lia.
  - rewrite length_drop. lia.
Qed.

Lemma encode_chain_ok next chunk :
  (length chunk ≤ FREE_CHAIN_ENTRIES)%nat → encode_chain_block next chunk = Ok (chain_block next chunk).
Proof.
  change FREE_CHAIN_ENTRIES with 510%nat. intros Hl. unfold encode_chain_block.
  assert (BLOCK_SIZE = 8 + (8 + 4080))%nat as HB by done. rewrite HB, !replicate_add.
  rewrite splice_app_0 by (by rewrite length_to_le). mred.
  rewrite (splice_app (to_le 8 next) (replicate 8 Byte.x00) _ (to_le 8 _));
    [|by rewrite length_to_le|by rewrite length_to_le]. mred.
  rewrite app_assoc, fill_chunk; [|by rewrite length_app, !length_to_le|rewrite length_replicate; lia].
  unfold chain_block. rewrite drop_replicate, <- app_assoc, HB. done.
Qed.

Lemma length_chain_block next chunk :
  (length chunk ≤ FREE_CHAIN_ENTRIES)%nat → length (chain_block next chunk) = BLOCK_SIZE.
Proof.
  change FREE_CHAIN_ENTRIES with 510%nat. intros Hl. unfold chain_block.
  rewrite !length_app, !length_to_le, length_enc_entries, length_replicate.
  assert (BLOCK_SIZE = 4096)%nat as -> by done. lia.
Qed.

Lemma read_entries {E} p chunk rest i :
  length p = (16 + i * 8)%nat → Forall (in_width 64) chunk →
  mapM (M := outcome E) (λ i, from_le <$> slice (p ++ enc_entries chunk ++ rest) (16 + i * 8) (16 + i * 8 + 8))%nat
    (seq i (length chunk)) = Ok chunk.
Proof.
  revert p i. induction chunk as [|x chunk IH]; intros p i Hp Hw; [done|].
  apply Forall_cons in Hw as [Hx Hw]. cbn [length seq mapM].
  assert (p ++ enc_entries (x :: chunk) ++ rest = (p ++ to_le 8 x) ++ enc_entries chunk ++ rest) as Hs.
  { unfold enc_entries. cbn [fmap list_fmap concat]. by rewrite <- !app_assoc. }
  rewrite Hs. rewrite <- (app_assoc p). rewrite slice_app; [|lia|rewrite length_to_le; lia]. mred.
  rewrite (from_to_le_small 8) by done. rewrite app_assoc.
  rewrite (IH (p ++ to_le 8 x) (S i)); [done| |done]. rewrite length_app, length_to_le. lia.
Qed.

Lemma decode_chain_ok next chunk :
  (length chunk ≤ FREE_CHAIN_ENTRIES)%nat → Forall (in_width 64) chunk → in_width 64 next →
  from_le <$> slice (E:=error) (chain_block next chunk) 0 8 = Ok next ∧
  decode_chain_entries (chain_block next chunk) = Ok chunk.
Proof.
  intros Hl Hw Hn. unfold chain_block. split.
  { rewrite slice_app_0 by (by rewrite length_to_le). mred.
    by rewrite (from_to_le_small 8). }
  unfold decode_chain_entries.
  rewrite (slice_app (to_le 8 next) (to_le 8 _)) by (rewrite ?length_to_le; done). mred.
  change FREE_CHAIN_ENTRIES with 510%nat in *.
  rewrite (from_to_le_small 8) by (unfold in_width; lia).
  rewrite Z.min_l, Nat2Z.id by lia. rewrite app_assoc. apply read_entries; [|done].
  by rewrite length_app, !length_to_le.
Qed.

Section chain.
Context {D : Type} `{!BlockDevice D} `{!BlockDeviceLaws D} `{!Crc32}.

(** From block [head], the device holds a chain of blocks with the chunks [cs]. *)
Fixpoint chain_at (d : D) (head : Z) (cs : list (Z * list Z)) : Prop :=
  match cs with
  | [] => head = 0
  | (nr, chunk) :: cs =>
      head = nr ∧ 0 < nr ∧ (length chunk ≤ FREE_CHAIN_ENTRIES)%nat ∧ Forall (in_width 64) chunk ∧
      ∃ next, in_width 64 next ∧
        read_at BLOCK_SIZE (block_offset nr) d = Ok (chain_block next chunk) ∧ chain_at d next cs
  end.

Lemma chain_at_head d head cs : Forall (λ c, in_width 64 c.1) cs → chain_at d head cs → in_width 64 head.
Proof. destruct cs as [|[nr chunk] cs]; cbn [chain_at]; [by intros _ ->|]. by intros [? _]%Forall_cons [-> _]. Qed.

Definition data_coherent (s : BlockStore D) : Prop :=
  ∀ nr b, data_cache s !! nr = Some b → read_at BLOCK_SIZE (block_offset nr) (device s) = Ok b.

Lemma read_data_ok s nr b :
  data_coherent s → read_at BLOCK_SIZE (block_offset nr) (device s) = Ok b →
  ∃ s', read_data nr s = (Ok b, s') ∧ data_coherent s' ∧ s' = set_data_cache (data_cache s') s.
Proof.
  intros Hc Hr. unfold read_data, mbind, M_bind, gets.
  destruct (data_cache s !! nr) as [b'|] eqn:E.
  { pose proof (Hc _ _ E) as Hb. exists s. assert (b' = b) as -> by congruence. by destruct s. }
  unfold device_read. rewrite Hr. cbn [map_err]. eexists. split; [done|]. split; [|done].
  intros k c. cbn [set_data_cache data_cache device].
  intros [[<- <-]|[_ Hk]]%lookup_insert_Some; [done|by apply Hc].
Qed.

Lemma load_chain_ok fuel s head cs l cb :
  data_coherent s → chain_at (device s) head cs → (length cs < fuel)%nat →
  ∃ s', load_chain fuel head l cb s = (Ok (l ++ concat (snd <$> cs) ++ cb ++ (fst <$> cs)), s') ∧
    data_coherent s' ∧ s' = set_data_cache (data_cache s') s.
Proof.
  revert fuel s head l cb. induction cs as [|[nr chunk] cs IH]; intros [|fuel] s head l cb Hc Hch Hf;
    cbn [length] in Hf; try lia; cbn [chain_at] in Hch; cbn [load_chain].
  { subst head. cbn [Z.eqb concat fmap list_fmap app]. rewrite app_nil_r. exists s. by destruct s. }
  destruct Hch as (-> & Hpos & Hlen & Hw & next & Hn & Hr & Hch).
  rewrite (proj2 (Z.eqb_neq nr 0)) by lia.
  destruct (read_data_ok s nr _ Hc Hr) as (s1 & E1 & Hc1 & Hd1).
  rewrite (M_bind_ok _ _ _ _ _ E1).
  destruct (decode_chain_ok next chunk Hlen Hw Hn) as [E2 E3].
  unfold mbind at 1, M_bind at 1, lift at 1. rewrite E2.
  unfold mbind at 1, M_bind at 1, lift at 1. rewrite E3.
  assert (device s1 = device s) as Hd by (by rewrite Hd1). rewrite <- Hd in Hch.
  destruct (IH fuel s1 next (l ++ chunk) (cb ++ [nr]) Hc1 Hch) as (s2 & E & Hc2 & Hd2); [lia|].
  exists s2. rewrite E. split; [|split; [done|by rewrite Hd2, Hd1]]. cbn [fmap list_fmap concat fst snd].
  by rewrite <- !app_assoc.
Qed.

(** A chain survives what leaves its blocks alone. *)
Lemma chain_at_same d d' head cs :
  Forall (λ c, same_bytes c.1 d d') cs → chain_at d head cs → chain_at d' head cs.
Proof using All.
  intros Hcs. revert head. induction Hcs as [|[k chunk] cs Hk _ IH]; intros head; [done|].
  cbn [chain_at fst] in *. intros (-> & ? & ? & ? & next & ? & Hr & Hch).
  split_and!; [done..|]. exists next. split_and!; [done|by eapply same_bytes_block|by apply IH].
Qed.

Lemma write_data_Ok nr b s s' :
  write_data nr b s = (Ok tt, s') →
  ∃ d', write_at b (block_offset nr) (device s) = (Ok tt, d') ∧
    s' = set_data_cache (<[nr := b]> (data_cache s)) (set_device d' s).
Proof.
  unfold write_data. intros ([] & s1 & H1 & H2)%M_bind_Ok_inv. apply on_device_Ok in H1 as (d' & Hw & ->).
  exists d'. split; [done|]. by injection H2 as <-.
Qed.

(** A chain written since [s0], in blocks taken past its high-water mark. *)
Record chain_state (s0 s : BlockStore D) (head : Z) (cs : list (Z * list Z)) : Prop := {
  cs_chain : chain_at (device s) head cs;
  cs_blocks : Forall (λ c, next_block_nr s0 ≤ c.1 < next_block_nr s) cs;
  cs_nodup : NoDup (fst <$> cs);
  cs_next : next_block_nr s = next_block_nr s0 + Z.of_nat (length cs);
  cs_free : free_list s = free_list s0;
  cs_nodes : node_cache s = node_cache s0;
  cs_dev k : block_ok k → k < next_block_nr s0 → same_bytes k (device s0) (device s);
  cs_data k : k < next_block_nr s0 → data_cache s !! k = data_cache s0 !! k;
}.

Lemma persist_chunk_ok s0 s s' head chain cs chunk r :
  chain_state s0 s head cs → 0 < next_block_nr s0 → next_block_nr s < 2 ^ 52 - 1 →
  (length chunk ≤ FREE_CHAIN_ENTRIES)%nat → Forall (in_width 64) chunk →
  persist_chunk (head, chain) chunk s = (Ok r, s') →
  r = (next_block_nr s, chain ++ [next_block_nr s]) ∧
  chain_state s0 s' (next_block_nr s) ((next_block_nr s, chunk) :: cs).
Proof using All.
  intros [Hch Hb Hd Hn Hf Hc Hdev Hda] Hpos Hmax Hl Hw E. unfold persist_chunk in E. set (nr := next_block_nr s) in *.
  assert (u64 (nr + 1) = nr + 1) as Eu by (apply wrap_small; unfold in_width; lia).
  apply M_bind_Ok_inv in E as (? & ? & E0 & E). injection E0 as <- <-.
  apply M_bind_Ok_inv in E as (? & ? & E0 & E). injection E0 as <- <-. fold nr in E. rewrite Eu in E.
  apply M_bind_Ok_inv in E as (buf & ? & E0 & E). unfold lift in E0. rewrite encode_chain_ok in E0 by done.
  injection E0 as <- <-.
  apply M_bind_Ok_inv in E as ([] & s1 & E0 & E). apply write_data_Ok in E0 as (d' & Hwr & ->).
  injection E as <- <-. cbn [set_next_block_nr device] in Hwr. rewrite Forall_forall in Hb.
  assert (∀ k, block_ok k → k < nr → same_bytes k (device s) d') as Hsame.
  { intros k Hk Hlt. apply (write_same_bytes k nr (chain_block head chunk));
      [done|unfold block_ok; lia|lia|by apply length_chain_block|done]. }
  split; [done|]. split; cbn [set_data_cache set_device set_next_block_nr next_block_nr device free_list node_cache data_cache].
  - cbn [chain_at]. split_and!; [done|lia|done|done|]. exists head. split_and!.
    + eapply chain_at_head; [|exact Hch]. apply Forall_forall. intros c Hin. specialize (Hb c Hin). unfold in_width. lia.
    + pose proof (read_write_same _ _ _ _ (block_offset_nonneg nr) Hwr) as Hr. by rewrite length_chain_block in Hr.
    + eapply (chain_at_same (device s) d' head cs); [|done]. apply Forall_forall. intros c Hin. specialize (Hb c Hin).
      apply Hsame; [unfold block_ok|]; lia.
  - apply Forall_cons. cbn [fst]. split; [lia|]. apply Forall_forall. intros c Hin. specialize (Hb c Hin). lia.
  - cbn [fmap list_fmap fst]. constructor; [|done]. intros (c & Ec & Hin)%list_elem_of_fmap. specialize (Hb c Hin). lia.
  - cbn [length]. lia.
  - done.
  - done.
  - intros k Hk Hlt. etransitivity; [by apply Hdev|]. apply Hsame; [done|lia].
  - intros k Hlt. rewrite lookup_insert_ne by lia. by apply Hda.
Qed.

Lemma persist_chunks_ok s0 s s' head chain cs chs r :
  chain_state s0 s head cs → 0 < next_block_nr s0 → next_block_nr s + Z.of_nat (length chs) < 2 ^ 52 - 1 →
  Forall (λ c, (length c ≤ FREE_CHAIN_ENTRIES)%nat ∧ Forall (in_width 64) c) chs →
  foldM persist_chunk (head, chain) chs s = (Ok r, s') →
  ∃ cs', chain_state s0 s' r.1 (cs' ++ cs) ∧ r.2 = chain ++ reverse (fst <$> cs') ∧ snd <$> cs' = reverse chs.
Proof using All.
  intros Hs Hpos. revert s head chain cs Hs. induction chs as [|c chs IH]; intros s head chain cs Hs Hmax Hw E; cbn [foldM] in E.
  { injection E as <- <-. exists []. cbn. by rewrite app_nil_r. }
  apply Forall_cons in Hw as [[Hl Hwc] Hw]. cbn [length] in Hmax.
  apply M_bind_Ok_inv in E as ([h1 ch1] & s1 & E1 & E2).
  apply (persist_chunk_ok s0 s s1 head chain cs c) in E1 as ([= -> ->] & Hs1); [|done|done|lia|done|done].
  pose proof (cs_next _ _ _ _ Hs) as Hn. pose proof (cs_next _ _ _ _ Hs1) as Hn1. cbn [length] in Hn1.
  destruct (IH s1 _ _ _ Hs1 ltac:(lia) Hw E2) as (cs' & Hs' & Hr2 & Hsnd).
  exists (cs' ++ [(next_block_nr s, c)]). rewrite <- app_assoc. split_and!; [done| |].
  - by rewrite Hr2, fmap_app, reverse_app, <- app_assoc.
  - by rewrite fmap_app, Hsnd, reverse_cons.
Qed.
End chain.

Lemma chunks_fuel_ok {A} (k fuel : nat) (l : list A) :
  (0 < k)%nat → (length l ≤ fuel)%nat →
  concat (chunks_fuel fuel k l) = l ∧ Forall (λ c, (length c ≤ k)%nat ∧ c ⊆+ l) (chunks_fuel fuel k l) ∧
  (length (chunks_fuel fuel k l) ≤ length l)%nat.
Proof.
  intros Hk. revert l. induction fuel as [|fuel IH]; intros [|x l] Hl; cbn [length] in Hl;
    try (cbn; split_and!; [done|constructor|lia]); [lia|].
  cbn [chunks_fuel]. set (m := x :: l) in *.
  destruct (IH (drop k m)) as (H1 & H2 & H3); [rewrite length_drop; subst m; cbn [length]; lia|].
  split_and!.
  - cbn [concat]. by rewrite H1, take_drop.
  - constructor; [split; [rewrite length_take; lia|apply sublist_submseteq, sublist_take]|].
    eapply Forall_impl; [exact H2|]. intros c [? Hc]. split; [done|].
    etrans; [exact Hc|]. apply sublist_submseteq, sublist_drop.
  - cbn [length]. rewrite length_drop in H3. subst m. cbn [length] in *. lia.
Qed.

Lemma concat_reverse_Permutation {A} (L : list (list A)) : concat (reverse L) ≡ₚ concat L.
Proof.
  induction L as [|x L IH]; [done|]. rewrite reverse_cons, concat_app. cbn [concat].
  rewrite app_nil_r, IH. apply Permutation_app_comm.
Qed.

Section persistence.
Context {D : Type} `{!BlockDevice D} `{!BlockDeviceLaws D} `{!Crc32}.

(** What a persisted free list leaves behind: the old chain joins the free list,
    and a new chain of blocks past the high-water mark lists it. *)
Record persisted (s s' : BlockStore D) (head : Z) (cs : list (Z * list Z)) : Prop := {
  pe_chain : chain_at (device s') head cs;
  pe_free : free_list s' = unheld s;
  pe_listed : concat (reverse (snd <$> cs)) = free_list s';
  pe_blocks : last_chain_blocks s' = reverse (fst <$> cs);
  pe_length : (length cs ≤ length (free_list s'))%nat;
  pe_new : Forall (λ c, next_block_nr s ≤ c.1 < next_block_nr s') cs;
  pe_nodup : NoDup (fst <$> cs);
  pe_next : next_block_nr s' = next_block_nr s + Z.of_nat (length cs);
  pe_nodes : node_cache s' = node_cache s;
  pe_dev k : block_ok k → k < next_block_nr s → same_bytes k (device s) (device s');
  pe_data k : k < next_block_nr s → data_cache s' !! k = data_cache s !! k;
}.

Lemma persist_free_list_ok s s' head :
  0 < next_block_nr s → next_block_nr s + Z.of_nat (length (unheld s)) < 2 ^ 52 - 1 → Forall (in_width 64) (unheld s) →
  persist_free_list s = (Ok head, s') → ∃ cs, persisted s s' head cs.
Proof using All.
  intros Hn Hmax Hw E. unfold persist_free_list in E.
  apply M_bind_Ok_inv in E as (? & ? & E0 & E). injection E0 as <- <-.
  apply M_bind_Ok_inv in E as (? & ? & E0 & E). injection E0 as <- <-.
  apply M_bind_Ok_inv in E as (? & ? & E0 & E). injection E0 as <- <-.
  apply M_bind_Ok_inv in E as (? & ? & E0 & E). injection E0 as <- <-.
  cbn [set_chain_blocks set_free_list free_list last_chain_blocks next_block_nr] in E.
  fold (unheld s) in E. set (l := unheld s) in *.
  destruct (Nat.eqb_spec (length l) 0) as [H0|H0].
  { injection E as <- <-. exists []. split; cbn; [done|done|by rewrite (nil_length_inv l H0)|done|lia|constructor|constructor|lia|done|done|done]. }
  apply M_bind_Ok_inv in E as ([h ch] & s1 & E1 & E).
  apply M_bind_Ok_inv in E as (? & ? & E0 & E). injection E0 as <- <-. injection E as <- <-.
  destruct (chunks_fuel_ok FREE_CHAIN_ENTRIES (length l) l) as (Hcc & Hcf & Hcl); [apply Nat.ltb_lt; reflexivity|done|].
  fold (chunks FREE_CHAIN_ENTRIES l) in Hcc, Hcf, Hcl. set (s0 := set_free_list l (set_chain_blocks [] s)) in E1.
  apply (persist_chunks_ok s0 s0 _ 0 [] []) in E1 as (cs & [Hch Hb Hd Hnx Hf Hc Hdev Hda] & Hr2 & Hsnd).
  - exists cs. rewrite app_nil_r in *. cbn [fst snd app] in Hr2, Hch.
    split; cbn [set_chain_blocks device free_list last_chain_blocks next_block_nr node_cache]; try done.
    + by rewrite Hsnd, reverse_involutive, Hcc, Hf.
    + rewrite Hf. cbn [s0 set_chain_blocks set_free_list free_list]. fold l. etrans; [|exact Hcl].
      rewrite <- (length_fmap snd cs), Hsnd, length_reverse. done.
  - split; cbn; [done|constructor|constructor|lia|done|done|done|done].
  - done.
  - cbn [s0 set_chain_blocks set_free_list next_block_nr]. lia.
  - eapply Forall_impl; [exact Hcf|]. intros c [? Hc]. split; [done|].
    apply Forall_forall. intros x Hx. rewrite Forall_forall in Hw. apply Hw. by eapply elem_of_submseteq.
Qed.
End persistence.

(** On a device whose writes succeed, so do the store's. *)
Section total.
Context {D : Type} `{!BlockDevice D} `{!BlockDeviceTotal D} `{!Crc32}.
Implicit Types s : BlockStore D.

Lemma on_device_total b off s : ∃ d, on_device (write_at b off) s = (Ok tt, set_device d s).
Proof using All.
  unfold on_device, mapping_err, zoom. destruct (write_total b off (device s)) as [d ->]. by eexists.
Qed.
Lemma fsync_total s : ∃ d, fsync s = (Ok tt, set_device d s) ∧ sync (device s) = (Ok tt, d).
Proof using All.
  unfold fsync, on_device, mapping_err, zoom. destruct (sync_total (device s)) as [d ->]. by eexists.
Qed.
Lemma write_node_total nr n s : ∃ s', write_node nr n s = (Ok tt, s').
Proof using All.
  unfold write_node. destruct (on_device_total (encode_node (stamp_node n)) (block_offset nr) s) as [d E].
  rewrite (M_bind_ok _ _ _ _ _ E). by eexists.
Qed.
Lemma write_superblock_total sb s : ∃ d, write_superblock sb s = (Ok tt, set_device d s).
Proof using All. apply on_device_total. Qed.
Lemma write_data_total nr b s : ∃ s', write_data nr b s = (Ok tt, s').
Proof using All.
  unfold write_data. destruct (on_device_total b (block_offset nr) s) as [d E]. rewrite (M_bind_ok _ _ _ _ _ E). by eexists.
Qed.

Lemma persist_chunk_total hc chunk s :
  (length chunk ≤ FREE_CHAIN_ENTRIES)%nat → ∃ r s', persist_chunk hc chunk s = (Ok r, s').
Proof using All.
  intros Hl. destruct hc as [h c]. unfold persist_chunk, gets, modify, lift, mbind, M_bind.
  rewrite encode_chain_ok by done.
  destruct (write_data_total (next_block_nr s) (chain_block h chunk)
    (set_next_block_nr (u64 (next_block_nr s + 1)) s)) as [s1 ->]. by do 2 eexists.
Qed.

Lemma persist_free_list_total s : ∃ head s', persist_free_list s = (Ok head, s').
Proof using All.
  unfold persist_free_list, gets, modify. unfold mbind at 1 2 3 4, M_bind at 1 2 3 4.
  cbn [set_chain_blocks set_free_list free_list last_chain_blocks].
  set (l := free_list s ++ last_chain_blocks s). set (s1 := set_free_list _ _).
  destruct (Nat.eqb_spec (length l) 0); [by do 2 eexists|].
  destruct (chunks_fuel_ok FREE_CHAIN_ENTRIES (length l) l) as (_ & Hcf & _); [apply Nat.ltb_lt; reflexivity|done|].
  fold (chunks FREE_CHAIN_ENTRIES l) in Hcf.
  assert (∃ r s2, foldM persist_chunk (0, []) (chunks FREE_CHAIN_ENTRIES l) s1 = (Ok r, s2)) as (r & s2 & E).
  { clearbody s1. generalize (0, @nil Z). revert s1. induction Hcf as [|c chs [Hc _] _ IH]; intros s1 hc;
      cbn [foldM]; [by do 2 eexists|].
    destruct (persist_chunk_total hc c s1 Hc) as (r & s2 & E). rewrite (M_bind_ok _ _ _ _ _ E). apply IH. }
  rewrite (M_bind_ok _ _ _ _ _ E). destruct r. by do 2 eexists.
Qed.
End total.

(** ** Properties *)
Section store_claims.
Context {D : Type} `{!BlockDevice D} `{!BlockDeviceLaws D} `{!Crc32} `{!Crc32Range}.

(** C35: what [write_node] puts on the device, a later mount reads back: with the
    caches gone, the node is faulted in, passes the magic and checksum tests and
    is the node that was written, stamped. *)
Theorem node_write_read nr n s s' :
  node_wf n → nh_magic (header n) = MAGIC_NUMBER →
  write_node nr n s = (Ok tt, s') →
  (fault_in nr (cold s')).1 = Ok (stamp_node n) ∧
  ∀ R (f : BtreeNodeRaw → res R), (with_node nr f (cold s')).1 = f (stamp_node n).
Proof using All.
  intros Hw Hm E. apply write_node_Ok in E as (d' & Hwr & ->).
  pose proof (stamp_node_wf n Hw) as Hs.
  pose proof (read_write_same _ _ _ _ (block_offset_nonneg nr) Hwr) as Hr.
  rewrite length_encode_node in Hr by done.
  assert (∀ s0 : BlockStore D, device s0 = d' → (fault_in nr s0).1 = Ok (stamp_node n)) as Hf.
  { intros s0 <-. by rewrite (fault_in_image nr n s0). }
  split; [by apply Hf|]. intros R f. unfold with_node, gets, mbind, M_bind.
  cbn [cold set_data_cache set_node_cache node_cache]. rewrite lookup_empty.
  pose proof (Hf (cold (set_node_cache (<[nr:={| cn_node := stamp_node n; cn_dirty := false |}]>
    (node_cache s)) (set_device d' s))) eq_refl) as HF.
  unfold cold in *. destruct (fault_in nr _) as [r s1]. cbn [fst] in HF. by rewrite HF.
Qed.

(** A superblock written by a checkpoint is what the next mount reads, and
    its block parses only with the right size, magic, version and checksum. *)
Theorem superblock_write_read sb s s' :
  superblock_wf sb → sb_magic sb = SUPERBLOCK_MAGIC → sb_version sb = SUPERBLOCK_VERSION →
  write_superblock sb s = (Ok tt, s') →
  (read_superblock s').1 = Ok (sb_stamp_checksum sb) ∧
  ∀ bs sb', superblock_parse bs = Ok sb' →
    length bs = BLOCK_SIZE ∧ sb' = decode_superblock bs ∧ sb_magic sb' = SUPERBLOCK_MAGIC ∧
    sb_version sb' = SUPERBLOCK_VERSION ∧ sb_checksum sb' = sb_compute_checksum sb'.
Proof using All.
  intros Hw Hm Hv E. split.
  - apply on_device_Ok in E as (d' & Hwr & ->). pose proof (sb_stamp_wf sb Hw) as Hs.
    pose proof (read_write_same _ _ _ _ (block_offset_nonneg SUPERBLOCK_BLOCK_NR) Hwr) as Hr.
    rewrite length_encode_superblock in Hr by done.
    unfold read_superblock, device_read, mbind, M_bind, lift. cbn [set_device device]. rewrite Hr. cbn [map_err].
    by rewrite parse_stamped.
  - intros bs sb' Hp. unfold superblock_parse in Hp.
    destruct (Nat.eqb_spec (length bs) BLOCK_SIZE); [|done]. cbn [negb] in Hp.
    destruct (Z.eqb_spec (sb_magic (decode_superblock bs)) SUPERBLOCK_MAGIC); [|done]. cbn [negb] in Hp.
    destruct (Z.eqb_spec (sb_version (decode_superblock bs)) SUPERBLOCK_VERSION); [|done]. cbn [negb] in Hp.
    destruct (Z.eqb_spec (sb_checksum (decode_superblock bs)) (sb_compute_checksum (decode_superblock bs)));
      [|done]. cbn [negb] in Hp. injection Hp as <-. done.
Qed.

(** Under any interleaving of allocations and releases by a client that
    releases only what it holds, an allocation never returns a block the client
    holds, nor one of the superblock or journal blocks, and a released block is
    gone from both caches. *)
Lemma allocator_never_double_allocates (s0 s s' : BlockStore D) own nr :
  alloc_ok s0 → rtc alloc_step (s0, ∅) (s, own) →
  next_block_nr s < 2 ^ 64 - 2 → alloc s = (Ok nr, s') →
  (nr ∉ own) ∧ FIRST_DATA_BLOCK_NR ≤ nr ∧
  ∀ k (s'' : BlockStore D), k ∈ own → free k s = (Ok tt, s'') → node_cache s'' !! k = None ∧ data_cache s'' !! k = None.
Proof using All.
  intros Hs0 Hr Hmax E.
  assert (alloc_inv (s, own)) as [Ho Hh].
  { assert (alloc_inv (s0, ∅)) as Hi by (split; [done|]; intros k Hk; by apply elem_of_empty in Hk).
    revert Hi. remember (s0, ∅) as c eqn:Ec. clear Ec. induction Hr; [done|].
    intros Hi. eauto using alloc_step_inv. }
  cbn [fst snd] in *. destruct (alloc_spec s Ho Hmax) as (nr' & s1 & E' & _ & Hnh & Hge & _).
  rewrite E in E'. injection E' as <- <-. split_and!; [intros Hin; by apply Hnh, Hh|done|].
  intros k s'' Hk Ef. destruct (free_spec k s Ho (Hh k Hk)) as (s2 & Ef' & _ & _ & ? & ? & _).
  rewrite Ef in Ef'. by injection Ef' as <-.
Qed.

(** The free list survives a remount. Loading the chain a checkpoint wrote
    gives back every free block, together with the blocks of the chain itself,
    and nothing else; the walk ends. *)
Lemma free_list_round_trip s s' head fuel :
  FIRST_DATA_BLOCK_NR ≤ next_block_nr s →
  next_block_nr s + Z.of_nat (length (free_list s ++ last_chain_blocks s)) < 2 ^ 52 - 1 →
  Forall (in_width 64) (free_list s ++ last_chain_blocks s) →
  persist_free_list s = (Ok head, s') →
  (length (free_list s') < fuel)%nat →
  ∃ s'', load_free_list fuel head (cold s') = (Ok tt, s'') ∧
    free_list s'' ≡ₚ free_list s' ++ last_chain_blocks s'.
Proof using All.
  intros Hn Hmax Hw E Hf.
  destruct (persist_free_list_ok s s' head) as (cs & [Hch _ Hcc Hcb Hlen _ _ _ _ _]);
    [assert (0 < FIRST_DATA_BLOCK_NR) by done; lia|done|done|done|].
  destruct (load_chain_ok fuel (cold s') head cs [] []) as (s1 & E1 & _ & _); [|done|lia|].
  { intros k b Hk. cbn in Hk. by rewrite lookup_empty in Hk. }
  exists (set_free_list (concat (snd <$> cs) ++ (fst <$> cs)) s1). split.
  - unfold load_free_list. rewrite (M_bind_ok _ _ _ _ _ E1). done.
  - cbn [set_free_list free_list]. rewrite <- Hcc, Hcb.
    by rewrite concat_reverse_Permutation, reverse_Permutation.
Qed.
End store_claims.

(** ** Concrete stores *)
#[local] Existing Instance sum_crc.

#[export] Instance sum_crc_range : Crc32Range.
Proof. intros bs. by apply (wrap_in_width 32). Qed.

Lemma in_memory_alloc_ok : alloc_ok in_memory.
Proof.
  split; cbn; [unfold FIRST_DATA_BLOCK_NR, FIRST_JOURNAL_BLOCK, JOURNAL_BLOCKS; lia|constructor|].
  by intros nr Hn%elem_of_nil.
Qed.

Lemma node_write_read_witness :
  ∃ s', write_node 65 (node_new 0) in_memory = (Ok tt, s') ∧
    (fault_in 65 (cold s')).1 = Ok (stamp_node (node_new 0)) ∧
    ∀ R (f : BtreeNodeRaw → res R), (with_node 65 f (cold s')).1 = f (stamp_node (node_new 0)).
Proof.
  destruct (write_node_total 65 (node_new 0) in_memory) as [s' E]. exists s'. split; [done|].
  apply (node_write_read 65 (node_new 0) in_memory s'); [by repeat split|done|done].
Defined.
