(* ===== verification/FreeChain.v ===== *)
(** * FreeChain: the free-list chain of an image (src/storage.rs, [load_free_list]).

    The superblock points at a chain of blocks that lists the free ones. A mount loads
    the list and appends the blocks of the chain itself, though the superblock goes on
    pointing at them until the next checkpoint. The last of them is the first block the
    allocator then hands out; what is written there is read as part of the chain by the
    next mount. *)
From Stdlib Require Import Strings.Byte.
From stdpp Require Import base list numbers gmap.
From S2P Require Import Prelude Device BlockBtree Storage Journal StoreSpec.
#[local] Open Scope rfs_scope.
#[local] Open Scope Z_scope.

Section free_chain.
Context {D : Type} `{!BlockDevice D} `{!BlockDeviceLaws D} `{!BlockDeviceTotal D} `{!Crc32}.
Implicit Types (d : D) (s : BlockStore D).

(** The store of a mount before the list is loaded. *)
Definition mounting (next : Z) (d : D) (p : bool) : BlockStore D := set_next_block_nr next (with_device d p).

(** Writing over the last block of a chain replaces what it lists. *)
Lemma chain_at_replace d d' head cs nr chunk chunk' :
  Forall (λ c, same_bytes c.1 d d') cs → read_at BLOCK_SIZE (block_offset nr) d' = Ok (chain_block 0 chunk') →
  (length chunk' ≤ FREE_CHAIN_ENTRIES)%nat → Forall (in_width 64) chunk' →
  chain_at d head (cs ++ [(nr, chunk)]) → chain_at d' head (cs ++ [(nr, chunk')]).
Proof using BlockDeviceLaws0.
  intros Hcs Hr Hl Hw. revert head. induction Hcs as [|[k c] cs Hk _ IH]; intros head; cbn [app chain_at fst] in *.
  - intros (-> & ? & _). split_and!; [done..|]. by exists 0.
  - intros (-> & ? & ? & ? & next & ? & Hk' & Hch). split_and!; [done..|]. exists next. split_and!; [done|by eapply same_bytes_block|by apply IH].
Qed.

Lemma load_mounting fuel next d p head cs :
  chain_at d head cs → (length cs < fuel)%nat →
  ∃ s, load_free_list fuel head (mounting next d p) = (Ok tt, s) ∧ free_list s = concat (snd <$> cs) ++ (fst <$> cs) ∧ device s = d.
Proof using BlockDeviceLaws0.
  intros Hch Hf. destruct (load_chain_ok fuel (mounting next d p) head cs [] []) as (s & E & _ & Es); [|done|done|].
  { intros k b Hk. cbn in Hk. by rewrite lookup_empty in Hk. }
  unfold load_free_list. rewrite (M_bind_ok _ _ _ _ _ E). eexists. split; [done|]. cbn [set_free_list free_list device]. by rewrite Es.
Qed.

(** C38: the data of a file can become the free list. A mount of an image with a free
    list loads it, and the first block it then hands out is the last block of the
    chain on disk, which the superblock still points at. When the bytes written there
    have the layout of a chain block, the next mount from the same superblock, with no
    checkpoint in between, succeeds and takes the block numbers in them, whatever they
    are, for free blocks. *)
Theorem first_block_after_mount_is_the_chain fuel next d p head cs nr chunk forged :
  chain_at d head (cs ++ [(nr, chunk)]) → (S (length cs) < fuel)%nat → NoDup (nr :: cs.*1) → Forall block_ok (nr :: cs.*1) →
  (length forged ≤ FREE_CHAIN_ENTRIES)%nat → Forall (in_width 64) forged →
  ∃ s1 s2 s3, load_free_list fuel head (mounting next d p) = (Ok tt, s1) ∧ alloc s1 = (Ok nr, s2) ∧
    write_data nr (chain_block 0 forged) s2 = (Ok tt, s3) ∧
    ∃ s4, load_free_list fuel head (mounting next (device s3) p) = (Ok tt, s4) ∧
      free_list s4 = concat cs.*2 ++ forged ++ cs.*1 ++ [nr].
Proof using All.
  intros Hch Hf Hnd Hok Hl Hw. assert (∀ c : list Z, length (cs ++ [(nr, c)]) < fuel)%nat as Hlen by (intros; rewrite length_app; cbn; lia).
  destruct (load_mounting fuel next d p head _ Hch (Hlen _)) as (s1 & E1 & Hfl & Hd).
  rewrite !fmap_app, concat_app, app_assoc in Hfl. cbn [fmap list_fmap fst snd concat] in Hfl.
  assert (∃ l, alloc s1 = (Ok nr, set_free_list l s1)) as [l E2] by (unfold alloc; rewrite (proj2 (vec_pop_Some _ _ _) Hfl); by eexists).
  destruct (write_data_total nr (chain_block 0 forged) (set_free_list l s1)) as [s3 E3]. exists s1, (set_free_list l s1), s3. do 3 (split; [done|]).
  apply write_data_Ok in E3 as (d' & Hwr & ->). cbn [set_data_cache set_device set_free_list device] in *. rewrite Hd in Hwr.
  apply NoDup_cons in Hnd as [Hnew _]. apply Forall_cons in Hok as [Hnr Hok].
  assert (chain_at d' head (cs ++ [(nr, forged)])) as Hch'.
  { eapply chain_at_replace; [| |done|done|exact Hch].
    - apply Forall_forall. intros c Hin. apply (list_elem_of_fmap_2 fst) in Hin. rewrite Forall_forall in Hok.
      eapply write_same_bytes; [by apply Hok|done| |by apply length_chain_block|exact Hwr]. intros E. apply Hnew. by rewrite <- E.
    - rewrite <- (length_chain_block 0 forged Hl). eapply read_write_same; [apply block_offset_nonneg|exact Hwr]. }
  destruct (load_mounting fuel next d' p head _ Hch' (Hlen _)) as (s4 & E4 & Hfl4 & _). exists s4. split; [done|].
  rewrite Hfl4, !fmap_app, concat_app. cbn [fmap list_fmap fst snd concat]. by rewrite app_nil_r, <- !app_assoc.
Qed.
End free_chain.

(** ** A concrete image *)
#[local] Existing Instance sum_crc.

(** A chain of one block that lists block 70; block 65, a node, is made free. *)
Definition demo_image : MemDevice := (write_at (chain_block 0 [70]) (block_offset 66) (device in_memory)).2.

Lemma first_block_after_mount_is_the_chain_witness :
  ∃ s1 s2 s3 s4, load_free_list 2 66 (mounting 71 demo_image false) = (Ok tt, s1) ∧ alloc s1 = (Ok 66, s2) ∧
    write_data 66 (chain_block 0 [65]) s2 = (Ok tt, s3) ∧ load_free_list 2 66 (mounting 71 (device s3) false) = (Ok tt, s4) ∧ free_list s4 = [65; 66].
Proof.
  destruct (first_block_after_mount_is_the_chain 2 71 demo_image false 66 [] 66 [70] [65]) as (s1 & s2 & s3 & E1 & E2 & E3 & s4 & E4 & Hfl).
  - cbn [app chain_at]. split; [reflexivity|]. split; [lia|]. split; [apply Nat.leb_le; vm_compute; reflexivity|].
    split; [apply Forall_singleton; unfold in_width; lia|]. exists 0. split; [unfold in_width; lia|]. split; [vm_compute; reflexivity|reflexivity].
  - cbn; lia.
  - apply NoDup_singleton.
  - apply Forall_singleton. unfold block_ok. lia.
  - apply Nat.leb_le; vm_compute; reflexivity.
  - apply Forall_singleton; unfold in_width; lia.
  - exists s1, s2, s3, s4. split; [exact E1|]. split; [exact E2|]. split; [exact E3|]. split; [exact E4|exact Hfl].
Defined.
