(* ===== verification/Heap.v ===== *)
(** * Heap: the block store seen as a map from block numbers to nodes.

    [loads s nr n] says that [nr] is in use and accessing it yields node [n], from
    the cache or, verified, from the device. The node operations of the store are
    specified against this reading, so that the tree proofs mention caches only
    where a checkpoint depends on them. *)
From Stdlib Require Import Strings.Byte.
From stdpp Require Import base list numbers gmap sorting.
From S2P Require Import Prelude Device BlockBtree NodeRep Storage Journal StoreSpec.
#[local] Open Scope Z_scope.

Section heap.
Context {D : Type} `{!BlockDevice D} `{!BlockDeviceLaws D} `{!BlockDeviceTotal D} `{!Crc32} `{!Crc32Range}.
Implicit Types s : BlockStore D.

(** Block [nr] of the device holds node [n], and the checks of a fault pass. *)
Definition on_disk s (nr : Z) (n : BtreeNodeRaw) : Prop :=
  ∃ bs, read_at BLOCK_SIZE (block_offset nr) (device s) = Ok bs ∧ decode_node bs = n ∧
        verify_node_in_place nr n = Ok tt.

Definition loads s (nr : Z) (n : BtreeNodeRaw) : Prop :=
  held s nr ∧
  match node_cache s !! nr with
  | Some c => cn_node c = n
  | None => on_disk s nr n
  end.

Lemma loads_inj s nr n1 n2 : loads s nr n1 → loads s nr n2 → n1 = n2.
Proof.
  unfold loads. destruct (node_cache s !! nr); [intros [_ ?] [_ ?]; congruence|].
  intros [_ (b1&?&?&_)] [_ (b2&?&?&_)]. congruence.
Qed.
Lemma loads_held s nr n : loads s nr n → held s nr.
Proof. by intros []. Qed.

(** Cached, and not cached dirty. *)
Definition cached s (k : Z) : Prop := is_Some (node_cache s !! k).
Definition calm s (k : Z) : Prop := ∀ c, node_cache s !! k = Some c → cn_dirty c = false.
#[export] Instance cached_dec s k : Decision (cached s k).
Proof. unfold cached. apply _. Defined.

(** The node cache holds blocks in use only, and a clean entry is what the
    device has. *)
Record store_ok s : Prop := {
  so_held k : cached s k → held s k;
  so_clean k c : node_cache s !! k = Some c → cn_dirty c = false → on_disk s k (cn_node c);
}.

Lemma empty_cache_ok s : node_cache s = ∅ → store_ok s.
Proof. intros E. split; [intros k|intros k c]; unfold cached; rewrite E, lookup_empty; [by intros []|done]. Qed.

Lemma calm_on_disk s k n : store_ok s → loads s k n → calm s k → on_disk s k n.
Proof.
  intros Hs [_ Hl] Hc. unfold calm in Hc. destruct (node_cache s !! k) as [c|] eqn:E; [|done].
  subst n. apply Hs; [done|by apply Hc].
Qed.

(** Block [nr] holds the data [b]: on the device, and in the data cache if it is
    cached there. *)
Definition data_at s (nr : Z) (b : list byte) : Prop :=
  read_at BLOCK_SIZE (block_offset nr) (device s) = Ok b ∧
  (data_cache s !! nr = None ∨ data_cache s !! nr = Some b).

Lemma data_at_inj s nr b b' : data_at s nr b → data_at s nr b' → b = b'.
Proof. intros [E _] [E' _]. congruence. Qed.

(** Stores that differ only in which clean nodes and which data are cached. *)
Record same_heap s s' : Prop := {
  sh_loads k n : loads s k n ↔ loads s' k n;
  sh_free : free_list s' = free_list s;
  sh_next : next_block_nr s' = next_block_nr s;
  sh_device : device s' = device s;
  sh_data k b : data_at s k b ↔ data_at s' k b;
  sh_cached k : cached s k → cached s' k;
  sh_calm k : calm s k → calm s' k;
  sh_ok : store_ok s → store_ok s';
  sh_chain : last_chain_blocks s' = last_chain_blocks s;
}.

#[export] Instance same_heap_preorder : PreOrder same_heap.
Proof.
  split; [by intros s|]. intros s1 s2 s3 [] []. split; [|congruence..| |by auto|by auto|by auto|congruence].
  - intros k n. by rewrite sh_loads0.
  - intros k b. by rewrite sh_data0.
Qed.

Lemma same_heap_held s s' k : same_heap s s' → held s k ↔ held s' k.
Proof. intros []. unfold held, unheld. by rewrite sh_free0, sh_next0, sh_chain0. Qed.

Lemma same_heap_alloc s s' : same_heap s s' → alloc_ok s → alloc_ok s'.
Proof. intros [] []. unfold unheld in *. split; unfold unheld; rewrite ?sh_free0, ?sh_next0, ?sh_chain0; done. Qed.

Lemma fault_in_loads s nr n :
  node_cache s !! nr = None → loads s nr n →
  ∃ s', fault_in nr s = (Ok n, s') ∧ same_heap s s' ∧
    s' = set_node_cache (<[nr := {| cn_node := n; cn_dirty := false |}]> (node_cache s)) s.
Proof.
  intros Hc [Hh Hl]. rewrite Hc in Hl. pose proof Hl as (bs & Hr & Hd & Hv).
  eexists. split.
  { unfold fault_in, device_read, mbind, M_bind, lift. rewrite Hr. cbn [map_err]. by rewrite Hd, Hv. }
  split; [|done]. split; [|done..| | | |done].
  - intros k m. unfold loads. cbn [set_node_cache node_cache device]. destruct (decide (k = nr)) as [->|Hne].
    + rewrite lookup_insert_eq, Hc. cbn [cn_node]. apply and_iff_compat_l. split; [|by intros <-].
      intros (bs' & ? & ? & _). congruence.
    + by rewrite lookup_insert_ne by done.
  - intros k Hk. unfold cached. cbn [set_node_cache node_cache]. destruct (decide (k = nr)) as [->|Hne];
      [rewrite lookup_insert_eq; by eexists|by rewrite lookup_insert_ne].
  - intros k Hk c. cbn [set_node_cache node_cache]. intros [[<- <-]|[_ ?]]%lookup_insert_Some; [done|by apply Hk].
  - intros [H1 H2]. split; cbn [set_node_cache node_cache].
    + intros k. unfold cached. cbn [set_node_cache node_cache]. rewrite lookup_insert_is_Some. intros [<-|[_ ?]]; [done|by apply H1].
    + intros k c [[<- <-]|[_ ?]]%lookup_insert_Some ?; [done|by apply (H2 k c)].
Qed.

(** [with_node] runs its closure on the loaded node, caches it and changes
    nothing else. *)
Lemma with_node_cached {R} s nr n (f : BtreeNodeRaw → res R) :
  loads s nr n → ∃ s', with_node nr f s = (f n, s') ∧ same_heap s s' ∧ cached s' nr.
Proof.
  intros Hl. unfold with_node, gets. unfold mbind at 1, M_bind at 1.
  destruct (node_cache s !! nr) as [c|] eqn:Hc.
  - exists s. destruct Hl as [_ Hl]. rewrite Hc in Hl. subst n. split_and!; [done|done|by exists c].
  - destruct (fault_in_loads s nr n Hc Hl) as (s' & E & Hs & Es). exists s'.
    unfold mbind, M_bind. rewrite E. split_and!; [done|done|]. rewrite Es. unfold cached. cbn [set_node_cache node_cache].
    rewrite lookup_insert_eq. by eexists.
Qed.
Lemma with_node_loads {R} s nr n (f : BtreeNodeRaw → res R) :
  loads s nr n → ∃ s', with_node nr f s = (f n, s') ∧ same_heap s s'.
Proof. intros Hl. destruct (with_node_cached s nr n f Hl) as (s' & ? & ? & _). eauto. Qed.

(** What one node write does to the heap. *)
Record heap_write s s' (nr : Z) (n : BtreeNodeRaw) : Prop := {
  hw_new : loads s' nr n;
  hw_other k m : block_ok k → k ≠ nr → loads s k m → loads s' k m;
  hw_free : free_list s' = free_list s;
  hw_next : next_block_nr s' = next_block_nr s;
  hw_data : data_cache s' = data_cache s;
  hw_cached : cached s' nr;
  hw_cached_other k : cached s k → cached s' k;
  hw_calm k : k ≠ nr → calm s k → calm s' k;
  hw_ok : store_ok s → store_ok s';
  hw_chain : last_chain_blocks s' = last_chain_blocks s;
}.

(** What an entry put into the node cache does to the statuses. *)
Lemma cache_put_status s s' nr c :
  node_cache s' = <[nr := c]> (node_cache s) →
  cached s' nr ∧ (∀ k, cached s k → cached s' k) ∧ ∀ k, k ≠ nr → calm s k → calm s' k.
Proof.
  intros E. unfold cached, calm. rewrite E. split_and!.
  - rewrite lookup_insert_eq. by eexists.
  - intros k Hk. destruct (decide (k = nr)) as [->|Hne]; [rewrite lookup_insert_eq; by eexists|by rewrite lookup_insert_ne].
  - intros k Hne Hk c'. rewrite lookup_insert_ne by done. apply Hk.
Qed.

Lemma with_node_mut_loads {R} s nr n n' (r : R) (f : BtreeNodeRaw → res (BtreeNodeRaw * R)) :
  loads s nr n → f n = Ok (n', r) →
  ∃ s', with_node_mut nr f s = (Ok r, s') ∧ heap_write s s' nr n' ∧ device s' = device s.
Proof.
  intros Hl Hf. pose proof (loads_held _ _ _ Hl) as Hh. unfold with_node_mut, gets. unfold mbind at 1, M_bind at 1.
  assert (∃ s1, (match node_cache s !! nr with Some c => mret (cn_node c) | None => fault_in nr end) s
      = (Ok n, s1) ∧ same_heap s s1 ∧ data_cache s1 = data_cache s) as (s1 & E1 & Hs1 & Hdc).
  { destruct (node_cache s !! nr) as [c|] eqn:Hc.
    - exists s. destruct Hl as [_ Hl]. rewrite Hc in Hl. by subst n.
    - destruct (fault_in_loads s nr n Hc Hl) as (s' & E & Hs & Es). exists s'. by rewrite E, Es in *. }
  unfold mbind at 1, M_bind at 1. rewrite E1. unfold mbind, M_bind, lift. rewrite Hf.
  eexists. split; [done|]. pose proof (proj1 (same_heap_held _ _ nr Hs1) Hh) as Hh1. destruct Hs1. split; [|done].
  destruct (cache_put_status s1 (set_node_cache (<[nr := {| cn_node := n'; cn_dirty := true |}]> (node_cache s1)) s1) nr _ eq_refl)
    as (C1 & C2 & C3).
  split; [| |done|done|done|done|by auto|by auto| |done].
  - unfold loads. cbn [set_node_cache node_cache]. by rewrite lookup_insert_eq.
  - intros k m _ Hne Hk. apply sh_loads0 in Hk. unfold loads in *.
    cbn [set_node_cache node_cache device]. by rewrite lookup_insert_ne.
  - intros [H1 H2]%sh_ok0. split.
    + intros k. unfold cached. cbn [set_node_cache node_cache]. rewrite lookup_insert_is_Some. intros [<-|[_ ?]]; [done|by apply H1].
    + intros k c. cbn [set_node_cache node_cache]. intros [[<- <-]|[_ ?]]%lookup_insert_Some ?; [done|by apply (H2 k c)].
Qed.

Lemma write_node_loads s nr n :
  node_sound n → held s nr → (∀ k, held s k → block_ok k) →
  ∃ s', write_node nr n s = (Ok tt, s') ∧ heap_write s s' nr (stamp_node n) ∧ calm s' nr ∧ on_disk s' nr (stamp_node n) ∧
    ∀ k, block_ok k → k ≠ nr → same_bytes k (device s) (device s').
Proof using All.
  intros [Hw Hm] Hh Hcb. pose proof (Hcb _ Hh) as Hnr. destruct (write_total (encode_node (stamp_node n)) (block_offset nr) (device s)) as [d' Hd].
  pose proof (stamp_node_wf n Hw) as Hws.
  eexists. split.
  { unfold write_node, on_device, mapping_err, zoom, mbind, M_bind. rewrite Hd. cbn [map_err]. done. }
  set (s' := set_node_cache _ _).
  assert (∀ k, block_ok k → k ≠ nr → same_bytes k (device s) d') as Hdev.
  { intros k Hk Hne. apply (write_same_bytes k nr (encode_node (stamp_node n))); [done..|by apply length_encode_node|done]. }
  assert (on_disk s' nr (stamp_node n)) as Hod.
  { exists (encode_node (stamp_node n)). split_and!; [|by apply decode_encode_node|by apply verify_stamped].
    rewrite <- (length_encode_node _ Hws) at 1. eapply read_write_same; [apply block_offset_nonneg|exact Hd]. }
  assert (∀ k x, block_ok k → k ≠ nr → on_disk s k x → on_disk s' k x) as Hod'.
  { intros k x Hk Hne (bs & Hr & ? & ?). exists bs. split; [by apply (same_bytes_block k (device s)); [apply Hdev|]|done]. }
  destruct (cache_put_status s s' nr _ eq_refl) as (C1 & C2 & C3).
  split; [|split_and!; [|done|exact Hdev]].
  - split; [| |done|done|done|done|done|done| |done].
    + unfold loads. cbn [s' set_node_cache node_cache]. by rewrite lookup_insert_eq.
    + intros k m Hk Hne [Hkh Hl]. split; [done|]. cbn [s' set_node_cache node_cache set_device device].
      rewrite lookup_insert_ne by done. destruct (node_cache s !! k); [done|]. by apply Hod'.
    + intros [H1 H2]. split.
      * intros k. unfold cached. cbn [s' set_node_cache node_cache]. rewrite lookup_insert_is_Some. intros [<-|[_ ?]]; [done|by apply H1].
      * intros k c. cbn [s' set_node_cache node_cache]. intros [[<- <-]|[Hne Hk]]%lookup_insert_Some Hc; [done|].
        apply Hod'; [apply Hcb, H1; by exists c|done|by apply H2].
  - intros c. cbn [s' set_node_cache node_cache]. rewrite lookup_insert_eq. by intros [= <-].
Qed.

(** [alloc] moves no node. *)
Lemma alloc_same s nr s' :
  alloc s = (Ok nr, s') → node_cache s' = node_cache s ∧ data_cache s' = data_cache s ∧ device s' = device s ∧
    last_chain_blocks s' = last_chain_blocks s.
Proof.
  intros E. destruct (alloc_cases s) as [(x & l & _ & E')|[_ E']]; rewrite E in E'; injection E' as _ ->; done.
Qed.

Lemma alloc_next s nr s' :
  alloc s = (Ok nr, s') → 0 ≤ next_block_nr s < 2 ^ 64 - 1 → next_block_nr s ≤ next_block_nr s' ≤ next_block_nr s + 1.
Proof.
  intros E Hn. destruct (alloc_cases s) as [(x & l & _ & E')|[_ E']]; rewrite E in E'; injection E' as _ ->;
    cbn [set_free_list set_next_block_nr next_block_nr]; [lia|].
  unfold u64. rewrite wrap_small; [lia|]. unfold in_width. lia.
Qed.

(** [room s m]: the allocator is sound and can hand out [m] more blocks. *)
Definition room s (m : Z) : Prop := alloc_ok s ∧ 0 ≤ m ∧ next_block_nr s + m ≤ 2 ^ 52.

Lemma room_weaken s m m' : room s m → 0 ≤ m' ≤ m → room s m'.
Proof. intros (? & ? & ?) ?. split_and!; [done|lia|lia]. Qed.

Lemma held_block_ok s m k : room s m → held s k → block_ok k.
Proof.
  intros (_ & ? & ?) [Hk _]. unfold block_ok.
  unfold FIRST_DATA_BLOCK_NR, FIRST_JOURNAL_BLOCK, JOURNAL_BLOCKS in Hk. lia.
Qed.

Lemma held_width s m k : room s m → held s k → in_width 64 k.
Proof. intros Hr Hk. pose proof (held_block_ok s m k Hr Hk) as Hb. unfold block_ok in Hb. unfold in_width. lia. Qed.

(** Blocks no allocation hands out: those in use, the free-list chain, the
    superblock and the ring. *)
Definition fixed s (k : Z) : Prop := held s k ∨ k ∈ last_chain_blocks s ∨ 0 ≤ k < FIRST_DATA_BLOCK_NR.

Lemma low_block_ok k : 0 ≤ k < FIRST_DATA_BLOCK_NR → block_ok k.
Proof. unfold block_ok, FIRST_DATA_BLOCK_NR, FIRST_JOURNAL_BLOCK, JOURNAL_BLOCKS. lia. Qed.

Lemma fixed_block_ok s m k : room s m → fixed s k → block_ok k.
Proof.
  intros Hr [Hk|[Hk|Hk]]; [by eapply held_block_ok| |by apply low_block_ok].
  destruct Hr as ([] & ? & ?). assert (k ∈ unheld s) as Hu by (apply elem_of_app; by right). apply ao_range in Hu.
  assert (0 < FIRST_DATA_BLOCK_NR) by done. unfold block_ok. lia.
Qed.

Lemma fresh_not_fixed s s' k :
  last_chain_blocks s' = last_chain_blocks s → ¬ held s k → held s' k → ¬ fixed s k.
Proof.
  intros Hc Hn [Hk Hu] [?|[Hin|?]]; [done| |lia]. apply Hu. unfold unheld. rewrite Hc. apply elem_of_app. by right.
Qed.

(** How a computation may change the store: blocks stay held, a held block outside
    [W] keeps its node and does not become dirty, a fixed block outside [V] keeps
    its bytes on the device, and nothing leaves the node cache. *)
Record evolves2 (W V : Z → Prop) s s' : Prop := {
  ev_held k : held s k → held s' k;
  ev_loads k n : held s k → ¬ W k → loads s k n → loads s' k n;
  ev_dev k : fixed s k → ¬ V k → block_ok k → same_bytes k (device s) (device s');
  ev_data k b : held s k → ¬ V k → block_ok k → data_at s k b → data_at s' k b;
  ev_cached k : cached s k → cached s' k;
  ev_calm k : held s k → ¬ W k → calm s k → calm s' k;
  ev_ok : store_ok s → store_ok s';
  ev_next : next_block_nr s ≤ next_block_nr s';
  ev_chain : last_chain_blocks s' = last_chain_blocks s;
}.
Definition nowhere (k : Z) : Prop := False.
(** Most computations write to the device only at blocks that were free. *)
Abbreviation evolves W := (evolves2 W nowhere).

(** Blocks stay held and keep their bytes on the device. *)
Record frozen s s' : Prop := {
  fz_held k : held s k → held s' k;
  fz_dev k : fixed s k → block_ok k → same_bytes k (device s) (device s');
  fz_data k b : held s k → block_ok k → data_at s k b → data_at s' k b;
  fz_next : next_block_nr s ≤ next_block_nr s';
  fz_chain : last_chain_blocks s' = last_chain_blocks s;
}.
#[export] Instance frozen_preorder : PreOrder frozen.
Proof.
  split; [by intros s; split|]. intros s1 s2 s3 [] []. split; [by auto| |by auto|lia|congruence].
  intros k Hk Hb. etransitivity; [by apply fz_dev0|]. apply fz_dev1; [|done].
  unfold fixed. rewrite fz_chain0. destruct Hk; [left; auto|by right].
Qed.
Lemma evolves_frozen W s s' : evolves W s s' → frozen s s'.
Proof.
  intros []. split; [done| | |done|done].
  - intros k Hk Hb. apply ev_dev0; [done|by intros []|done].
  - intros k b Hk Hb. apply ev_data0; [done|by intros []|done].
Qed.
Lemma same_heap_frozen s s' : same_heap s s' → frozen s s'.
Proof.
  intros Hs. split; [intros k; by apply (same_heap_held s s' k Hs)|by rewrite (sh_device _ _ Hs)| |by rewrite (sh_next _ _ Hs)|apply Hs].
  intros k b _ _. by apply Hs.
Qed.

Lemma evolves_refl W V s : evolves2 W V s s.
Proof. by split. Qed.

Lemma evolves_trans (W1 W2 W V1 V2 V : Z → Prop) s1 s2 s3 :
  evolves2 W1 V1 s1 s2 → evolves2 W2 V2 s2 s3 → (∀ k, held s1 k → W1 k ∨ W2 k → W k) →
  (∀ k, fixed s1 k → V1 k ∨ V2 k → V k) → evolves2 W V s1 s3.
Proof.
  intros [] [] HW HV. split; [auto| | | |auto| |auto|lia|congruence].
  - intros k n Hk Hn Hl. apply ev_loads1; [auto|intros ?; apply Hn; auto|]. apply ev_loads0; [done|intros ?; apply Hn; auto|done].
  - intros k Hk Hn Hb. etransitivity; [apply ev_dev0; [done|intros ?; apply Hn; auto|done]|].
    apply ev_dev1; [unfold fixed; rewrite ev_chain0; destruct Hk; [left; auto|by right]|intros ?; apply Hn; auto|done].
  - intros k b Hk Hn Hb Hr. assert (fixed s1 k) by (by left). apply ev_data1; [auto|intros ?; apply Hn; auto|done|].
    apply ev_data0; [done|intros ?; apply Hn; auto|done|done].
  - intros k Hk Hn Hc. apply ev_calm1; [auto|intros ?; apply Hn; auto|]. apply ev_calm0; [done|intros ?; apply Hn; auto|done].
Qed.

Lemma evolves_nowhere W V s1 s2 s3 : evolves nowhere s1 s2 → evolves2 W V s2 s3 → evolves2 W V s1 s3.
Proof. intros H1 H2. eapply evolves_trans; [exact H1|exact H2|by intros k _ [[]|]..]. Qed.
Lemma evolves_nowhere_r W V s1 s2 s3 : evolves2 W V s1 s2 → evolves nowhere s2 s3 → evolves2 W V s1 s3.
Proof. intros H1 H2. eapply evolves_trans; [exact H1|exact H2|by intros k _ [|[]]..]. Qed.

Lemma evolves_weaken (W W' V V' : Z → Prop) s s' :
  evolves2 W V s s' → (∀ k, held s k → W k → W' k) → (∀ k, fixed s k → V k → V' k) → evolves2 W' V' s s'.
Proof. intros [] HW HV. split; [done|eauto|eauto 10|unfold fixed in *; eauto 10|done|eauto|done|done|done]. Qed.

Lemma same_heap_evolves s s' : same_heap s s' → evolves nowhere s s'.
Proof.
  intros Hs. split; [by intros k; rewrite (same_heap_held s s' k Hs)|intros k x _ _; by apply Hs|by rewrite (sh_device _ _ Hs)| |apply Hs| |apply Hs|by rewrite (sh_next _ _ Hs)|apply Hs].
  - intros k b _ _ _. by apply Hs.
  - intros k _ _. apply Hs.
Qed.
Lemma same_heap_room s s' m : same_heap s s' → room s m → room s' m.
Proof. intros Hs [Ha Hm]. split; [by eapply same_heap_alloc|]. by rewrite (sh_next _ _ Hs). Qed.

Lemma with_node_ev {R} s nr n (f : BtreeNodeRaw → res R) m :
  loads s nr n → room s m → ∃ s', with_node nr f s = (f n, s') ∧ evolves nowhere s s' ∧ room s' m ∧ cached s' nr.
Proof.
  intros Hl Hm. destruct (with_node_cached s nr n f Hl) as (s' & E & Hs & Hc). exists s'.
  split_and!; [done|by apply same_heap_evolves|by eapply same_heap_room|done].
Qed.

Lemma alloc_ev s m :
  room s (1 + m) → 0 ≤ m →
  ∃ nr s', alloc s = (Ok nr, s') ∧ evolves nowhere s s' ∧ room s' m ∧ ¬ held s nr ∧ held s' nr.
Proof.
  intros (Ha & _ & Hm) Hm0. destruct (alloc_spec s Ha) as (nr & s' & E & Ha' & Hn & _ & Hh & _); [lia|].
  destruct (alloc_same s nr s' E) as (Ec & Ed & Ev & _).
  assert (next_block_nr s ≤ next_block_nr s' ≤ next_block_nr s + 1) as Hnx.
  { apply (alloc_next s nr s' E). pose proof (ao_next _ Ha). unfold FIRST_DATA_BLOCK_NR, FIRST_JOURNAL_BLOCK, JOURNAL_BLOCKS in *. lia. }
  exists nr, s'. split_and!; [done| | |done|by apply Hh; left].
  - split.
    + intros k Hk; apply Hh; by right.
    + intros k x Hk _ [_ Hl]. split; [apply Hh; by right|]. by rewrite Ec; unfold on_disk; rewrite Ev.
    + by rewrite Ev.
    + intros k b _ _ _. unfold data_at. by rewrite Ev, Ed.
    + intros k. unfold cached. by rewrite Ec.
    + intros k _ _. unfold calm. by rewrite Ec.
    + intros [H1 H2]. split; [intros k; unfold cached; rewrite Ec; intros; apply Hh; right; by apply H1|].
      intros k c. rewrite Ec. unfold on_disk. rewrite Ev. apply H2.
    + lia.
    + apply (alloc_same s nr s' E).
  - split; [done|]. split; [done|]. lia.
Qed.

Lemma heap_write_ev s s' nr n m (V : Z → Prop) :
  heap_write s s' nr n → room s m → (V nr ∨ device s' = device s) →
  (∀ k, ¬ V k → block_ok k → k ≠ nr → same_bytes k (device s) (device s')) →
  evolves2 (eq nr) V s s' ∧ room s' m.
Proof.
  intros Hw Hr HV Hdev. assert (∀ k, held s' k ↔ held s k) as Hh.
  { intros k. unfold held, unheld. by rewrite (hw_free _ _ _ _ Hw), (hw_next _ _ _ _ Hw), (hw_chain _ _ _ _ Hw). }
  assert (∀ k, ¬ V k → block_ok k → same_bytes k (device s) (device s')) as Hdev'.
  { intros k Hk Hb. destruct HV as [HV|E]; [|by rewrite E]. apply Hdev; [done|done|by intros ->]. }
  split.
  - split; [intros k; apply Hh| |by auto| |apply Hw| |apply Hw|by rewrite (hw_next _ _ _ _ Hw)|apply Hw].
    + intros k x Hk Hne. apply (hw_other _ _ _ _ Hw); [by eapply held_block_ok|congruence].
    + intros k b _ Hk Hb [Hrd Hc]. split; [by eapply same_bytes_block; [apply Hdev'|]|by rewrite (hw_data _ _ _ _ Hw)].
    + intros k _ Hne. apply Hw. congruence.
  - destruct Hr as ([] & ? & ?). split; [|by rewrite (hw_next _ _ _ _ Hw)].
    unfold unheld in *. split; unfold unheld; rewrite ?(hw_next _ _ _ _ Hw), ?(hw_free _ _ _ _ Hw), ?(hw_chain _ _ _ _ Hw); done.
Qed.

Lemma write_node_ev s nr n m :
  node_sound n → held s nr → room s m →
  ∃ s', write_node nr n s = (Ok tt, s') ∧ evolves2 (eq nr) (eq nr) s s' ∧ room s' m ∧ loads s' nr (stamp_node n) ∧
    cached s' nr ∧ calm s' nr.
Proof using All.
  intros Hw Hh Hr. destruct (write_node_loads s nr n Hw Hh) as (s' & E & Hs & Hc & _ & Hdev); [intros k; by apply (held_block_ok s m)|].
  destruct (heap_write_ev s s' nr _ m (eq nr) Hs Hr) as [? ?]; [by left|intros k _; apply Hdev|].
  exists s'. split_and!; [done|done|done|apply Hs|apply Hs|done].
Qed.

Lemma with_node_mut_ev {R} s nr n n' (r : R) (f : BtreeNodeRaw → res (BtreeNodeRaw * R)) m :
  loads s nr n → f n = Ok (n', r) → room s m →
  ∃ s', with_node_mut nr f s = (Ok r, s') ∧ evolves (eq nr) s s' ∧ room s' m ∧ loads s' nr n' ∧ cached s' nr.
Proof.
  intros Hl Hf Hr. destruct (with_node_mut_loads s nr n n' r f Hl Hf) as (s' & E & Hs & Hdev).
  destruct (heap_write_ev s s' nr _ m nowhere Hs Hr) as [? ?]; [by right|by rewrite Hdev|].
  exists s'. split_and!; [done|done|done|apply Hs|apply Hs].
Qed.
End heap.
Abbreviation evolves W := (evolves2 W nowhere).
