(* ===== verification/Btree.v ===== *)
(** * Btree: the copy-on-write B-tree (src/btree.rs).

    Nodes live in the block store; a leaf absorbs writes in its bsets, a full
    leaf splits and the split is promoted upward. The recursive functions of
    the code recurse on block numbers, so they take fuel here: [TREE_FUEL]
    covers any tree whose levels decrease from parent to child, because the
    level is a [u8]. [debug_assert!] is compiled out of a release build and is
    not modelled; printing ([dump]) neither. *)
From Stdlib Require Import Strings.Byte.
From stdpp Require Import base list numbers gmap.
From S2P Require Import Prelude Device BlockBtree Storage.
#[local] Open Scope Z_scope.

Definition TREE_FUEL : nat := 600.

Definition sortable_key (logical : list byte) (snap : Z) : res (list byte * nat) :=
  _ ← assert_that (length logical <=? MAX_LOGICAL_KEY_SIZE)%nat;
  let n := length logical in
  buf ← splice (replicate MAX_KEY_SIZE Byte.x00) 0 logical;
  buf ← splice buf n (to_be SNAP_ID_BYTES snap);
  Ok (buf, (n + SNAP_ID_BYTES)%nat).

(** [let (buf, len) = sortable_key(key, snap); &buf[..len]] *)
Definition sortable (logical : list byte) (snap : Z) : res (list byte) :=
  '(buf, len) ← sortable_key logical snap; slice buf 0 len.

(** The stored form of a logical key at a snapshot. *)
Definition versioned (k : list byte) (snap : Z) : list byte := k ++ to_be 4 snap.

(** [AllSnapRow] and [VisibleSnapRow]. *)
Definition AllSnapRow : Type := list byte * Z * EntryKind * list byte.
Definition VisibleSnapRow : Type := list byte * Z * list byte.

Record LogRecord : Type := {
  lr_sortable_key : list byte;
  lr_kind : EntryKind;
  lr_value : list byte;
}.

(** ** Nodes in memory *)
Definition new_node_on_heap (lvl : Z) : res BtreeNodeRaw := start_new_bset 0 (node_new lvl).
Definition clone_to_heap (n : BtreeNodeRaw) : res BtreeNodeRaw := Ok n.

(** [alloc_seq]: the seq handed out and the counter after it. *)
Definition alloc_seq (next_bset_seq : Z) : Z * Z := (next_bset_seq, u64 (next_bset_seq + 1)).

Definition collect_leaf_entries_sorted (n : BtreeNodeRaw) : res (list DiskEntry) :=
  it ← merged_iter_new n;
  merged_for merged_fuel it (λ acc '(b, i), e ← entry_at n b i; Ok (true, acc ++ [e])) [].

Definition rebuild_leaf_from_entries (new_seq : Z) (entries : list DiskEntry) (n : BtreeNodeRaw)
    : res BtreeNodeRaw :=
  let gen_no := generation n in
  let needs_whiteout := existsb (λ e, bool_decide (kind_enum e = Whiteout)) entries in
  let n := set_generation gen_no (node_new 0) in
  n ← start_new_bset new_seq n;
  n ← foldO (λ n e, append_to_last_bset e n) n entries;
  set_bset_needs_whiteout 0 needs_whiteout n.

Definition compact_leaf_in_place (new_seq : Z) (n : BtreeNodeRaw) : res BtreeNodeRaw :=
  entries ← collect_leaf_entries_sorted n;
  rebuild_leaf_from_entries new_seq entries n.

(** [entries.into_iter().filter(..)] with the count of the entries dropped. *)
Definition filter_dropping (drop : DiskEntry → res bool) (entries : list DiskEntry)
    : res (list DiskEntry * nat) :=
  foldO (λ '(kept, dropped) e,
    d ← drop e;
    Ok (if d : bool then (kept, S dropped) else (kept ++ [e], dropped))) ([], 0%nat) entries.

Definition droppable_whiteout (dead_snaps : gset Z) (e : DiskEntry) : res bool :=
  if decide (kind_enum e = Whiteout) then
    s ← snap_id e; Ok (bool_decide (s ∈ dead_snaps))
  else Ok false.

Definition compact_leaf_dropping_whiteouts (new_seq : Z) (dead_snaps : gset Z) (n : BtreeNodeRaw)
    : res (BtreeNodeRaw * nat) :=
  entries ← collect_leaf_entries_sorted n;
  '(kept, dropped) ← filter_dropping (droppable_whiteout dead_snaps) entries;
  n ← rebuild_leaf_from_entries new_seq kept n;
  Ok (n, dropped).

Definition at_snap (dead_snap : Z) (e : DiskEntry) : res bool :=
  s ← snap_id e; Ok (s =? dead_snap).

Definition compact_leaf_dropping_snap (new_seq dead_snap : Z) (n : BtreeNodeRaw)
    : res (BtreeNodeRaw * nat) :=
  entries ← collect_leaf_entries_sorted n;
  '(kept, dropped) ← filter_dropping (at_snap dead_snap) entries;
  n ← rebuild_leaf_from_entries new_seq kept n;
  Ok (n, dropped).

(** [for x in l { if test(x) { return true; } } false] *)
Fixpoint anyO {A} (f : A → res bool) (l : list A) : res bool :=
  match l with
  | [] => Ok false
  | x :: l => b ← f x; if b : bool then Ok true else anyO f l
  end.

Definition leaf_has_droppable_whiteout (dead_snaps : gset Z) (n : BtreeNodeRaw) : res bool :=
  anyO (λ b,
    w ← bset_needs_whiteout n b;
    if negb w then Ok false else
    es ← bset_entries n b;
    anyO (droppable_whiteout dead_snaps) es) (seq 0 (bset_count n)).

Definition leaf_has_snap_entries (dead_snap : Z) (n : BtreeNodeRaw) : res bool :=
  anyO (λ b, es ← bset_entries n b; anyO (at_snap dead_snap) es) (seq 0 (bset_count n)).

(** Make the latest bset ready for a sort-insert; threads [next_bset_seq]. *)
Definition ensure_writable_last_bset (leaf : BtreeNodeRaw) (next_bset_seq : Z)
    : res (BtreeNodeRaw * Z) :=
  let '(seq, next) := alloc_seq next_bset_seq in
  if (bset_count leaf =? 0)%nat then n ← start_new_bset seq leaf; Ok (n, next) else
  let last := (bset_count leaf - 1)%nat in
  last_h ← bset_header leaf last;
  let last_full := (BSET_SOFT_LIMIT <=? Z.to_nat (bh_nkeys last_h))%nat in
  if negb last_full then Ok (leaf, next_bset_seq) else
  if (bset_count leaf <? BSET_TREE_NR_MAX)%nat then n ← start_new_bset seq leaf; Ok (n, next) else
  n ← compact_leaf_in_place seq leaf; Ok (n, next).

Definition build_leaf_entry (sortable_key : list byte) (kind : EntryKind) (value : list byte)
    : res DiskEntry :=
  e ← set_key sortable_key empty_entry;
  let e := set_kind kind e in
  let len := Nat.min (length value) MAX_VALUE_SIZE in
  v ← slice value 0 len;
  p ← splice (de_payload e) 0 v;
  p ← fill_zero_from p len;
  Ok (with_payload (u8 (Z.of_nat len)) p e).

Inductive WriteMode : Type := InPlace | Cow.

(** [match node.search(key) { Ok(i) => i + 1, Err(i) => i }] *)
Definition child_slot (r : search_result) : nat :=
  match r with Found i => (i + 1)%nat | Absent i => i end.

Definition search_found (r : search_result) : bool :=
  match r with Found _ => true | Absent _ => false end.

(** [(0..=node.nkeys()).map(|i| node.child_block(i)).collect()] *)
Definition children (n : BtreeNodeRaw) : res (list Z) :=
  nk ← nkeys n; mapM (child_block n) (seq 0 (S nk)).

(** *** The leaf write *)
Definition apply_write (key : list byte) (kind : EntryKind) (value : list byte)
    (leaf : BtreeNodeRaw) (absorbs : bool) (next_bset_seq : Z) : res (BtreeNodeRaw * Z) :=
  '(leaf, seq) ←
    (if absorbs then
       let last_idx := (bset_count leaf - 1)%nat in
       r ← bset_search leaf last_idx key;
       entry_idx ← expect (match r with Found i => Some i | Absent _ => None end);
       e ← build_leaf_entry key kind value;
       leaf ← entry_at_mut last_idx entry_idx (λ _, Ok e) leaf;
       Ok (leaf, next_bset_seq)
     else
       '(leaf, seq) ← ensure_writable_last_bset leaf next_bset_seq;
       e ← build_leaf_entry key kind value;
       '(_, leaf) ← sort_insert_into_last_bset e leaf;
       Ok (leaf, seq));
  if decide (kind = Whiteout) then
    leaf ← set_bset_needs_whiteout (bset_count leaf - 1) true leaf; Ok (leaf, seq)
  else Ok (leaf, seq).

Inductive Plan : Type := PlanInPlace (absorbs : bool) | PlanSplit (node : BtreeNodeRaw).

Definition plan_write (key : list byte) (node : BtreeNodeRaw) : res Plan :=
  absorbs ← (if (bset_count node =? 0)%nat then Ok false
             else r ← bset_search node (bset_count node - 1) key; Ok (search_found r));
  full ← (if negb absorbs then nk ← nkeys node; Ok (MAX_ENTRIES <=? nk)%nat else Ok false);
  if full : bool then n ← clone_to_heap node; Ok (PlanSplit n)
  else Ok (PlanInPlace absorbs).

(** *** The kind flip *)
Definition flip_best_step (sortable_key : list byte) (leaf : BtreeNodeRaw)
    (best : option (nat * nat * Z)) (b : nat) : res (option (nat * nat * Z)) :=
  r ← bset_search leaf b sortable_key;
  match r with
  | Absent _ => Ok best
  | Found idx =>
      h ← bset_header leaf b;
      Ok (match best with
          | None => Some (b, idx, bh_seq h)
          | Some (_, _, s) => if s <? bh_seq h then Some (b, idx, bh_seq h) else best
          end)
  end.

Definition flip (sortable_key : list byte) (new_kind : EntryKind) (leaf : BtreeNodeRaw)
    : res BtreeNodeRaw :=
  best ← foldO (flip_best_step sortable_key leaf) None (seq 0 (bset_count leaf));
  '(b, i, _) ← expect best;
  leaf ← entry_at_mut b i (λ e, Ok (set_kind new_kind e)) leaf;
  if decide (new_kind = Whiteout) then set_bset_needs_whiteout b true leaf else Ok leaf.

(** *** Leaf scans: the rows of the merged view in [start, end) *)
Definition scan_leaf {A} (row : BtreeNodeRaw → nat → nat → DiskEntry → res (option A))
    (start stop : list byte) (node : BtreeNodeRaw) (results : list A) : res (list A) :=
  it ← merged_iter_new node;
  merged_for merged_fuel it (λ acc '(b, i),
    e ← entry_at node b i;
    sk ← key_bytes e;
    if bytes_ltb sk start then Ok (true, acc) else
    if negb (bytes_ltb sk stop) then Ok (false, acc) else
    r ← row node b i e;
    Ok (true, acc ++ option_list r)) results.

(** The children to visit, each with the separator to its right. *)
Definition scan_plan (start : list byte) (node : BtreeNodeRaw) : res (list (Z * option (list byte))) :=
  r ← search node start;
  let i := child_slot r in
  nk ← nkeys node;
  let nchildren := (nk + 1)%nat in
  let i := if (nchildren <=? i)%nat then (nchildren - 1)%nat else i in
  mapM (λ i,
    sep ← (if (i <? nk)%nat then e ← entry node i; k ← key_bytes e; Ok (Some k) else Ok None);
    c ← child_block node i;
    Ok (c, sep)) (seq i (nchildren - i)).

Definition live_row (node : BtreeNodeRaw) (b i : nat) (e : DiskEntry)
    : res (option (list byte * list byte)) :=
  if decide (kind_enum e = Live) then
    k ← logical_key_bytes e; v ← value_bytes_at node b i; Ok (Some (k, v))
  else Ok None.

Definition all_row (node : BtreeNodeRaw) (b i : nat) (e : DiskEntry) : res (option AllSnapRow) :=
  k ← logical_key_bytes e; s ← snap_id e; v ← value_bytes_at node b i;
  Ok (Some (k, s, kind_enum e, v)).

(** ** Trees in the store *)
Section tree.
Context {D : Type} `{!BlockDevice D} `{!Crc32}.
Abbreviation SM := (M (BlockStore D) error).

(** Functions that also take [next_bset_seq: &mut u64]. *)
Abbreviation BM := (M (BlockStore D * Z) error).
Definition on_store {A} (c : SM A) : BM A := zoom fst (λ s p, (s, p.2)) c.
Definition get_seq : BM Z := gets snd.
Definition set_seq (q : Z) : BM unit := modify (λ p, (p.1, q)).

Definition node_level (nr : Z) : SM Z := with_node nr (λ n, Ok (level n)).

(** *** Lookup *)
Inductive Step : Type := StepFound (r : option (list byte * EntryKind)) | StepDescend (nr : Z).

Definition find_step (key : list byte) (node : BtreeNodeRaw) : res Step :=
  if level node =? 0 then
    h ← merged_find node key;
    match h with
    | Some hit =>
        e ← entry_at node (hit_bset hit) (hit_entry hit);
        v ← value_bytes_at node (hit_bset hit) (hit_entry hit);
        Ok (StepFound (Some (v, kind_enum e)))
    | None => Ok (StepFound None)
    end
  else
    r ← search node key;
    c ← child_block node (child_slot r);
    Ok (StepDescend c).

Fixpoint find_raw (fuel : nat) (nr : Z) (key : list byte) : SM (option (list byte * EntryKind)) :=
  match fuel with
  | O => out_of_fuel
  | S fuel =>
      step ← with_node nr (find_step key);
      match step with
      | StepFound r => mret r
      | StepDescend child => find_raw fuel child key
      end
  end.

Definition tree_find (nr : Z) (key : list byte) : SM (option (list byte)) :=
  r ← find_raw TREE_FUEL nr key;
  mret (match r with
        | Some (value, Live) => Some value
        | _ => None
        end).

(** *** Range scans *)
Inductive ScanPlan (A : Type) : Type :=
  LeafRows (rows : list A) | Internal (plan : list (Z * option (list byte))).
Arguments LeafRows {A}. Arguments Internal {A}.

(** [for (child, sep) in plan { walk(child)?; if sep >= end { return Ok(()) } }] *)
Fixpoint scan_children {A} (walk : Z → list A → SM (list A)) (stop : list byte)
    (plan : list (Z * option (list byte))) (results : list A) : SM (list A) :=
  match plan with
  | [] => mret results
  | (child, sep) :: plan =>
      results ← walk child results;
      match sep with
      | Some sep => if negb (bytes_ltb sep stop) then mret results
                    else scan_children walk stop plan results
      | None => scan_children walk stop plan results
      end
  end.

(** The recursion shared by [range_scan] and [range_scan_all]. *)
Fixpoint scan_walk {A} (row : BtreeNodeRaw → nat → nat → DiskEntry → res (option A))
    (fuel : nat) (start stop : list byte) (nr : Z) (results : list A) : SM (list A) :=
  match fuel with
  | O => out_of_fuel
  | S fuel =>
      plan ← with_node nr (λ node,
        if level node =? 0 then rows ← scan_leaf row start stop node results; Ok (LeafRows rows)
        else p ← scan_plan start node; Ok (Internal p));
      match plan with
      | LeafRows results => mret results
      | Internal plan => scan_children (scan_walk row fuel start stop) stop plan results
      end
  end.

Definition range_scan (nr : Z) (start stop : list byte) (results : list (list byte * list byte))
    : SM (list (list byte * list byte)) := scan_walk live_row TREE_FUEL start stop nr results.
Definition range_scan_all (nr : Z) (start stop : list byte) (results : list AllSnapRow)
    : SM (list AllSnapRow) := scan_walk all_row TREE_FUEL start stop nr results.

(** *** Visibility along an ancestor chain *)
Fixpoint first_on_chain (logical : list byte) (chain_set : gset Z) (rows : list AllSnapRow)
    : option (list byte * Z) :=
  match rows with
  | [] => None
  | (row_logical, snap, kind, value) :: rows =>
      if negb (bytes_eqb row_logical logical) || negb (bool_decide (snap ∈ chain_set))
      then first_on_chain logical chain_set rows
      else match kind with
           | Live => Some (value, snap)
           | Deleted | Whiteout => None
           end
  end.

Definition find_visible_with_snap (nr : Z) (logical : list byte) (chain : list Z)
    : SM (option (list byte * Z)) :=
  let n := length logical in
  _ ← lift (assert_that (n <=? MAX_LOGICAL_KEY_SIZE)%nat);
  start ← lift (splice (replicate MAX_KEY_SIZE Byte.x00) 0 logical);
  start ← lift (slice start 0 (n + SNAP_ID_BYTES));
  let stop := logical ++ replicate SNAP_ID_BYTES Byte.xff ++ [Byte.x00] in
  rows ← range_scan_all nr start stop [];
  mret (first_on_chain logical (list_to_set chain) rows).

Definition find_visible (nr : Z) (logical : list byte) (chain : list Z) : SM (option (list byte)) :=
  r ← find_visible_with_snap nr logical chain;
  mret (fst <$> r).

(** *** The kind flip along a path *)
Definition cow_child (nr : Z) (child_idx : nat) (new_child : Z) : SM Z :=
  new_block ← alloc;
  new_node ← with_node nr clone_to_heap;
  new_node ← lift (set_child_block child_idx new_child new_node);
  _ ← write_node new_block new_node;
  mret new_block.

Definition descend (key : list byte) (node : BtreeNodeRaw) : res (nat * Z) :=
  r ← search node key;
  let idx := child_slot r in
  c ← child_block node idx;
  Ok (idx, c).

Fixpoint flip_kind_in_place (fuel : nat) (nr : Z) (key : list byte) (new_kind : EntryKind)
    (mode : WriteMode) : SM Z :=
  match fuel with
  | O => out_of_fuel
  | S fuel =>
      lvl ← node_level nr;
      if lvl =? 0 then
        match mode with
        | InPlace =>
            _ ← with_node_mut nr (λ leaf, leaf ← flip key new_kind leaf; Ok (leaf, tt));
            mret nr
        | Cow =>
            new_block ← alloc;
            new_node ← with_node nr clone_to_heap;
            new_node ← lift (flip key new_kind new_node);
            _ ← write_node new_block new_node;
            mret new_block
        end
      else
        '(child_idx, child_nr) ← with_node nr (descend key);
        new_child ← flip_kind_in_place fuel child_nr key new_kind mode;
        match mode with
        | InPlace => mret nr
        | Cow => cow_child nr child_idx new_child
        end
  end.

(** *** Split and promote *)
Definition split_leaf_node (node : BtreeNodeRaw) : BM (BtreeNodeRaw * Z * Z * Z) :=
  canonical ←
    (if (1 <? bset_count node)%nat then
       q ← get_seq;
       let '(seq, next) := alloc_seq q in
       _ ← set_seq next;
       lift (compact_leaf_in_place seq node)
     else lift (clone_to_heap node));
  n ← lift (nkeys canonical);
  let mid := (n / 2)%nat in
  median_key_buf ← lift (e ← entry canonical mid; key_bytes e);
  left_block ← on_store alloc;
  left ← lift (set_nkeys mid canonical);
  _ ← on_store (write_node left_block left);
  right_block ← on_store alloc;
  right ← lift (bset_entries_mut 0 (λ es, tail ← slice es mid n; splice es 0 tail) canonical);
  right ← lift (set_nkeys (n - mid) right);
  _ ← on_store (write_node right_block right);
  root_block ← on_store alloc;
  root ← lift (new_node_on_heap 1);
  let root := set_generation (generation canonical) root in
  root ← lift (set_nkeys 1 root);
  root ← lift (entry_mut 0 (set_key median_key_buf) root);
  mret (root, root_block, left_block, right_block).

(** [for i in l { node = f(node, i) }] *)
Definition for_node (l : list nat) (f : BtreeNodeRaw → nat → res BtreeNodeRaw) (n : BtreeNodeRaw)
    : res BtreeNodeRaw := foldO f n l.

(** [dst.entry_mut(j).set_key(src.entry(i).key_bytes())] *)
Definition copy_key (src : BtreeNodeRaw) (i : nat) (dst : BtreeNodeRaw) (j : nat) : res BtreeNodeRaw :=
  e ← entry src i; k ← key_bytes e; entry_mut j (set_key k) dst.
(** [dst.set_child_block(j, src.child_block(i))] *)
Definition copy_child (src : BtreeNodeRaw) (i : nat) (dst : BtreeNodeRaw) (j : nat) : res BtreeNodeRaw :=
  c ← child_block src i; set_child_block j c dst.

Definition split_internal_node (node : BtreeNodeRaw) : SM (BtreeNodeRaw * Z * Z * Z) :=
  n ← lift (nkeys node);
  let mid := (n / 2)%nat in
  median_key_buf ← lift (e ← entry node mid; key_bytes e);
  left_block ← alloc;
  left ← lift (set_nkeys mid node);
  _ ← write_node left_block left;
  right_block ← alloc;
  right ← lift (new_node_on_heap (level node));
  let right := set_generation (generation node) right in
  right ← lift (set_nkeys (n - mid - 1) right);
  right ← lift (for_node (seq (mid + 1) (n - (mid + 1)))
                  (λ r i, copy_key node i r (i - mid - 1)) right);
  right ← lift (for_node (seq 0 (S (n - mid - 1))) (λ r i, copy_child node (mid + 1 + i) r i) right);
  _ ← write_node right_block right;
  root_block ← alloc;
  root ← lift (new_node_on_heap (u8 (level node + 1)));
  let root := set_generation (generation node) root in
  root ← lift (set_nkeys 1 root);
  root ← lift (entry_mut 0 (set_key median_key_buf) root);
  mret (root, root_block, left_block, right_block).

(** The parent with the median inserted at [child_idx], built in memory. *)
Definition promoted_node (old_parent : BtreeNodeRaw) (child_idx : nat) (median_key : list byte)
    (left_child right_child : Z) : res BtreeNodeRaw :=
  old_nkeys ← nkeys old_parent;
  new_node ← new_node_on_heap (level old_parent);
  let new_node := set_generation (generation old_parent) new_node in
  new_node ← set_nkeys (old_nkeys + 1) new_node;
  new_node ← for_node (seq 0 child_idx)
    (λ n i, n ← copy_key old_parent i n i; copy_child old_parent i n i) new_node;
  new_node ← entry_mut child_idx (set_key median_key) new_node;
  new_node ← set_child_block child_idx left_child new_node;
  new_node ← set_child_block (child_idx + 1) right_child new_node;
  for_node (seq child_idx (old_nkeys - child_idx))
    (λ n i, n ← copy_key old_parent i n (i + 1); copy_child old_parent (i + 1) n (i + 2)) new_node.

Definition promote_to_parent (old_parent : BtreeNodeRaw) (child_idx : nat) (median_key : list byte)
    (left_child right_child : Z) : SM Z :=
  new_block ← alloc;
  new_node ← lift (promoted_node old_parent child_idx median_key left_child right_child);
  nk ← lift (nkeys new_node);
  if (nk <=? MAX_INTERNAL_KEYS)%nat then
    _ ← write_node new_block new_node;
    mret new_block
  else
    '(root_box, root_nr, new_left, new_right) ← split_internal_node new_node;
    root_box ← lift (set_child_block 0 new_left root_box);
    root_box ← lift (set_child_block 1 new_right root_box);
    _ ← write_node root_nr root_box;
    mret root_nr.

(** What a child that grew a level hands to its parent. *)
Definition median_of (new_child : BtreeNodeRaw) : res (list byte * Z * Z) :=
  e ← entry new_child 0;
  k ← key_bytes e;
  l ← child_block new_child 0;
  r ← child_block new_child 1;
  Ok (k, l, r).

(** *** Insert *)
Definition insert_leaf (insert : Z → list byte → list byte → EntryKind → WriteMode → BM Z)
    (nr : Z) (key value : list byte) (kind : EntryKind) (mode : WriteMode) : BM Z :=
  plan ← on_store (with_node nr (plan_write key));
  match plan with
  | PlanInPlace absorbs =>
      match mode with
      | InPlace =>
          q ← get_seq;
          q' ← on_store (with_node_mut nr (λ leaf, apply_write key kind value leaf absorbs q));
          _ ← set_seq q';
          mret nr
      | Cow =>
          new_block ← on_store alloc;
          new_node ← on_store (with_node nr clone_to_heap);
          q ← get_seq;
          '(new_node, q') ← lift (apply_write key kind value new_node absorbs q);
          _ ← set_seq q';
          _ ← on_store (write_node new_block new_node);
          mret new_block
      end
  | PlanSplit old_node =>
      '(root_box, root_nr, left_block, right_block) ← split_leaf_node old_node;
      root_box ← lift (set_child_block 0 left_block root_box);
      root_box ← lift (set_child_block 1 right_block root_box);
      '(child_idx, child_nr) ← lift (descend key root_box);
      child_level ← on_store (node_level child_nr);
      new_child_nr ← insert child_nr key value kind mode;
      new_child_level ← on_store (node_level new_child_nr);
      if child_level <? new_child_level then
        '(median_key, lchild, rchild) ← on_store (with_node new_child_nr median_of);
        on_store (promote_to_parent root_box child_idx median_key lchild rchild)
      else
        root_box ← lift (set_child_block child_idx new_child_nr root_box);
        _ ← on_store (write_node root_nr root_box);
        mret root_nr
  end.

Definition insert_internal (insert : Z → list byte → list byte → EntryKind → WriteMode → BM Z)
    (nr : Z) (key value : list byte) (kind : EntryKind) (mode : WriteMode) : BM Z :=
  '(child_idx, child_nr) ← on_store (with_node nr (descend key));
  child_level ← on_store (node_level child_nr);
  new_child_nr ← insert child_nr key value kind mode;
  new_child_level ← on_store (node_level new_child_nr);
  if child_level <? new_child_level then
    '(median_key, lchild, rchild) ← on_store (with_node new_child_nr median_of);
    old_node ← on_store (with_node nr clone_to_heap);
    on_store (promote_to_parent old_node child_idx median_key lchild rchild)
  else if new_child_nr =? child_nr then mret nr
  else on_store (cow_child nr child_idx new_child_nr).

Fixpoint tree_insert (fuel : nat) (nr : Z) (key value : list byte) (kind : EntryKind)
    (mode : WriteMode) : BM Z :=
  match fuel with
  | O => out_of_fuel
  | S fuel =>
      lvl ← on_store (node_level nr);
      if lvl =? 0 then insert_leaf (tree_insert fuel) nr key value kind mode
      else insert_internal (tree_insert fuel) nr key value kind mode
  end.

(** *** Whole-tree passes *)
Fixpoint collect_node_blocks_rec (fuel : nat) (out : list Z) (nr : Z) : SM (list Z) :=
  match fuel with
  | O => out_of_fuel
  | S fuel =>
      let out := out ++ [nr] in
      cs ← with_node nr (λ node, if level node =? 0 then Ok [] else children node);
      foldM (collect_node_blocks_rec fuel) out cs
  end.

(** Returns the subtree's new root and [freed] extended. *)
Fixpoint checkpoint_flush (fuel : nat) (nr : Z) (freed : list Z) : SM (Z * list Z) :=
  match fuel with
  | O => out_of_fuel
  | S fuel =>
      c ← with_cached_node nr (λ n dirty, Ok (level n, dirty));
      match c with
      | None => mret (nr, freed)
      | Some (lvl, dirty) =>
          if lvl =? 0 then
            if negb dirty then mret (nr, freed) else
            node ← with_node nr clone_to_heap;
            new_block ← alloc;
            _ ← write_node new_block node;
            mret (new_block, freed ++ [nr])
          else
            cb ← with_cached_node nr (λ n _, children n);
            child_blocks ← lift (expect cb);
            '(new_children, any_moved, freed) ←
              foldM (λ '(cs, moved, freed) child,
                '(new_child, freed) ← checkpoint_flush fuel child freed;
                mret (cs ++ [new_child], moved || negb (new_child =? child), freed))
                ([], false, freed) child_blocks;
            if negb dirty && negb any_moved then mret (nr, freed) else
            node ← with_node nr clone_to_heap;
            node ← lift (for_node (seq 0 (length new_children))
                           (λ n i, c ← index new_children i; set_child_block i c n) node);
            new_block ← alloc;
            _ ← write_node new_block node;
            mret (new_block, freed ++ [nr])
      end
  end.

(** A compaction pass over every leaf: [should] decides from the raw leaf,
    [compact] rebuilds it with a fresh seq and counts what it dropped. *)
Fixpoint compact_pass (should : BtreeNodeRaw → res bool)
    (compact : Z → BtreeNodeRaw → res (BtreeNodeRaw * nat)) (fuel : nat) (nr : Z) : BM nat :=
  match fuel with
  | O => out_of_fuel
  | S fuel =>
      lvl ← on_store (node_level nr);
      if lvl =? 0 then
        should_compact ← on_store (with_node nr should);
        if negb should_compact then mret 0%nat else
        q ← get_seq;
        let '(seq, next) := alloc_seq q in
        dropped ← on_store (with_node_mut nr (compact seq));
        _ ← set_seq next;
        mret dropped
      else
        cs ← on_store (with_node nr children);
        foldM (λ dropped child,
          d ← compact_pass should compact fuel child; mret (dropped + d)%nat) 0%nat cs
  end.

Definition compact_whiteouts_rec (nr : Z) (dead_snaps : gset Z) : BM nat :=
  compact_pass (leaf_has_droppable_whiteout dead_snaps)
    (λ seq n, compact_leaf_dropping_whiteouts seq dead_snaps n) TREE_FUEL nr.
Definition drop_snapshot_keys_rec (nr dead_snap : Z) : BM nat :=
  compact_pass (leaf_has_snap_entries dead_snap)
    (λ seq n, compact_leaf_dropping_snap seq dead_snap n) TREE_FUEL nr.
End tree.

(** ** [Btree]: the root pointer, the store it shares with [Fs], the write log *)
Record Btree (D : Type) : Type := {
  root_block : Z;
  store : BlockStore D;
  next_bset_seq : Z;
  log : list LogRecord;
  logging : bool;
}.
Arguments root_block {D}. Arguments store {D}. Arguments next_bset_seq {D}.
Arguments log {D}. Arguments logging {D}.

(** [Tx]: a btree under an open transaction and the root its operations see. *)
Record Tx (D : Type) : Type := { tx_btree : Btree D; pending_root : Z }.
Arguments tx_btree {D}. Arguments pending_root {D}.

Section btree.
Context {D : Type} `{!BlockDevice D} `{!Crc32}.
Abbreviation SM := (M (BlockStore D) error).
Abbreviation TM := (M (Btree D) error).
Abbreviation XM := (M (Tx D) error).

Definition set_root (r : Z) (bt : Btree D) : Btree D :=
  {| root_block := r; store := store bt; next_bset_seq := next_bset_seq bt; log := log bt;
     logging := logging bt |}.
Definition set_store (s : BlockStore D) (bt : Btree D) : Btree D :=
  {| root_block := root_block bt; store := s; next_bset_seq := next_bset_seq bt; log := log bt;
     logging := logging bt |}.
Definition set_store_seq (p : BlockStore D * Z) (bt : Btree D) : Btree D :=
  {| root_block := root_block bt; store := p.1; next_bset_seq := p.2; log := log bt;
     logging := logging bt |}.
Definition set_log (l : list LogRecord) (bt : Btree D) : Btree D :=
  {| root_block := root_block bt; store := store bt; next_bset_seq := next_bset_seq bt; log := l;
     logging := logging bt |}.
Definition set_logging (b : bool) (bt : Btree D) : Btree D :=
  {| root_block := root_block bt; store := store bt; next_bset_seq := next_bset_seq bt;
     log := log bt; logging := b |}.

Definition in_store {A} (c : SM A) : TM A := zoom store set_store c.
Definition in_store_seq {A} (c : M (BlockStore D * Z) error A) : TM A :=
  zoom (λ bt, (store bt, next_bset_seq bt)) set_store_seq c.

Definition reopen (s : BlockStore D) (root seq : Z) : Btree D :=
  {| root_block := root; store := s; next_bset_seq := seq; log := []; logging := true |}.

Definition initialize_with (s : BlockStore D) : res (Btree D) :=
  match alloc s with
  | (Ok root, s) =>
      node ← start_new_bset 0 (node_new 0);
      match write_node root node s with
      | (Ok _, s) => Ok {| root_block := root; store := s; next_bset_seq := 1; log := [];
                           logging := true |}
      | (Err _, _) => Panic
      | (Panic, _) => Panic
      | (OutOfFuel, _) => OutOfFuel
      end
  | (Err e, _) => Err e
  | (Panic, _) => Panic
  | (OutOfFuel, _) => OutOfFuel
  end.
Definition create_in (s : BlockStore D) : res (Btree D) := initialize_with s.

Definition drain_log : TM (list LogRecord) :=
  l ← gets log; _ ← modify (set_log []); mret l.

Definition btree_checkpoint : TM unit :=
  root ← gets root_block;
  '(new_root, freed) ← in_store (checkpoint_flush TREE_FUEL root []);
  _ ← modify (set_root new_root);
  in_store (forM_ freed free).

Definition collect_live_node_blocks : TM (list Z) :=
  root ← gets root_block; in_store (collect_node_blocks_rec TREE_FUEL [] root).

Definition pending_log_len (bt : Btree D) : nat := length (log bt).
Definition log_len (bt : Btree D) : nat := pending_log_len bt.
Definition log_truncate (len : nat) (bt : Btree D) : Btree D := set_log (take len (log bt)) bt.

Definition without_logging {R} (f : TM R) : TM R := λ bt,
  let prev := logging bt in
  let '(r, bt) := f (set_logging false bt) in
  (r, set_logging prev bt).

(** [if self.logging { self.log.push(..) }] *)
Definition log_push (r : LogRecord) (bt : Btree D) : Btree D :=
  if logging bt then set_log (log bt ++ [r]) bt else bt.

(** *** Lookups and scans *)
Definition find_at (key : list byte) (snap : Z) : TM (option (list byte)) :=
  k ← lift (sortable key snap);
  root ← gets root_block;
  in_store (tree_find root k).
Definition btree_find (key : list byte) : TM (option (list byte)) := find_at key ROOT_SNAP.

Definition btree_find_visible_with_snap (logical : list byte) (chain : list Z)
    : TM (option (list byte * Z)) :=
  root ← gets root_block; in_store (find_visible_with_snap root logical chain).
Definition btree_find_visible (logical : list byte) (chain : list Z) : TM (option (list byte)) :=
  root ← gets root_block; in_store (find_visible root logical chain).

(** [bound ++ [0; 4]], built in a 32-byte buffer. *)
Definition scan_bound (bound : list byte) : res (list byte) :=
  let n := length bound in
  let buf := replicate MAX_KEY_SIZE Byte.x00 in
  _ ← assert_that (n <=? MAX_LOGICAL_KEY_SIZE)%nat;
  buf ← splice buf 0 bound;
  slice buf 0 (n + SNAP_ID_BYTES).

Definition range_scan_at (start stop : list byte) (_snap : Z) : TM (list (list byte * list byte)) :=
  a ← lift (scan_bound start);
  b ← lift (scan_bound stop);
  root ← gets root_block;
  in_store (range_scan root a b []).
Definition btree_range_scan (start stop : list byte) : TM (list (list byte * list byte)) :=
  range_scan_at start stop ROOT_SNAP.

Definition btree_range_scan_all (start stop : list byte) : TM (list AllSnapRow) :=
  a ← lift (scan_bound start);
  b ← lift (scan_bound stop);
  root ← gets root_block;
  in_store (range_scan_all root a b []).

(** The loop of [range_scan_visible_with_snap]: one decision per run of rows
    with the same logical key. *)
Definition visible_step (chain_set : gset Z)
    '((out, current, decided) : list VisibleSnapRow * option (list byte) * bool) (row : AllSnapRow)
    : list VisibleSnapRow * option (list byte) * bool :=
  let '(logical, snap, kind, value) := row in
  let '(current, decided) :=
    if decide (current = Some logical) then (current, decided) else (Some logical, false) in
  if decided then (out, current, decided)
  else if negb (bool_decide (snap ∈ chain_set)) then (out, current, decided)
  else match kind with
       | Live => (out ++ [(logical, snap, value)], current, true)
       | Deleted | Whiteout => (out, current, true)
       end.
Definition visible_rows (chain_set : gset Z) (raw : list AllSnapRow) : list VisibleSnapRow :=
  (foldl (visible_step chain_set) ([], None, false) raw).1.1.

Definition range_scan_visible_with_snap (start stop : list byte) (chain : list Z)
    : TM (list VisibleSnapRow) :=
  raw ← btree_range_scan_all start stop;
  mret (visible_rows (list_to_set chain) raw).
Definition range_scan_visible (start stop : list byte) (chain : list Z)
    : TM (list (list byte * list byte)) :=
  raw ← btree_range_scan_all start stop;
  mret ((λ '(k, _, v), (k, v)) <$> visible_rows (list_to_set chain) raw).

(** *** Writes *)
Definition insert_with_kind (key : list byte) (snap : Z) (kind : EntryKind) (value : list byte)
    : TM unit :=
  k ← lift (sortable key snap);
  root ← gets root_block;
  new_root ← in_store_seq (tree_insert TREE_FUEL root k value kind InPlace);
  _ ← modify (set_root new_root);
  modify (log_push {| lr_sortable_key := k; lr_kind := kind; lr_value := value |}).
Definition insert_at (key : list byte) (snap : Z) (value : list byte) : TM unit :=
  insert_with_kind key snap Live value.
Definition btree_insert (key value : list byte) : TM unit := insert_at key ROOT_SNAP value.

Definition delete_at (key : list byte) (snap : Z) (chain : list Z) : TM bool :=
  r ← btree_find_visible_with_snap key chain;
  match r with
  | None => mret false
  | Some (_, visible_snap) =>
      _ ← (if visible_snap =? snap then
             k ← lift (sortable key snap);
             root ← gets root_block;
             new_root ← in_store (flip_kind_in_place TREE_FUEL root k Deleted InPlace);
             _ ← modify (set_root new_root);
             modify (log_push {| lr_sortable_key := k; lr_kind := Deleted; lr_value := [] |})
           else insert_with_kind key snap Whiteout []);
      mret true
  end.
Definition btree_delete (key : list byte) : TM bool := delete_at key ROOT_SNAP [ROOT_SNAP].

Definition drop_snapshot_keys (dead_snap : Z) : TM nat :=
  root ← gets root_block; in_store_seq (drop_snapshot_keys_rec root dead_snap).
Definition compact_whiteouts (dead_snaps : gset Z) : TM nat :=
  if decide (dead_snaps = ∅) then mret 0%nat else
  root ← gets root_block; in_store_seq (compact_whiteouts_rec root dead_snaps).

(** *** Transactions *)
Definition set_tx_btree (bt : Btree D) (tx : Tx D) : Tx D :=
  {| tx_btree := bt; pending_root := pending_root tx |}.
Definition set_pending (r : Z) (tx : Tx D) : Tx D :=
  {| tx_btree := tx_btree tx; pending_root := r |}.
Definition in_tx {A} (c : TM A) : XM A := zoom tx_btree set_tx_btree c.

Definition tx_insert_with_kind (key : list byte) (snap : Z) (kind : EntryKind) (value : list byte)
    : XM unit :=
  k ← lift (sortable key snap);
  root ← gets pending_root;
  new_root ← in_tx (in_store_seq (tree_insert TREE_FUEL root k value kind Cow));
  _ ← modify (set_pending new_root);
  in_tx (modify (log_push {| lr_sortable_key := k; lr_kind := kind; lr_value := value |})).
Definition tx_insert (key : list byte) (snap : Z) (value : list byte) : XM unit :=
  tx_insert_with_kind key snap Live value.

Definition tx_delete_at (key : list byte) (snap : Z) (chain : list Z) : XM bool :=
  root ← gets pending_root;
  r ← in_tx (in_store (find_visible_with_snap root key chain));
  match r with
  | None => mret false
  | Some (_, visible_snap) =>
      _ ← (if visible_snap =? snap then
             k ← lift (sortable key snap);
             new_root ← in_tx (in_store (flip_kind_in_place TREE_FUEL root k Deleted Cow));
             _ ← modify (set_pending new_root);
             in_tx (modify (log_push {| lr_sortable_key := k; lr_kind := Deleted; lr_value := [] |}))
           else tx_insert_with_kind key snap Whiteout []);
      mret true
  end.

Definition tx_find_at (key : list byte) (snap : Z) : XM (option (list byte)) :=
  k ← lift (sortable key snap);
  root ← gets pending_root;
  in_tx (in_store (tree_find root k)).
Definition tx_find_visible (key : list byte) (chain : list Z) : XM (option (list byte)) :=
  root ← gets pending_root; in_tx (in_store (find_visible root key chain)).
Definition tx_find_visible_with_snap (key : list byte) (chain : list Z)
    : XM (option (list byte * Z)) :=
  root ← gets pending_root; in_tx (in_store (find_visible_with_snap root key chain)).

Definition transaction {R} (f : XM R) : TM R := λ bt,
  let log_mark := log_len bt in
  let '(result, tx) := f {| tx_btree := bt; pending_root := root_block bt |} in
  match result with
  | Ok value => (Ok value, set_root (pending_root tx) (tx_btree tx))
  | Err e => (Err e, log_truncate log_mark (tx_btree tx))
  | Panic => (Panic, tx_btree tx)
  | OutOfFuel => (OutOfFuel, tx_btree tx)
  end.

Definition replay_record (rec : LogRecord) : TM unit :=
  let k := lr_sortable_key rec in
  let n := length k in
  logical ← lift (if (SNAP_ID_BYTES <=? n)%nat then slice k 0 (n - SNAP_ID_BYTES) else Panic);
  suffix ← lift (slice k (n - SNAP_ID_BYTES) n);
  without_logging (insert_with_kind logical (from_be suffix) (lr_kind rec) (lr_value rec)).
End btree.

(** [Btree::new]: a tree over a fresh in-memory store. *)
Definition btree_new `{!Crc32} : res (Btree MemDevice) := initialize_with in_memory.
