(* ===== verification/Leaf.v ===== *)
(** * Leaf: what the leaf operations of the tree do to the merged reading
    (src/btree.rs, leaf half).

    [leaf_ok n bs q] is the invariant of a leaf whose tree will next hand out
    bset seq [q]. Each leaf operation is shown to return, to keep the invariant
    and to change [view] exactly as intended. *)
From Stdlib Require Import Strings.Byte.
From stdpp Require Import base list numbers gmap sorting.
From S2P Require Import Prelude Device BlockBtree NodeRep Merge Storage Btree.
#[local] Open Scope rfs_scope.
#[local] Open Scope Z_scope.

(** ** The entry a write builds *)
Definition sortable_wf (k : list byte) : Prop := (4 ≤ length k ≤ 32)%nat.

Definition leaf_entry (key : list byte) (kind : EntryKind) (value : list byte) : DiskEntry :=
  let v := take MAX_VALUE_SIZE value in
  {| de_key := key ++ replicate (MAX_KEY_SIZE - length key) Byte.x00;
     de_key_len := Z.of_nat (length key) - 4;
     de_value_len := Z.of_nat (length v);
     de_kind := kind_to_u8 kind;
     de_pad := replicate 5 Byte.x00;
     de_payload := v ++ replicate (MAX_VALUE_SIZE - length v) Byte.x00 |}.

Lemma overwrite_start {A} (l src : list A) : overwrite l 0 src = src ++ drop (length src) l.
Proof. done. Qed.

Lemma splice_start {E A} (l src : list A) :
  (length src ≤ length l)%nat → splice (E:=E) l 0 src = Ok (src ++ drop (length src) l).
Proof. intros. unfold splice. by rewrite (proj2 (Nat.leb_le _ _)). Qed.

Lemma fill_zero_from_app {E} (p s : list byte) k :
  k = length p → fill_zero_from (E:=E) (p ++ s) k = Ok (p ++ replicate (length s) Byte.x00).
Proof.
  intros ->. unfold fill_zero_from, splice, overwrite. rewrite length_replicate, length_app.
  rewrite (proj2 (Nat.leb_le _ _)) by lia. rewrite take_app_length, drop_ge by (rewrite length_app; lia).
  rewrite app_nil_r. do 3 f_equal. lia.
Qed.

(** [set_key] on any entry: the key is stored whole, its tail zeroed. *)
Lemma set_key_ok key e :
  sortable_wf key → length (de_key e) = MAX_KEY_SIZE →
  set_key key e = Ok (with_key (key ++ replicate (MAX_KEY_SIZE - length key) Byte.x00)
                               (Z.of_nat (length key) - 4) e).
Proof.
  intros [H1 H2] Hl. unfold set_key. consts.
  rewrite (proj2 (Nat.leb_le _ _)) by done. cbn [assert_that]. mred.
  rewrite Nat.min_l, firstn_all by lia. rewrite splice_start by lia. mred.
  rewrite fill_zero_from_app by done. mred. rewrite length_drop, Hl.
  do 3 f_equal. unfold u8. rewrite wrap_small; unfold in_width; lia.
Qed.

Lemma build_leaf_entry_ok key kind value :
  sortable_wf key → build_leaf_entry key kind value = Ok (leaf_entry key kind value).
Proof.
  intros Hk. unfold build_leaf_entry. rewrite set_key_ok by (done || consts; done). mred.
  cbn [set_kind with_kind with_key de_payload de_key_len de_pad empty_entry de_value_len de_key de_kind].
  unfold slice. cbn [Nat.leb andb]. rewrite (proj2 (Nat.leb_le _ (length value))) by lia. mred.
  rewrite Nat.sub_0_r, drop_0.
  assert (take (Nat.min (length value) MAX_VALUE_SIZE) value = take MAX_VALUE_SIZE value) as Hv.
  { destruct (decide (length value ≤ MAX_VALUE_SIZE)%nat).
    - rewrite Nat.min_l by done. by rewrite !take_ge by lia.
    - by rewrite Nat.min_r by lia. }
  rewrite Hv. set (v := take MAX_VALUE_SIZE value) in *.
  assert (length v = Nat.min (length value) MAX_VALUE_SIZE) as Hlv
    by (subst v; rewrite length_take; lia).
  assert (length v ≤ MAX_VALUE_SIZE)%nat by lia.
  rewrite splice_start by (rewrite length_replicate; lia). mred.
  rewrite <- Hlv, fill_zero_from_app by done. mred. rewrite length_drop, length_replicate.
  unfold leaf_entry. fold v. unfold with_payload.
  cbn [de_payload de_key_len de_pad de_value_len de_key de_kind].
  unfold u8. rewrite wrap_small; [done|]. consts. unfold in_width. lia.
Qed.

Lemma leaf_entry_wf key kind value : sortable_wf key → entry_wf (leaf_entry key kind value).
Proof.
  intros [H1 H2]. pose proof (length_take value MAX_VALUE_SIZE). consts.
  split; cbn [leaf_entry de_key de_key_len de_value_len de_kind de_pad de_payload];
    rewrite ?length_app, ?length_replicate; consts; try lia.
  by destruct kind.
Qed.

Lemma leaf_entry_key key kind value : sortable_wf key → key_of (leaf_entry key kind value) = key.
Proof.
  intros [H1 H2]. unfold key_of, key_len_nat. cbn [leaf_entry de_key de_key_len]. consts.
  apply take_app_len. lia.
Qed.

Lemma leaf_entry_kind key kind value : kind_enum (leaf_entry key kind value) = kind.
Proof. by destruct kind. Qed.

Lemma leaf_entry_value key kind value : value_of (leaf_entry key kind value) = take MAX_VALUE_SIZE value.
Proof. unfold value_of. cbn [leaf_entry de_payload de_value_len]. apply take_app_len. lia. Qed.

(** ** The leaf invariant *)

(** A bset that holds a whiteout carries the marker the reclaim passes look for. *)
Definition flag_ok (b : bset) : Prop :=
  ∀ e, e ∈ b_entries b → kind_enum e = Whiteout → Z.testbit (b_flags b) 0 = true.

Record leaf_ok (n : BtreeNodeRaw) (bs : list bset) (q : Z) : Prop := {
  lo_level : level n = 0;
  lo_magic : nh_magic (header n) = MAGIC_NUMBER;
  lo_header : header_wf (header n);
  lo_rep : node_rep n bs;
  lo_runs : runs_wf bs;
  lo_seqs : Forall (λ b, b_seq b < q) bs;
  lo_flags : Forall flag_ok bs;
}.

Lemma has_whiteout_flag_bit b : has_whiteout_flag (bset_hdr b) = Z.testbit (b_flags b) 0.
Proof.
  unfold has_whiteout_flag, BSET_FLAG_NEEDS_WHITEOUT. cbn [bset_hdr bh_flags].
  change 1 with (Z.ones 1). rewrite Z.land_ones by lia. change (2 ^ 1) with 2.
  rewrite Zmod_odd, Z.bit0_odd. by destruct (Z.odd _).
Qed.

Lemma runs_wf_nil : runs_wf [].
Proof. split; constructor. Qed.

Lemma runs_wf_single b : keys_sorted (b_entries b) → runs_wf [b].
Proof. intros. split; repeat constructor; done. Qed.

Lemma runs_wf_snoc bs b :
  runs_wf bs → keys_sorted (b_entries b) → Forall (λ c, b_seq c < b_seq b) bs → runs_wf (bs ++ [b]).
Proof.
  intros [H1 H2] Hb Hs. split.
  - apply Forall_app. split; [done|]. by constructor.
  - rewrite fmap_app. cbn [fmap list_fmap].
    induction bs as [|c bs IH]; cbn [fmap list_fmap app]; [repeat constructor|].
    apply Forall_cons_1 in H1 as [_ H1]. apply Forall_cons_1 in Hs as [Hc Hs].
    cbn [fmap list_fmap] in H2. apply StronglySorted_inv in H2 as [H2 Hf]. constructor; [by apply IH|].
    apply Forall_app. split; [done|]. by constructor.
Qed.

Lemma runs_wf_app_inv bs1 bs2 : runs_wf (bs1 ++ bs2) → runs_wf bs1 ∧ runs_wf bs2.
Proof.
  intros [H1 H2]. apply Forall_app in H1 as [? ?]. rewrite fmap_app in H2.
  apply StronglySorted_app in H2 as (? & ? & ?). by repeat split.
Qed.

(** Replacing a run by one with the same seq and sorted keys. *)
Lemma runs_wf_insert bs i b b' :
  runs_wf bs → bs !! i = Some b → b_seq b' = b_seq b → keys_sorted (b_entries b') →
  runs_wf (<[i:=b']> bs).
Proof.
  intros [H1 H2] Hi Hs Hk. split; [by apply Forall_insert|].
  rewrite list_fmap_insert, Hs, list_insert_id; [done|]. by rewrite list_lookup_fmap, Hi.
Qed.

(** ** Compaction *)
Lemma for_break_entries n bs ps es acc :
  node_rep n bs → positions bs ps es →
  for_break (λ acc '(b, i), e ← entry_at n b i; Ok (true, acc ++ [e])) acc ps = Ok (acc ++ es).
Proof.
  intros Hr Hp. revert acc. induction Hp as [|[b i] e ps es (x & Hb & He) Hp IH]; intros acc;
    cbn [for_break]; [by rewrite app_nil_r|].
  cbn [fst snd] in *. rewrite (entry_at_rep Hr b i x e Hb He). mred. by rewrite IH, <- app_assoc.
Qed.

Lemma keys_sorted_NoDup es : keys_sorted es → NoDup es.
Proof.
  intros Hs. apply NoDup_alt. intros i j e Hi Hj.
  destruct (Nat.lt_trichotomy i j) as [H|[H|H]]; [|done|]; exfalso;
    apply (bytes_lt_irrefl (key_of e)); [apply (keys_sorted_lookup es i j)|apply (keys_sorted_lookup es j i)]; done.
Qed.

Lemma merged_length bs es :
  keys_sorted es → (∀ k, assoc k es = view bs k) → (length es ≤ total_entries bs)%nat.
Proof.
  intros Hs Hv.
  assert (total_entries bs = length (concat (b_entries <$> bs))) as ->.
  { unfold total_entries. clear. induction bs as [|b bs IH]; cbn; [done|]. rewrite length_app. lia. }
  apply submseteq_length, NoDup_submseteq; [by apply keys_sorted_NoDup|].
  intros e [i He]%list_elem_of_lookup.
  assert (view bs (key_of e) = Some e) as Hve by (rewrite <- Hv; apply assoc_Some; eauto).
  apply view_key in Hve as (_ & b & Hb & Heb). apply list_elem_of_In, in_concat.
  exists (b_entries b). split; apply list_elem_of_In; [|done]. by apply list_elem_of_fmap_2.
Qed.

Lemma merged_wf n bs es :
  node_rep n bs → keys_sorted es → (∀ k, assoc k es = view bs k) → Forall entry_wf es.
Proof.
  intros Hr Hs Hv. apply Forall_lookup. intros i e He.
  assert (view bs (key_of e) = Some e) as Hve by (rewrite <- Hv; apply assoc_Some; eauto).
  apply view_key in Hve as (_ & b & Hb & Heb).
  pose proof (rep_wf _ _ Hr) as Hw. rewrite Forall_forall in Hw.
  pose proof (bwf_entries _ (Hw b Hb)) as He'. rewrite Forall_forall in He'. by apply He'.
Qed.

Lemma collect_leaf_ok n bs :
  node_rep n bs → runs_wf bs →
  ∃ es, collect_leaf_entries_sorted n = Ok es ∧ keys_sorted es ∧ (∀ k, assoc k es = view bs k) ∧
    Forall entry_wf es ∧ (length es ≤ total_entries bs)%nat.
Proof.
  intros Hr Hw. destruct (merged_all n bs Hr Hw) as (it & ps & es & E & Hp & Hs & Hv & Hf).
  exists es. unfold collect_leaf_entries_sorted. rewrite E. mred. rewrite Hf.
  rewrite (for_break_entries n bs ps es [] Hr Hp). split_and!; [done|done|done| |].
  - by eapply merged_wf.
  - by apply merged_length.
Qed.

Definition run (seq : Z) (flags : Z) (es : list DiskEntry) : bset :=
  {| b_seq := seq; b_flags := flags; b_pad := 0; b_entries := es |}.

Lemma append_all_rep n seq flags es0 es :
  node_rep n [run seq flags es0] → Forall entry_wf es → (length es0 + length es ≤ MAX_ENTRIES)%nat →
  ∃ n', foldO (λ n e, append_to_last_bset e n) n es = Ok n' ∧
    node_rep n' [run seq flags (es0 ++ es)] ∧ same_kind n n'.
Proof.
  intros Hr Hw. revert n es0 Hr. induction Hw as [|e es He _ IH]; intros n es0 Hr Hl; cbn [foldO].
  { exists n. rewrite app_nil_r. split_and!; [done|done|reflexivity]. }
  cbn [length] in Hl.
  destruct (append_to_last_bset_rep n [] (run seq flags es0) e Hr) as (n1 & E1 & Hr1 & Hs1); [|done|].
  { unfold total_entries. cbn [app sum_list_with run b_entries]. lia. }
  rewrite E1. mred. destruct (IH n1 (es0 ++ [e])) as (n2 & E2 & Hr2 & Hs2).
  - exact Hr1.
  - rewrite length_app. cbn [length]. lia.
  - exists n2. rewrite <- app_assoc in Hr2. split_and!; [done|done|]. by etrans.
Qed.

Lemma node_new_rep lvl : node_rep (node_new lvl) [].
Proof. apply (rep_intro _ _ (replicate BODY_SIZE Byte.x00)); [done|cbn; lia|apply length_replicate|constructor|done]. Qed.

Lemma node_new_header lvl : in_width 8 lvl → header_wf (header (node_new lvl)).
Proof. intros. by split. Qed.

Lemma set_generation_rep g n bs : node_rep n bs → node_rep (set_generation g n) bs.
Proof. intros []. by split. Qed.

Lemma set_generation_header g n :
  in_width 64 g → header_wf (header n) → header_wf (header (set_generation g n)).
Proof. intros ? []. by split. Qed.

(** The marker of a rebuilt run. *)
Definition has_whiteout (es : list DiskEntry) : bool :=
  existsb (λ e, bool_decide (kind_enum e = Whiteout)) es.

Lemma rebuild_ok n seq es :
  Forall entry_wf es → (length es ≤ MAX_ENTRIES)%nat → in_width 64 seq →
  in_width 64 (generation n) →
  ∃ n' f, rebuild_leaf_from_entries seq es n = Ok n' ∧ node_rep n' [run seq f es] ∧
    same_kind (set_generation (generation n) (node_new 0)) n' ∧
    Z.testbit f 0 = has_whiteout es.
Proof.
  intros Hw Hl Hs Hg. unfold rebuild_leaf_from_entries.
  pose proof (set_generation_rep (generation n) _ _ (node_new_rep 0)) as Hr0.
  destruct (start_new_bset_rep Hr0 seq) as (n1 & E1 & Hr1 & Hk1); [cbn; consts; lia|unfold total_entries; cbn [sum_list_with]; lia|done|].
  rewrite E1. mred.
  destruct (append_all_rep n1 seq 0 [] es Hr1 Hw Hl) as (n2 & E2 & Hr2 & Hk2). rewrite E2. mred.
  destruct (set_bset_needs_whiteout_rep Hr2 0 _ (has_whiteout es) eq_refl) as (n3 & f & E3 & Hr3 & Hk3 & Hf).
  exists n3, f. split_and!; [done|done| |done]. by etrans; [etrans|].
Qed.

Lemma run_flag_ok seq f es : Z.testbit f 0 = has_whiteout es → flag_ok (run seq f es).
Proof.
  intros Hf e He Hk. cbn [run b_flags b_entries] in *. rewrite Hf. apply existsb_exists.
  exists e. split; [by apply list_elem_of_In|]. by apply bool_decide_eq_true.
Qed.

(** A leaf rebuilt from sorted entries satisfies the invariant. *)
Lemma rebuild_leaf_ok n bs q0 seq q es :
  leaf_ok n bs q0 →
  Forall entry_wf es → keys_sorted es → (length es ≤ MAX_ENTRIES)%nat → 0 ≤ seq < q → q < 2 ^ 64 →
  ∃ n' f, rebuild_leaf_from_entries seq es n = Ok n' ∧ leaf_ok n' [run seq f es] q ∧ same_kind n n'.
Proof.
  intros Hn Hw Hk Hl Hs Hq. pose proof (hwf_generation _ (lo_header _ _ _ Hn)) as Hg.
  destruct (rebuild_ok n seq es Hw Hl) as (n' & f & E & Hr & Hs' & Hf); [unfold in_width; lia|done|].
  assert (header_wf (header n')) as Hh.
  { apply Hs', set_generation_header; [done|]. by apply node_new_header. }
  exists n', f. split_and!; [done| |].
  - split; [by rewrite (sk_level _ _ Hs')|by rewrite (sk_magic _ _ Hs')|done|done|by apply runs_wf_single| |].
    + repeat constructor. cbn. lia.
    + constructor; [by apply run_flag_ok|constructor].
  - split; [by rewrite (sk_level _ _ Hs'), (lo_level _ _ _ Hn)|by rewrite (sk_generation _ _ Hs')| |done].
    by rewrite (sk_magic _ _ Hs'), (lo_magic _ _ _ Hn).
Qed.

Lemma leaf_total n bs q : leaf_ok n bs q → (total_entries bs ≤ 29)%nat.
Proof. intros Hn. by apply (rep_total_le n), Hn. Qed.

Lemma compact_leaf_ok n bs q seq :
  leaf_ok n bs q → 0 ≤ seq < 2 ^ 64 - 1 →
  ∃ n' f es, compact_leaf_in_place seq n = Ok n' ∧ leaf_ok n' [run seq f es] (seq + 1) ∧
    keys_sorted es ∧ (∀ k, assoc k es = view bs k) ∧ (length es ≤ total_entries bs)%nat ∧ same_kind n n'.
Proof.
  intros Hn Hs. destruct (collect_leaf_ok n bs) as (es & E & Hk & Hv & He & Hl); [apply Hn..|].
  unfold compact_leaf_in_place. rewrite E. mred. pose proof (leaf_total _ _ _ Hn).
  destruct (rebuild_leaf_ok n bs q seq (seq + 1) es Hn He Hk) as (n' & f & E' & Hok & Hsk);
    [rewrite MAX_ENTRIES_eq; lia|lia|lia|].
  exists n', f, es. by split_and!.
Qed.

(** ** Sort-insert into a run *)
Lemma assoc_app k es1 es2 :
  assoc k (es1 ++ es2) = match assoc k es1 with Some e => Some e | None => assoc k es2 end.
Proof. induction es1 as [|x es1 IH]; cbn [app assoc]; [done|]. by case_decide. Qed.

Lemma keys_sorted_app es1 es2 :
  keys_sorted (es1 ++ es2) ↔
    keys_sorted es1 ∧ keys_sorted es2 ∧ (∀ x y, x ∈ es1 → y ∈ es2 → key_of x ≺ key_of y).
Proof.
  unfold keys_sorted. rewrite fmap_app, StronglySorted_app. split; intros (H1 & H2 & H3).
  - split_and!; [done|done|]. intros x y Hx Hy. apply H1; by apply list_elem_of_fmap_2.
  - split_and!; [|done|done]. intros kx ky (x & -> & Hx)%list_elem_of_fmap (y & -> & Hy)%list_elem_of_fmap.
    by apply H3.
Qed.

(** The run after [e] is put where binary search says. *)
Definition put (e : DiskEntry) (es : list DiskEntry) : list DiskEntry :=
  match binary_search_by (λ x, bytes_cmp (key_of x) (key_of e)) es with
  | Found j => <[j:=e]> es
  | Absent j => insert_slot j e es
  end.

Lemma keys_fmap_insert (es : list DiskEntry) j x e :
  es !! j = Some x → key_of x = key_of e → key_of <$> <[j:=e]> es = key_of <$> es.
Proof.
  intros Hj Hk. rewrite list_fmap_insert, <- Hk. apply list_insert_id. by rewrite list_lookup_fmap, Hj.
Qed.

Lemma assoc_insert (es : list DiskEntry) j x e k :
  keys_sorted es → es !! j = Some x → key_of x = key_of e →
  assoc k (<[j:=e]> es) = if decide (k = key_of e) then Some e else assoc k es.
Proof.
  intros Hs Hj Hk. pose proof (lookup_lt_Some _ _ _ Hj).
  assert (keys_sorted (<[j:=e]> es)) as Hs'
    by (unfold keys_sorted; by erewrite keys_fmap_insert).
  case_decide as Hke.
  - apply assoc_Some; [done|]. exists j. split; [|done]. by apply list_lookup_insert_eq.
  - destruct (assoc k es) as [y|] eqn:Ha.
    + apply assoc_Some in Ha as (i & Hi & Hy); [|done]. apply assoc_Some; [done|]. exists i.
      split; [|done]. rewrite list_lookup_insert_ne; [done|]. intros ->. congruence.
    + rewrite assoc_None in Ha. apply assoc_None. intros i y Hi.
      apply list_lookup_insert_Some in Hi as [(-> & <- & _)|(_ & Hi)]; [congruence|by apply (Ha i)].
Qed.

Lemma put_ok e es :
  keys_sorted es →
  keys_sorted (put e es) ∧
  (∀ k, assoc k (put e es) = if decide (k = key_of e) then Some e else assoc k es) ∧
  (∀ x, x ∈ put e es → x = e ∨ x ∈ es).
Proof.
  intros Hs. unfold put. pose proof (search_sorted (key_of e) es Hs) as H.
  destruct (binary_search_by _ es) as [j|j].
  - destruct H as (x & Hx & Hk & _). split_and!.
    + unfold keys_sorted. by erewrite keys_fmap_insert.
    + intros k. by eapply assoc_insert.
    + intros y [i Hy]%list_elem_of_lookup. apply list_lookup_insert_Some in Hy as [(_ & -> & _)|(_ & Hy)]; [by left|].
      right. by eapply list_elem_of_lookup_2.
  - destruct H as (Hj & Ha & Hlo & Hhi). unfold insert_slot.
    assert (∀ x, x ∈ take j es → key_of x ≺ key_of e) as Hlo'.
    { intros x [i Hx]%list_elem_of_lookup. apply lookup_take_Some in Hx as [Hx ?]. by eapply Hlo. }
    assert (∀ x, x ∈ drop j es → key_of e ≺ key_of x) as Hhi'.
    { intros x [i Hx]%list_elem_of_lookup. rewrite lookup_drop in Hx. eapply (Hhi (j + i)%nat); [lia|done]. }
    pose proof Hs as Hs2. rewrite <- (take_drop j es) in Hs2. apply keys_sorted_app in Hs2 as (Hs1 & Hs2 & Hx).
    split_and!.
    + apply keys_sorted_app. split_and!; [done| |].
      * apply keys_sorted_cons. split; [|done]. apply Forall_forall. apply Hhi'.
      * intros x y Hx1 [->|Hy]%elem_of_cons; [by apply Hlo'|by apply Hx].
    + intros k.
      replace (assoc k es) with (assoc k (take j es ++ drop j es)) by (by rewrite take_drop).
      rewrite !assoc_app. cbn [assoc].
      destruct (assoc k (take j es)) as [x|] eqn:Hax.
      * apply assoc_key in Hax as [<- Hin]. case_decide as Hke; [|done]. exfalso.
        apply (bytes_lt_irrefl (key_of e)). rewrite <- Hke at 1. by apply Hlo'.
      * destruct (decide (key_of e = k)) as [->|]; [by rewrite decide_True|by rewrite decide_False by congruence].
    + intros x [?|[->|?]%elem_of_cons]%elem_of_app; [right|by left|right];
        rewrite <- (take_drop j es); apply elem_of_app; auto.
Qed.

Lemma put_range e es :
  keys_sorted es →
  match binary_search_by (λ x, bytes_cmp (key_of x) (key_of e)) es with
  | Found j => j < length es | Absent j => j ≤ length es
  end%nat.
Proof.
  intros Hs. pose proof (search_sorted (key_of e) es Hs) as H.
  destruct (binary_search_by _ es); [|by apply H].
  destruct H as (x & Hx & _). by eapply lookup_lt_Some.
Qed.

(** The last run's bset after the sort-insert; the padding is rewritten to 0
    exactly when the run grows. *)
Lemma sort_insert_ok n bs b e :
  node_rep n (bs ++ [b]) → keys_sorted (b_entries b) → (total_entries (bs ++ [b]) < MAX_ENTRIES)%nat →
  entry_wf e →
  ∃ r n' b', sort_insert_into_last_bset e n = Ok (r, n') ∧ node_rep n' (bs ++ [b']) ∧ same_kind n n' ∧
    b_seq b' = b_seq b ∧ b_flags b' = b_flags b ∧ b_entries b' = put e (b_entries b).
Proof.
  intros Hr Hs Ht He. pose proof (put_range e _ Hs) as Hrange.
  destruct (sort_insert_rep n bs b e Hr Ht He Hrange) as (n' & E & Hk & Hr').
  unfold put. destruct (binary_search_by _ _) as [j|j];
    (do 3 eexists; split_and!; [exact E|exact Hr'|exact Hk|done..]).
Qed.

(** ** Writing into a leaf *)

(** Whether the newest run already holds [key], so the write overwrites it. *)
Definition absorbs (bs : list bset) (key : list byte) : bool :=
  match last bs with
  | Some b => bool_decide (is_Some (assoc key (b_entries b)))
  | None => false
  end.

Lemma search_found_assoc k es :
  keys_sorted es →
  search_found (binary_search_by (λ e, bytes_cmp (key_of e) k) es) = bool_decide (is_Some (assoc k es)).
Proof.
  intros Hs. pose proof (search_sorted k es Hs) as H. symmetry.
  destruct (binary_search_by _ es) as [i|i]; cbn [search_found].
  - destruct H as (e & _ & _ & ->). by apply bool_decide_eq_true.
  - destruct H as (_ & -> & _). apply bool_decide_eq_false. by intros [? ?].
Qed.

Lemma plan_write_ok n bs q key :
  leaf_ok n bs q →
  plan_write key n =
    Ok (if absorbs bs key then PlanInPlace true
        else if (MAX_ENTRIES <=? total_entries bs)%nat then PlanSplit n else PlanInPlace false).
Proof.
  intros Hn. pose proof (lo_rep _ _ _ Hn) as Hr. unfold plan_write, absorbs.
  rewrite (bset_count_rep Hr). destruct bs as [|b bs _] using rev_ind.
  - cbn [length Nat.eqb last]. mred. cbn [negb]. rewrite (nkeys_leaf_rep Hr) by apply Hn. mred.
    by destruct (_ <=? _)%nat.
  - rewrite last_snoc, length_app. cbn [length].
    replace (length bs + 1 =? 0)%nat with false by (symmetry; apply Nat.eqb_neq; lia).
    replace (length bs + 1 - 1)%nat with (length bs) by lia.
    rewrite (bset_search_rep Hr (length bs) b) by apply last_lookup. mred.
    rewrite search_found_assoc.
    2: { eapply runs_sorted_lookup; [apply Hn|apply last_lookup]. }
    destruct (bool_decide _); cbn [negb]; [done|].
    rewrite (nkeys_leaf_rep Hr) by apply Hn. mred. by destruct (_ <=? _)%nat.
Qed.

Lemma leaf_ok_weaken n bs q q' : leaf_ok n bs q → q ≤ q' → leaf_ok n bs q'.
Proof.
  intros [] Hq. split; try done. apply Forall_forall. intros b Hb.
  rewrite Forall_forall in lo_seqs0. specialize (lo_seqs0 b Hb). lia.
Qed.

Lemma start_new_ok n bs q :
  leaf_ok n bs q → (length bs < BSET_TREE_NR_MAX)%nat → 0 ≤ q < 2 ^ 64 - 1 →
  ∃ n', start_new_bset q n = Ok n' ∧ leaf_ok n' (bs ++ [empty_bset q]) (q + 1) ∧ same_kind n n'.
Proof.
  intros Hn Hl Hq. pose proof (leaf_total _ _ _ Hn).
  destruct (start_new_bset_rep (lo_rep _ _ _ Hn) q) as (n' & E & Hr & Hk);
    [done|by rewrite MAX_ENTRIES_eq|unfold in_width; lia|].
  exists n'. split_and!; [done| |done]. destruct Hn.
  split; [by rewrite (sk_level _ _ Hk)|by rewrite (sk_magic _ _ Hk)|by apply Hk|done|..].
  - apply runs_wf_snoc; [done|constructor|done].
  - apply Forall_app. split; [|repeat constructor; cbn; lia].
    eapply Forall_impl; [exact lo_seqs0|]. intros b Hb. cbn beta in *. lia.
  - apply Forall_app. split; [done|]. constructor; [|constructor]. by intros e He%elem_of_nil.
Qed.

Lemma ensure_writable_ok n bs q :
  leaf_ok n bs q → 0 ≤ q < 2 ^ 64 - 1 →
  ∃ n' bs' b q', ensure_writable_last_bset n q = Ok (n', q') ∧ leaf_ok n' (bs' ++ [b]) q' ∧
    same_kind n n' ∧ q ≤ q' ≤ q + 1 ∧ (total_entries (bs' ++ [b]) ≤ total_entries bs)%nat ∧
    ∀ k, view (bs' ++ [b]) k = view bs k.
Proof.
  intros Hn Hq. unfold ensure_writable_last_bset, alloc_seq.
  assert (u64 (q + 1) = q + 1) as -> by (apply wrap_small; unfold in_width; lia).
  assert (∀ k, view (bs ++ [empty_bset q]) k = view bs k) as Hview by (intros k; by rewrite view_app).
  assert (total_entries (bs ++ [empty_bset q]) = total_entries bs) as Htot
    by (rewrite total_entries_app; cbn; lia).
  rewrite (bset_count_rep (lo_rep _ _ _ Hn)).
  destruct (Nat.eqb_spec (length bs) 0) as [H0|H0].
  { destruct (start_new_ok n bs q Hn) as (n' & E & Hok & Hk); [consts; lia|done|].
    rewrite E. mred. exists n', bs, (empty_bset q), (q + 1). split_and!; [done..|lia|lia|lia|done]. }
  destruct bs as [|b bs _] using rev_ind; [done|]. rewrite length_app in *. cbn [length] in *.
  replace (length bs + 1 - 1)%nat with (length bs) by lia.
  rewrite (bset_header_rep (lo_rep _ _ _ Hn) (length bs) b) by apply last_lookup. mred.
  destruct (Nat.leb_spec BSET_SOFT_LIMIT (Z.to_nat (bh_nkeys (bset_hdr b)))); cbn [negb].
  2: { exists n, bs, b, q. split_and!; [done..|lia|lia|done|done]. }
  destruct (Nat.ltb_spec (length bs + 1) BSET_TREE_NR_MAX).
  { destruct (start_new_ok n (bs ++ [b]) q Hn) as (n' & E & Hok & Hk);
      [rewrite length_app; cbn; lia|done|].
    rewrite E. mred. exists n', (bs ++ [b]), (empty_bset q), (q + 1). split_and!; [done..|lia|lia|lia|done]. }
  destruct (compact_leaf_ok n _ q q Hn Hq) as (n' & f & es & E & Hok & Hs & Hv & Hl & Hk).
  rewrite E. mred. exists n', [], (run q f es), (q + 1).
  split_and!; [done|done|done|lia|lia|unfold total_entries at 1; cbn [app sum_list_with run b_entries]; lia|]. intros k. cbn [app]. by rewrite view_single, <- Hv.
Qed.

(** Marking the last run as holding a whiteout, when one was written. *)
Lemma mark_whiteout_ok n bs b kind :
  node_rep n (bs ++ [b]) →
  ∃ n' b', (if decide (kind = Whiteout) then set_bset_needs_whiteout (bset_count n - 1) true n
            else Ok n) = Ok n' ∧
    node_rep n' (bs ++ [b']) ∧ same_kind n n' ∧ b_seq b' = b_seq b ∧ b_entries b' = b_entries b ∧
    (Z.testbit (b_flags b) 0 = true → Z.testbit (b_flags b') 0 = true) ∧
    (kind = Whiteout → Z.testbit (b_flags b') 0 = true).
Proof.
  intros Hr. case_decide as Hk; [|exists n, b; by split_and!].
  rewrite (last_index n bs b Hr).
  destruct (set_bset_needs_whiteout_rep Hr (length bs) b true (last_lookup bs b))
    as (n' & f & E & Hr' & Hs & Hf).
  rewrite insert_app_r_alt, Nat.sub_diag in Hr' by lia.
  exists n', (with_flags f b). by split_and!.
Qed.

Definition written (key : list byte) (kind : EntryKind) (value : list byte)
    (m m' : list byte → option DiskEntry) : Prop :=
  ∀ k, m' k = if decide (k = key) then Some (leaf_entry key kind value) else m k.

(** Assemble the invariant of a leaf whose last run took the entry. *)
Lemma write_last_ok n n' bs b b' q key kind value :
  leaf_ok n (bs ++ [b]) q → sortable_wf key → node_rep n' (bs ++ [b']) → same_kind n n' →
  b_seq b' = b_seq b →
  (Z.testbit (b_flags b) 0 = true → Z.testbit (b_flags b') 0 = true) →
  (kind = Whiteout → Z.testbit (b_flags b') 0 = true) →
  b_entries b' = put (leaf_entry key kind value) (b_entries b) →
  leaf_ok n' (bs ++ [b']) q ∧ written key kind value (view (bs ++ [b])) (view (bs ++ [b'])).
Proof.
  intros Hn Hkey Hr Hk Hs Hf1 Hf2 He. destruct Hn as [Hlv Hm Hh Hr0 Hw Hq Hf].
  pose proof (runs_sorted_lookup _ _ _ Hw (last_lookup bs b)) as Hsb.
  destruct (put_ok (leaf_entry key kind value) (b_entries b) Hsb) as (P1 & P2 & P3).
  rewrite <- He in P1, P2, P3. split.
  - split; [by rewrite (sk_level _ _ Hk)|by rewrite (sk_magic _ _ Hk)|by apply Hk|done|..].
    + pose proof (runs_wf_insert (bs ++ [b]) (length bs) b b' Hw (last_lookup bs b) Hs P1) as HH.
      by rewrite insert_app_r_alt, Nat.sub_diag in HH by lia.
    + apply Forall_app in Hq as [? Hq]. apply Forall_app. split; [done|]. constructor; [|constructor].
      apply Forall_cons_1 in Hq as [Hq _]. lia.
    + apply Forall_app in Hf as [? Hf]. apply Forall_app. split; [done|]. constructor; [|constructor].
      apply Forall_cons_1 in Hf as [Hf _]. intros e Hein Hke.
      apply P3 in Hein as [->|Hein]; [|by eauto]. rewrite leaf_entry_kind in Hke. auto.
  - intros k. rewrite !view_app, !view_single, P2, leaf_entry_key by done. by case_decide.
Qed.

(** Overwriting the entry the newest run holds is a [put] as well. *)
Lemma overwrite_last_ok n bs b key e :
  node_rep n (bs ++ [b]) → keys_sorted (b_entries b) → is_Some (assoc key (b_entries b)) →
  entry_wf e → key_of e = key →
  ∃ i n', bset_search n (length bs) key = Ok (Found i) ∧
    entry_at_mut (length bs) i (λ _, Ok e) n = Ok n' ∧ same_kind n n' ∧
    node_rep n' (bs ++ [with_entries (put e (b_entries b)) b]).
Proof.
  intros Hr Hs Ha He Hk. rewrite (bset_search_rep Hr (length bs) b) by apply last_lookup.
  unfold put. rewrite Hk. pose proof (search_sorted key _ Hs) as H.
  destruct (binary_search_by _ _) as [i|i]; [|destruct H as (_ & Hn & _); rewrite Hn in Ha; by destruct Ha].
  destruct H as (x & Hx & _ & _).
  destruct (entry_at_mut_rep Hr (length bs) i b x e (λ _, Ok e) (last_lookup bs b) Hx eq_refl He)
    as (n' & E & Hr' & Hk').
  rewrite insert_app_r_alt, Nat.sub_diag in Hr' by lia. exists i, n'. by split_and!.
Qed.

(** The tail shared by both branches of [apply_write]. *)
Lemma apply_tail_ok n1 n2 bs b b1 q key kind value :
  leaf_ok n1 (bs ++ [b]) q → sortable_wf key → node_rep n2 (bs ++ [b1]) → same_kind n1 n2 →
  b_seq b1 = b_seq b → b_flags b1 = b_flags b →
  b_entries b1 = put (leaf_entry key kind value) (b_entries b) →
  ∃ n3 bs', (if decide (kind = Whiteout) then
               leaf ← set_bset_needs_whiteout (bset_count n2 - 1) true n2; Ok (leaf, q)
             else Ok (n2, q)) = Ok (n3, q) ∧
    leaf_ok n3 bs' q ∧ same_kind n1 n3 ∧ written key kind value (view (bs ++ [b])) (view bs').
Proof.
  intros Hn Hkey Hr Hk Hs Hf He.
  destruct (mark_whiteout_ok n2 bs b1 kind Hr) as (n3 & b2 & E & Hr3 & Hk3 & Hs3 & He3 & Hf3 & Hw3).
  assert (same_kind n1 n3) as Hk13 by (by etrans).
  destruct (write_last_ok n1 n3 bs b b2 q key kind value) as [Hok Hwr]; try done; [congruence| |congruence|].
  { rewrite <- Hf. done. }
  exists n3, (bs ++ [b2]). split_and!; [|done..].
  case_decide; [by rewrite E|]. by simplify_eq.
Qed.

Lemma apply_write_ok n bs q key kind value :
  leaf_ok n bs q → sortable_wf key → 0 ≤ q < 2 ^ 64 - 1 →
  absorbs bs key = true ∨ (total_entries bs < MAX_ENTRIES)%nat →
  ∃ n' bs' q', apply_write key kind value n (absorbs bs key) q = Ok (n', q') ∧
    leaf_ok n' bs' q' ∧ same_kind n n' ∧ q ≤ q' ≤ q + 1 ∧
    written key kind value (view bs) (view bs').
Proof.
  intros Hn Hkey Hq Hroom. unfold apply_write.
  pose proof (leaf_entry_wf key kind value Hkey) as Hew.
  destruct (absorbs bs key) eqn:Ha.
  - unfold absorbs in Ha. destruct bs as [|b bs _] using rev_ind; [done|].
    rewrite last_snoc in Ha. apply bool_decide_eq_true in Ha.
    destruct (overwrite_last_ok n bs b key (leaf_entry key kind value)) as (i & n1 & E1 & E2 & Hk1 & Hr1);
      [apply Hn|eapply runs_sorted_lookup; [apply Hn|apply last_lookup]|done|done|by apply leaf_entry_key|].
    rewrite (last_index n bs b) by apply Hn. rewrite E1. mred.
    rewrite build_leaf_entry_ok by done. mred. rewrite E2. mred.
    destruct (apply_tail_ok n n1 bs b _ q key kind value Hn Hkey Hr1 Hk1) as (n3 & bs' & E3 & Hok & Hk & Hv);
      [done..|].
    exists n3, bs', q. split_and!; [exact E3|done|done|lia|lia|done].
  - destruct Hroom as [|Hroom]; [done|].
    destruct (ensure_writable_ok n bs q Hn Hq) as (n1 & bs1 & b & q1 & E1 & Hok1 & Hk1 & Hq1 & Ht1 & Hv1).
    rewrite E1. mred. rewrite build_leaf_entry_ok by done. mred.
    destruct (sort_insert_ok n1 bs1 b (leaf_entry key kind value)) as
      (r & n2 & b2 & E2 & Hr2 & Hk2 & Hs2 & Hf2 & He2);
      [apply Hok1|eapply runs_sorted_lookup; [apply Hok1|apply last_lookup]|lia|done|].
    rewrite E2. mred.
    destruct (apply_tail_ok n1 n2 bs1 b b2 q1 key kind value Hok1 Hkey Hr2 Hk2 Hs2 Hf2 He2)
      as (n3 & bs' & E3 & Hok & Hk & Hv).
    exists n3, bs', q1. split_and!; [exact E3|done|by etrans|lia|lia|].
    intros k. rewrite (Hv k). destruct (decide (k = key)); [done|]. apply Hv1.
Qed.

(** ** Reclaim compactions *)
Lemma filter_dropping_ok (dropO : DiskEntry → res bool) (drop : DiskEntry → bool) es :
  Forall (λ e, dropO e = Ok (drop e)) es →
  filter_dropping dropO es =
    Ok (filter (λ e, drop e = false) es, length (filter (λ e, drop e = true) es)).
Proof.
  intros Hd. unfold filter_dropping.
  enough (∀ acc c, foldO (λ '(kept, dropped) e, d ← dropO e;
      Ok (if d : bool then (kept, S dropped) else (kept ++ [e], dropped))) (acc, c) es =
    Ok (acc ++ filter (λ e, drop e = false) es, (c + length (filter (λ e, drop e = true) es))%nat)) as H.
  { by rewrite H. }
  induction Hd as [|e es He _ IH]; intros acc c; cbn [foldO].
  { rewrite !filter_nil, app_nil_r. cbn [length]. by rewrite Nat.add_0_r. }
  rewrite He. mred. rewrite !filter_cons. destruct (drop e); rewrite IH.
  - rewrite decide_False, decide_True by done. cbn [length]. do 2 f_equal. lia.
  - rewrite decide_True, decide_False by done. by rewrite <- app_assoc.
Qed.

Lemma assoc_filter (P : DiskEntry → Prop) `{!∀ e, Decision (P e)} es k :
  keys_sorted es →
  assoc k (filter P es) = match assoc k es with Some e => if decide (P e) then Some e else None | None => None end.
Proof.
  induction es as [|e es IH]; intros Hs; [done|]. apply keys_sorted_cons in Hs as [Hlt Hs].
  rewrite filter_cons. cbn [assoc].
  assert (key_of e = k → assoc k (filter P es) = None) as Hnone.
  { intros <-. apply assoc_None. intros i x Hx Hk.
    apply list_elem_of_lookup_2, list_elem_of_filter in Hx as [_ Hx].
    rewrite Forall_forall in Hlt. specialize (Hlt x Hx). cbn in Hlt. rewrite Hk in Hlt.
    by apply bytes_lt_irrefl in Hlt. }
  destruct (decide (key_of e = k)) as [Hk|Hk].
  - case_decide; [|by apply Hnone]. cbn [assoc]. by rewrite decide_True.
  - case_decide; cbn [assoc]; [rewrite decide_False by done|]; by apply IH.
Qed.

Lemma keys_sorted_filter (P : DiskEntry → Prop) `{!∀ e, Decision (P e)} es :
  keys_sorted es → keys_sorted (filter P es).
Proof.
  induction es as [|e es IH]; intros Hs; [done|]. apply keys_sorted_cons in Hs as [Hlt Hs].
  rewrite filter_cons. case_decide; [|by apply IH]. apply keys_sorted_cons. split; [|by apply IH].
  apply Forall_forall. intros x [_ Hx]%list_elem_of_filter. rewrite Forall_forall in Hlt. by apply Hlt.
Qed.

(** Rebuild from the merged reading less the entries [drop] selects. *)
Definition without (drop : DiskEntry → bool) (m : list byte → option DiskEntry) (k : list byte) : option DiskEntry :=
  e ← m k; if drop e then None else Some e.

Lemma compact_dropping_ok dropO (drop : DiskEntry → bool) n bs q seq :
  leaf_ok n bs q → 0 ≤ seq < 2 ^ 64 - 1 →
  (∀ e, entry_wf e → dropO e = Ok (drop e)) →
  ∃ n' f es, (entries ← collect_leaf_entries_sorted n;
            '(kept, dropped) ← filter_dropping dropO entries;
            n ← rebuild_leaf_from_entries seq kept n;
            Ok (n, dropped)) = Ok (n', length (filter (λ e, drop e = true) es)) ∧
    keys_sorted es ∧ (∀ k, assoc k es = view bs k) ∧
    leaf_ok n' [run seq f (filter (λ e, drop e = false) es)] (seq + 1) ∧ same_kind n n' ∧
    ∀ k, view [run seq f (filter (λ e, drop e = false) es)] k = without drop (view bs) k.
Proof.
  intros Hn Hs Hd. destruct (collect_leaf_ok n bs) as (es & E & Hk & Hv & He & Hl); [apply Hn..|].
  rewrite E. mred. rewrite (filter_dropping_ok dropO drop).
  2: { eapply Forall_impl; [exact He|]. auto. }
  mred. pose proof (leaf_total _ _ _ Hn). pose proof (length_filter (λ e, drop e = false) es).
  destruct (rebuild_leaf_ok n bs q seq (seq + 1) (filter (λ e, drop e = false) es) Hn)
    as (n' & f & E' & Hok & Hsk).
  - apply Forall_forall. intros x [_ Hx]%list_elem_of_filter. rewrite Forall_forall in He. auto.
  - by apply keys_sorted_filter.
  - rewrite MAX_ENTRIES_eq. lia.
  - lia.
  - lia.
  - rewrite E'. mred. exists n', f, es. split_and!; [done|done|done|done|done|].
    intros k. rewrite view_single. cbn [run b_entries]. rewrite assoc_filter, Hv by done.
    unfold without. destruct (view bs k) as [e|]; cbn; [|done]. by destruct (drop e).
Qed.

Definition drops_whiteout (dead : gset Z) (e : DiskEntry) : bool :=
  bool_decide (kind_enum e = Whiteout) && bool_decide (snap_of e ∈ dead).
Definition drops_snap (dead : Z) (e : DiskEntry) : bool := snap_of e =? dead.

Lemma droppable_whiteout_ok dead e : entry_wf e → droppable_whiteout dead e = Ok (drops_whiteout dead e).
Proof.
  intros He. unfold droppable_whiteout, drops_whiteout. case_decide as Hk.
  - rewrite snap_id_ok by done. mred. by rewrite (bool_decide_eq_true_2 (kind_enum e = Whiteout)) by done.
  - by rewrite (bool_decide_eq_false_2 (kind_enum e = Whiteout)) by done.
Qed.

Lemma at_snap_ok dead e : entry_wf e → at_snap dead e = Ok (drops_snap dead e).
Proof. intros He. unfold at_snap. by rewrite snap_id_ok by done. Qed.

Lemma anyO_ok {A} (f : A → res bool) (g : A → bool) l :
  Forall (λ x, f x = Ok (g x)) l → anyO f l = Ok (existsb g l).
Proof. induction 1 as [|x l Hx _ IH]; cbn [anyO existsb]; [done|]. rewrite Hx. mred. by destruct (g x). Qed.

Lemma existsb_false {A} (f : A → bool) l : existsb f l = false ↔ ∀ x, x ∈ l → f x = false.
Proof.
  rewrite <- not_true_iff_false, existsb_exists. split.
  - intros H x Hx. apply not_true_iff_false. intros Hf. apply H. exists x. by rewrite <- list_elem_of_In.
  - intros H (x & Hx%list_elem_of_In & Hf). rewrite H in Hf; done.
Qed.

Lemma anyO_bsets n bs (f : nat → res bool) (g : bset → bool) :
  node_rep n bs → (∀ i b, bs !! i = Some b → f i = Ok (g b)) →
  anyO f (seq 0 (bset_count n)) = Ok (existsb g bs).
Proof.
  intros Hr Hf. rewrite (bset_count_rep Hr). clear Hr.
  assert (∀ k, (∀ i b, bs !! i = Some b → f (k + i)%nat = Ok (g b)) →
    anyO f (seq k (length bs)) = Ok (existsb g bs)) as H; [|by apply H].
  clear Hf. induction bs as [|b bs IH]; intros k Hf; cbn [length seq anyO existsb]; [done|].
  pose proof (Hf 0%nat b eq_refl) as H0. rewrite Nat.add_0_r in H0. rewrite H0. mred.
  destruct (g b); [done|]. apply IH. intros i c Hi. specialize (Hf (S i) c Hi).
  by rewrite Nat.add_succ_r in Hf.
Qed.

Lemma bset_entries_wf n bs i b : node_rep n bs → bs !! i = Some b → Forall entry_wf (b_entries b).
Proof. intros Hr Hi. apply (rep_wf_lookup Hr i b Hi). Qed.

(** The skip tests never skip a leaf that a compaction would change. *)
Lemma leaf_has_snap_entries_ok n bs q dead :
  leaf_ok n bs q →
  ∃ r, leaf_has_snap_entries dead n = Ok r ∧
    (r = false → ∀ k, without (drops_snap dead) (view bs) k = view bs k).
Proof.
  intros Hn. unfold leaf_has_snap_entries.
  exists (existsb (λ b, existsb (drops_snap dead) (b_entries b)) bs). split.
  - apply anyO_bsets; [apply Hn|]. intros i b Hb.
    rewrite (bset_entries_rep (lo_rep _ _ _ Hn) i b Hb). mred. apply anyO_ok.
    eapply Forall_impl; [eapply bset_entries_wf; [apply Hn|exact Hb]|]. intros e. apply at_snap_ok.
  - intros Hf k. unfold without. destruct (view bs k) as [e|] eqn:Hv; [|done].
    apply view_key in Hv as (_ & b & Hb & He). cbn. rewrite existsb_false in Hf.
    specialize (Hf b Hb). cbn in Hf. rewrite existsb_false in Hf. by rewrite Hf.
Qed.

Lemma leaf_has_droppable_whiteout_ok n bs q dead :
  leaf_ok n bs q →
  ∃ r, leaf_has_droppable_whiteout dead n = Ok r ∧
    (r = false → ∀ k, without (drops_whiteout dead) (view bs) k = view bs k).
Proof.
  intros Hn. unfold leaf_has_droppable_whiteout.
  exists (existsb (λ b, Z.testbit (b_flags b) 0 && existsb (drops_whiteout dead) (b_entries b)) bs). split.
  - apply anyO_bsets; [apply Hn|]. intros i b Hb. unfold bset_needs_whiteout.
    rewrite (bset_header_rep (lo_rep _ _ _ Hn) i b Hb). mred. rewrite has_whiteout_flag_bit.
    destruct (Z.testbit _ _); cbn [negb andb]; [|done].
    rewrite (bset_entries_rep (lo_rep _ _ _ Hn) i b Hb). mred. apply anyO_ok.
    eapply Forall_impl; [eapply bset_entries_wf; [apply Hn|exact Hb]|]. intros e. apply droppable_whiteout_ok.
  - intros Hf k. unfold without. destruct (view bs k) as [e|] eqn:Hv; [|done].
    apply view_key in Hv as (_ & b & Hb & He). cbn. destruct (drops_whiteout dead e) eqn:Hd; [|done].
    exfalso. rewrite existsb_false in Hf. specialize (Hf b Hb). cbn beta in Hf.
    pose proof (lo_flags _ _ _ Hn) as Hfl. rewrite Forall_forall in Hfl.
    rewrite (Hfl b Hb e He) in Hf.
    + cbn [andb] in Hf. rewrite existsb_false in Hf. specialize (Hf e He). congruence.
    + unfold drops_whiteout in Hd. apply andb_true_iff in Hd as [Hd _]. by apply bool_decide_eq_true in Hd.
Qed.

(** ** The kind flip *)
Definition hit_triple (h : MergedHit) : nat * nat * Z := (hit_bset h, hit_entry h, hit_seq h).

Lemma flip_best_step_merged key leaf (r : option MergedHit) b :
  flip_best_step key leaf (hit_triple <$> r) b =
    fmap (M := outcome error) (fmap (M := option) hit_triple) (merged_find_step leaf key r b).
Proof.
  unfold flip_best_step, merged_find_step.
  destruct (bset_search leaf b key) as [[i|i]|e| |]; mred; [|done..].
  destruct (bset_header leaf b) as [h|e| |]; mred; [|done..].
  destruct r as [old|]; cbn [fmap option_fmap option_map hit_triple]; [|done].
  by destruct (Z.leb_spec (bh_seq h) (hit_seq old)), (Z.ltb_spec (hit_seq old) (bh_seq h)); try lia.
Qed.

Lemma flip_best_merged key leaf (r : option MergedHit) l :
  foldO (flip_best_step key leaf) (hit_triple <$> r) l =
    fmap (M := outcome error) (fmap (M := option) hit_triple) (foldO (merged_find_step leaf key) r l).
Proof.
  revert r. induction l as [|b l IH]; intros r; [done|]. cbn [foldO].
  rewrite flip_best_step_merged. destruct (merged_find_step leaf key r b); mred; [apply IH|done..].
Qed.

Lemma view_insert (bs : list bset) i b b' k :
  bs !! i = Some b → (∀ j c, (i < j)%nat → bs !! j = Some c → assoc k (b_entries c) = None) →
  is_Some (assoc k (b_entries b')) → view (<[i:=b']> bs) k = assoc k (b_entries b').
Proof.
  intros Hi Hl [e He]. pose proof (lookup_lt_Some _ _ _ Hi). rewrite He. unfold view.
  eapply (view_lists_Some _ _ i (b_entries b')).
  - rewrite list_lookup_fmap, list_lookup_insert_eq by done. done.
  - done.
  - intros j r Hj Hr. rewrite list_lookup_fmap, list_lookup_insert_ne in Hr by lia.
    destruct (bs !! j) as [c|] eqn:Hc; [|done]. injection Hr as <-. by eapply Hl.
Qed.

Lemma view_insert_other (bs : list bset) i b b' k :
  bs !! i = Some b → assoc k (b_entries b') = assoc k (b_entries b) → view (<[i:=b']> bs) k = view bs k.
Proof.
  intros Hi Ha. unfold view. apply view_lists_ext. rewrite list_fmap_insert.
  apply Forall2_lookup. intros j. destruct (decide (i = j)) as [<-|Hne].
  - rewrite list_lookup_insert_eq by (rewrite length_fmap; by eapply lookup_lt_Some).
    rewrite list_lookup_fmap, Hi. by constructor.
  - rewrite list_lookup_insert_ne by done. destruct (_ !! j); by constructor.
Qed.

Lemma set_kind_wf k e : entry_wf e → entry_wf (set_kind k e).
Proof. intros []. split; try done. by destruct k. Qed.

Lemma set_kind_key k e : key_of (set_kind k e) = key_of e.
Proof. done. Qed.

Lemma kind_enum_set k e : kind_enum (set_kind k e) = k.
Proof. by destruct k. Qed.

Lemma flip_ok n bs q key e kind :
  leaf_ok n bs q → view bs key = Some e → kind ≠ Whiteout →
  ∃ n' bs', flip key kind n = Ok n' ∧ leaf_ok n' bs' q ∧ same_kind n n' ∧
    ∀ k, view bs' k = if decide (k = key) then Some (set_kind kind e) else view bs k.
Proof.
  intros Hn Hv Hkind. pose proof (lo_rep _ _ _ Hn) as Hr. pose proof (lo_runs _ _ _ Hn) as Hw.
  unfold flip. change (@None (nat * nat * Z)) with (hit_triple <$> (@None MergedHit)). rewrite flip_best_merged.
  destruct (merged_find_spec n bs key Hr Hw) as (r & E & Hok). unfold merged_find in E. rewrite E. mred.
  destruct r as [h|]; cbn [hit_ok] in Hok; [|congruence].
  destruct Hok as (b & x & Hb & Hx & Hk & _ & Hvx & Hlast). assert (x = e) as -> by congruence.
  cbn [fmap option_fmap option_map hit_triple]. mred.
  destruct (entry_at_mut_rep Hr _ _ b e (set_kind kind e) (λ e, Ok (set_kind kind e)) Hb Hx eq_refl)
    as (n1 & E1 & Hr1 & Hk1).
  { apply set_kind_wf. by eapply (entry_wf_rep Hr). }
  unfold hit_triple. rewrite E1. mred. rewrite decide_False by done.
  set (b' := with_entries _ b) in *.
  pose proof (runs_sorted_lookup _ _ _ Hw Hb) as Hsb.
  assert (∀ k, assoc k (b_entries b') = if decide (k = key) then Some (set_kind kind e) else assoc k (b_entries b))
    as Hassoc.
  { intros k. cbn [b' with_entries b_entries]. rewrite (assoc_insert _ _ e) by done.
    by rewrite set_kind_key, Hk. }
  exists n1, (<[hit_bset h:=b']> bs). split_and!; [done| |done|].
  - destruct Hn as [? ? ? _ _ Hq Hf].
    split; [by rewrite (sk_level _ _ Hk1)|by rewrite (sk_magic _ _ Hk1)|by apply Hk1|done|..].
    + apply (runs_wf_insert _ _ b); [done|done|done|]. unfold keys_sorted, b'. cbn [with_entries b_entries].
      by rewrite (keys_fmap_insert _ _ e).
    + apply Forall_insert; [done|]. by apply (Forall_lookup_1 _ _ _ _ Hq Hb).
    + apply Forall_insert; [done|]. pose proof (Forall_lookup_1 _ _ _ _ Hf Hb) as Hfb.
      intros y [j Hy]%list_elem_of_lookup Hky. cbn [b' with_entries b_entries b_flags] in *.
      apply list_lookup_insert_Some in Hy as [(_ & <- & _)|(_ & Hy)].
      * by rewrite kind_enum_set in Hky.
      * eapply Hfb; [by eapply list_elem_of_lookup_2|done].
  - intros k. destruct (decide (k = key)) as [->|Hne].
    + rewrite (view_insert _ _ b); [|done|done|]; by rewrite Hassoc, decide_True by done.
    + apply (view_insert_other _ _ b); [done|]. by rewrite Hassoc, decide_False by done.
Qed.

(** ** Reading a leaf *)
Definition row_of (e : DiskEntry) : list byte * EntryKind := (value_of e, kind_enum e).

Lemma view_wf n bs k e : node_rep n bs → view bs k = Some e → entry_wf e.
Proof.
  intros Hr Hv. apply view_key in Hv as (_ & b & Hb & He).
  pose proof (rep_wf _ _ Hr) as Hw. rewrite Forall_forall in Hw.
  pose proof (bwf_entries _ (Hw b Hb)) as He'. rewrite Forall_forall in He'. auto.
Qed.

Lemma find_step_leaf n bs q key :
  leaf_ok n bs q → find_step key n = Ok (StepFound (row_of <$> view bs key)).
Proof.
  intros Hn. pose proof (lo_rep _ _ _ Hn) as Hr. unfold find_step. rewrite (lo_level _ _ _ Hn). cbn [Z.eqb].
  destruct (merged_find_spec n bs key Hr (lo_runs _ _ _ Hn)) as (r & E & Hok). rewrite E. mred.
  destruct r as [h|]; cbn [hit_ok] in Hok; [|by rewrite Hok].
  destruct Hok as (b & e & Hb & He & _ & _ & Hv & _).
  rewrite (entry_at_rep Hr _ _ b e Hb He). mred. rewrite (value_bytes_at_rep Hr _ _ b e Hb He). mred.
  by rewrite Hv.
Qed.

(** The rows of a scan, from the merged list. *)
Fixpoint scan_rows {A} (g : DiskEntry → option A) (start stop : list byte) (es : list DiskEntry) : list A :=
  match es with
  | [] => []
  | e :: es =>
      if bytes_ltb (key_of e) start then scan_rows g start stop es
      else if negb (bytes_ltb (key_of e) stop) then []
      else option_list (g e) ++ scan_rows g start stop es
  end.

Lemma scan_leaf_ok {A} (row : BtreeNodeRaw → nat → nat → DiskEntry → res (option A)) (g : DiskEntry → option A)
    start stop n bs q results :
  leaf_ok n bs q →
  (∀ i j b e, bs !! i = Some b → b_entries b !! j = Some e → row n i j e = Ok (g e)) →
  ∃ es, keys_sorted es ∧ (∀ k, assoc k es = view bs k) ∧
    scan_leaf row start stop n results = Ok (results ++ scan_rows g start stop es).
Proof.
  intros Hn Hrow. pose proof (lo_rep _ _ _ Hn) as Hr.
  destruct (merged_all n bs Hr (lo_runs _ _ _ Hn)) as (it & ps & es & E & Hp & Hs & Hv & Hf).
  exists es. split_and!; [done|done|]. unfold scan_leaf. rewrite E. mred. rewrite Hf. clear E Hf Hs Hv.
  revert results. induction Hp as [|[b i] e ps es (x & Hb & He) Hp IH]; intros results;
    cbn [for_break scan_rows]; [by rewrite app_nil_r|].
  cbn [fst snd] in *. rewrite (entry_at_rep Hr b i x e Hb He). mred.
  rewrite key_bytes_ok by (by eapply (entry_wf_rep Hr)). mred.
  destruct (bytes_ltb (key_of e) start); mred; [apply IH|].
  destruct (bytes_ltb (key_of e) stop); cbn [negb]; mred; [|by rewrite app_nil_r].
  rewrite (Hrow b i x e Hb He). mred. by rewrite IH, <- app_assoc.
Qed.

Definition all_row_of (e : DiskEntry) : AllSnapRow := (logical_of e, snap_of e, kind_enum e, value_of e).

Lemma all_row_ok n bs i j b e :
  node_rep n bs → bs !! i = Some b → b_entries b !! j = Some e → all_row n i j e = Ok (Some (all_row_of e)).
Proof.
  intros Hr Hb He. pose proof (entry_wf_rep Hr i j b e Hb He). unfold all_row.
  rewrite logical_key_bytes_ok, snap_id_ok by done. mred. by rewrite (value_bytes_at_rep Hr i j b e).
Qed.

Lemma scan_rows_spec {A} (g : DiskEntry → option A) start stop es :
  keys_sorted es →
  scan_rows g start stop es =
    omap g (filter (λ e, bytes_ltb (key_of e) start = false ∧ bytes_ltb (key_of e) stop = true) es).
Proof.
  induction es as [|e es IH]; intros Hs; [done|]. apply keys_sorted_cons in Hs as [Hlt Hs].
  cbn [scan_rows]. rewrite filter_cons.
  destruct (bytes_ltb (key_of e) start) eqn:E1; [rewrite decide_False by (intros [? _]; congruence); by apply IH|].
  destruct (bytes_ltb (key_of e) stop) eqn:E2; cbn [negb].
  - rewrite decide_True by done. cbn [omap list_omap]. rewrite IH by done. by destruct (g e).
  - rewrite decide_False by (intros [_ ?]; congruence). clear IH. induction es as [|x es IHes]; [done|].
    apply keys_sorted_cons in Hs as [_ Hs]. apply Forall_cons in Hlt as [Hx Hlt].
    rewrite filter_cons, decide_False; [by apply IHes|]. intros [_ Hx2]. apply bytes_ltb_true in Hx2.
    apply bytes_ltb_false in E2. apply E2. by eapply bytes_lt_trans.
Qed.

(** ** Properties *)

(** A write a leaf can absorb (an overwrite in the newest run, an append, a
    new run, or a compaction when all four runs are in use) returns, keeps the
    leaf invariant (sorted runs, growing seqs, whiteout markers, header) and
    changes the merged reading at the written key only: there it reads back the
    written kind and the value cut at 96 bytes. *)
Lemma leaf_write_updates_one_key n bs q key kind value a :
  leaf_ok n bs q → sortable_wf key → 0 ≤ q < 2 ^ 64 - 1 →
  plan_write key n = Ok (PlanInPlace a) →
  ∃ n' bs' q', apply_write key kind value n a q = Ok (n', q') ∧ leaf_ok n' bs' q' ∧
    same_kind n n' ∧ q ≤ q' ≤ q + 1 ∧
    find_step key n' = Ok (StepFound (Some (take MAX_VALUE_SIZE value, kind))) ∧
    ∀ k, k ≠ key → find_step k n' = find_step k n.
Proof.
  intros Hn Hk Hq Hp. rewrite (plan_write_ok n bs q) in Hp by done.
  assert (a = absorbs bs key ∧ (absorbs bs key = true ∨ (total_entries bs < MAX_ENTRIES)%nat)) as [-> Hroom].
  { destruct (absorbs bs key); [injection Hp as <-; auto|].
    destruct (Nat.leb_spec MAX_ENTRIES (total_entries bs)); [done|]. injection Hp as <-. auto. }
  destruct (apply_write_ok n bs q key kind value Hn Hk Hq Hroom) as (n' & bs' & q' & E & Hok & Hsk & Hq' & Hw).
  exists n', bs', q'. split_and!; [done|done|done|lia|lia| |].
  - rewrite (find_step_leaf n' bs' q') by done. rewrite (Hw key), decide_True by done.
    cbn [fmap option_fmap option_map]. unfold row_of. by rewrite leaf_entry_value, leaf_entry_kind.
  - intros k Hne. rewrite (find_step_leaf n' bs' q'), (find_step_leaf n bs q) by done.
    by rewrite (Hw k), decide_False by done.
Qed.

(** Compacting a leaf into one run, done when all four runs are in use, drops
    only shadowed copies: every lookup on the leaf answers as before. *)
Theorem compaction_preserves_lookups n bs q seq :
  leaf_ok n bs q → 0 ≤ seq < 2 ^ 64 - 1 →
  ∃ n' b, compact_leaf_in_place seq n = Ok n' ∧ leaf_ok n' [b] (seq + 1) ∧ same_kind n n' ∧
    (length (b_entries b) ≤ total_entries bs)%nat ∧ ∀ k, find_step k n' = find_step k n.
Proof.
  intros Hn Hs. destruct (compact_leaf_ok n bs q seq Hn Hs) as (n' & f & es & E & Hok & _ & Hv & Hl & Hsk).
  exists n', (run seq f es). split_and!; [done|done|done|done|]. intros k.
  rewrite (find_step_leaf n' _ _ k Hok), (find_step_leaf n _ _ k Hn). by rewrite view_single, <- Hv.
Qed.

(** Snapshot deletion on a leaf. The rebuilt leaf has lost exactly the
    readings stored at the dead snapshot (no shadowed copy resurfaces), every
    other lookup is unchanged, and a leaf that the pre-check lets the pass skip
    has nothing to lose. *)
Lemma snapshot_drop_removes_exactly_the_snap n bs q seq dead :
  leaf_ok n bs q → 0 ≤ seq < 2 ^ 64 - 1 →
  (∃ n' d bs', compact_leaf_dropping_snap seq dead n = Ok (n', d) ∧ leaf_ok n' bs' (seq + 1) ∧
     ∀ k, view bs' k = without (drops_snap dead) (view bs) k) ∧
  (leaf_has_snap_entries dead n = Ok false →
     ∀ k, without (drops_snap dead) (view bs) k = view bs k).
Proof.
  intros Hn Hs. split.
  - destruct (compact_dropping_ok (at_snap dead) (drops_snap dead) n bs q seq Hn Hs (at_snap_ok dead))
      as (n' & f & es & E & _ & _ & Hok & _ & Hv). by do 3 eexists.
  - intros E. destruct (leaf_has_snap_entries_ok n bs q dead Hn) as (r & E' & Hr).
    rewrite E in E'. injection E' as <-. by apply Hr.
Qed.

(** Whiteout compaction on a leaf removes exactly the whiteouts whose
    snapshot is dead; live entries, deletion markers and other whiteouts stay,
    and skipping a leaf on the strength of the whiteout marker loses nothing. *)
Lemma whiteout_compaction_removes_exactly_dead n bs q seq dead :
  leaf_ok n bs q → 0 ≤ seq < 2 ^ 64 - 1 →
  (∃ n' d bs', compact_leaf_dropping_whiteouts seq dead n = Ok (n', d) ∧ leaf_ok n' bs' (seq + 1) ∧
     ∀ k, view bs' k = without (drops_whiteout dead) (view bs) k) ∧
  (leaf_has_droppable_whiteout dead n = Ok false →
     ∀ k, without (drops_whiteout dead) (view bs) k = view bs k).
Proof.
  intros Hn Hs. split.
  - destruct (compact_dropping_ok (droppable_whiteout dead) (drops_whiteout dead) n bs q seq Hn Hs
      (droppable_whiteout_ok dead)) as (n' & f & es & E & _ & _ & Hok & _ & Hv). by do 3 eexists.
  - intros E. destruct (leaf_has_droppable_whiteout_ok n bs q dead Hn) as (r & E' & Hr).
    rewrite E in E'. injection E' as <-. by apply Hr.
Qed.

(** *** Concrete leaves *)
Definition demo_leaf : BtreeNodeRaw :=
  match new_node_on_heap 0 with Ok n => n | _ => node_new 0 end.
Definition demo_key : list byte := to_be 8 7 ++ to_be 4 ROOT_SNAP.
Definition demo_run : bset := run 0 0 [leaf_entry demo_key Live [Byte.x61]].
Definition demo_leaf1 : BtreeNodeRaw :=
  match apply_write demo_key Live [Byte.x61] demo_leaf false 1 with Ok (n, _) => n | _ => node_new 0 end.

Lemma node_new_ok : leaf_ok (node_new 0) [] 0.
Proof.
  split; [done|done|by apply node_new_header|apply node_new_rep|apply runs_wf_nil|constructor|constructor].
Qed.

Lemma demo_leaf_ok : leaf_ok demo_leaf [empty_bset 0] 1.
Proof.
  destruct (start_new_ok (node_new 0) [] 0 node_new_ok) as (n & E & Hn & _); [consts; cbn; lia|lia|].
  unfold demo_leaf, new_node_on_heap. by rewrite E.
Qed.

Lemma demo_key_wf : sortable_wf demo_key.
Proof. unfold sortable_wf. cbn. lia. Qed.

Lemma demo_leaf1_header : header demo_leaf1 = header (set_bset_count 1 (node_new 0)).
Proof. vm_compute. reflexivity. Qed.

Lemma demo_leaf1_ok : leaf_ok demo_leaf1 [demo_run] 1.
Proof.
  split; unfold level; rewrite ?demo_leaf1_header; [done|done|by repeat split| | | |].
  - apply (rep_intro _ _ (drop (length (enc_bsets [demo_run])) (body demo_leaf1)));
      [by rewrite demo_leaf1_header|consts; cbn; lia|vm_compute; reflexivity| |vm_compute; reflexivity].
    repeat constructor; try done; apply leaf_entry_wf, demo_key_wf.
  - apply runs_wf_single. repeat constructor.
  - repeat constructor.
  - constructor; [|constructor]. intros e He. apply list_elem_of_singleton in He as ->. done.
Qed.

Lemma merged_iterator_is_sorted_view_witness :
  ∃ ps es, merged_collect demo_leaf1 = Ok ps ∧ positions [demo_run] ps es ∧ keys_sorted es ∧
    ∀ k, assoc k es = view [demo_run] k.
Proof.
  apply (merged_iterator_is_sorted_view demo_leaf1 [demo_run]);
    [apply (lo_rep _ _ _ demo_leaf1_ok)|apply (lo_runs _ _ _ demo_leaf1_ok)].
Defined.
