(* ===== verification/Internal.v ===== *)
(** * Internal: internal nodes as columns (src/btree.rs, inner half).

    [cells n L ks cs] says that node [n] is an internal node of level [L] whose
    single bset stores key column [ks] and child column [cs]. The key of the last
    cell is never read: [inode n L seps cs] hides it. The builders of the split
    and promotion code are read as list functions on the two columns. *)
From Stdlib Require Import Strings.Byte.
From stdpp Require Import base list numbers gmap sorting.
From S2P Require Import Prelude Device BlockBtree NodeRep Merge Storage StoreSpec Btree Leaf.
#[local] Open Scope rfs_scope.
#[local] Open Scope Z_scope.

Record cells (n : BtreeNodeRaw) (L : Z) (ks : list (list byte)) (cs : list Z) : Prop := {
  ce_level : level n = L;
  ce_pos : 0 < L;
  ce_magic : nh_magic (header n) = MAGIC_NUMBER;
  ce_header : header_wf (header n);
  ce_rep : ∃ b, node_rep n [b] ∧ key_of <$> b_entries b = ks ∧ child_of <$> b_entries b = cs;
}.

Definition inode (n : BtreeNodeRaw) (L : Z) (seps : list (list byte)) (cs : list Z) : Prop :=
  ∃ z, cells n L (seps ++ [z]) cs ∧ length cs = S (length seps).

Lemma entry_columns_wf e : entry_wf e → sortable_wf (key_of e) ∧ in_width 64 (child_of e).
Proof.
  intros He. split.
  - pose proof (ewf_key _ He). pose proof (ewf_key_len _ He). unfold sortable_wf, key_of, key_len_nat.
    rewrite length_take. consts. lia.
  - unfold child_of. pose proof (from_le_range (take 8 (de_payload e))) as Hr.
    rewrite length_take_le in Hr; [exact Hr|]. rewrite (ewf_payload _ He). consts. lia.
Qed.

Section reading.
Context {n : BtreeNodeRaw} {L : Z} {ks : list (list byte)} {cs : list Z} (Hn : cells n L ks cs).

Lemma cells_length : length ks = length cs ∧ (length cs ≤ 29)%nat.
Proof using Hn.
  destruct (ce_rep _ _ _ _ Hn) as (b & Hr & <- & <-). rewrite !length_fmap. split; [done|].
  pose proof (rep_total_le n [b] Hr) as Ht. unfold total_entries in Ht. cbn in Ht. lia.
Qed.

Lemma cells_key i k :
  ks !! i = Some k → (e ← entry n i; key_bytes e) = Ok k ∧ sortable_wf k.
Proof using Hn.
  intros Hi. destruct (ce_rep _ _ _ _ Hn) as (b & Hr & Hk & _). rewrite <- Hk in Hi.
  apply list_lookup_fmap_Some in Hi as (e & -> & He). pose proof (entry_wf_rep Hr 0 i b e eq_refl He).
  unfold entry. rewrite (entry_at_rep Hr 0 i b e eq_refl He). mred.
  split; [by apply key_bytes_ok|by apply entry_columns_wf].
Qed.

Lemma cells_child i c : cs !! i = Some c → child_block n i = Ok c ∧ in_width 64 c.
Proof using Hn.
  intros Hi. destruct (ce_rep _ _ _ _ Hn) as (b & Hr & _ & Hc). rewrite <- Hc in Hi.
  apply list_lookup_fmap_Some in Hi as (e & -> & He). pose proof (entry_wf_rep Hr 0 i b e eq_refl He).
  split; [by apply (child_block_at_rep Hr 0 i b e)|by apply entry_columns_wf].
Qed.

Lemma cells_nkeys : nkeys n = Ok (length cs - 1)%nat.
Proof using Hn.
  destruct (ce_rep _ _ _ _ Hn) as (b & Hr & _ & Hc). unfold nkeys. rewrite (total_stored_rep Hr). mred.
  rewrite (ce_level _ _ _ _ Hn), (proj2 (Z.ltb_lt _ _)) by apply Hn. cbn [andb].
  assert (total_entries [b] = length cs) as ->
    by (rewrite <- Hc, length_fmap; unfold total_entries; cbn; lia).
  f_equal. destruct (Nat.ltb_spec 0 (length cs)); lia.
Qed.
End reading.

(** ** Routing *)

(** The child that covers [k]: the number of separators not above it. *)
Fixpoint route (k : list byte) (ks : list (list byte)) : nat :=
  match ks with
  | [] => 0
  | k0 :: ks => if bytes_ltb k k0 then 0 else S (route k ks)
  end.

Abbreviation sorted_seps := (StronglySorted bytes_lt).

Lemma route_le k ks : (route k ks ≤ length ks)%nat.
Proof. induction ks as [|k0 ks IH]; cbn [route length]; [lia|]. destruct (bytes_ltb k k0); lia. Qed.

Lemma route_unique k ks i :
  (i ≤ length ks)%nat →
  (∀ j x, (j < i)%nat → ks !! j = Some x → ¬ k ≺ x) →
  (∀ x, ks !! i = Some x → k ≺ x) → route k ks = i.
Proof.
  revert i. induction ks as [|k0 ks IH]; intros i Hi Hlo Hhi; cbn [length route] in *; [lia|].
  destruct i as [|i].
  - by rewrite (proj2 (bytes_ltb_true _ _) (Hhi k0 eq_refl)).
  - rewrite (proj2 (bytes_ltb_false _ _) (Hlo 0%nat k0 ltac:(lia) eq_refl)). f_equal. apply IH; [lia| |].
    + intros j x Hj Hx. apply (Hlo (S j) x); [lia|done].
    + intros x Hx. by apply (Hhi x).
Qed.

Lemma sorted_seps_lookup ks i j x y :
  sorted_seps ks → (i < j)%nat → ks !! i = Some x → ks !! j = Some y → x ≺ y.
Proof.
  intros Hs. revert i j. induction Hs as [|k0 ks Hs IH Hf]; intros i j Hij Hx Hy; [done|].
  destruct i as [|i], j as [|j]; cbn [lookup list_lookup] in *; try lia.
  - injection Hx as ->. by eapply (Forall_lookup_1 _ _ _ _ Hf).
  - eapply (IH i j); [lia|done|done].
Qed.

(** Binary search for [k], stepping right of an exact match, is [route]. *)
Lemma child_slot_route (es : list DiskEntry) k :
  keys_sorted es →
  child_slot (binary_search_by (λ e, bytes_cmp (key_of e) k) es) = route k (key_of <$> es).
Proof.
  intros Hs. pose proof (search_sorted k es Hs) as H. symmetry.
  destruct (binary_search_by _ es) as [i|i]; cbn [child_slot].
  - destruct H as (e & He & Hk & _). pose proof (lookup_lt_Some _ _ _ He). apply route_unique.
    + rewrite length_fmap. lia.
    + intros j x Hj Hx Hlt. apply (bytes_lt_irrefl k). destruct (decide (j = i)) as [->|Hne].
      * rewrite list_lookup_fmap, He in Hx. cbn in Hx. congruence.
      * eapply bytes_lt_trans; [exact Hlt|]. rewrite <- Hk.
        eapply (sorted_seps_lookup _ j i); [exact Hs|lia|exact Hx|]. by rewrite list_lookup_fmap, He.
    + intros x Hx. rewrite <- Hk. eapply (sorted_seps_lookup _ i (i + 1)); [exact Hs|lia| |exact Hx].
      by rewrite list_lookup_fmap, He.
  - destruct H as (Hi & _ & Hlo & Hhi). apply route_unique.
    + by rewrite length_fmap.
    + intros j x Hj Hx Hlt. apply list_lookup_fmap_Some in Hx as (e & -> & He).
      apply (bytes_lt_irrefl k). eapply bytes_lt_trans; [exact Hlt|]. by eapply Hlo.
    + intros x Hx. apply list_lookup_fmap_Some in Hx as (e & -> & He). by eapply (Hhi i).
Qed.

Lemma inode_search n L ks cs k :
  inode n L ks cs → sorted_seps ks → ∃ r, search n k = Ok r ∧ child_slot r = route k ks.
Proof.
  intros (z & Hn & Hl) Hs. destruct (ce_rep _ _ _ _ Hn) as (b & Hr & Hk & Hc). unfold search.
  rewrite (ce_level _ _ _ _ Hn), (proj2 (Z.ltb_lt _ _)) by apply Hn. unfold search_internal.
  rewrite (bset_entries_rep Hr 0 b eq_refl). mred.
  assert (ks = key_of <$> take (length (b_entries b) - 1) (b_entries b)) as Hks.
  { rewrite fmap_take, Hk. rewrite <- (length_fmap key_of), Hk, length_app. cbn [length].
    rewrite take_app_len by lia. done. }
  rewrite (binary_search_byO_pure _ (λ e, bytes_cmp (key_of e) k)).
  - eexists. split; [done|]. rewrite Hks. apply child_slot_route. unfold keys_sorted. by rewrite <- Hks.
  - apply Forall_take. eapply Forall_impl; [apply (bwf_entries b)|intros e He; by apply cmp_key_ok].
    by apply (rep_wf_lookup Hr 0).
Qed.

Lemma inode_descend n L ks cs k :
  inode n L ks cs → sorted_seps ks →
  ∃ c, cs !! route k ks = Some c ∧ descend k n = Ok (route k ks, c).
Proof.
  intros Hn Hs. destruct (inode_search n L ks cs k Hn Hs) as (r & E & Hr). destruct Hn as (z & Hn & Hl).
  pose proof (route_le k ks). destruct (lookup_lt_is_Some_2 cs (route k ks)) as [c Hc]; [lia|].
  exists c. split; [done|]. unfold descend. rewrite E. mred. rewrite Hr.
  by rewrite (proj1 (cells_child Hn _ _ Hc)).
Qed.

(** ** Writing cells *)
Lemma with_key_wf k e :
  sortable_wf k → entry_wf e →
  entry_wf (with_key (k ++ replicate (MAX_KEY_SIZE - length k) Byte.x00) (Z.of_nat (length k) - 4) e).
Proof.
  intros [H1 H2] []. split; cbn [with_key de_key de_key_len de_value_len de_kind de_pad de_payload]; try done.
  - rewrite length_app, length_replicate. consts. lia.
  - lia.
Qed.

(** One cell edited through [entry_mut]. *)
Lemma cells_edit n L ks cs i f (gk : list byte → list byte) (gc : Z → Z) k c :
  cells n L ks cs → ks !! i = Some k → cs !! i = Some c →
  (∀ e, entry_wf e → ∃ e', f e = Ok e' ∧ entry_wf e' ∧ key_of e' = gk (key_of e) ∧ child_of e' = gc (child_of e)) →
  ∃ n', entry_mut i f n = Ok n' ∧ cells n' L (<[i:=gk k]> ks) (<[i:=gc c]> cs) ∧ same_kind n n'.
Proof.
  intros Hn Hi Hci Hf. destruct (ce_rep _ _ _ _ Hn) as (b & Hr & Hk & Hc).
  pose proof Hi as He. rewrite <- Hk in He. apply list_lookup_fmap_Some in He as (e & -> & He).
  pose proof Hci as He'. rewrite <- Hc, list_lookup_fmap, He in He'. injection He' as <-.
  destruct (Hf e) as (e' & Ef & Hw' & Hk' & Hc'); [by eapply (entry_wf_rep Hr 0)|].
  destruct (entry_at_mut_rep Hr 0 i b e e' f eq_refl He Ef Hw') as (n' & E & Hr' & Hsk).
  exists n'. split_and!; [done| |done]. destruct Hn. split.
  - by rewrite (sk_level _ _ Hsk).
  - done.
  - by rewrite (sk_magic _ _ Hsk).
  - by apply Hsk.
  - eexists. split; [exact Hr'|]. cbn [with_entries b_entries]. by rewrite !list_fmap_insert, Hk, Hc, Hk', Hc'.
Qed.

Lemma cells_set_key n L ks cs i k :
  cells n L ks cs → (i < length cs)%nat → sortable_wf k →
  ∃ n', entry_mut i (set_key k) n = Ok n' ∧ cells n' L (<[i:=k]> ks) cs ∧ same_kind n n'.
Proof.
  intros Hn Hi Hk. pose proof (cells_length Hn) as [Hl _].
  destruct (lookup_lt_is_Some_2 ks i) as [k0 Hk0]; [lia|]. destruct (lookup_lt_is_Some_2 cs i) as [c Hc]; [done|].
  rewrite <- (list_insert_id cs i c Hc).
  eapply (cells_edit n L ks cs i _ (λ _, k) id); [done|done|done|]. intros e Hw.
  rewrite set_key_ok by (done || apply Hw). eexists. split; [done|]. split; [by apply with_key_wf|]. split; [|done].
  unfold key_of, key_len_nat. cbn [with_key de_key de_key_len].
  destruct Hk. apply take_app_len. consts. lia.
Qed.

Lemma cells_set_child n L ks cs i c :
  cells n L ks cs → (i < length cs)%nat → in_width 64 c →
  ∃ n', set_child_block i c n = Ok n' ∧ cells n' L ks (<[i:=c]> cs) ∧ same_kind n n'.
Proof.
  intros Hn Hi Hc. pose proof (cells_length Hn) as [Hl _].
  destruct (lookup_lt_is_Some_2 ks i) as [k Hk]; [lia|]. destruct (lookup_lt_is_Some_2 cs i) as [c0 Hc0]; [done|].
  rewrite <- (list_insert_id ks i k Hk). unfold set_child_block, set_child_block_at.
  eapply (cells_edit n L ks cs i _ id (λ _, c)); [done|done|done|]. intros e He.
  pose proof (ewf_payload _ He) as Hp. unfold payload_set_child.
  rewrite splice_start by (rewrite length_to_le, Hp; consts; lia).
  rewrite length_to_le. mred. eexists. split; [done|]. split_and!; [|done|].
  - destruct He. split; cbn [with_payload de_key de_key_len de_value_len de_kind de_pad de_payload]; try done.
    rewrite length_app, length_to_le, length_drop, Hp. consts. lia.
  - unfold child_of. cbn [with_payload de_payload].
    rewrite take_app_len by (by rewrite length_to_le). by apply from_to_le_small.
Qed.

(** [set_nkeys] on an internal node cuts the columns. *)
Lemma cells_set_nkeys n L ks cs k :
  cells n L ks cs → (k < length cs)%nat →
  ∃ n', set_nkeys k n = Ok n' ∧ cells n' L (take (S k) ks) (take (S k) cs) ∧ same_kind n n'.
Proof.
  intros Hn Hk. destruct (ce_rep _ _ _ _ Hn) as (b & Hr & Hks & Hc).
  destruct (rep_body _ _ Hr) as [tail Ht]. rewrite enc_bsets_single in Ht. unfold enc_bset in Ht.
  pose proof (rep_wf_lookup Hr 0 b eq_refl) as Hwb. pose proof (f_equal length Hc) as Hlc. rewrite length_fmap in Hlc.
  destruct (set_nkeys_rep n b k (take (S k) (b_entries b))
    (concat (encode_entry <$> drop (S k) (b_entries b)) ++ tail)) as (n' & E & Hr' & Hsk & _).
  - done.
  - rewrite Ht, <- (take_drop (S k) (b_entries b)) at 1. by rewrite fmap_app, concat_app, <- !app_assoc.
  - apply Forall_take, Hwb.
  - rewrite (ce_level _ _ _ _ Hn), (proj2 (Z.ltb_lt _ _)) by apply Hn. rewrite length_take. lia.
  - rewrite length_take. pose proof (bwf_len _ Hwb). lia.
  - exists n'. split_and!; [done| |done]. destruct Hn. split.
    + by rewrite (sk_level _ _ Hsk).
    + done.
    + by rewrite (sk_magic _ _ Hsk).
    + by apply Hsk.
    + eexists. split; [exact Hr'|]. cbn [unpadded with_entries b_entries]. by rewrite !fmap_take, Hks, Hc.
Qed.

(** ** Fresh internal nodes *)
Lemma encode_empty_entries m :
  concat (encode_entry <$> replicate m empty_entry) = replicate (m * ENTRY_SIZE) Byte.x00.
Proof.
  induction m as [|m IH]; [done|]. cbn [replicate fmap list_fmap concat]. rewrite IH.
  change (encode_entry empty_entry) with (replicate ENTRY_SIZE Byte.x00).
  by rewrite <- replicate_add.
Qed.

Lemma empty_entry_wf : entry_wf empty_entry.
Proof. by repeat split. Qed.

Definition zero_key : list byte := key_of empty_entry.

Lemma new_node_on_heap_eq lvl :
  ∃ n, new_node_on_heap lvl = Ok n ∧ header n = header (set_bset_count 1 (node_new lvl)) ∧
    body n = encode_bset_header (bset_hdr (empty_bset 0)) ++ replicate (BODY_SIZE - BSET_HEADER_SIZE) Byte.x00.
Proof.
  unfold new_node_on_heap, start_new_bset, write_bset_header.
  change (bset_count (node_new lvl)) with 0%nat. cbn [Nat.ltb Nat.leb BSET_TREE_NR_MAX assert_that skip_bsets]. mred.
  change (body (node_new lvl)) with (replicate BODY_SIZE Byte.x00).
  rewrite splice_start by (rewrite length_encode_bset_header, length_replicate; consts; lia).
  mred. eexists. split; [done|]. split; [done|]. cbn [set_bset_count body with_body].
  by rewrite length_encode_bset_header, drop_replicate.
Qed.

Lemma new_inner L g k :
  0 < L → in_width 8 L → in_width 64 g → (k < 29)%nat →
  ∃ n0 n, new_node_on_heap L = Ok n0 ∧ set_nkeys k (set_generation g n0) = Ok n ∧
    cells n L (replicate (S k) zero_key) (replicate (S k) 0) ∧ generation n = g.
Proof.
  intros HL Hw Hg Hk. destruct (new_node_on_heap_eq L) as (n0 & E & Hh & Hb). exists n0.
  set (n1 := set_generation g n0).
  assert (level n1 = L) as Hlv by (unfold level; cbn; by rewrite Hh).
  assert (node_rep n1 [empty_bset 0]) as Hr.
  { apply (rep_intro _ _ (replicate (BODY_SIZE - BSET_HEADER_SIZE) Byte.x00)); cbn [n1 set_generation header body with_header_fields nh_bset_count].
    - by rewrite Hh.
    - cbn. consts. lia.
    - rewrite Hb, length_app, length_encode_bset_header, length_replicate. consts. lia.
    - constructor; [by apply empty_bset_wf|constructor].
    - rewrite Hb, enc_bsets_single. unfold enc_bset. by rewrite app_nil_r. }
  destruct (set_nkeys_rep n1 (empty_bset 0) k (replicate (S k) empty_entry)
    (replicate (BODY_SIZE - BSET_HEADER_SIZE - S k * ENTRY_SIZE) Byte.x00)) as (n & E2 & Hr2 & Hs & _).
  - done.
  - change (body n1) with (body n0). rewrite Hb, encode_empty_entries, <- replicate_add. do 2 f_equal. consts. lia.
  - apply Forall_replicate, empty_entry_wf.
  - rewrite Hlv, (proj2 (Z.ltb_lt _ _)), length_replicate by done. lia.
  - rewrite length_replicate. lia.
  - exists n. split_and!; [done|done| |].
    + split; [by rewrite (sk_level _ _ Hs)|done| | |].
      * rewrite (sk_magic _ _ Hs). cbn. by rewrite Hh.
      * apply Hs, set_generation_header; [done|]. rewrite Hh. by split.
      * eexists. split; [exact Hr2|]. cbn [unpadded with_entries b_entries]. by rewrite !fmap_replicate.
    + rewrite (sk_generation _ _ Hs). done.
Qed.

(** ** Copy loops *)
Lemma overwrite_step {A} (l src : list A) b j x :
  src !! j = Some x → (b + j < length l)%nat →
  <[(b + j)%nat:=x]> (overwrite l b (take j src)) = overwrite l b (take (S j) src).
Proof.
  intros Hx Hl. pose proof (lookup_lt_Some _ _ _ Hx). unfold overwrite.
  rewrite (take_S_r _ _ _ Hx), length_app, !length_take. cbn [length].
  rewrite !Nat.min_l by lia. rewrite insert_app_r_alt by (rewrite length_take; lia).
  rewrite length_take, Nat.min_l by lia. replace (b + j - b)%nat with j by lia.
  rewrite insert_app_r_alt by (rewrite length_take; lia).
  rewrite length_take, Nat.min_l, Nat.sub_diag by lia.
  rewrite <- app_assoc. do 2 f_equal.
  destruct (drop (b + j) l) as [|y t] eqn:Hd.
  { apply (f_equal length) in Hd. rewrite length_drop in Hd. cbn in Hd. lia. }
  cbn [insert list_insert app]. f_equal. replace (b + (j + 1))%nat with (S (b + j)) by lia.
  replace (S (b + j)) with (b + j + 1)%nat by lia. by rewrite <- drop_drop, Hd.
Qed.

Lemma for_node_cells f L (G : nat → list (list byte) * list Z) a m n :
  (∀ j n, (j < m)%nat → cells n L (G j).1 (G j).2 →
    ∃ n', f n (a + j)%nat = Ok n' ∧ cells n' L (G (S j)).1 (G (S j)).2 ∧ same_kind n n') →
  cells n L (G 0%nat).1 (G 0%nat).2 →
  ∃ n', for_node (seq a m) f n = Ok n' ∧ cells n' L (G m).1 (G m).2 ∧ same_kind n n'.
Proof.
  revert a n G. induction m as [|m IH]; intros a n G Hf Hn; cbn [seq].
  { exists n. by split_and!. }
  unfold for_node. cbn [foldO]. destruct (Hf 0%nat n) as (n1 & E1 & Hn1 & Hs1); [lia|done|].
  rewrite Nat.add_0_r in E1. rewrite E1. mred.
  destruct (IH (S a) n1 (λ j, G (S j))) as (n2 & E2 & Hn2 & Hs2); [|done|].
  - intros j n' Hj Hc. replace (S a + j)%nat with (a + S j)%nat by lia. apply Hf; [lia|done].
  - exists n2. split_and!; [exact E2|done|by etrans].
Qed.

Lemma copy_key_ok src Ls K C i k dst L ks cs j :
  cells src Ls K C → K !! i = Some k → cells dst L ks cs → (j < length cs)%nat →
  ∃ n', copy_key src i dst j = Ok n' ∧ cells n' L (<[j:=k]> ks) cs ∧ same_kind dst n'.
Proof.
  intros Hs Hi Hd Hj. destruct (cells_key Hs i k Hi) as [Hk Hw]. unfold copy_key.
  apply outcome_bind_Ok_inv in Hk as (e & He & Hk). rewrite He. mred. rewrite Hk. mred.
  by apply cells_set_key.
Qed.

Lemma copy_child_ok src Ls K C i c dst L ks cs j :
  cells src Ls K C → C !! i = Some c → cells dst L ks cs → (j < length cs)%nat →
  ∃ n', copy_child src i dst j = Ok n' ∧ cells n' L ks (<[j:=c]> cs) ∧ same_kind dst n'.
Proof.
  intros Hs Hi Hd Hj. destruct (cells_child Hs i c Hi) as [Hc Hw]. unfold copy_child. rewrite Hc. mred.
  by apply cells_set_child.
Qed.

Lemma overwrite_nil {A} (l : list A) b : overwrite l b [] = l.
Proof. unfold overwrite. cbn [length app]. by rewrite Nat.add_0_r, take_drop. Qed.

(** A loop that copies [m] keys from [a] to [b]. *)
Lemma copy_keys_loop src Ls K C dst L ks cs a b m f :
  cells src Ls K C → cells dst L ks cs → (a + m ≤ length K)%nat → (b + m ≤ length ks)%nat →
  (∀ n j, (j < m)%nat → f n (a + j)%nat = copy_key src (a + j) n (b + j)) →
  ∃ n', for_node (seq a m) f dst = Ok n' ∧ cells n' L (overwrite ks b (take m (drop a K))) cs ∧ same_kind dst n'.
Proof.
  intros Hs Hd Ha Hb Hf.
  apply (for_node_cells f L (λ j, (overwrite ks b (take j (drop a K)), cs)) a m dst); cbn [fst snd].
  - intros j n Hj Hn. rewrite Hf by done. destruct (lookup_lt_is_Some_2 K (a + j)) as [k Hk]; [lia|].
    destruct (copy_key_ok src Ls K C (a + j) k n L _ cs (b + j) Hs Hk Hn) as (n' & E & Hn' & Hsk).
    { pose proof (cells_length Hd) as [? _]. lia. }
    exists n'. split_and!; [done| |done]. rewrite overwrite_step in Hn'; [done|by rewrite lookup_drop|lia].
  - by rewrite take_0, overwrite_nil.
Qed.

Lemma copy_children_loop src Ls K C dst L ks cs a0 a b m f :
  cells src Ls K C → cells dst L ks cs → (a + m ≤ length C)%nat → (b + m ≤ length cs)%nat →
  (∀ n j, (j < m)%nat → f n (a0 + j)%nat = copy_child src (a + j) n (b + j)) →
  ∃ n', for_node (seq a0 m) f dst = Ok n' ∧ cells n' L ks (overwrite cs b (take m (drop a C))) ∧ same_kind dst n'.
Proof.
  intros Hs Hd Ha Hb Hf.
  apply (for_node_cells f L (λ j, (ks, overwrite cs b (take j (drop a C)))) a0 m dst); cbn [fst snd].
  - intros j n Hj Hn. rewrite Hf by done. destruct (lookup_lt_is_Some_2 C (a + j)) as [c Hc]; [lia|].
    destruct (copy_child_ok src Ls K C (a + j) c n L ks _ (b + j) Hs Hc Hn) as (n' & E & Hn' & Hsk).
    { rewrite length_overwrite; [lia|]. rewrite length_take, length_drop. lia. }
    exists n'. split_and!; [done| |done]. rewrite overwrite_step in Hn'; [done|by rewrite lookup_drop|lia].
  - by rewrite take_0, overwrite_nil.
Qed.

(** A loop that copies keys and children side by side. *)
Lemma copy_cells_loop src Ls K C dst L ks cs a b a' b' m f :
  cells src Ls K C → cells dst L ks cs → (a + m ≤ length K)%nat → (b + m ≤ length ks)%nat →
  (a' + m ≤ length C)%nat → (b' + m ≤ length cs)%nat →
  (∀ n j, (j < m)%nat → f n (a + j)%nat =
    (n ← copy_key src (a + j) n (b + j); copy_child src (a' + j) n (b' + j))) →
  ∃ n', for_node (seq a m) f dst = Ok n' ∧
    cells n' L (overwrite ks b (take m (drop a K))) (overwrite cs b' (take m (drop a' C))) ∧ same_kind dst n'.
Proof.
  intros Hs Hd Ha Hb Ha' Hb' Hf. pose proof (cells_length Hd) as [Hl _].
  apply (for_node_cells f L (λ j, (overwrite ks b (take j (drop a K)), overwrite cs b' (take j (drop a' C)))) a m dst);
    cbn [fst snd].
  - intros j n Hj Hn. rewrite Hf by done. pose proof (cells_length Hn) as [Hl' _].
    rewrite length_overwrite in Hl' by (rewrite length_take, length_drop; lia).
    destruct (lookup_lt_is_Some_2 K (a + j)) as [k Hk]; [lia|].
    destruct (lookup_lt_is_Some_2 C (a' + j)) as [c Hc]; [lia|].
    destruct (copy_key_ok src Ls K C (a + j) k n L _ _ (b + j) Hs Hk Hn) as (n1 & E1 & Hn1 & Hs1); [lia|].
    rewrite E1. mred.
    destruct (copy_child_ok src Ls K C (a' + j) c n1 L _ _ (b' + j) Hs Hc Hn1) as (n2 & E2 & Hn2 & Hs2); [lia|].
    exists n2. split_and!; [done| |by etrans].
    rewrite !overwrite_step in Hn2; [done|by rewrite lookup_drop|lia|by rewrite lookup_drop|lia].
  - by rewrite !take_0, !overwrite_nil.
Qed.

(** ** Promotion *)
(** Columns built left to right: [X], the new cells [mid], then [Y]. *)
Lemma build_column {A} (X mid Y : list A) z r i j :
  i = length X → j = (length X + length mid)%nat →
  overwrite (overwrite (overwrite (replicate (length X + length mid + length Y + r) z) 0 X) i mid) j Y
    = X ++ mid ++ Y ++ replicate r z.
Proof.
  intros -> ->. rewrite !replicate_add, <- !app_assoc.
  rewrite overwrite_start, drop_app_len by (by rewrite length_replicate).
  rewrite (overwrite_app X (replicate (length mid) z)) by (rewrite ?length_replicate; done).
  rewrite (app_assoc X mid). rewrite (overwrite_app (X ++ mid) (replicate (length Y) z));
    [by rewrite <- app_assoc|by rewrite length_app|by rewrite length_replicate].
Qed.

Lemma insert_overwrite {A} (l : list A) i x :
  (i < length l)%nat → <[i:=x]> l = overwrite l i [x].
Proof.
  intros Hi. unfold overwrite. cbn [length]. rewrite insert_take_drop by done.
  by rewrite Nat.add_1_r.
Qed.

Lemma insert_overwrite2 {A} (l : list A) i x y :
  (i + 1 < length l)%nat → <[(i + 1)%nat:=y]> (<[i:=x]> l) = overwrite l i [x; y].
Proof.
  intros Hi. rewrite (insert_overwrite l) by lia.
  by apply (overwrite_step l [x; y] i 1 y).
Qed.

Lemma promoted_node_ok old L ks cs ci med l r :
  inode old L ks cs → (ci ≤ length ks)%nat → (length ks ≤ MAX_INTERNAL_KEYS)%nat →
  sortable_wf med → in_width 64 l → in_width 64 r →
  ∃ n, promoted_node old ci med l r = Ok n ∧
    inode n L (take ci ks ++ med :: drop ci ks) (take ci cs ++ l :: r :: drop (S ci) cs).
Proof.
  rewrite MAX_INTERNAL_KEYS_eq. intros (z & Ho & Hlen) Hci Hmax Hmed Hl Hr. unfold promoted_node.
  rewrite (cells_nkeys Ho). mred. rewrite Hlen. replace (S (length ks) - 1)%nat with (length ks) by lia.
  destruct (new_inner L (generation old) (length ks + 1)) as (n0 & n1 & E0 & E1 & H1 & _);
    [apply Ho|rewrite <- (ce_level _ _ _ _ Ho); apply Ho|apply Ho|lia|].
  rewrite (ce_level _ _ _ _ Ho), E0. mred. rewrite E1. mred.
  destruct (copy_cells_loop old L _ cs n1 L _ _ 0 0 0 0 ci
    (λ n i, n ← copy_key old i n i; copy_child old i n i) Ho H1) as (n2 & E2 & H2 & _);
    [rewrite ?length_app, ?length_replicate; cbn [length]; lia..|done|].
  rewrite E2. mred. rewrite !drop_0 in H2.
  destruct (cells_set_key n2 L _ _ ci med H2) as (n3 & E3 & H3 & _);
    [rewrite length_overwrite, length_replicate by (rewrite length_take, length_replicate; lia); lia|done|].
  rewrite E3. mred.
  destruct (cells_set_child n3 L _ _ ci l H3) as (n4 & E4 & H4 & _);
    [rewrite length_overwrite, length_replicate by (rewrite length_take, length_replicate; lia); lia|done|].
  rewrite E4. mred.
  destruct (cells_set_child n4 L _ _ (ci + 1) r H4) as (n5 & E5 & H5 & _);
    [rewrite length_insert, length_overwrite, length_replicate by (rewrite length_take, length_replicate; lia); lia|done|].
  rewrite E5. mred.
  destruct (copy_cells_loop old L _ cs n5 L _ _ ci (ci + 1) (ci + 1) (ci + 2) (length ks - ci)
    (λ n i, n ← copy_key old i n (i + 1); copy_child old (i + 1) n (i + 2)) Ho H5) as (n6 & E6 & H6 & _).
  1-4: rewrite ?length_insert, ?length_overwrite, ?length_app, ?length_replicate
      by (rewrite length_take, length_replicate; lia); cbn [length]; lia.
  { intros n j _. by replace (ci + j + 1)%nat with (ci + 1 + j)%nat by lia;
      replace (ci + j + 2)%nat with (ci + 2 + j)%nat by lia. }
  rewrite E6. exists n6. split; [done|].
  assert (take ci (ks ++ [z]) = take ci ks) as Ht1 by (by rewrite take_app_le by lia).
  assert (take (length ks - ci) (drop ci (ks ++ [z])) = drop ci ks) as Hd1.
  { rewrite drop_app_le by lia. rewrite take_app_len; [done|]. by rewrite length_drop. }
  assert (take (length ks - ci) (drop (ci + 1) cs) = drop (S ci) cs) as Hd2.
  { rewrite Nat.add_1_r. apply take_ge. rewrite length_drop. lia. }
  rewrite Ht1, Hd1, Hd2 in H6.
  rewrite insert_overwrite2 in H6 by (rewrite length_overwrite, length_replicate by (rewrite length_take, length_replicate; lia); lia).
  rewrite insert_overwrite in H6 by (rewrite length_overwrite, length_replicate by (rewrite length_take, length_replicate; lia); lia).
  exists zero_key. split.
  - rewrite <- app_assoc. cbn [app].
    replace (S (length ks + 1)) with (length (take ci ks) + length [med] + length (drop ci ks) + 1)%nat in H6 at 1
      by (rewrite length_take, length_drop; cbn [length]; lia).
    rewrite build_column in H6 by (rewrite length_take; cbn [length]; lia).
    replace (S (length ks + 1)) with (length (take ci cs) + length [l; r] + length (drop (S ci) cs) + 0)%nat in H6
      by (rewrite length_take, length_drop; cbn [length]; lia).
    rewrite build_column in H6 by (rewrite length_take; cbn [length]; lia).
    cbn [app replicate] in H6. by rewrite app_nil_r in H6.
  - rewrite !length_app, !length_take. cbn [length]. rewrite !length_drop. lia.
Qed.

(** ** The parts of a split *)
Lemma inode_left n L ks cs mid :
  inode n L ks cs → (mid < length ks)%nat →
  ∃ n', set_nkeys mid n = Ok n' ∧ inode n' L (take mid ks) (take (S mid) cs).
Proof.
  intros (z & Hn & Hl) Hm. destruct (cells_set_nkeys n L _ cs mid Hn) as (n' & E & Hn' & _); [lia|].
  exists n'. split; [done|]. destruct (lookup_lt_is_Some_2 ks mid Hm) as [k Hk]. exists k.
  rewrite take_app_le, (take_S_r _ _ _ Hk) in Hn' by lia. split; [done|]. rewrite !length_take. lia.
Qed.

Lemma inode_right n L ks cs mid :
  inode n L ks cs → (mid < length ks)%nat →
  let m := (length ks - mid - 1)%nat in
  ∃ n0 n1 n2 n3, new_node_on_heap L = Ok n0 ∧ set_nkeys m (set_generation (generation n) n0) = Ok n1 ∧
    for_node (seq (mid + 1) (length ks - (mid + 1))) (λ r i, copy_key n i r (i - mid - 1)) n1 = Ok n2 ∧
    for_node (seq 0 (S m)) (λ r i, copy_child n (mid + 1 + i) r i) n2 = Ok n3 ∧
    inode n3 L (drop (S mid) ks) (drop (S mid) cs).
Proof.
  intros (z & Hn & Hl) Hm m. pose proof (cells_length Hn) as [Hl1 Hl2].
  destruct (new_inner L (generation n) m) as (n0 & n1 & E0 & E1 & H1 & _);
    [apply Hn|rewrite <- (ce_level _ _ _ _ Hn); apply Hn|apply Hn|lia|].
  destruct (copy_keys_loop n L _ cs n1 L _ _ (mid + 1) 0 (length ks - (mid + 1))
    (λ r i, copy_key n i r (i - mid - 1)) Hn H1) as (n2 & E2 & H2 & _);
    [rewrite ?length_app, ?length_replicate; cbn [length]; lia..| |].
  { intros r j Hj. f_equal. lia. }
  destruct (copy_children_loop n L _ cs n2 L _ _ 0 (mid + 1) 0 (S m)
    (λ r i, copy_child n (mid + 1 + i) r i) Hn H2) as (n3 & E3 & H3 & _);
    [rewrite ?length_replicate; lia..|done|].
  exists n0, n1, n2, n3. split_and!; [done|done|done|done|].
  exists zero_key. split; [|rewrite !length_drop; lia].
  rewrite !Nat.add_1_r in H3. rewrite !overwrite_start in H3.
  rewrite (drop_app_le ks) in H3 by lia.
  rewrite (take_app_len (drop (S mid) ks)) in H3 by (rewrite length_drop; lia).
  rewrite (take_ge (drop (S mid) cs)) in H3 by (rewrite length_drop; lia).
  rewrite !drop_replicate, !length_drop in H3.
  replace (S m - (length ks - S mid))%nat with 1%nat in H3 by lia.
  replace (S m - (length cs - S mid))%nat with 0%nat in H3 by lia.
  cbn [replicate] in H3. by rewrite app_nil_r in H3.
Qed.

(** A new root over one separator, before and after its children are set. *)
Lemma new_root_ok L g med :
  0 < L → in_width 8 L → in_width 64 g → sortable_wf med →
  ∃ n0 n1 n2, new_node_on_heap L = Ok n0 ∧ set_nkeys 1 (set_generation g n0) = Ok n1 ∧
    entry_mut 0 (set_key med) n1 = Ok n2 ∧ inode n2 L [med] [0; 0].
Proof.
  intros HL Hw Hg Hm. destruct (new_inner L g 1 HL Hw Hg) as (n0 & n1 & E0 & E1 & H1 & _); [lia|].
  destruct (cells_set_key n1 L _ _ 0 med H1) as (n2 & E2 & H2 & _); [cbn; lia|done|].
  exists n0, n1, n2. split_and!; [done|done|done|]. by exists zero_key.
Qed.

Lemma inode_set_child n L ks cs i c :
  inode n L ks cs → (i < length cs)%nat → in_width 64 c →
  ∃ n', set_child_block i c n = Ok n' ∧ inode n' L ks (<[i:=c]> cs).
Proof.
  intros (z & Hn & Hl) Hi Hc. destruct (cells_set_child n L _ cs i c Hn Hi Hc) as (n' & E & Hn' & _).
  exists n'. split; [done|]. exists z. split; [done|]. by rewrite length_insert.
Qed.

Lemma inode_key n L ks cs i k :
  inode n L ks cs → ks !! i = Some k → (e ← entry n i; key_bytes e) = Ok k ∧ sortable_wf k.
Proof.
  intros (z & Hn & Hl) Hi. apply (cells_key Hn). rewrite lookup_app_l; [done|]. by eapply lookup_lt_Some.
Qed.

Lemma inode_child n L ks cs i c :
  inode n L ks cs → cs !! i = Some c → child_block n i = Ok c ∧ in_width 64 c.
Proof. intros (z & Hn & Hl). apply (cells_child Hn). Qed.

Lemma inode_nkeys n L ks cs : inode n L ks cs → nkeys n = Ok (length ks).
Proof. intros (z & Hn & Hl). rewrite (cells_nkeys Hn), Hl. f_equal. lia. Qed.

Lemma inode_level n L ks cs : inode n L ks cs → level n = L ∧ 0 < L < 256.
Proof.
  intros (z & Hn & _). pose proof (hwf_level _ (ce_header _ _ _ _ Hn)) as Hw.
  pose proof (ce_level _ _ _ _ Hn) as Hl. unfold level in Hl. unfold in_width in Hw.
  split; [done|]. split; [apply Hn|]. lia.
Qed.

Lemma median_of_ok n L med l r : inode n L [med] [l; r] → median_of n = Ok (med, l, r).
Proof.
  intros Hn. unfold median_of. destruct (inode_key n L _ _ 0 med Hn eq_refl) as [Hk _].
  apply outcome_bind_Ok_inv in Hk as (e & He & Hk). rewrite He. mred. rewrite Hk. mred.
  rewrite (proj1 (inode_child _ _ _ _ 0 l Hn eq_refl)). mred.
  by rewrite (proj1 (inode_child _ _ _ _ 1 r Hn eq_refl)).
Qed.

(** ** Stamping for the device keeps what a node represents *)
Section stamp.
Context `{!Crc32} `{!Crc32Range}.

Lemma cells_node_wf n L ks cs : cells n L ks cs → node_wf n.
Proof. intros []. destruct ce_rep0 as (b & Hr & _). split; [done|apply Hr]. Qed.

Lemma inode_node_wf n L ks cs : inode n L ks cs → node_wf n.
Proof. intros (z & Hn & _). by eapply cells_node_wf. Qed.

Lemma leaf_node_wf n bs q : leaf_ok n bs q → node_wf n.
Proof. intros Hn. split; [apply Hn|]. apply (rep_len _ bs), Hn. Qed.

Lemma inode_sound n L ks cs : inode n L ks cs → node_sound n.
Proof. intros Hn. split; [by eapply inode_node_wf|]. destruct Hn as (z & Hn & _). apply Hn. Qed.
Lemma leaf_sound n bs q : leaf_ok n bs q → node_sound n.
Proof. intros Hn. split; [by eapply leaf_node_wf|apply Hn]. Qed.

Lemma stamp_rep n bs : node_rep n bs → node_rep (stamp_node n) bs.
Proof. intros []. by split. Qed.

Lemma inode_stamp n L ks cs : inode n L ks cs → inode (stamp_node n) L ks cs.
Proof.
  intros (z & Hn & Hl). exists z. split; [|done]. pose proof (cells_node_wf _ _ _ _ Hn) as Hw.
  destruct Hn. split; [done|done|done|by apply (stamp_node_wf n)|].
  destruct ce_rep0 as (b & Hr & ?). exists b. split; [by apply stamp_rep|done].
Qed.

Lemma leaf_stamp n bs q : leaf_ok n bs q → leaf_ok (stamp_node n) bs q.
Proof.
  intros Hn. pose proof (leaf_node_wf _ _ _ Hn) as Hw. destruct Hn.
  split; [done|done|by apply (stamp_node_wf n)|by apply stamp_rep|done|done|done].
Qed.
End stamp.

(** ** Child pointers as a whole *)
Lemma mapM_seq {E A} (f : nat → outcome E A) (l : list A) a :
  (∀ i x, l !! i = Some x → f (a + i)%nat = Ok x) → mapM f (seq a (length l)) = Ok l.
Proof.
  revert a. induction l as [|x l IH]; intros a Hf; [done|]. cbn [length seq mapM].
  rewrite <- (Nat.add_0_r a) at 1. rewrite (Hf 0%nat x) by done. mred. rewrite (IH (S a)); [done|].
  intros i y Hy. rewrite Nat.add_succ_comm. by apply Hf.
Qed.

Lemma inode_children n L ks cs : inode n L ks cs → children n = Ok cs.
Proof.
  intros Hn. unfold children. rewrite (inode_nkeys _ _ _ _ Hn). mred. pose proof Hn as (_ & _ & Hl). rewrite <- Hl.
  apply mapM_seq. intros i c Hi. by apply (inode_child n L ks cs).
Qed.
