(* ===== verification/Tree.v ===== *)
(** * Tree: the abstract tree behind a root block.

    [tree] names the blocks, separators and leaf runs of a B-tree; [tree_ok] says
    that a store holds it, level by level, with every key inside the bounds its
    separators promise; [content] is the map it stands for. *)
From Stdlib Require Import Strings.Byte.
From stdpp Require Import base list numbers gmap sorting.
From S2P Require Import Prelude Device BlockBtree NodeRep Merge Storage StoreSpec Heap Btree Leaf Internal.
#[local] Open Scope rfs_scope.
#[local] Open Scope Z_scope.

#[warnings="-register-all"]
Inductive tree : Type :=
  | TLeaf (nr : Z) (bs : list bset)
  | TNode (nr : Z) (ks : list (list byte)) (ch : list tree).

Definition t_nr (t : tree) : Z := match t with TLeaf nr _ | TNode nr _ _ => nr end.

Fixpoint blocks (t : tree) : list Z :=
  match t with
  | TLeaf nr _ => [nr]
  | TNode nr _ ch => nr :: concat (map blocks ch)
  end.

(** Pick the child that covers [k]. *)
Section choose.
Context {A B : Type} (f : A → option B) (k : list byte).
Fixpoint choose (ks : list (list byte)) (ch : list A) {struct ch} : option B :=
  match ch with
  | [] => None
  | c :: ch =>
      match ks with
      | [] => f c
      | k0 :: ks => if bytes_ltb k k0 then f c else choose ks ch
      end
  end.
End choose.

Fixpoint content (t : tree) (k : list byte) : option DiskEntry :=
  match t with
  | TLeaf _ bs => view bs k
  | TNode _ ks ch => choose (λ c, content c k) k ks ch
  end.

Lemma choose_route {A B} (f : A → option B) k ks ch :
  length ch = S (length ks) → choose f k ks ch = ch !! route k ks ≫= f.
Proof.
  revert ch. induction ks as [|k0 ks IH]; intros [|c ch] Hl; try done; cbn [length choose route] in *.
  destruct (bytes_ltb k k0); [done|]. cbn [lookup list_lookup]. apply IH. lia.
Qed.

Lemma choose_app {A B} (f : A → option B) x ks1 k ks2 ch1 ch2 :
  length ch1 = S (length ks1) → sorted_seps (ks1 ++ k :: ks2) →
  choose f x (ks1 ++ k :: ks2) (ch1 ++ ch2) =
    if bytes_ltb x k then choose f x ks1 ch1 else choose f x ks2 ch2.
Proof.
  revert ch1. induction ks1 as [|k1 ks1 IH]; intros [|c ch1] Hl Hs; try done; cbn [length app choose] in *.
  - injection Hl as Hl. apply nil_length_inv in Hl as ->. done.
  - injection Hl as Hl. apply StronglySorted_inv in Hs as [Hs Hf]. rewrite IH by done.
    destruct (bytes_ltb x k1) eqn:E; [|done]. rewrite (proj2 (bytes_ltb_true x k)); [done|].
    apply bytes_ltb_true in E. rewrite Forall_app, Forall_cons in Hf. eapply bytes_lt_trans; [exact E|apply Hf].
Qed.

(** ** Bounds *)
Abbreviation bound := (option (list byte)).
Definition above (lo : bound) (k : list byte) : Prop := match lo with Some l => ¬ k ≺ l | None => True end.
Definition below (k : list byte) (hi : bound) : Prop := match hi with Some u => k ≺ u | None => True end.
Definition within (lo hi : bound) (k : list byte) : Prop := above lo k ∧ below k hi.
Definition bound_lt (lo hi : bound) : Prop :=
  match lo, hi with Some l, Some u => l ≺ u | _, _ => True end.

(** Children between their separators, from [lo] to [hi]. *)
Fixpoint forest {A} (R : bound → bound → A → Prop) (lo : bound) (ks : list (list byte)) (hi : bound)
    (ch : list A) : Prop :=
  match ch with
  | [] => False
  | c :: ch =>
      match ks with
      | [] => ch = [] ∧ R lo hi c
      | k :: ks => R lo (Some k) c ∧ forest R (Some k) ks hi ch
      end
  end.

Lemma forest_length {A} (R : bound → bound → A → Prop) lo ks hi ch :
  forest R lo ks hi ch → length ch = S (length ks).
Proof.
  revert lo ch. induction ks as [|k ks IH]; intros lo [|c ch]; cbn [forest length]; try done.
  - by intros [-> _].
  - intros [_ H]. f_equal. by eapply IH.
Qed.

Lemma forest_mono {A} (R R' : bound → bound → A → Prop) lo ks hi ch :
  (∀ l u c, c ∈ ch → R l u c → R' l u c) → forest R lo ks hi ch → forest R' lo ks hi ch.
Proof.
  revert lo ch. induction ks as [|k ks IH]; intros lo [|c ch] HR; cbn [forest]; try done.
  - intros [-> H]. split; [done|]. apply HR; [by left|done].
  - intros [H1 H2]. split; [apply HR; [by left|done]|]. apply IH; [|done]. intros l u x Hx. apply HR. by right.
Qed.

(** Splitting a forest at a separator. *)
Lemma forest_app {A} (R : bound → bound → A → Prop) lo ks1 k ks2 hi ch1 ch2 :
  length ch1 = S (length ks1) →
  forest R lo (ks1 ++ k :: ks2) hi (ch1 ++ ch2) ↔
    forest R lo ks1 (Some k) ch1 ∧ forest R (Some k) ks2 hi ch2.
Proof.
  revert lo ch1. induction ks1 as [|k1 ks1 IH]; intros lo [|c ch1] Hl; try done; cbn [length app forest] in *.
  - injection Hl as Hl. apply nil_length_inv in Hl as ->. cbn [app]. tauto.
  - injection Hl as Hl. rewrite IH by done. tauto.
Qed.

(** Focusing on the child that covers [k]. *)
Record focus {A} (lo : bound) (ks : list (list byte)) (hi : bound) (ch : list A) (k : list byte)
    (ks1 ks2 : list (list byte)) (ch1 : list A) (c : A) (ch2 : list A) (lo' hi' : bound) : Prop := {
  fo_ks : ks = ks1 ++ ks2;
  fo_ch : ch = ch1 ++ c :: ch2;
  fo_len1 : length ks1 = length ch1;
  fo_len2 : length ks2 = length ch2;
  fo_route : route k ks = length ch1;
  fo_range : within lo' hi' k;
  fo_child (R : bound → bound → A → Prop) : forest R lo ks hi ch → R lo' hi' c;
  fo_one (R R' : bound → bound → A → Prop) c' :
    forest R lo ks hi ch → (∀ l u x, x ∈ ch1 ++ ch2 → R l u x → R' l u x) → R' lo' hi' c' →
    forest R' lo ks hi (ch1 ++ c' :: ch2);
  fo_two (R R' : bound → bound → A → Prop) med l r :
    forest R lo ks hi ch → (∀ l u x, x ∈ ch1 ++ ch2 → R l u x → R' l u x) →
    R' lo' (Some med) l → R' (Some med) hi' r →
    forest R' lo (ks1 ++ med :: ks2) hi (ch1 ++ l :: r :: ch2);
}.

Arguments fo_ks {_ _ _ _ _ _ _ _ _ _ _ _ _} _.
Arguments fo_ch {_ _ _ _ _ _ _ _ _ _ _ _ _} _.
Arguments fo_len1 {_ _ _ _ _ _ _ _ _ _ _ _ _} _.
Arguments fo_len2 {_ _ _ _ _ _ _ _ _ _ _ _ _} _.
Arguments fo_route {_ _ _ _ _ _ _ _ _ _ _ _ _} _.
Arguments fo_range {_ _ _ _ _ _ _ _ _ _ _ _ _} _.
Arguments fo_child {_ _ _ _ _ _ _ _ _ _ _ _ _} _ R _.
Arguments fo_one {_ _ _ _ _ _ _ _ _ _ _ _ _} _ R R' c' _ _ _.
Arguments fo_two {_ _ _ _ _ _ _ _ _ _ _ _ _} _ R R' med l r _ _ _ _.

Lemma forest_focus {A} lo ks hi (ch : list A) k :
  length ch = S (length ks) → within lo hi k →
  ∃ ks1 ks2 ch1 c ch2 lo' hi', focus lo ks hi ch k ks1 ks2 ch1 c ch2 lo' hi'.
Proof.
  revert lo ch. induction ks as [|k0 ks IH]; intros lo [|c ch] Hl Hk; try done; cbn [length] in Hl.
  - injection Hl as Hl. apply nil_length_inv in Hl as ->. exists [], [], [], c, [], lo, hi.
    split; try done; cbn [app forest]; tauto.
  - injection Hl as Hl. destruct (bytes_ltb k k0) eqn:E.
    + exists [], (k0 :: ks), [], c, ch, lo, (Some k0). split; try done; cbn [app].
      * cbn [route]. by rewrite E.
      * split; [apply Hk|]. by apply bytes_ltb_true.
      * by intros R [H _].
      * intros R R' c' [H1 H2] HR Hc. split; [done|]. by eapply forest_mono.
      * intros R R' med l r [H1 H2] HR Hl' Hr. do 2 (split; [done|]). by eapply forest_mono.
    + destruct (IH (Some k0) ch Hl) as (ks1 & ks2 & ch1 & c' & ch2 & lo' & hi' & Hf).
      { split; [|apply Hk]. by apply bytes_ltb_false. }
      destruct Hf. exists (k0 :: ks1), ks2, (c :: ch1), c', ch2, lo', hi'.
      split; try done; cbn [app length].
      * by rewrite fo_ks0.
      * by rewrite fo_ch0.
      * by rewrite fo_len3.
      * cbn [route]. by rewrite E, fo_route0.
      * intros R [_ H]. by apply fo_child0.
      * intros R R' x [H1 H2] HR Hx. split; [apply HR; [by left|done]|].
        eapply fo_one0; [done| |done]. intros l u y Hy. apply HR. by right.
      * intros R R' med l r [H1 H2] HR Hx Hy. split; [apply HR; [by left|done]|].
        eapply fo_two0; [done| |done|done]. intros l' u' y Hy'. apply HR. by right.
Qed.

Lemma bound_lt_trans lo k hi : bound_lt lo (Some k) → bound_lt (Some k) hi → bound_lt lo hi.
Proof. destruct lo, hi; cbn; try done. apply bytes_lt_trans. Qed.

(** Non-empty ranges make the separators strictly increasing and keep them
    strictly inside the bounds. *)
Lemma forest_sorted {A} (R : bound → bound → A → Prop) lo ks hi ch :
  (∀ l u c, R l u c → bound_lt l u) → forest R lo ks hi ch →
  sorted_seps ks ∧ bound_lt lo hi ∧ Forall (λ k, bound_lt lo (Some k) ∧ bound_lt (Some k) hi) ks.
Proof.
  intros HR. revert lo ch. induction ks as [|k ks IH]; intros lo [|c ch]; cbn [forest]; try done.
  { intros [_ Hc]. split_and!; [constructor|by eapply HR|constructor]. }
  intros [H1 H2]. pose proof (HR _ _ _ H1) as Hlo. apply IH in H2 as (Hs & Hhi & Hf).
  split_and!; [|by eapply bound_lt_trans|].
  - constructor; [done|]. eapply Forall_impl; [exact Hf|]. by intros x [? _].
  - constructor; [done|]. eapply Forall_impl; [exact Hf|]. intros x [Hx1 Hx2]. split; [|done].
    by eapply bound_lt_trans.
Qed.

(** ** Point updates of a map *)
Definition updated (key : list byte) (e : option DiskEntry) (m m' : list byte → option DiskEntry) : Prop :=
  ∀ k, m' k = if decide (k = key) then e else m k.

Section focused.
Context {lo hi : bound} {ks : list (list byte)} {ch : list tree} {key : list byte}.
Context {ks1 ks2 : list (list byte)} {ch1 ch2 : list tree} {c : tree} {lo' hi' : bound}.
Context (Hf : focus lo ks hi ch key ks1 ks2 ch1 c ch2 lo' hi').

Lemma focus_length : length ch = S (length ks).
Proof using Hf. destruct Hf. subst. rewrite !length_app. cbn [length]. lia. Qed.

Lemma content_one nr nr' c' e :
  updated key e (content c) (content c') →
  updated key e (content (TNode nr ks ch)) (content (TNode nr' ks (ch1 ++ c' :: ch2))).
Proof using Hf.
  intros Hu k. pose proof focus_length as Hl. cbn [content].
  rewrite !choose_route by (rewrite ?(fo_ch Hf) in *; rewrite ?length_app in *; cbn [length] in *; lia).
  destruct (decide (route k ks = length ch1)) as [Hr|Hr].
  - rewrite Hr, (fo_ch Hf), !list_lookup_middle by done. apply Hu.
  - rewrite decide_False by (intros ->; by rewrite (fo_route Hf) in Hr).
    f_equal. rewrite (fo_ch Hf).
    destruct (decide (route k ks < length ch1)%nat).
    + by rewrite !lookup_app_l by done.
    + rewrite !lookup_app_r by lia. destruct (route k ks - length ch1)%nat eqn:E; [lia|done].
Qed.

Lemma route_two med x :
  sorted_seps (ks1 ++ med :: ks2) →
  route x (ks1 ++ med :: ks2) =
    if decide (route x ks = length ch1) then (if bytes_ltb x med then length ch1 else S (length ch1))
    else if decide (route x ks < length ch1)%nat then route x ks else S (route x ks).
Proof using Hf.
  rewrite (fo_ks Hf), <- (fo_len1 Hf). clear Hf.
  induction ks1 as [|k1 ks1' IH]; cbn [app route length]; intros Hs.
  - destruct (bytes_ltb x med) eqn:E.
    + rewrite decide_True; [done|]. apply bytes_ltb_true in E.
      apply StronglySorted_inv in Hs as [_ Hs]. destruct ks2 as [|k2 ks2']; [done|]. cbn [route].
      apply Forall_cons_1 in Hs as [Hm _]. by rewrite (proj2 (bytes_ltb_true _ _)) by (by eapply bytes_lt_trans).
    + destruct (decide (route x ks2 = 0%nat)) as [->|]; [done|]. by rewrite decide_False by lia.
  - destruct (bytes_ltb x k1); [by rewrite decide_False, decide_True by lia|].
    apply StronglySorted_inv in Hs as [Hs _]. rewrite IH by done.
    repeat case_decide; try lia. by destruct (bytes_ltb x med).
Qed.

Lemma content_two nr nr' med l r e :
  sorted_seps (ks1 ++ med :: ks2) →
  updated key e (content c) (λ x, if bytes_ltb x med then content l x else content r x) →
  updated key e (content (TNode nr ks ch)) (content (TNode nr' (ks1 ++ med :: ks2) (ch1 ++ l :: r :: ch2))).
Proof using Hf.
  intros Hs Hu k. pose proof focus_length as Hl. cbn [content].
  pose proof (fo_len1 Hf). pose proof (fo_len2 Hf).
  rewrite (choose_route _ k (ks1 ++ med :: ks2)) by (rewrite !length_app; cbn [length]; lia).
  rewrite choose_route by done. rewrite (route_two med k Hs).
  destruct (decide (route k ks = length ch1)) as [Hr|Hr].
  - rewrite Hr, (fo_ch Hf), (list_lookup_middle ch1 ch2 c) by done.
    cbn [mbind option_bind]. rewrite <- (Hu k). destruct (bytes_ltb k med).
    + by rewrite list_lookup_middle.
    + rewrite lookup_app_r by lia. by replace (S (length ch1) - length ch1)%nat with 1%nat by lia.
  - rewrite (decide_False (P := k = key)) by (intros ->; by rewrite (fo_route Hf) in Hr).
    f_equal. rewrite (fo_ch Hf). case_decide.
    + by rewrite !lookup_app_l by done.
    + rewrite !lookup_app_r by lia. replace (S (route k ks) - length ch1)%nat with (S (route k ks - length ch1)) by lia.
      destruct (route k ks - length ch1)%nat eqn:E; [lia|done].
Qed.
End focused.

(** ** Trees in a store *)
Section tree_ok.
Context {D : Type} `{!BlockDevice D} `{!BlockDeviceLaws D} `{!BlockDeviceTotal D} `{!Crc32} `{!Crc32Range}.
Implicit Types s : BlockStore D.

Fixpoint tree_ok (h : nat) s (q : Z) (lo hi : bound) (t : tree) : Prop :=
  bound_lt lo hi ∧
  match h, t with
  | O, TLeaf nr bs =>
      (∃ n, loads s nr n ∧ leaf_ok n bs q) ∧ ∀ k e, view bs k = Some e → within lo hi k
  | S h, TNode nr ks ch =>
      (∃ n, loads s nr n ∧ inode n (Z.of_nat (S h)) ks (t_nr <$> ch)) ∧
      (1 ≤ length ks ≤ MAX_INTERNAL_KEYS)%nat ∧ forest (tree_ok h s q) lo ks hi ch
  | _, _ => False
  end.

(** The blocks of a tree are distinct and in use. *)
Definition owned s (t : tree) : Prop := NoDup (blocks t) ∧ Forall (held s) (blocks t).

Lemma tree_ok_bounds h s q lo hi t : tree_ok h s q lo hi t → bound_lt lo hi.
Proof. destruct h, t; cbn [tree_ok]; tauto. Qed.

Lemma node_seps_sorted h s q lo hi nr ks ch :
  tree_ok (S h) s q lo hi (TNode nr ks ch) →
  sorted_seps ks ∧ Forall (λ k, bound_lt lo (Some k) ∧ bound_lt (Some k) hi) ks.
Proof.
  intros (_ & _ & _ & Hf). apply forest_sorted in Hf as (? & _ & ?); [done|]. apply tree_ok_bounds.
Qed.

Lemma blocks_child t ch : t ∈ ch → blocks t ⊆ concat (map blocks ch).
Proof.
  intros Ht k Hk. apply list_elem_of_In, in_concat. exists (blocks t).
  split; apply list_elem_of_In; [|done]. by apply list_elem_of_fmap_2.
Qed.

Lemma t_nr_blocks t : t_nr t ∈ blocks t.
Proof. destruct t; cbn; by left. Qed.

(** A store that keeps the nodes of a tree keeps the tree. *)
Lemma tree_ok_frame h s s' q q' lo hi t :
  (∀ k n, k ∈ blocks t → loads s k n → loads s' k n) → q ≤ q' →
  tree_ok h s q lo hi t → tree_ok h s' q' lo hi t.
Proof.
  revert lo hi t. induction h as [|h IH]; intros lo hi [nr bs|nr ks ch] Hl Hq; cbn [tree_ok blocks] in *; try tauto.
  - intros (? & (n & Hn & Hok) & ?). split; [done|]. split; [|done]. exists n.
    split; [apply Hl; [by left|done]|by eapply leaf_ok_weaken].
  - intros (? & (n & Hn & Hok) & Hk & Hf). split; [done|]. split_and!; [|apply Hk|apply Hk|].
    + exists n. split; [|done]. apply Hl; [by left|done].
    + eapply forest_mono; [|exact Hf]. intros l u c Hc. apply IH; [|done]. intros k x Hk'.
      apply Hl. right. by apply (blocks_child c).
Qed.

Lemma tree_ok_evolves W V h s s' q q' lo hi t :
  evolves2 W V s s' → Forall (held s) (blocks t) → (∀ k, k ∈ blocks t → ¬ W k) → q ≤ q' →
  tree_ok h s q lo hi t → tree_ok h s' q' lo hi t.
Proof.
  intros [] Hh HW Hq. apply tree_ok_frame; [|done]. intros k n Hk. rewrite Forall_forall in Hh. auto.
Qed.

Lemma tree_ok_quiet h s s' q lo hi t :
  evolves nowhere s s' → Forall (held s) (blocks t) → tree_ok h s q lo hi t → tree_ok h s' q lo hi t.
Proof. intros Hev Hh. eapply tree_ok_evolves; [exact Hev|done|by intros k _ []|lia]. Qed.

Lemma owned_evolves W V s s' t : evolves2 W V s s' → owned s t → owned s' t.
Proof. intros [] [? Hh]. split; [done|]. eapply Forall_impl; [exact Hh|]. auto. Qed.

(** *** What a checkpoint may skip *)
Inductive subtree (x : tree) : tree → Prop :=
  | subtree_refl : subtree x x
  | subtree_child c nr ks ch : c ∈ ch → subtree x c → subtree x (TNode nr ks ch).

(** Below a node that is not cached, nothing is dirty. *)
Definition paths s (t : tree) : Prop := ∀ x k, subtree x t → ¬ cached s (t_nr x) → k ∈ blocks x → calm s k.

Lemma subtree_blocks x t : subtree x t → blocks x ⊆ blocks t.
Proof.
  induction 1 as [|c nr ks ch Hc _ IH]; [done|]. intros k Hk. cbn [blocks]. right. by apply (blocks_child c), IH.
Qed.

Lemma paths_leaf s nr bs : paths s (TLeaf nr bs).
Proof.
  intros x k Hx Hc Hk. inversion Hx; subst x. cbn in Hk. apply list_elem_of_singleton in Hk as ->.
  intros c Hcc. destruct Hc. by exists c.
Qed.
Lemma paths_node s nr ks ch : cached s nr → Forall (paths s) ch → paths s (TNode nr ks ch).
Proof.
  intros Hn Hch x k Hx Hc Hk. inversion Hx as [|c ? ? ? Hin Hsub]; subst; [done|]. rewrite Forall_forall in Hch. by eapply Hch.
Qed.
Lemma paths_child s nr ks ch c : paths s (TNode nr ks ch) → c ∈ ch → paths s c.
Proof. intros Hp Hc x k Hx. apply Hp. by econstructor. Qed.

Lemma paths_evolves W V s s' t :
  evolves2 W V s s' → Forall (held s) (blocks t) → (∀ k, k ∈ blocks t → ¬ W k) → paths s t → paths s' t.
Proof.
  intros [] Hh HW Hp x k Hx Hc Hk. rewrite Forall_forall in Hh. pose proof (subtree_blocks x t Hx k Hk) as Hkt.
  apply ev_calm; [by apply Hh|by apply HW|]. apply (Hp x); [done| |done]. intros Hcs. by apply Hc, ev_cached.
Qed.
Lemma paths_quiet s s' t : evolves nowhere s s' → Forall (held s) (blocks t) → paths s t → paths s' t.
Proof. intros Hev Hh. eapply paths_evolves; [exact Hev|done|by intros k _ []]. Qed.

(** Every node has at least two children, so a tree of height [h] has [2 ^ h]
    blocks, and block numbers below [2 ^ 52] bound its height. *)
Lemma blocks_height h s q lo hi t : tree_ok h s q lo hi t → 2 ^ Z.of_nat h ≤ Z.of_nat (length (blocks t)).
Proof.
  revert lo hi t. induction h as [|h IH]; intros lo hi [nr bs|nr ks ch]; cbn [tree_ok blocks length]; try tauto.
  { intros _. change (2 ^ Z.of_nat 0) with 1. lia. }
  intros (_ & _ & Hk & Hf). destruct ks as [|k [|k2 ks]]; [cbn in Hk; lia| |];
    destruct ch as [|c1 [|c2 ch]]; cbn [forest] in Hf; try tauto.
  - destruct Hf as (H1 & -> & H2). apply IH in H1, H2. cbn [map concat]. rewrite !length_app.
    rewrite Nat2Z.inj_succ, Z.pow_succ_r by lia. lia.
  - destruct Hf as (H1 & H2 & _). apply IH in H1, H2. cbn [map concat]. rewrite !length_app.
    rewrite Nat2Z.inj_succ, Z.pow_succ_r by lia. lia.
Qed.

Lemma blocks_bound s m (l : list Z) :
  room s m → NoDup l → Forall (held s) l → Z.of_nat (length l) ≤ 2 ^ 52.
Proof.
  intros Hr Hd Hh. apply NoDup_range_length; [done|done|]. eapply Forall_impl; [exact Hh|]. intros k. by apply (held_block_ok s m).
Qed.

Lemma height_bound h s q lo hi t m : tree_ok h s q lo hi t → owned s t → room s m → (h ≤ 52)%nat.
Proof.
  intros Ht [Hd Hh] Hr. pose proof (blocks_height h s q lo hi t Ht). pose proof (blocks_bound s m _ Hr Hd Hh).
  assert (2 ^ Z.of_nat h ≤ 2 ^ 52) as Hp by lia. apply Z.pow_le_mono_r_iff in Hp; lia.
Qed.
End tree_ok.
