(* ===== verification/TreeRead.v ===== *)
(** * TreeRead: lookups and range scans answer from the abstract content. *)
From Stdlib Require Import Strings.Byte.
From stdpp Require Import base list numbers gmap sorting.
From S2P Require Import Prelude Device BlockBtree NodeRep Merge Storage StoreSpec Heap Btree Leaf Internal Tree.
#[local] Open Scope rfs_scope.
#[local] Open Scope Z_scope.

(** ** Scans, on lists of children *)

(** [start <= k < stop]. *)
Definition scanned (start stop k : list byte) : Prop := ¬ k ≺ start ∧ k ≺ stop.
#[export] Instance scanned_dec start stop k : Decision (scanned start stop k).
Proof. unfold scanned. apply _. Defined.

(** [es] lists the entries of map [m] in the scanned range, in key order. *)
Definition lists (m : list byte → option DiskEntry) (start stop : list byte) (es : list DiskEntry) : Prop :=
  keys_sorted es ∧ ∀ k, assoc k es = if decide (scanned start stop k) then m k else None.

(** The children left to visit, each with the separator to its right. *)
Fixpoint plan_of (ks : list (list byte)) (cs : list Z) : list (Z * option (list byte)) :=
  match cs with
  | [] => []
  | c :: cs => (c, head ks) :: plan_of (tail ks) cs
  end.

Lemma scan_cells n L ks cs m i :
  inode n L ks cs → (i + m = S (length ks))%nat →
  mapM (M := outcome error) (λ i,
    sep ← (if (i <? length ks)%nat then e ← entry n i; k ← key_bytes e; Ok (Some k) else Ok None);
    c ← child_block n i; Ok (c, sep)) (seq i m) = Ok (plan_of (drop i ks) (drop i cs)).
Proof.
  intros Hn. assert (length cs = S (length ks)) as Hl by (by destruct Hn as (z & _ & ?)).
  revert i. induction m as [|m IH]; intros i Hi.
  { rewrite (drop_ge cs) by lia. done. }
  destruct (lookup_lt_is_Some_2 cs i) as [c Hc]; [lia|]. rewrite (drop_S cs c i Hc).
  cbn [seq mapM plan_of]. rewrite (proj1 (inode_child n L ks cs i c Hn Hc)).
  destruct (Nat.ltb_spec i (length ks)) as [Hlt|Hge].
  - destruct (lookup_lt_is_Some_2 ks i Hlt) as [k Hk]. rewrite (drop_S ks k i Hk). cbn [head tail].
    destruct (inode_key n L ks cs i k Hn Hk) as [Hkb _]. apply outcome_bind_Ok_inv in Hkb as (e & He & Hke).
    rewrite He. mred. rewrite Hke. mred. by rewrite IH by lia.
  - mred. rewrite IH by lia. mred. by rewrite !(drop_ge ks) by lia.
Qed.

Lemma scan_plan_ok n L ks cs start :
  inode n L ks cs → sorted_seps ks →
  scan_plan start n = Ok (plan_of (drop (route start ks) ks) (drop (route start ks) cs)).
Proof.
  intros Hn Hs. unfold scan_plan. destruct (inode_search n L ks cs start Hn Hs) as (r & E & Hr).
  rewrite E. mred. rewrite (inode_nkeys n L ks cs Hn). mred. rewrite Hr.
  pose proof (route_le start ks) as Hle.
  destruct (Nat.leb_spec (length ks + 1) (route start ks)); [lia|].
  apply (scan_cells n L); [done|lia].
Qed.

Lemma choose_drop {A B} (f : A → option B) k ks ch start :
  length ch = S (length ks) → ¬ k ≺ start →
  choose f k ks ch = choose f k (drop (route start ks) ks) (drop (route start ks) ch).
Proof.
  intros Hl Hk. revert ch Hl. induction ks as [|k0 ks IH]; intros [|c ch] Hl; try done; cbn [length] in Hl.
  cbn [route]. destruct (bytes_ltb start k0) eqn:E; [done|]. cbn [drop choose].
  apply bytes_ltb_false in E. rewrite (proj2 (bytes_ltb_false k k0)); [apply IH; lia|].
  intros Hlt. apply E. apply bytes_not_lt in Hk as [->|Hk]; [done|by eapply bytes_lt_trans].
Qed.

Lemma forest_drop {A} (R : bound → bound → A → Prop) lo ks hi ch i :
  forest R lo ks hi ch → (i ≤ length ks)%nat → ∃ lo', forest R lo' (drop i ks) hi (drop i ch).
Proof.
  revert lo ks ch. induction i as [|i IH]; intros lo ks ch Hf Hi; [eauto|].
  destruct ks as [|k ks]; [cbn in Hi; lia|]. destruct ch as [|c ch]; [done|]. destruct Hf as [_ Hf].
  cbn [drop length] in *. apply (IH (Some k)); [done|lia].
Qed.

Lemma forest_content_range (R : bound → bound → tree → Prop) lo ks hi ch k e :
  (∀ l u c x y, R l u c → content c x = Some y → within l u x) →
  (∀ l u c, R l u c → bound_lt l u) →
  forest R lo ks hi ch → choose (λ c, content c k) k ks ch = Some e → within lo hi k.
Proof.
  intros HR HB. revert lo ch. induction ks as [|k0 ks IH]; intros lo [|c ch] Hf Hc; try done.
  - destruct Hf as [_ Hf]. by eapply HR.
  - destruct Hf as [H1 H2]. cbn [choose] in Hc. destruct (bytes_ltb k k0) eqn:E.
    + destruct (HR _ _ _ _ _ H1 Hc) as [Ha _]. split; [done|].
      apply forest_sorted in H2 as (_ & Hb & _); [|done]. apply bytes_ltb_true in E.
      destruct hi; [|done]. by eapply bytes_lt_trans.
    + destruct (IH _ _ H2 Hc) as [Ha Hb]. split; [|done]. destruct lo as [l|]; [|done].
      intros Hlt. apply Ha. eapply bytes_lt_trans; [exact Hlt|]. by apply HB in H1.
Qed.

(** Entries of one child followed by those of the children to its right. *)
Definition listing (m : list byte → option DiskEntry) (es : list DiskEntry) : Prop := keys_sorted es ∧ ∀ k, assoc k es = m k.
Lemma listing_elem m es e : listing m es → e ∈ es → m (key_of e) = Some e.
Proof. intros [Hs Ha] [i He]%list_elem_of_lookup. rewrite <- Ha. apply assoc_Some; eauto. Qed.
Lemma listing_app k0 m1 m2 es1 es2 :
  listing m1 es1 → listing m2 es2 → (∀ k e, m1 k = Some e → k ≺ k0) → (∀ k e, m2 k = Some e → ¬ k ≺ k0) →
  listing (λ k, if bytes_ltb k k0 then m1 k else m2 k) (es1 ++ es2).
Proof.
  intros L1 L2 B1 B2. pose proof L1 as [S1 A1]. pose proof L2 as [S2 A2]. split.
  - apply keys_sorted_app. split_and!; [done|done|]. intros x y Hx Hy.
    pose proof (B1 _ _ (listing_elem _ _ _ L1 Hx)) as Hx'. pose proof (B2 _ _ (listing_elem _ _ _ L2 Hy)) as Hy'.
    apply bytes_not_lt in Hy' as [->|Hy']; [done|by eapply bytes_lt_trans].
  - intros k. rewrite assoc_app, A1, A2. destruct (bytes_ltb k k0) eqn:E.
    + destruct (m1 k) eqn:E1; [done|]. destruct (m2 k) eqn:E2; [|done].
      exfalso. eapply B2; [exact E2|]. by apply bytes_ltb_true.
    + destruct (m1 k) eqn:E1; [|done]. apply B1 in E1. by apply bytes_ltb_false in E.
Qed.
Lemma lists_cons k0 m1 m2 start stop es1 es2 :
  lists m1 start stop es1 → lists m2 start stop es2 →
  (∀ k e, m1 k = Some e → k ≺ k0) → (∀ k e, m2 k = Some e → ¬ k ≺ k0) →
  lists (λ k, if bytes_ltb k k0 then m1 k else m2 k) start stop (es1 ++ es2).
Proof.
  intros L1 L2 B1 B2. destruct (listing_app k0 _ _ _ _ L1 L2) as [Hs Ha].
  - intros k e. case_decide; [apply B1|done].
  - intros k e. case_decide; [apply B2|done].
  - split; [done|]. intros k. rewrite Ha. repeat case_decide; by destruct (bytes_ltb k k0).
Qed.

Section reads.
Context {D : Type} `{!BlockDevice D} `{!BlockDeviceLaws D} `{!BlockDeviceTotal D} `{!Crc32} `{!Crc32Range}.
Implicit Types s : BlockStore D.

Lemma tree_ok_content_range h s q lo hi t k e :
  tree_ok h s q lo hi t → content t k = Some e → within lo hi k.
Proof.
  revert lo hi t k e. induction h as [|h IH]; intros lo hi [nr bs|nr ks ch] k e; cbn [tree_ok content]; try tauto.
  - intros (_ & _ & Hr) Hk. by eapply Hr.
  - intros (_ & _ & _ & Hf). eapply forest_content_range; [|apply tree_ok_bounds|exact Hf].
    intros l u c x y. apply IH.
Qed.

Lemma same_heap_tree h s s' q lo hi t : same_heap s s' → tree_ok h s q lo hi t → tree_ok h s' q lo hi t.
Proof. intros Hs. apply tree_ok_frame; [|lia]. intros k n _. by apply Hs. Qed.

(** [find_raw] descends to the leaf that covers the key. *)
Lemma find_raw_ok h s q lo hi t fuel key :
  tree_ok h s q lo hi t → (h < fuel)%nat →
  ∃ s', find_raw fuel (t_nr t) key s = (Ok (row_of <$> content t key), s') ∧ same_heap s s'.
Proof.
  revert s lo hi t fuel. induction h as [|h IH]; intros s lo hi t [|fuel] Ht Hfuel; try lia; cbn [find_raw].
  - destruct t as [nr bs|]; cbn [tree_ok] in Ht; [|tauto]. destruct Ht as (_ & (n & Hn & Hok) & _).
    destruct (with_node_loads s nr n (find_step key) Hn) as (s' & E & Hs). exists s'.
    unfold mbind, M_bind. cbn [t_nr]. rewrite E, (find_step_leaf n bs q key Hok). done.
  - destruct t as [|nr ks ch]; [by destruct Ht|]. pose proof (node_seps_sorted _ _ _ _ _ _ _ _ Ht) as [Hs _].
    destruct Ht as (_ & (n & Hn & Hok) & _ & Hf). pose proof (forest_length _ _ _ _ _ Hf) as Hl.
    destruct (inode_descend n _ _ _ key Hok Hs) as (c & Hc & Hd).
    apply list_lookup_fmap_Some in Hc as (t' & -> & Ht').
    destruct (with_node_loads s nr n (find_step key) Hn) as (s1 & E1 & Hs1).
    assert (find_step key n = Ok (StepDescend (t_nr t'))) as Estep.
    { unfold find_step, descend in *. destruct (inode_level _ _ _ _ Hok) as [Hlv Hpos].
      rewrite Hlv. destruct (Z.eqb_spec (Z.of_nat (S h)) 0); [lia|].
      apply outcome_bind_Ok_inv in Hd as (r & Hr & Hd). rewrite Hr. mred.
      apply outcome_bind_Ok_inv in Hd as (x & Hx & Hd). injection Hd as Hd1 Hd2. subst. by rewrite Hx. }
    assert (∃ l u, tree_ok h s q l u t') as (l & u & Ht2).
    { clear -Hf Ht'. revert lo ch Hf Ht'. induction ks as [|k0 ks IH]; intros lo [|c ch] Hf Ht'; try done.
      - destruct Hf as [-> Hf]. cbn in Ht'. injection Ht' as ->. eauto.
      - destruct Hf as [H1 H2]. cbn [route] in Ht'. destruct (bytes_ltb key k0).
        + injection Ht' as ->. eauto.
        + by apply (IH (Some k0) ch). }
    destruct (IH s1 l u t' fuel) as (s2 & E2 & Hs2); [by eapply same_heap_tree|lia|].
    exists s2. split; [|by etrans]. unfold mbind, M_bind. cbn [t_nr]. rewrite E1, Estep, E2.
    cbn [content]. by rewrite choose_route, Ht' by done.
Qed.

(** Run the node read at the head of the goal on the node it loads. *)
Ltac read_node Hn s' E Hs :=
  match goal with
  | |- context [with_node ?nr ?f] => destruct (with_node_loads _ nr _ f Hn) as (s' & E & Hs)
  end.

(** The rows a scan produces from an entry, for every leaf of a tree. *)
Definition row_reads {A} (row : BtreeNodeRaw → nat → nat → DiskEntry → res (option A)) (g : DiskEntry → option A) : Prop :=
  ∀ n bs i j b e, node_rep n bs → bs !! i = Some b → b_entries b !! j = Some e → row n i j e = Ok (g e).

Lemma lists_ext m1 m2 start stop es : (∀ k, scanned start stop k → m1 k = m2 k) → lists m1 start stop es → lists m2 start stop es.
Proof. intros Hm [? Ha]. split; [done|]. intros k. rewrite Ha. case_decide; auto. Qed.

Definition walks {A} (g : DiskEntry → option A) start stop q h (walk : Z → list A → M (BlockStore D) error (list A)) : Prop :=
  ∀ s lo hi t results, tree_ok h s q lo hi t →
    ∃ es s', walk (t_nr t) results s = (Ok (results ++ omap g es), s') ∧ same_heap s s' ∧
      lists (content t) start stop es.

Lemma scan_children_ok {A} (g : DiskEntry → option A) start stop q h walk s lo ks hi ch results :
  walks g start stop q h walk → forest (tree_ok h s q) lo ks hi ch →
  ∃ es s', scan_children walk stop (plan_of ks (t_nr <$> ch)) results s = (Ok (results ++ omap g es), s') ∧
    same_heap s s' ∧ lists (λ k, choose (λ c, content c k) k ks ch) start stop es.
Proof.
  intros Hw. revert s lo ks results. induction ch as [|c ch IH]; intros s lo ks results Hf; [by destruct ks|].
  destruct ks as [|k0 ks]; cbn [fmap list_fmap plan_of scan_children head tail].
  - destruct Hf as [-> Hc]. destruct (Hw s lo hi c results Hc) as (es & s1 & E & Hs & Hl).
    exists es, s1. rewrite (M_bind_ok _ _ _ _ _ E). done.
  - destruct Hf as [Hc Hf]. destruct (Hw s lo (Some k0) c results Hc) as (es & s1 & E & Hs & Hl).
    rewrite (M_bind_ok _ _ _ _ _ E). cbn [choose]. destruct (bytes_ltb k0 stop) eqn:Estop; cbn [negb].
    + destruct (IH s1 (Some k0) ks (results ++ omap g es)) as (es2 & s2 & E2 & Hs2 & Hl2).
      { eapply forest_mono; [|exact Hf]. intros l u x _. by apply same_heap_tree. }
      exists (es ++ es2), s2. rewrite E2, omap_app, <- app_assoc. split_and!; [done|by etrans|].
      apply lists_cons; [done|done| |].
      * intros k e Hk. by apply (tree_ok_content_range _ _ _ _ _ _ _ _ Hc) in Hk as [_ ?].
      * intros k e Hk. apply (forest_content_range _ _ _ _ _ _ _ (tree_ok_content_range h s q)
          (tree_ok_bounds h s q) Hf) in Hk as [? _]. done.
    + exists es, s1. split_and!; [done|done|]. apply bytes_ltb_false in Estop.
      eapply lists_ext; [|exact Hl]. intros k [_ Hk].
      rewrite (proj2 (bytes_ltb_true k k0)); [done|].
      apply bytes_not_lt in Estop as [->|?]; [done|by eapply bytes_lt_trans].
Qed.

Lemma scan_walk_ok {A} row (g : DiskEntry → option A) start stop q h fuel :
  row_reads row g → (h < fuel)%nat → walks g start stop q h (scan_walk row fuel start stop).
Proof.
  intros Hrow. revert fuel. induction h as [|h IH]; intros [|fuel] Hfuel s lo hi t results Ht; try lia;
    cbn [scan_walk].
  - destruct t as [nr bs|]; cbn [tree_ok] in Ht; [|tauto]. destruct Ht as (_ & (n & Hn & Hok) & _).
    destruct (scan_leaf_ok row g start stop n bs q results Hok) as (es0 & Hs0 & Ha0 & Eleaf).
    { intros i j b e. apply Hrow, Hok. }
    cbn [t_nr]. read_node Hn s' E Hs. cbn beta in E.
    rewrite (lo_level _ _ _ Hok) in E. cbn [Z.eqb] in E. rewrite Eleaf in E.
    exists (filter (λ e, bytes_ltb (key_of e) start = false ∧ bytes_ltb (key_of e) stop = true) es0), s'.
    split_and!; [|done|].
    + rewrite (M_bind_ok _ _ _ _ _ E). by rewrite scan_rows_spec.
    + split; [by apply keys_sorted_filter|]. intros k. rewrite assoc_filter by done. cbn [content].
      rewrite Ha0. destruct (view bs k) as [e|] eqn:Hv; [|by case_decide].
      apply view_key in Hv as [<- _].
      assert (bytes_ltb (key_of e) start = false ∧ bytes_ltb (key_of e) stop = true ↔ scanned start stop (key_of e)) as Hiff
        by (unfold scanned; by rewrite <- bytes_ltb_false, <- bytes_ltb_true).
      destruct (decide (scanned start stop (key_of e))); [rewrite decide_True by tauto|rewrite decide_False by tauto]; done.
  - destruct t as [|nr ks ch]; [by destruct Ht|]. pose proof (node_seps_sorted _ _ _ _ _ _ _ _ Ht) as [Hss _].
    destruct Ht as (_ & (n & Hn & Hok) & _ & Hf). pose proof (forest_length _ _ _ _ _ Hf) as Hl.
    cbn [t_nr]. read_node Hn s1 E1 Hs1. cbn beta in E1.
    destruct (inode_level _ _ _ _ Hok) as [Hlv Hpos]. rewrite Hlv in E1.
    destruct (Z.eqb_spec (Z.of_nat (S h)) 0); [lia|].
    rewrite (scan_plan_ok n _ _ _ start Hok Hss) in E1. rewrite (M_bind_ok _ _ _ _ _ E1). rewrite <- fmap_drop.
    destruct (forest_drop _ _ _ _ _ (route start ks) Hf (route_le start ks)) as (lo' & Hf').
    destruct (scan_children_ok g start stop q h (scan_walk row fuel start stop) s1 lo'
      (drop (route start ks) ks) hi (drop (route start ks) ch) results) as (es & s2 & E2 & Hs2 & Hl2).
    { apply IH. lia. }
    { eapply forest_mono; [|exact Hf']. intros l u x _. by apply same_heap_tree. }
    exists es, s2. split_and!; [exact E2|by etrans|]. eapply lists_ext; [|exact Hl2].
    intros k [Hk _]. cbn [content]. symmetry. by apply choose_drop.
Qed.
End reads.

(** ** Visibility along an ancestor chain *)

(** What snapshot chain [chain] (youngest first) sees of [logical] in map [m]:
    the first version on the chain decides. *)
Fixpoint visible (m : list byte → option DiskEntry) (logical : list byte) (chain : list Z)
    : option (list byte * Z) :=
  match chain with
  | [] => None
  | s :: chain =>
      match m (versioned logical s) with
      | None => visible m logical chain
      | Some e => match kind_enum e with Live => Some (value_of e, s) | _ => None end
      end
  end.

Abbreviation ascending := (StronglySorted Z.lt).

Definition verdict (e : DiskEntry) : option (list byte * Z) :=
  match kind_enum e with Live => Some (value_of e, snap_of e) | _ => None end.

(** An entry of [logical] at a snapshot of the chain. *)
Definition on_chain (logical : list byte) (C : gset Z) (e : DiskEntry) : Prop :=
  logical_of e = logical ∧ snap_of e ∈ C.

Lemma first_on_chain_ok logical C es :
  (∃ l1 e l2, es = l1 ++ e :: l2 ∧ on_chain logical C e ∧ Forall (λ x, ¬ on_chain logical C x) l1 ∧
     first_on_chain logical C (all_row_of <$> es) = verdict e) ∨
  (Forall (λ x, ¬ on_chain logical C x) es ∧ first_on_chain logical C (all_row_of <$> es) = None).
Proof.
  induction es as [|e es IH]; [by right|]. cbn [fmap list_fmap first_on_chain all_row_of].
  unfold all_row_of at 1.
  destruct (bytes_eqb (logical_of e) logical) eqn:E1; cbn [negb orb].
  - apply bytes_eqb_true in E1. destruct (bool_decide_reflect (snap_of e ∈ C)) as [E2|E2]; cbn [negb].
    + left. exists [], e, es. split_and!; [done|done|constructor|]. unfold verdict. by destruct (kind_enum e).
    + assert (¬ on_chain logical C e) by (intros [_ ?]; done).
      destruct IH as [(l1 & x & l2 & -> & Hx & Hl & Hr)|[Hl Hr]]; [left|right].
      * exists (e :: l1), x, l2. split_and!; [done|done|by constructor|done].
      * split; [by constructor|done].
  - assert (¬ on_chain logical C e) by (intros [? _]; by rewrite (proj2 (bytes_eqb_true _ _)) in E1).
    destruct IH as [(l1 & x & l2 & -> & Hx & Hl & Hr)|[Hl Hr]]; [left|right].
    * exists (e :: l1), x, l2. split_and!; [done|done|by constructor|done].
    * split; [by constructor|done].
Qed.

Lemma visible_none m logical chain :
  (∀ s, s ∈ chain → m (versioned logical s) = None) → visible m logical chain = None.
Proof.
  induction chain as [|s chain IH]; intros Hm; cbn [visible]; [done|]. rewrite Hm by (by left).
  apply IH. intros x Hx. apply Hm. by right.
Qed.

Lemma visible_first m logical chain s e :
  ascending chain → s ∈ chain → m (versioned logical s) = Some e →
  (∀ s', s' ∈ chain → s' < s → m (versioned logical s') = None) →
  visible m logical chain = match kind_enum e with Live => Some (value_of e, s) | _ => None end.
Proof.
  induction 1 as [|s0 chain Hs IH Hf]; intros Hin Hm Hlt; [by apply elem_of_nil in Hin|]. cbn [visible].
  apply elem_of_cons in Hin as [->|Hin]; [by rewrite Hm|].
  rewrite Forall_forall in Hf. rewrite Hlt by (by left || by apply Hf).
  apply IH; [done|done|]. intros s' Hs'. apply Hlt. by right.
Qed.

Lemma versioned_lt logical s s' :
  in_width 32 s → in_width 32 s' → versioned logical s ≺ versioned logical s' ↔ s < s'.
Proof.
  intros Hs Hs'. unfold versioned, bytes_lt. rewrite bytes_cmp_app, bytes_cmp_to_be by done.
  apply Z.compare_lt_iff.
Qed.

(** The range [find_visible] scans holds every version of the key. *)
Lemma versioned_scanned logical s :
  in_width 32 s →
  scanned (logical ++ replicate 4 Byte.x00) (logical ++ replicate 4 Byte.xff ++ [Byte.x00]) (versioned logical s).
Proof.
  intros Hs. unfold scanned, versioned, bytes_lt. rewrite !bytes_cmp_app. split.
  - change (replicate 4 Byte.x00) with (to_be 4 0). rewrite bytes_cmp_to_be by (done || by unfold in_width).
    rewrite Z.compare_lt_iff. unfold in_width in Hs. lia.
  - change (replicate 4 Byte.xff) with (to_be 4 (2 ^ 32 - 1)). rewrite <- (app_nil_r (to_be 4 s)).
    rewrite bytes_cmp_to_be_app by (done || by unfold in_width).
    unfold in_width in Hs. destruct (Z.compare_spec s (2 ^ 32 - 1)); [done|done|lia].
Qed.

Lemma zero_suffix_ok (b : list byte) :
  (length b ≤ MAX_LOGICAL_KEY_SIZE)%nat →
  (buf ← splice (E := error) (replicate MAX_KEY_SIZE Byte.x00) 0 b;
   slice buf 0 (length b + SNAP_ID_BYTES)) = Ok (b ++ replicate 4 Byte.x00).
Proof.
  intros Hl. rewrite splice_start by (rewrite length_replicate; consts; lia). mred.
  rewrite drop_replicate.
  replace (MAX_KEY_SIZE - length b)%nat with (4 + (MAX_LOGICAL_KEY_SIZE - length b))%nat
    by (consts; lia).
  rewrite replicate_add, app_assoc. apply slice_app_0. by rewrite length_app, length_replicate.
Qed.

Lemma sortable_ok key snap :
  (length key ≤ MAX_LOGICAL_KEY_SIZE)%nat → sortable key snap = Ok (versioned key snap).
Proof.
  intros Hl. unfold sortable, sortable_key. rewrite (proj2 (Nat.leb_le _ _)) by done. cbn [assert_that]. mred.
  rewrite splice_start by (rewrite length_replicate; consts; lia). mred.
  rewrite drop_replicate.
  replace (MAX_KEY_SIZE - length key)%nat with (4 + (MAX_LOGICAL_KEY_SIZE - length key))%nat
    by (consts; lia).
  rewrite replicate_add, splice_app by (done || by rewrite length_to_be, length_replicate). mred.
  rewrite app_assoc. apply slice_app_0. unfold versioned; by rewrite length_app, length_to_be.
Qed.

Lemma versioned_wf key snap : (length key ≤ MAX_LOGICAL_KEY_SIZE)%nat → sortable_wf (versioned key snap).
Proof. intros Hl. unfold sortable_wf, versioned. rewrite length_app, length_to_be. consts. lia. Qed.

Lemma all_row_reads : row_reads all_row (λ e, Some (all_row_of e)).
Proof. intros n bs i j b e. apply all_row_ok. Qed.

Lemma omap_Some_fmap {A B} (f : A → B) (l : list A) : omap (λ x, Some (f x)) l = f <$> l.
Proof. induction l as [|x l IH]; [done|]. cbn [omap list_omap fmap list_fmap]. by f_equal. Qed.

Lemma visible_scan m logical chain es :
  lists m (logical ++ replicate 4 Byte.x00) (logical ++ replicate 4 Byte.xff ++ [Byte.x00]) es →
  (∀ k e, m k = Some e → entry_wf e ∧ key_of e = k) → ascending chain → Forall (in_width 32) chain →
  first_on_chain logical (list_to_set chain) (all_row_of <$> es) = visible m logical chain.
Proof.
  intros [Hs Ha] Hm Hc Hw. rewrite Forall_forall in Hw.
  assert (∀ e, e ∈ es → m (key_of e) = Some e) as Hes.
  { intros e [i He]%list_elem_of_lookup. assert (assoc (key_of e) es = Some e) as Hz by (apply assoc_Some; eauto).
    rewrite Ha in Hz. by case_decide. }
  assert (∀ e, e ∈ es → on_chain logical (list_to_set chain) e → key_of e = versioned logical (snap_of e)) as Hkey.
  { intros e He [<- _]. destruct (Hm _ _ (Hes e He)) as [Hwf _]. by apply key_of_split. }
  assert (∀ s e, s ∈ chain → m (versioned logical s) = Some e →
    e ∈ es ∧ on_chain logical (list_to_set chain) e ∧ snap_of e = s) as Hconv.
  { intros s e Hin He. destruct (Hm _ _ He) as [Hwf Hk].
    assert (assoc (versioned logical s) es = Some e) as Hz
      by (rewrite Ha, decide_True; [done|by apply versioned_scanned, Hw]).
    apply assoc_key in Hz as [_ Hz]. rewrite key_of_split in Hk by done.
    apply app_inj_2 in Hk as [Hk1 Hk2]; [|by rewrite !length_to_be].
    assert (snap_of e = s) as Hsnap.
    { apply (f_equal from_be) in Hk2. rewrite !from_to_be_small in Hk2; [done|by apply Hw|].
      unfold snap_of. destruct Hwf. pose proof (from_be_range (take SNAP_ID_BYTES (drop (key_len_nat e) (de_key e)))) as Hr.
      rewrite length_take_le in Hr; [exact Hr|]. rewrite length_drop. unfold key_len_nat. revert ewf_key. consts. lia. }
    split_and!; [done| |done]. split; [done|]. rewrite Hsnap. by apply elem_of_list_to_set. }
  destruct (first_on_chain_ok logical (list_to_set chain) es) as [(l1 & e & l2 & -> & He & Hl1 & ->)|[Hnone ->]].
  - assert (e ∈ l1 ++ e :: l2) as Hin by (apply elem_of_app; right; by left).
    assert (snap_of e ∈ chain) as Hsc by (destruct He as [_ He]; by rewrite elem_of_list_to_set in He).
    symmetry. apply (visible_first _ _ _ (snap_of e) e); [done|done|by rewrite <- Hkey, Hes| ].
    intros s' Hs' Hlt. destruct (m (versioned logical s')) as [e'|] eqn:He'; [|done]. exfalso.
    destruct (Hconv s' e' Hs' He') as (Hin' & Hon & <-).
    apply (versioned_lt logical) in Hlt; [|by apply Hw..]. rewrite <- !Hkey in Hlt by done.
    rewrite Forall_forall in Hl1. apply keys_sorted_app in Hs as (_ & Hs2 & _).
    apply elem_of_app in Hin' as [Hin'|[->|Hin']%elem_of_cons]; [by apply (Hl1 e')|by apply bytes_lt_irrefl in Hlt|].
    apply keys_sorted_cons in Hs2 as [Hf _]. rewrite Forall_forall in Hf. specialize (Hf e' Hin'). cbn in Hf.
    eapply bytes_lt_irrefl, bytes_lt_trans; [exact Hlt|exact Hf].
  - rewrite visible_none; [done|]. intros s Hs'. destruct (m (versioned logical s)) as [e|] eqn:He; [|done].
    destruct (Hconv s e Hs' He) as (Hin & Hon & _). rewrite Forall_forall in Hnone. by apply Hnone in Hin.
Qed.

Section visibility.
Context {D : Type} `{!BlockDevice D} `{!BlockDeviceLaws D} `{!BlockDeviceTotal D} `{!Crc32} `{!Crc32Range}.
Implicit Types s : BlockStore D.

Lemma tree_ok_content_wf h s q lo hi t k e :
  tree_ok h s q lo hi t → content t k = Some e → entry_wf e ∧ key_of e = k.
Proof.
  revert lo hi t. induction h as [|h IH]; intros lo hi [nr bs|nr ks ch]; cbn [tree_ok content]; try tauto.
  - intros (_ & (n & _ & Hok) & _) Hv. split; [by eapply view_wf; [apply Hok|]|]. by apply view_key in Hv as [? _].
  - intros (_ & _ & _ & Hf). revert lo ch Hf.
    induction ks as [|k0 ks IHks]; intros lo [|c ch] Hf; cbn [forest choose] in *; try done.
    + destruct Hf as [_ Hf]. by eapply IH.
    + destruct Hf as [H1 H2]. destruct (bytes_ltb k k0); [by eapply IH|by eapply IHks].
Qed.

Lemma find_visible_with_snap_ok h s q lo hi t logical chain :
  tree_ok h s q lo hi t → (h < TREE_FUEL)%nat → (length logical ≤ MAX_LOGICAL_KEY_SIZE)%nat →
  ascending chain → Forall (in_width 32) chain →
  ∃ s', find_visible_with_snap (t_nr t) logical chain s = (Ok (visible (content t) logical chain), s') ∧
    same_heap s s'.
Proof.
  intros Ht Hh Hl Hc Hw. unfold find_visible_with_snap. rewrite (proj2 (Nat.leb_le _ _)) by done.
  pose proof (zero_suffix_ok logical Hl) as Hz. apply outcome_bind_Ok_inv in Hz as (buf & Hb & Hz).
  unfold lift. cbn [assert_that]. rewrite Hb. unfold mbind at 1 2 3, M_bind at 1 2 3. rewrite Hz.
  destruct (scan_walk_ok all_row _ (logical ++ replicate 4 Byte.x00) (logical ++ replicate 4 Byte.xff ++ [Byte.x00])
    q h TREE_FUEL all_row_reads Hh s lo hi t [] Ht) as (es & s' & E & Hs & Hes).
  exists s'. split; [|done]. rewrite omap_Some_fmap in E.
  rewrite (M_bind_ok _ _ _ _ _ E). cbn [app]. unfold mret, M_ret. do 2 f_equal.
  eapply visible_scan; [done| |done|done]. intros k e. by eapply tree_ok_content_wf.
Qed.
End visibility.
