(* ===== verification/TreeWrite.v ===== *)
(** * TreeWrite: inserting into a tree updates its content at one key.

    [tree_insert] is shown to return, to keep the tree's invariant at the same
    height or one above, and to change the abstract content exactly at the
    written key, in both write modes; in copy-on-write mode no block of the old
    tree changes, so the old root keeps its content. *)
From Stdlib Require Import Strings.Byte.
From stdpp Require Import base list numbers gmap sorting.
From S2P Require Import Prelude Device BlockBtree NodeRep Merge Storage StoreSpec Heap Btree Leaf Internal Tree.
#[local] Open Scope rfs_scope.
#[local] Open Scope Z_scope.

(** ** Splitting a run *)

(** The two halves of a sorted run around the key of entry [mid]. *)
Lemma split_run es mid e :
  keys_sorted es → es !! mid = Some e →
  keys_sorted (take mid es) ∧ keys_sorted (drop mid es) ∧
  (∀ k x, assoc k (take mid es) = Some x → k ≺ key_of e) ∧
  (∀ k x, assoc k (drop mid es) = Some x → ¬ k ≺ key_of e) ∧
  ∀ k, (if bytes_ltb k (key_of e) then assoc k (take mid es) else assoc k (drop mid es)) = assoc k es.
Proof.
  intros Hs He. pose proof Hs as Hs'. rewrite <- (take_drop mid es) in Hs'.
  apply keys_sorted_app in Hs' as (H1 & H2 & Hx). rewrite (drop_S es e mid He) in *.
  assert (∀ k x, assoc k (take mid es) = Some x → k ≺ key_of e) as Hlo.
  { intros k x Hk. apply assoc_key in Hk as [<- Hk]. apply Hx; [done|by left]. }
  assert (∀ k x, assoc k (e :: drop (S mid) es) = Some x → ¬ k ≺ key_of e) as Hhi.
  { intros k x Hk. apply assoc_key in Hk as [<- Hk]. apply bytes_not_lt.
    apply elem_of_cons in Hk as [->|Hk]; [by left|]. right.
    apply keys_sorted_cons in H2 as [Hf _]. rewrite Forall_forall in Hf. by apply Hf. }
  split_and!; [done|done|done|done|]. intros k.
  trans (assoc k (take mid es ++ e :: drop (S mid) es)); [|by rewrite take_drop_middle].
  rewrite assoc_app.
  destruct (bytes_ltb k (key_of e)) eqn:E.
  - destruct (assoc k (take mid es)) eqn:E1; [done|].
    destruct (assoc k (e :: drop (S mid) es)) eqn:E2; [|done].
    apply Hhi in E2. by apply bytes_ltb_true in E.
  - destruct (assoc k (take mid es)) eqn:E1; [|done]. apply Hlo in E1. by apply bytes_ltb_false in E.
Qed.

(** A leaf whose run was replaced by a sorted part of it. *)
Lemma leaf_part n n' b q es :
  leaf_ok n [b] q → same_kind n n' → node_rep n' [unpadded (with_entries es b)] →
  keys_sorted es → es ⊆ b_entries b → leaf_ok n' [unpadded (with_entries es b)] q.
Proof.
  intros [Hlv Hm Hh Hr Hw Hq Hf] Hk Hr' Hs Hsub. split.
  - by rewrite (sk_level _ _ Hk).
  - by rewrite (sk_magic _ _ Hk).
  - by apply Hk.
  - done.
  - by apply runs_wf_single.
  - apply Forall_cons_1 in Hq as [Hq _]. by constructor.
  - apply Forall_cons_1 in Hf as [Hf _]. constructor; [|constructor]. intros e He. apply Hf, Hsub, He.
Qed.

Lemma leaf_run_sorted n b q : leaf_ok n [b] q → keys_sorted (b_entries b).
Proof. intros Hn. destruct (lo_runs _ _ _ Hn) as [Hs _]. by apply Forall_cons_1 in Hs as [Hs _]. Qed.

(** [set_nkeys] on a single-run leaf cuts the run. *)
Lemma leaf_truncate n b q k :
  leaf_ok n [b] q → (k ≤ length (b_entries b))%nat →
  ∃ n', set_nkeys k n = Ok n' ∧ leaf_ok n' [unpadded (with_entries (take k (b_entries b)) b)] q.
Proof.
  intros Hn Hk. destruct (rep_body _ _ (lo_rep _ _ _ Hn)) as [tail Ht].
  rewrite enc_bsets_single in Ht. unfold enc_bset in Ht.
  pose proof (rep_wf_lookup (lo_rep _ _ _ Hn) 0 b eq_refl) as Hwb.
  destruct (set_nkeys_rep n b k (take k (b_entries b))
    (concat (encode_entry <$> drop k (b_entries b)) ++ tail)) as (n' & E & Hr' & Hsk & _).
  - apply Hn.
  - rewrite Ht, <- (take_drop k (b_entries b)) at 1. by rewrite fmap_app, concat_app, <- !app_assoc.
  - apply Forall_take, Hwb.
  - rewrite (lo_level _ _ _ Hn), length_take. cbn. lia.
  - rewrite length_take. pose proof (bwf_len _ Hwb). lia.
  - exists n'. split; [done|]. eapply leaf_part; [done|done|done| |].
    + pose proof (leaf_run_sorted _ _ _ Hn) as Hs. rewrite <- (take_drop k (b_entries b)) in Hs.
      by apply keys_sorted_app in Hs as (? & _ & _).
    + intros e He. rewrite <- (take_drop k (b_entries b)). apply elem_of_app. by left.
Qed.

(** The right half: the tail is copied to the front, then the run is cut. *)
Lemma leaf_right n b q mid :
  leaf_ok n [b] q → (mid ≤ length (b_entries b))%nat →
  ∃ n1 n2, bset_entries_mut 0 (λ es, tail ← slice es mid (length (b_entries b)); splice es 0 tail) n = Ok n1 ∧
    set_nkeys (length (b_entries b) - mid) n1 = Ok n2 ∧
    leaf_ok n2 [unpadded (with_entries (drop mid (b_entries b)) b)] q.
Proof.
  intros Hn Hmid. pose proof (rep_wf_lookup (lo_rep _ _ _ Hn) 0 b eq_refl) as Hwb.
  remember (b_entries b) as es eqn:Ees. set (es' := drop mid es ++ drop (length es - mid) es).
  assert (length es' = length es) as Hl' by (subst es'; rewrite length_app, !length_drop; lia).
  pose proof (bwf_entries _ Hwb) as Hwe. rewrite <- Ees in Hwe. pose proof (bwf_len _ Hwb) as Hwl. rewrite <- Ees in Hwl.
  destruct (bset_entries_mut_rep (lo_rep _ _ _ Hn) 0 b
    (λ es0, tail ← slice es0 mid (length es); splice es0 0 tail) es') as (n1 & E1 & _ & Hr1 & Hk1).
  - done.
  - rewrite <- Ees. unfold slice. rewrite (proj2 (Nat.leb_le _ _)), (proj2 (Nat.leb_le _ _)) by lia.
    cbn [andb]. mred. rewrite take_ge by (rewrite length_drop; lia).
    rewrite splice_start by (rewrite length_drop; lia). by rewrite length_drop.
  - by rewrite Hl', Ees.
  - subst es'. apply Forall_app. split; by apply Forall_drop.
  - exists n1. cbn [insert list_insert] in Hr1.
    destruct (rep_body _ _ Hr1) as [tail Ht]. rewrite enc_bsets_single in Ht. unfold enc_bset in Ht.
    destruct (set_nkeys_rep n1 (with_entries es' b) (length es - mid) (drop mid es)
      (concat (encode_entry <$> drop (length es - mid) es) ++ tail)) as (n2 & E2 & Hr2 & Hk2 & _).
    + done.
    + rewrite Ht. cbn [with_entries b_entries]. subst es'. by rewrite fmap_app, concat_app, <- !app_assoc.
    + by apply Forall_drop.
    + rewrite (sk_level _ _ Hk1), (lo_level _ _ _ Hn), length_drop. done.
    + rewrite length_drop. lia.
    + exists n2. split_and!; [done|done|]. eapply leaf_part; [done|by etrans|done| |].
      * pose proof (leaf_run_sorted _ _ _ Hn) as Hs. rewrite <- Ees, <- (take_drop mid es) in Hs.
        by apply keys_sorted_app in Hs as (_ & ? & _).
      * intros e He. rewrite <- Ees, <- (take_drop mid es). apply elem_of_app. by right.
Qed.

(** Compacting a full leaf leaves enough keys to split: one of its at most four
    runs holds at least eight. *)
Lemma big_run bs :
  (length bs ≤ 4)%nat → (29 ≤ total_entries bs)%nat → ∃ b, b ∈ bs ∧ (8 ≤ length (b_entries b))%nat.
Proof.
  intros Hl Ht. destruct (decide (Exists (λ b, 8 ≤ length (b_entries b))%nat bs)) as [He|He].
  { apply Exists_exists in He as (b & ? & ?). eauto. }
  exfalso. apply not_Exists_Forall in He; [|apply _].
  assert (total_entries bs ≤ 7 * length bs)%nat; [|lia]. clear Ht Hl.
  unfold total_entries. induction He as [|b bs Hb _ IH]; cbn [sum_list_with length]; [lia|].
  assert (¬ (8 ≤ length (b_entries b))%nat) by exact Hb. lia.
Qed.

Lemma view_domain bs b e : b ∈ bs → e ∈ b_entries b → is_Some (view bs (key_of e)).
Proof.
  induction bs as [|b0 bs IH] using rev_ind; [by intros ?%elem_of_nil|].
  rewrite view_app. intros [Hb| ->%list_elem_of_singleton]%elem_of_app He.
  - rewrite view_single. destruct (assoc (key_of e) (b_entries b0)); [eauto|by apply IH].
  - rewrite view_single. destruct (assoc (key_of e) (b_entries b0)) eqn:Ha; [eauto|].
    exfalso. rewrite assoc_None in Ha. apply list_elem_of_lookup in He as [i Hi]. by eapply Ha.
Qed.

Lemma run_fits es0 es :
  keys_sorted es0 → (∀ e, e ∈ es0 → is_Some (assoc (key_of e) es)) → (length es0 ≤ length es)%nat.
Proof.
  intros Hs Hd. rewrite <- (length_fmap key_of es0), <- (length_fmap key_of es).
  apply submseteq_length, NoDup_submseteq.
  - unfold keys_sorted in Hs. induction Hs as [|k ks Hs IH Hf]; [constructor|]. constructor; [|done].
    intros Hin. rewrite Forall_forall in Hf. by apply (bytes_lt_irrefl k), Hf.
  - intros k (e & -> & He)%list_elem_of_fmap. destruct (Hd e He) as [x Hx].
    apply assoc_key in Hx as [<- Hx]. by apply list_elem_of_fmap_2.
Qed.

(** ** Running tree code on a store and a seq counter *)
Section running.
Context {D : Type} `{!BlockDevice D} `{!BlockDeviceLaws D} `{!BlockDeviceTotal D} `{!Crc32} `{!Crc32Range}.
Implicit Types s : BlockStore D.

Lemma on_store_ok {A} (c : M (BlockStore D) error A) s s' q a :
  c s = (Ok a, s') → on_store c (s, q) = (Ok a, (s', q)).
Proof. intros E. unfold on_store, zoom. cbn [fst]. by rewrite E. Qed.

(** What a full leaf compacts to before it is split. *)
Lemma canonical_ok n bs q s :
  leaf_ok n bs q → (MAX_ENTRIES ≤ total_entries bs)%nat → 0 ≤ q < 2 ^ 64 - 1 →
  ∃ n' b q', (if (1 <? bset_count n)%nat then
       q ← get_seq;
       let '(seq, next) := alloc_seq q in
       _ ← set_seq next;
       lift (compact_leaf_in_place seq n)
     else lift (clone_to_heap n)) (s, q) = (Ok n', (s, q')) ∧
    leaf_ok n' [b] q' ∧ q ≤ q' ≤ q + 1 ∧ (∀ k, assoc k (b_entries b) = view bs k) ∧
    (8 ≤ length (b_entries b) ≤ 29)%nat.
Proof.
  rewrite MAX_ENTRIES_eq. intros Hn Ht Hq. pose proof (leaf_total _ _ _ Hn) as Htot.
  pose proof (rep_max _ _ (lo_rep _ _ _ Hn)) as Hmax. rewrite (bset_count_rep (lo_rep _ _ _ Hn)).
  destruct (Nat.ltb_spec 1 (length bs)) as [H1|H1].
  - destruct (compact_leaf_ok n bs q q Hn Hq) as (n' & f & es & E & Hok & Hs & Hv & Hl & _).
    exists n', (run q f es), (q + 1). split_and!; [|done|lia|lia|done| |cbn [run b_entries]; lia].
    + unfold get_seq, gets, set_seq, modify, lift, mbind, M_bind, alloc_seq. cbn [fst snd]. rewrite E.
      unfold u64. rewrite wrap_small by (unfold in_width; lia). done.
    + destruct (big_run bs Hmax Ht) as (b & Hb & Hlb). cbn [run b_entries]. etrans; [exact Hlb|].
      apply run_fits.
      * destruct (lo_runs _ _ _ Hn) as [Hr _]. rewrite Forall_forall in Hr. by apply Hr.
      * intros e He. rewrite Hv. by eapply view_domain.
  - destruct bs as [|b [|b2 bs]]; cbn [length] in H1; [unfold total_entries in Ht; cbn in Ht; lia| |lia].
    exists n, b, q. unfold total_entries in *. cbn [sum_list_with] in *.
    split_and!; [done|done|lia|lia|intros k; by rewrite view_single|lia|lia].
Qed.

Lemma lift_ok {S A} (c : res A) (st : S) a : c = Ok a → lift c st = (Ok a, st).
Proof. by intros ->. Qed.

(** Blocks handed out between [s] and [s']. *)
Definition fresh s s' (l : list Z) : Prop := NoDup l ∧ Forall (λ k, ¬ held s k ∧ held s' k) l.

Lemma fresh_nil s s' : fresh s s' [].
Proof. split; constructor. Qed.

Lemma fresh_snoc W s s1 s2 l k :
  evolves W s s1 → fresh s s1 l → ¬ held s1 k → held s2 k → (∀ x, held s1 x → held s2 x) → fresh s s2 (k :: l).
Proof.
  intros Hev [Hd Hf] Hn Hk Hm. split.
  - constructor; [|done]. intros Hin. rewrite Forall_forall in Hf. by destruct (Hf k Hin).
  - constructor; [split; [|done]; intros Hs; by apply Hn, Hev|].
    eapply Forall_impl; [exact Hf|]. intros x [? ?]. auto.
Qed.

Lemma fresh_mono s s1 s2 l : fresh s s1 l → (∀ x, held s1 x → held s2 x) → fresh s s2 l.
Proof. intros [Hd Hf] Hm. split; [done|]. eapply Forall_impl; [exact Hf|]. intros x [? ?]. auto. Qed.

Lemma fresh_not_held s s' l k : fresh s s' l → k ∈ l → ¬ held s k ∧ held s' k.
Proof. intros [_ Hf] Hk. rewrite Forall_forall in Hf. auto. Qed.

(** A block allocated and written: nothing that was held changes. *)
Lemma alloc_write s n m :
  node_sound n → room s (1 + m) → 0 ≤ m →
  ∃ nr s1 s2, alloc s = (Ok nr, s1) ∧ write_node nr n s1 = (Ok tt, s2) ∧ evolves nowhere s s2 ∧
    room s2 m ∧ ¬ held s nr ∧ held s2 nr ∧ loads s2 nr (stamp_node n) ∧ cached s2 nr ∧ calm s2 nr.
Proof using All.
  intros Hw Hr Hm. destruct (alloc_ev s m Hr Hm) as (nr & s1 & E1 & Hev1 & Hr1 & Hnr & Hh1).
  destruct (write_node_ev s1 nr n m Hw Hh1 Hr1) as (s2 & E2 & Hev2 & Hr2 & Hl2 & Hc2).
  exists nr, s1, s2. split_and!; [done|done| |done|done|by apply Hev2|done|apply Hc2..].
  eapply evolves_trans; [exact Hev1|exact Hev2|by intros k Hk [[]|<-]|].
  intros k Hk [[]|<-]. by apply (fresh_not_fixed s s1 nr (ev_chain _ _ _ _ Hev1)) in Hk.
Qed.
End running.

(** Run the next statement of tree code on the equation [E]. *)
Ltac mstep E :=
  first [ rewrite (M_bind_ok _ _ _ _ _ E)
        | rewrite (M_bind_ok _ _ _ _ _ (lift_ok _ _ _ E))
        | rewrite (M_bind_ok _ _ _ _ _ (on_store_ok _ _ _ _ _ E)) ];
  cbn beta iota.

(** ** Splits *)
Section splits.
Context {D : Type} `{!BlockDevice D} `{!BlockDeviceLaws D} `{!BlockDeviceTotal D} `{!Crc32} `{!Crc32Range}.
Implicit Types s : BlockStore D.

(** The outcome of splitting a full leaf that reads [bs]. *)
Record leaf_halves s q (bs : list bset) (root : BtreeNodeRaw) (rnr bl br : Z) s' q' (med : list byte) (b1 b2 : bset) : Prop := {
  lh_ev : evolves nowhere s s';
  lh_fresh : fresh s s' [rnr; br; bl];
  lh_root : inode root 1 [med] [0; 0];
  lh_left : ∃ n, loads s' bl n ∧ leaf_ok n [b1] q';
  lh_right : ∃ n, loads s' br n ∧ leaf_ok n [b2] q';
  lh_small : (length (b_entries b1) < 29 ∧ length (b_entries b2) < 29)%nat;
  lh_view k : (if bytes_ltb k med then view [b1] k else view [b2] k) = view bs k;
  lh_lo k e : view [b1] k = Some e → k ≺ med;
  lh_hi k e : view [b2] k = Some e → ¬ k ≺ med;
  lh_med : is_Some (view bs med);
  lh_below : ∃ k, is_Some (view bs k) ∧ k ≺ med;
  lh_q : q ≤ q' ≤ q + 1;
}.

Lemma split_leaf_ok n bs q s m :
  leaf_ok n bs q → (MAX_ENTRIES ≤ total_entries bs)%nat → 0 ≤ q < 2 ^ 64 - 1 → room s (3 + m) → 0 ≤ m →
  ∃ root rnr bl br s' q' med b1 b2,
    split_leaf_node n (s, q) = (Ok (root, rnr, bl, br), (s', q')) ∧
    leaf_halves s q bs root rnr bl br s' q' med b1 b2 ∧ room s' m.
Proof using All.
  intros Hn Ht Hq Hr Hm. unfold split_leaf_node.
  destruct (canonical_ok n bs q s Hn Ht Hq) as (n' & b & q' & Ec & Hok & Hq' & Hv & Hlen). mstep Ec.
  pose proof (lo_rep _ _ _ Hok) as Hrep. set (len := length (b_entries b)) in *. set (mid := (len / 2)%nat).
  assert (1 ≤ mid < len ∧ len - mid < 29)%nat as (Hmid & Hrest).
  { subst mid. pose proof (Nat.div_mod_eq len 2). pose proof (Nat.mod_upper_bound len 2). lia. }
  assert (nkeys n' = Ok len) as Enk.
  { rewrite (nkeys_leaf_rep Hrep (lo_level _ _ _ Hok)). unfold total_entries. cbn. f_equal. lia. }
  mstep Enk. fold mid.
  destruct (lookup_lt_is_Some_2 (b_entries b) mid) as [e He]; [lia|].
  assert ((e ← entry n' mid; key_bytes e) = Ok (key_of e)) as Ek.
  { unfold entry. rewrite (entry_at_rep Hrep 0 mid b e eq_refl He). mred. apply key_bytes_ok.
    by eapply (entry_wf_rep Hrep 0). }
  mstep Ek.
  destruct (leaf_truncate n' b q' mid Hok) as (nl & El & Hl); [lia|].
  destruct (leaf_right n' b q' mid Hok) as (n1 & nr & Er1 & Er & Hrt); [lia|].
  destruct (alloc_write s nl (2 + m)) as (bl & s1 & s2 & Ea1 & Ew1 & Hev1 & Hr1 & Hnb1 & Hh1 & Hld1 & Hca1 & _);
    [by eapply leaf_sound|by replace (1 + (2 + m)) with (3 + m) by lia|lia|].
  destruct (alloc_write s2 nr (1 + m)) as (br & s3 & s4 & Ea2 & Ew2 & Hev2 & Hr2 & Hnb2 & Hh2 & Hld2 & Hca2 & _);
    [by eapply leaf_sound|by replace (1 + (1 + m)) with (2 + m) by lia|lia|].
  destruct (alloc_ev s4 m Hr2 Hm) as (rnr & s5 & Ea3 & Hev3 & Hr3 & Hnb3 & Hh3).
  assert (sortable_wf (key_of e)) as Hwk by (apply entry_columns_wf; by eapply (entry_wf_rep Hrep 0)).
  destruct (new_root_ok 1 (generation n') (key_of e)) as (r0 & r1 & r2 & E0 & E1 & E2 & Hroot);
    [lia|by unfold in_width|apply Hok|done|].
  mstep Ea1. mstep El. mstep Ew1. mstep Ea2. mstep Er1. fold len in Er. mstep Er. mstep Ew2. mstep Ea3.
  mstep E0. mstep E1. mstep E2.
  destruct (split_run (b_entries b) mid e (leaf_run_sorted _ _ _ Hok) He) as (_ & _ & Hlo & Hhi & Hsp).
  exists r2, rnr, bl, br, s5, q', (key_of e). do 2 eexists. split; [done|]. split; [|done].
  assert (evolves nowhere s s4) as Hev4 by (by eapply evolves_nowhere).
  split; [by eapply evolves_nowhere| |done| | | | | | | | |done].
  - eapply fresh_snoc; [exact Hev4| |done|done|apply Hev3].
    eapply fresh_snoc; [exact Hev1| |done|done|apply Hev2].
    eapply (fresh_snoc nowhere s s s2 []); [apply evolves_refl|apply fresh_nil|done|done|apply Hev1].
  - eexists. split; [|exact (leaf_stamp _ _ _ Hl)]. apply Hev3; [by apply Hev2|by intros []|].
    by apply Hev2; [|intros []|].
  - eexists. split; [|exact (leaf_stamp _ _ _ Hrt)]. by apply Hev3; [|intros []|].
  - cbn [unpadded with_entries b_entries]. rewrite length_take, length_drop. subst len. lia.
  - intros k. rewrite !view_single. cbn [unpadded with_entries b_entries]. by rewrite Hsp, Hv.
  - intros k x. rewrite view_single. apply Hlo.
  - intros k x. rewrite view_single. apply Hhi.
  - rewrite <- Hv. exists e. apply assoc_Some; [by eapply leaf_run_sorted|eauto].
  - destruct (lookup_lt_is_Some_2 (b_entries b) 0) as [e0 He0]; [lia|]. exists (key_of e0).
    split; [rewrite <- Hv; exists e0; apply assoc_Some; [by eapply leaf_run_sorted|eauto]|].
    eapply (keys_sorted_lookup (b_entries b) 0 mid); [by eapply leaf_run_sorted|lia|done|done].
Qed.

Record inner_halves s L (ks : list (list byte)) (cs : list Z) (root : BtreeNodeRaw) (rnr bl br : Z) s'
    (mid : nat) (med : list byte) : Prop := {
  ih_ev : evolves nowhere s s';
  ih_fresh : fresh s s' [rnr; br; bl];
  ih_med : ks !! mid = Some med ∧ sortable_wf med;
  ih_root : inode root (L + 1) [med] [0; 0];
  ih_left : ∃ n, loads s' bl n ∧ inode n L (take mid ks) (take (S mid) cs);
  ih_right : ∃ n, loads s' br n ∧ inode n L (drop (S mid) ks) (drop (S mid) cs);
  ih_cached : cached s' bl ∧ cached s' br;
}.

Lemma split_internal_ok n L ks cs s m :
  inode n L ks cs → (2 ≤ length ks)%nat → L < 255 → room s (3 + m) → 0 ≤ m →
  ∃ root rnr bl br s' med,
    split_internal_node n s = (Ok (root, rnr, bl, br), s') ∧
    inner_halves s L ks cs root rnr bl br s' (length ks / 2) med ∧ room s' m.
Proof using All.
  intros Hn Hl2 HL Hr Hm. unfold split_internal_node. mstep (inode_nkeys n L ks cs Hn).
  set (mid := (length ks / 2)%nat).
  assert (1 ≤ mid < length ks)%nat as Hmid.
  { subst mid. pose proof (Nat.div_mod_eq (length ks) 2). pose proof (Nat.mod_upper_bound (length ks) 2). lia. }
  destruct (lookup_lt_is_Some_2 ks mid) as [med Hmed]; [lia|].
  destruct (inode_key n L ks cs mid med Hn Hmed) as [Ek Hwk]. mstep Ek.
  destruct (inode_level n L ks cs Hn) as [Hlv HLpos]. rewrite Hlv.
  destruct (inode_left n L ks cs mid Hn) as (nl & El & Hnl); [lia|].
  destruct (inode_right n L ks cs mid Hn) as (n0 & n1 & n2 & nr & E0 & E1 & E2 & E3 & Hnr); [lia|].
  destruct (alloc_write s nl (2 + m)) as (bl & s1 & s2 & Ea1 & Ew1 & Hev1 & Hr1 & Hnb1 & Hh1 & Hld1 & Hca1 & _);
    [by eapply inode_sound|by replace (1 + (2 + m)) with (3 + m) by lia|lia|].
  destruct (alloc_write s2 nr (1 + m)) as (br & s3 & s4 & Ea2 & Ew2 & Hev2 & Hr2 & Hnb2 & Hh2 & Hld2 & Hca2 & _);
    [by eapply inode_sound|by replace (1 + (1 + m)) with (2 + m) by lia|lia|].
  destruct (alloc_ev s4 m Hr2 Hm) as (rnr & s5 & Ea3 & Hev3 & Hr3 & Hnb3 & Hh3).
  assert (u8 (L + 1) = L + 1) as -> by (apply wrap_small; unfold in_width; lia).
  assert (in_width 64 (generation n)) as Hg by (destruct Hn as (z & Hn & _); apply Hn).
  destruct (new_root_ok (L + 1) (generation n) med) as (r0 & r1 & r2 & F0 & F1 & F2 & Hroot);
    [lia|unfold in_width; lia|done|done|].
  mstep Ea1. mstep El. mstep Ew1. mstep Ea2. mstep E0. mstep E1. mstep E2. mstep E3. mstep Ew2. mstep Ea3.
  mstep F0. mstep F1. mstep F2.
  exists r2, rnr, bl, br, s5, med. split; [done|]. split; [|done].
  assert (evolves nowhere s s4) as Hev4 by (by eapply evolves_nowhere).
  split; [by eapply evolves_nowhere| |done|done| | |split; [by apply Hev3, Hev2|by apply Hev3]].
  - eapply fresh_snoc; [exact Hev4| |done|done|apply Hev3].
    eapply fresh_snoc; [exact Hev1| |done|done|apply Hev2].
    eapply (fresh_snoc nowhere s s s2 []); [apply evolves_refl|apply fresh_nil|done|done|apply Hev1].
  - eexists. split; [|exact (inode_stamp _ _ _ _ Hnl)]. apply Hev3; [by apply Hev2|by intros []|].
    by apply Hev2; [|intros []|].
  - eexists. split; [|exact (inode_stamp _ _ _ _ Hnr)]. by apply Hev3; [|intros []|].
Qed.

(** A root over two blocks: its children set and written. *)
Lemma root_children_ok root L med bl br :
  inode root L [med] [0; 0] → in_width 64 bl → in_width 64 br →
  ∃ r1 r2, set_child_block 0 bl root = Ok r1 ∧ set_child_block 1 br r1 = Ok r2 ∧ inode r2 L [med] [bl; br].
Proof.
  intros Hr Hbl Hbr. destruct (inode_set_child root L _ _ 0 bl Hr) as (r1 & E1 & H1); [cbn; lia|done|].
  destruct (inode_set_child r1 L _ _ 1 br H1) as (r2 & E2 & H2); [cbn; lia|done|].
  exists r1, r2. by split_and!.
Qed.

(** Writing a node to a block handed out since [s0]. *)
Lemma write_fresh s0 s nr n m l :
  evolves nowhere s0 s → fresh s0 s l → nr ∈ l → node_sound n → room s m →
  ∃ s', write_node nr n s = (Ok tt, s') ∧ evolves nowhere s0 s' ∧ room s' m ∧ loads s' nr (stamp_node n) ∧
    (∀ k, held s k → held s' k) ∧ (∀ k x, held s k → k ≠ nr → loads s k x → loads s' k x) ∧
    cached s' nr ∧ ∀ k, cached s k → cached s' k.
Proof using All.
  intros Hev Hf Hin Hw Hr. destruct (fresh_not_held _ _ _ _ Hf Hin) as [Hn Hh].
  destruct (write_node_ev s nr n m Hw Hh Hr) as (s' & E & Hev' & Hr' & Hl & Hc & _). exists s'.
  split_and!; [done| |done|done|apply Hev'| |done|apply Hev'].
  - eapply evolves_trans; [exact Hev|exact Hev'|by intros k Hk [[]|<-]|].
    intros k Hk [[]|<-]. by apply (fresh_not_fixed s0 s nr (ev_chain _ _ _ _ Hev)) in Hk.
  - intros k x Hk Hne. apply Hev'; [done|congruence].
Qed.

(** What promotion leaves behind block [nb]: the grown parent, or, when it is
    over full, a new root over its two halves. *)
Inductive promoted s s' L (K : list (list byte)) (C : list Z) (nb : Z) : Prop :=
  | promoted_fit :
      fresh s s' [nb] → (length K ≤ MAX_INTERNAL_KEYS)%nat →
      (∃ n, loads s' nb n ∧ inode n L K C) → cached s' nb → promoted s s' L K C nb
  | promoted_split mid med bl br :
      fresh s s' [nb; br; bl] → (1 ≤ mid < length K - 1)%nat → K !! mid = Some med →
      (∃ n, loads s' nb n ∧ inode n (L + 1) [med] [bl; br]) →
      (∃ n, loads s' bl n ∧ inode n L (take mid K) (take (S mid) C)) →
      (∃ n, loads s' br n ∧ inode n L (drop (S mid) K) (drop (S mid) C)) →
      Forall (cached s') [nb; bl; br] → promoted s s' L K C nb.

Lemma promote_ok old L ks cs ci med l r s m :
  inode old L ks cs → (ci ≤ length ks)%nat → (length ks ≤ MAX_INTERNAL_KEYS)%nat → L < 255 →
  sortable_wf med → in_width 64 l → in_width 64 r → room s (4 + m) → 0 ≤ m →
  ∃ nb s', promote_to_parent old ci med l r s = (Ok nb, s') ∧ evolves nowhere s s' ∧ room s' m ∧
    promoted s s' L (take ci ks ++ med :: drop ci ks) (take ci cs ++ l :: r :: drop (S ci) cs) nb.
Proof using All.
  intros Ho Hci Hlen HL Hmed Hwl Hwr Hr Hm. unfold promote_to_parent.
  destruct (alloc_ev s (3 + m)) as (nb & s1 & Ea & Hev1 & Hr1 & Hnb & Hh); [by replace (1 + (3 + m)) with (4 + m) by lia|lia|].
  mstep Ea. destruct (promoted_node_ok old L ks cs ci med l r Ho Hci Hlen Hmed Hwl Hwr) as (n & En & Hn). mstep En.
  mstep (inode_nkeys _ _ _ _ Hn).
  set (K := take ci ks ++ med :: drop ci ks) in *. set (C := take ci cs ++ l :: r :: drop (S ci) cs) in *.
  assert (length K = S (length ks)) as HlK.
  { subst K. rewrite length_app. cbn [length]. rewrite length_take, length_drop. lia. }
  assert (fresh s s1 [nb]) as Hf1
    by (eapply (fresh_snoc nowhere s s s1 []); [apply evolves_refl|apply fresh_nil|done|done|apply Hev1]).
  destruct (Nat.leb_spec (length K) MAX_INTERNAL_KEYS) as [Hfit|Hbig].
  - destruct (write_fresh s s1 nb n (3 + m) [nb] Hev1 Hf1) as (s2 & E2 & Hev2 & Hr2 & Hl2 & Hm2 & _ & Hc2 & _);
      [by left|by eapply inode_sound|done|].
    mstep E2. exists nb, s2. split_and!; [done|done|eapply room_weaken; [done|lia]|].
    apply promoted_fit; [by eapply fresh_mono|done| |done]. eexists. split; [done|by apply inode_stamp].
  - rewrite MAX_INTERNAL_KEYS_eq in *.
    destruct (split_internal_ok n L K C s1 m Hn) as (root & rnr & bl & br & s2 & med' & E2 & Hih & Hr2); [lia|done|done|done|].
    mstep E2. destruct Hih as [Hev2 Hf2 [Hmid Hwm] Hroot (nl & Hll & Hnl) (nr & Hlr & Hnr) [Hcl Hcr]].
    destruct (fresh_not_held _ _ _ bl Hf2) as [_ Hhl]; [do 2 right; by left|].
    destruct (fresh_not_held _ _ _ br Hf2) as [_ Hhr]; [right; by left|].
    destruct (root_children_ok root (L + 1) med' bl br Hroot) as (r1 & r2 & F1 & F2 & Hroot');
      [by eapply held_width|by eapply held_width|].
    mstep F1. mstep F2.
    destruct (write_fresh s1 s2 rnr r2 m [rnr; br; bl] Hev2 Hf2) as (s3 & E3 & Hev3 & Hr3 & Hl3 & Hm3 & Hk3 & Hc3 & Hck3);
      [by left|by eapply inode_sound|done|].
    mstep E3. exists rnr, s3. split_and!; [done|by eapply evolves_nowhere|done|].
    destruct Hf2 as [Hd Hf2]. apply NoDup_cons in Hd as [Hd1 Hd2].
    apply (promoted_split _ _ _ _ _ _ (length K / 2) med' bl br).
    + assert (fresh s1 s2 [rnr; br; bl]) as Hf by (split; [by constructor|done]).
      apply (fresh_mono s s2 s3); [|done]. split; [by constructor|]. eapply Forall_impl; [exact Hf2|].
      intros x [Hx1 Hx2]. split; [|done]. intros Hx. by apply Hx1, Hev1.
    + pose proof (Nat.div_mod_eq (length K) 2). pose proof (Nat.mod_upper_bound (length K) 2). lia.
    + done.
    + eexists. split; [done|by apply inode_stamp].
    + exists nl. split; [|done]. apply Hk3; [done|intros ->; apply Hd1; right; by left|done].
    + exists nr. split; [|done]. apply Hk3; [done|intros ->; apply Hd1; by left|done].
    + repeat constructor; auto.
Qed.

Lemma cow_child_ok s nr n L ks cs i c m :
  loads s nr n → inode n L ks cs → held s nr → (i < length cs)%nat → in_width 64 c → room s (1 + m) → 0 ≤ m →
  ∃ nb s', cow_child nr i c s = (Ok nb, s') ∧ evolves nowhere s s' ∧ room s' m ∧ fresh s s' [nb] ∧ cached s' nb ∧
    ∃ n', loads s' nb n' ∧ inode n' L ks (<[i:=c]> cs).
Proof using All.
  intros Hl Hn Hh Hi Hc Hr Hm. unfold cow_child.
  destruct (alloc_ev s m Hr Hm) as (nb & s1 & Ea & Hev1 & Hr1 & Hnb & Hh1). mstep Ea.
  destruct (with_node_ev s1 nr n clone_to_heap m) as (s2 & E2 & Hev2 & Hr2 & _); [by apply Hev1; [|intros []|]|done|].
  mstep E2. destruct (inode_set_child n L ks cs i c Hn Hi Hc) as (n' & En & Hn'). mstep En.
  assert (fresh s s2 [nb]) as Hf.
  { apply (fresh_mono s s1 s2); [|apply Hev2].
    eapply (fresh_snoc nowhere s s s1 []); [apply evolves_refl|apply fresh_nil|done|done|apply Hev1]. }
  destruct (write_fresh s s2 nb n' m [nb]) as (s3 & E3 & Hev3 & Hr3 & Hl3 & Hm3 & _ & Hc3 & _);
    [by eapply evolves_nowhere|done|by left|by eapply inode_sound|done|].
  mstep E3. exists nb, s3. split_and!; [done|done|done|by eapply fresh_mono|done|].
  eexists. split; [done|by apply inode_stamp].
Qed.
End splits.

(** ** Insertion *)
Section insertion.
Context {D : Type} `{!BlockDevice D} `{!BlockDeviceLaws D} `{!BlockDeviceTotal D} `{!Crc32} `{!Crc32Range}.
Implicit Types s : BlockStore D.

(** Tree [t], of height [h] and bounds [lo], [hi], became [t'] by a write of
    entry [e] under [key]. *)
Record inserted (mode : WriteMode) s q (h : nat) (lo hi : bound) (t : tree) (key : list byte) (e : DiskEntry)
    s' q' (h' : nat) (t' : tree) : Prop := {
  is_ok : tree_ok h' s' q' lo hi t';
  is_height : h' = h ∨ (h' = S h ∧ ∃ nr med l r, t' = TNode nr [med] [l; r]);
  is_content : updated key (Some e) (content t) (content t');
  is_owned : owned s' t';
  is_blocks k : k ∈ blocks t' → k ∈ blocks t ∨ ¬ held s k;
  is_ev : evolves (λ k, mode = InPlace ∧ k ∈ blocks t) s s';
  is_q : q ≤ q' ≤ q + 2;
  is_paths : Forall (held s) (blocks t) → paths s t → paths s' t';
}.

(** Reads before the write change nothing. *)
Lemma inserted_before mode s0 s q h lo hi t key e s' q' h' t' :
  evolves nowhere s0 s → inserted mode s q h lo hi t key e s' q' h' t' →
  inserted mode s0 q h lo hi t key e s' q' h' t'.
Proof.
  intros Hev []. split; [done|done|done|done| |by eapply evolves_nowhere|done|].
  - intros k Hk. apply is_blocks0 in Hk as [?|Hn]; [by left|right]. intros Hs. by apply Hn, Hev.
  - intros Hh Hp. apply is_paths0; [eapply Forall_impl; [exact Hh|apply Hev]|by eapply paths_quiet].
Qed.

Abbreviation inserter := (Z → list byte → list byte → EntryKind → WriteMode → M (BlockStore D * Z) error Z).

Lemma written_range bs bs' key kind value lo hi :
  written key kind value (view bs) (view bs') → within lo hi key →
  (∀ k e, view bs k = Some e → within lo hi k) → ∀ k e, view bs' k = Some e → within lo hi k.
Proof. intros Hw Hk Hr k e. rewrite (Hw k). case_decide; [by intros _; subst|]. apply Hr. Qed.

(** A leaf with room takes the write without splitting. *)
Lemma insert_leaf_fits (ins : inserter) s q lo hi nr bs key value kind mode m :
  tree_ok 0 s q lo hi (TLeaf nr bs) → held s nr → sortable_wf key → within lo hi key →
  absorbs bs key = true ∨ (total_entries bs < MAX_ENTRIES)%nat →
  0 ≤ q < 2 ^ 64 - 1 → room s (1 + m) → 0 ≤ m →
  ∃ nr' s' q' bs', insert_leaf ins nr key value kind mode (s, q) = (Ok nr', (s', q')) ∧
    inserted mode s q 0 lo hi (TLeaf nr bs) key (leaf_entry key kind value) s' q' 0 (TLeaf nr' bs') ∧
    q' ≤ q + 1 ∧ room s' m.
Proof using All.
  intros (Hb & (n & Hl & Hn) & Hrng) Hh Hwk Hk Hroom Hq Hr Hm. unfold insert_leaf.
  destruct (with_node_ev s nr n (plan_write key) (1 + m) Hl Hr) as (s1 & E1 & Hev1 & Hr1 & _).
  assert (plan_write key n = Ok (PlanInPlace (absorbs bs key))) as Ep.
  { rewrite (plan_write_ok n bs q) by done. destruct (absorbs bs key); [done|].
    destruct Hroom as [|Hroom]; [done|]. by rewrite (proj2 (Nat.leb_gt _ _)) by done. }
  rewrite Ep in E1. mstep E1.
  destruct (apply_write_ok n bs q key kind value Hn Hwk Hq Hroom) as (n' & bs' & q' & Ea & Hok & _ & Hq' & Hw).
  pose proof (written_range bs bs' key kind value lo hi Hw Hk Hrng) as Hrng'.
  assert (loads s1 nr n) as Hl1 by (by apply Hev1; [|intros []|]).
  destruct mode.
  - mstep (eq_refl : get_seq (s1, q) = (Ok q, (s1, q))).
    destruct (with_node_mut_ev s1 nr n n' q' (λ leaf, apply_write key kind value leaf (absorbs bs key) q) (1 + m) Hl1 Ea Hr1)
      as (s2 & E2 & Hev2 & Hr2 & Hl2 & _).
    mstep E2. exists nr, s2, q', bs'. split_and!; [done| |lia|eapply room_weaken; [done|lia]].
    split; [|by left|done| | | |lia|intros _ _; apply paths_leaf].
    + split; [done|]. split; [eauto|done].
    + split; [apply NoDup_singleton|]. constructor; [by apply Hev2, Hev1|constructor].
    + intros k Hk'. by left.
    + eapply evolves_trans; [exact Hev1|exact Hev2|intros k _ [[]| <-]; split; [done|by left]|by intros k _ [[]|[]]].
  - destruct (alloc_ev s1 m Hr1 Hm) as (nb & s2 & E2 & Hev2 & Hr2 & Hnb & Hh2). mstep E2.
    destruct (with_node_ev s2 nr n clone_to_heap m) as (s3 & E3 & Hev3 & Hr3 & _);
      [by apply Hev2; [apply Hev1|intros []|]|done|].
    mstep E3. mstep (eq_refl : get_seq (s3, q) = (Ok q, (s3, q))). mstep Ea.
    mstep (eq_refl : set_seq q' (s3, q) = (Ok tt, (s3, q'))).
    assert (evolves nowhere s s3) as Hev by (by eapply evolves_nowhere; [|eapply evolves_nowhere]).
    assert (fresh s s3 [nb]) as Hf.
    { apply (fresh_mono s s2 s3); [|apply Hev3].
      eapply (fresh_snoc nowhere s s1 s2 []); [done|apply fresh_nil|done|done|apply Hev2]. }
    destruct (write_fresh s s3 nb n' m [nb] Hev Hf) as (s4 & E4 & Hev4 & Hr4 & Hl4 & Hm4 & _);
      [by left|by eapply leaf_sound|done|].
    mstep E4. exists nb, s4, q', bs'. split_and!; [done| |lia|done].
    destruct (fresh_not_held _ _ _ nb Hf) as [Hn1 Hn2]; [by left|].
    split; [|by left|done| | | |lia|intros _ _; apply paths_leaf].
    + split; [done|]. split; [|done]. eexists. split; [done|by apply leaf_stamp].
    + split; [apply NoDup_singleton|]. constructor; [by apply Hm4|constructor].
    + intros k Hk'%list_elem_of_singleton. subst k. by right.
    + eapply evolves_weaken; [exact Hev4|by intros k _ []..].
Qed.

Abbreviation cblocks ch := (concat (map blocks ch)).

Lemma cblocks_app ch1 ch2 : cblocks (ch1 ++ ch2) = cblocks ch1 ++ cblocks ch2.
Proof. by rewrite map_app, concat_app. Qed.

Lemma cblocks_middle ch1 c ch2 : cblocks (ch1 ++ c :: ch2) = cblocks ch1 ++ blocks c ++ cblocks ch2.
Proof. by rewrite cblocks_app. Qed.

(** Swapping the middle part of a list of owned blocks for one that is partly new. *)
Lemma swap_owned (P : Z → Prop) (B1 B B2 B' : list Z) :
  NoDup (B1 ++ B ++ B2) → Forall P (B1 ++ B2) → NoDup B' → (∀ k, k ∈ B' → k ∈ B ∨ ¬ P k) →
  NoDup (B1 ++ B' ++ B2).
Proof.
  rewrite !NoDup_app, Forall_app, !Forall_forall. intros (H1 & H2 & H3 & H4 & H5) [P1 P2] Hd Hb.
  split_and!; [done| |done| |done].
  - intros k Hk [Hk'|Hk']%elem_of_app.
    + apply Hb in Hk' as [?|?]; [|by auto]. apply (H2 k Hk). apply elem_of_app. by left.
    + apply (H2 k Hk). apply elem_of_app. by right.
  - intros k Hk Hk'. apply Hb in Hk as [?|?]; [by eapply H4|by auto].
Qed.

Lemma node_level_ok h s q lo hi t m :
  tree_ok h s q lo hi t → room s m →
  ∃ s', node_level (t_nr t) s = (Ok (Z.of_nat h), s') ∧ evolves nowhere s s' ∧ room s' m.
Proof.
  intros Ht Hr. unfold node_level.
  assert (∃ n, loads s (t_nr t) n ∧ level n = Z.of_nat h) as (n & Hl & Hlv).
  { destruct h, t; cbn [tree_ok t_nr] in *; try tauto; destruct Ht as (_ & (n & Hl & Hn) & _).
    - exists n. split; [done|apply Hn].
    - exists n. split; [done|]. by apply inode_level in Hn as [? _]. }
  rewrite <- Hlv. destruct (with_node_ev s (t_nr t) n (λ n, Ok (level n)) m Hl Hr) as (s' & E & ? & ? & _). by exists s'.
Qed.

(** Everything about the child an operation descends into. *)
Record descent s q (h : nat) lo hi nr ks ch key ks1 ks2 ch1 c ch2 lo' hi' : Prop := {
  ds_focus : focus lo ks hi ch key ks1 ks2 ch1 c ch2 lo' hi';
  ds_child : tree_ok h s q lo' hi' c;
  ds_child_owned : owned s c;
  ds_nodup : NoDup (nr :: cblocks ch1 ++ blocks c ++ cblocks ch2);
  ds_held : Forall (held s) (nr :: cblocks ch1 ++ blocks c ++ cblocks ch2);
  ds_forest : forest (tree_ok h s q) lo ks hi ch;
  ds_len : (1 ≤ length ks ≤ MAX_INTERNAL_KEYS)%nat;
  ds_bound : bound_lt lo hi;
}.

#[global] Arguments ds_focus {_ _ _ _ _ _ _ _ _ _ _ _ _ _ _ _} _.
#[global] Arguments ds_child {_ _ _ _ _ _ _ _ _ _ _ _ _ _ _ _} _.
#[global] Arguments ds_child_owned {_ _ _ _ _ _ _ _ _ _ _ _ _ _ _ _} _.
#[global] Arguments ds_nodup {_ _ _ _ _ _ _ _ _ _ _ _ _ _ _ _} _.
#[global] Arguments ds_held {_ _ _ _ _ _ _ _ _ _ _ _ _ _ _ _} _.
#[global] Arguments ds_forest {_ _ _ _ _ _ _ _ _ _ _ _ _ _ _ _} _.
#[global] Arguments ds_len {_ _ _ _ _ _ _ _ _ _ _ _ _ _ _ _} _.
#[global] Arguments ds_bound {_ _ _ _ _ _ _ _ _ _ _ _ _ _ _ _} _.

Lemma descent_intro s q h lo hi nr ks ch key :
  forest (tree_ok h s q) lo ks hi ch → NoDup (nr :: cblocks ch) → Forall (held s) (nr :: cblocks ch) →
  (1 ≤ length ks ≤ MAX_INTERNAL_KEYS)%nat → bound_lt lo hi → within lo hi key →
  ∃ ks1 ks2 ch1 c ch2 lo' hi', descent s q h lo hi nr ks ch key ks1 ks2 ch1 c ch2 lo' hi'.
Proof.
  intros Hf Hd Hh Hlen Hb Hk. pose proof (forest_length _ _ _ _ _ Hf) as Hlc.
  destruct (forest_focus lo ks hi ch key Hlc Hk) as (ks1 & ks2 & ch1 & c & ch2 & lo' & hi' & Hfo).
  exists ks1, ks2, ch1, c, ch2, lo', hi'. rewrite (fo_ch Hfo), cblocks_middle in Hd, Hh.
  split; [done|by apply (fo_child Hfo)| |done|done|done|done|done].
  apply NoDup_cons in Hd as [_ Hd]. rewrite !NoDup_app in Hd. rewrite Forall_cons, !Forall_app in Hh.
  split; tauto.
Qed.

(** The child [descend] picks is the one in focus. *)
Lemma descend_focus n L ks ch key lo hi ks1 ks2 ch1 c ch2 lo' hi' :
  inode n L ks (t_nr <$> ch) → sorted_seps ks → focus lo ks hi ch key ks1 ks2 ch1 c ch2 lo' hi' →
  descend key n = Ok (length ch1, t_nr c).
Proof.
  intros Hn Hs Hfo. destruct (inode_descend n L ks _ key Hn Hs) as (x & Hx & Ed).
  rewrite (fo_route Hfo) in Hx, Ed. rewrite Ed. do 2 f_equal.
  rewrite (fo_ch Hfo), list_lookup_fmap, list_lookup_middle in Hx by done. by injection Hx.
Qed.

Section descended.
Context {s : BlockStore D} {q : Z} {h : nat} {lo hi lo' hi' : bound} {nr : Z} {ks ks1 ks2 : list (list byte)}.
Context {ch ch1 ch2 : list tree} {c : tree} {key : list byte}.
Context (Hds : descent s q h lo hi nr ks ch key ks1 ks2 ch1 c ch2 lo' hi').

Lemma ds_apart k : k ∈ blocks c → k ≠ nr ∧ k ∉ cblocks (ch1 ++ ch2).
Proof using Hds.
  intros Hk. pose proof (ds_nodup Hds) as Hd. rewrite NoDup_cons, !NoDup_app in Hd.
  destruct Hd as (Hnr & _ & D1 & _ & D2 & _). split.
  - intros ->. apply Hnr, elem_of_app. right. apply elem_of_app. by left.
  - rewrite cblocks_app, elem_of_app. intros [Hk2|Hk2]; [|by apply (D2 k Hk)].
    apply (D1 k Hk2), elem_of_app. by left.
Qed.

Lemma ds_rest_held : held s nr ∧ Forall (held s) (cblocks (ch1 ++ ch2)).
Proof using Hds.
  pose proof (ds_held Hds) as Hh. rewrite Forall_cons, !Forall_app in Hh. rewrite cblocks_app, Forall_app. tauto.
Qed.

(** The rest of the node survives a write below child [c]. *)
Lemma ds_siblings (W V : Z → Prop) s' q' :
  evolves2 W V s s' → (∀ k, W k → k ∈ blocks c ∨ k = nr) → q ≤ q' →
  ∀ l u x, x ∈ ch1 ++ ch2 → tree_ok h s q l u x → tree_ok h s' q' l u x.
Proof using Hds.
  intros Hev HW Hq l u x Hx. destruct ds_rest_held as [_ Hh].
  apply (tree_ok_evolves W V); [done| | |done].
  - apply Forall_forall. intros k Hk. rewrite Forall_forall in Hh. by apply Hh, (blocks_child x).
  - intros k Hk Hwk. apply (blocks_child x (ch1 ++ ch2) Hx) in Hk.
    destruct (HW k Hwk) as [Hc| ->]; [by destruct (ds_apart k Hc) as [_ ?]|].
    pose proof (ds_nodup Hds) as Hd. apply NoDup_cons in Hd as [Hd _]. apply Hd.
    rewrite cblocks_app in Hk. rewrite !elem_of_app in *. tauto.
Qed.

Lemma ds_parent_loads (W : Z → Prop) s' n :
  evolves W s s' → (∀ k, W k → k ∈ blocks c) → loads s nr n → loads s' nr n.
Proof using Hds.
  intros Hev HW. destruct ds_rest_held as [Hh _]. apply Hev; [done|]. intros Hw. by destruct (ds_apart nr) as [? _]; [apply HW|].
Qed.

(** Blocks of the node after its child's blocks were replaced by [B]. *)
Lemma ds_swap (B : list Z) nr' s' :
  NoDup B → (∀ k, k ∈ B → k ∈ blocks c ∨ ¬ held s k) → Forall (held s') B →
  (∀ k, held s k → held s' k) → held s' nr' → nr' ∉ B → nr' = nr ∨ ¬ held s nr' →
  NoDup (nr' :: cblocks ch1 ++ B ++ cblocks ch2) ∧ Forall (held s') (nr' :: cblocks ch1 ++ B ++ cblocks ch2) ∧
  ∀ k, k ∈ nr' :: cblocks ch1 ++ B ++ cblocks ch2 → k ∈ nr :: cblocks ch ∨ ¬ held s k.
Proof using Hds.
  intros Hd Hb Hh Hm Hn Hnb Hnr. pose proof (ds_nodup Hds) as Hd0. pose proof (ds_held Hds) as Hh0.
  apply NoDup_cons in Hd0 as [Hnr0 Hd0]. apply Forall_cons_1 in Hh0 as [Hhn Hh0].
  rewrite !Forall_app in Hh0. destruct Hh0 as (Hh1 & Hhc & Hh2).
  assert (∀ k, k ∈ nr :: cblocks ch ↔ k = nr ∨ k ∈ cblocks ch1 ∨ k ∈ blocks c ∨ k ∈ cblocks ch2) as Hch.
  { intros k. rewrite (fo_ch (ds_focus Hds)), cblocks_middle, elem_of_cons, !elem_of_app. tauto. }
  split_and!.
  - constructor.
    + rewrite !elem_of_app. intros [Hk|[Hk|Hk]]; [|done|]; destruct Hnr as [->|Hnr].
      * apply Hnr0, elem_of_app. by left.
      * rewrite Forall_forall in Hh1. auto.
      * apply Hnr0, elem_of_app. right. apply elem_of_app. by right.
      * rewrite Forall_forall in Hh2. auto.
    + apply (swap_owned (held s) _ (blocks c)); [done|by apply Forall_app|done|done].
  - rewrite Forall_cons, !Forall_app. split_and!; [done| |done|]; (eapply Forall_impl; [eassumption|auto]).
  - intros k. rewrite elem_of_cons, !elem_of_app, Hch. intros [->|[?|[Hk|?]]]; [tauto|tauto| |tauto].
    apply Hb in Hk. tauto.
Qed.

Lemma inserted_ev mode e s' q' h' c' s'' :
  inserted mode s q h lo' hi' c key e s' q' h' c' → evolves nowhere s' s'' →
  evolves (λ k, mode = InPlace ∧ k ∈ blocks c) s s''.
Proof. intros Hi Hev. eapply evolves_nowhere_r; [apply Hi|done]. Qed.

Lemma ds_child_blocks k : k ∈ blocks c → k ∈ blocks (TNode nr ks ch).
Proof using Hds.
  intros Hk. cbn [blocks]. rewrite (fo_ch (ds_focus Hds)), cblocks_middle. apply elem_of_cons. right.
  apply elem_of_app. right. apply elem_of_app. by left.
Qed.

Lemma inserted_parent mode e s' q' h' c' s'' :
  inserted mode s q h lo' hi' c key e s' q' h' c' → evolves nowhere s' s'' →
  evolves (λ k, mode = InPlace ∧ k ∈ blocks (TNode nr ks ch)) s s''.
Proof using Hds.
  intros Hi Hev. eapply evolves_weaken; [by eapply inserted_ev| |by intros k _ []]. intros k _ [? Hk]. split; [done|].
  by apply ds_child_blocks.
Qed.

(** Statuses below the node after a write to child [c]. *)
Lemma ds_paths mode e s' q' h' c' s'' :
  inserted mode s q h lo' hi' c key e s' q' h' c' → evolves nowhere s' s'' → paths s (TNode nr ks ch) →
  Forall (paths s'') (ch1 ++ ch2) ∧ paths s'' c'.
Proof using Hds.
  intros Hi Hev Hp. pose proof (inserted_ev _ _ _ _ _ _ _ Hi Hev) as HevW. destruct ds_rest_held as [_ Hrest].
  assert (∀ x, x ∈ ch1 ++ c :: ch2 → paths s x) as Hch.
  { intros x Hx. rewrite <- (fo_ch (ds_focus Hds)) in Hx. by eapply paths_child. }
  split.
  - apply Forall_forall. intros x Hx. apply (paths_evolves _ _ _ _ _ HevW).
    + apply Forall_forall. intros k Hk. rewrite Forall_forall in Hrest. by apply Hrest, (blocks_child x).
    + intros k Hk [_ Hkc]. destruct (ds_apart k Hkc) as [_ Hn]. apply Hn. by apply (blocks_child x).
    + apply Hch. rewrite elem_of_app in *. rewrite elem_of_cons. tauto.
  - eapply paths_quiet; [exact Hev|apply Hi|]. eapply is_paths; [exact Hi|apply (ds_child_owned Hds)|].
    apply Hch. apply elem_of_app. right. by left.
Qed.

(** The child kept its height: the node needs at most a new child pointer. *)
Lemma finish_one mode e s' q' s'' c' nr' :
  inserted mode s q h lo' hi' c key e s' q' h c' → evolves nowhere s' s'' →
  (∃ n, loads s'' nr' n ∧ inode n (Z.of_nat (S h)) ks (t_nr <$> (ch1 ++ c' :: ch2))) →
  held s'' nr' → cached s'' nr' → nr' = nr ∨ ¬ held s' nr' →
  inserted mode s q (S h) lo hi (TNode nr ks ch) key e s'' q' (S h) (TNode nr' ks (ch1 ++ c' :: ch2)).
Proof using Hds.
  intros Hi Hev Hn Hh Hca Hnr. destruct ds_rest_held as [Hhn _].
  assert (nr' ∉ blocks c') as Hnc.
  { intros Hin. destruct Hnr as [->|Hnr].
    - apply (is_blocks _ _ _ _ _ _ _ _ _ _ _ _ _ Hi) in Hin as [Hin|Hin]; [|done].
      by destruct (ds_apart nr Hin).
    - destruct (is_owned _ _ _ _ _ _ _ _ _ _ _ _ _ Hi) as [_ Ho]. rewrite Forall_forall in Ho. auto. }
  destruct (ds_swap (blocks c') nr' s'') as (B1 & B2 & B3).
  - apply Hi.
  - apply Hi.
  - eapply Forall_impl; [apply Hi|apply Hev].
  - intros k Hk. eapply ev_held; [by eapply inserted_ev|done].
  - done.
  - done.
  - destruct Hnr as [->|Hnr]; [by left|right]. intros Hs. by apply Hnr, (is_ev _ _ _ _ _ _ _ _ _ _ _ _ _ Hi).
  - split.
    + split; [apply Hds|]. split; [done|]. split; [apply Hds|].
      apply (fo_one (ds_focus Hds) (tree_ok h s q)); [apply Hds| |].
      * eapply ds_siblings; [by eapply inserted_ev|intros k [_ ?]; by left|apply Hi].
      * eapply tree_ok_quiet; [exact Hev|apply Hi|apply Hi].
    + by left.
    + apply (content_one (ds_focus Hds)), Hi.
    + cbn [blocks]. split; cbn [blocks]; by rewrite cblocks_middle.
    + cbn [blocks]. rewrite cblocks_middle. apply B3.
    + by eapply inserted_parent.
    + apply Hi.
    + intros _ Hp. destruct (ds_paths _ _ _ _ _ _ _ Hi Hev Hp) as [Hps Hpc]. apply paths_node; [done|].
      rewrite Forall_app, Forall_cons. apply Forall_app in Hps. tauto.
Qed.

(** The separators and child pointers after promotion of [med]. *)
Lemma promoted_columns med l r :
  take (length ch1) ks ++ med :: drop (length ch1) ks = ks1 ++ med :: ks2 ∧
  take (length ch1) (t_nr <$> ch) ++ t_nr l :: t_nr r :: drop (S (length ch1)) (t_nr <$> ch)
    = t_nr <$> (ch1 ++ l :: r :: ch2).
Proof using Hds.
  rewrite (fo_ks (ds_focus Hds)), (fo_ch (ds_focus Hds)), !fmap_app. cbn [fmap list_fmap].
  pose proof (fo_len1 (ds_focus Hds)) as Hl.
  rewrite (take_app_len ks1), (drop_app_len ks1) by done.
  rewrite (take_app_len (t_nr <$> ch1)) by (by rewrite length_fmap).
  rewrite <- Nat.add_1_r, <- drop_drop, (drop_app_len (t_nr <$> ch1)) by (by rewrite length_fmap). done.
Qed.

(** The tree promotion leaves behind, in both of its outcomes. *)
Lemma promoted_tree s2 s'' q' nb K CH B :
  promoted s2 s'' (Z.of_nat (S h)) K (t_nr <$> CH) nb → forest (tree_ok h s'' q') lo K hi CH →
  cblocks CH = B → NoDup B → Forall (held s2) B → evolves nowhere s2 s'' → (1 ≤ length K ≤ 28)%nat →
  ∃ h' t', t_nr t' = nb ∧ tree_ok h' s'' q' lo hi t' ∧
    (h' = S h ∨ (h' = S (S h) ∧ ∃ nr med l r, t' = TNode nr [med] [l; r])) ∧
    (∀ x, content t' x = choose (λ c, content c x) x K CH) ∧
    NoDup (blocks t') ∧ Forall (held s'') (blocks t') ∧ (∀ k, k ∈ blocks t' → k ∈ B ∨ ¬ held s2 k) ∧
    (Forall (paths s'') CH → paths s'' t').
Proof.
  intros Hp HF <- Hd Hh Hev HK. pose proof (forest_length _ _ _ _ _ HF) as HlC.
  destruct (forest_sorted _ _ _ _ _ (tree_ok_bounds h s'' q') HF) as (Hs & Hb & Hbs).
  assert (Forall (held s'') (cblocks CH)) as Hh'' by (eapply Forall_impl; [exact Hh|apply Hev]).
  rewrite Forall_forall in Hh. destruct Hp as [Hf Hlen Hn Hca|mid med bl br Hf Hmid Hmed Hn Hnl Hnr Hca].
  - destruct Hf as [_ Hf]. apply Forall_cons_1 in Hf as [[Hf1 Hf2] _].
    exists (S h), (TNode nb K CH). split_and!; [done| |by left|done| | | |by apply paths_node].
    + split; [done|]. split; [done|]. split; [lia|done].
    + constructor; [|done]. intros Hin. auto.
    + by constructor.
    + intros k Hk. cbn [blocks] in Hk. apply elem_of_cons in Hk as [->|Hk]; [by right|by left].
  - set (K1 := take mid K) in *. set (K2 := drop (S mid) K) in *.
    rewrite <- fmap_take in Hnl. rewrite <- fmap_drop in Hnr.
    set (C1 := take (S mid) CH) in *. set (C2 := drop (S mid) CH) in *.
    assert (K = K1 ++ med :: K2) as EK by (symmetry; by apply take_drop_middle).
    assert (CH = C1 ++ C2) as EC by (symmetry; apply take_drop).
    assert (length C1 = S (length K1)) as HC1 by (subst C1 K1; rewrite !length_take; lia).
    assert (1 ≤ length K1 ≤ 27 ∧ 1 ≤ length K2 ≤ 27)%nat as [HK1 HK2]
      by (subst K1 K2; rewrite length_take, length_drop; lia).
    rewrite EK, EC in HF. apply forest_app in HF as [HF1 HF2]; [|done].
    rewrite Forall_forall in Hbs. destruct (Hbs med) as [Hb1 Hb2]; [by eapply list_elem_of_lookup_2|].
    destruct Hf as [Hfd Hf]. pose proof Hf as Hf'. rewrite !Forall_cons in Hf'.
    destruct Hf' as ([Fn1 Fn2] & [Fr1 Fr2] & [Fl1 Fl2] & _).
    apply NoDup_cons in Hfd as [Dn Dr]. apply NoDup_cons in Dr as [Dr _].
    rewrite elem_of_cons, list_elem_of_singleton in Dn. rewrite list_elem_of_singleton in Dr.
    assert (∀ k, ¬ held s2 k → (k ∉ cblocks C1) ∧ (k ∉ cblocks C2)) as Hout.
    { intros k Hk. split; intros Hin; apply Hk, Hh; rewrite EC, cblocks_app; apply elem_of_app; auto. }
    rewrite !Forall_cons in Hca. destruct Hca as (Cn & Cl & Cr & _).
    exists (S (S h)), (TNode nb [med] [TNode bl K1 C1; TNode br K2 C2]). split_and!; [done| | | | | | |].
    + split; [done|]. split; [by rewrite (Nat2Z.inj_succ (S h)); unfold Z.succ|].
      split; [rewrite MAX_INTERNAL_KEYS_eq; cbn; lia|].
      cbn [forest]. rewrite <- MAX_INTERNAL_KEYS_eq in HK1, HK2. split; [|split; [done|]].
      * split; [done|]. split; [done|]. split; [lia|done].
      * split; [done|]. split; [done|]. split; [lia|done].
    + right. split; [done|]. by do 4 eexists.
    + intros x. rewrite EC, EK. rewrite choose_app by (done || by rewrite <- EK). done.
    + cbn [blocks map concat]. rewrite app_nil_r. rewrite EC, cblocks_app in Hd.
      destruct (Hout nb Fn1), (Hout bl Fl1), (Hout br Fr1).
      apply NoDup_app in Hd as (D1 & D12 & D2).
      cbn [app]. constructor; [rewrite elem_of_cons, elem_of_app, elem_of_cons; tauto|].
      constructor; [rewrite elem_of_app, elem_of_cons; intuition congruence|].
      apply NoDup_app. split_and!; [done| |by constructor].
      intros k Hk1 [->|Hk2]%elem_of_cons; [done|by apply (D12 k)].
    + cbn [blocks map concat]. rewrite app_nil_r. rewrite EC, cblocks_app, Forall_app in Hh''.
      rewrite ?Forall_cons, ?Forall_app, ?Forall_cons. tauto.
    + intros k. cbn [blocks map concat]. rewrite app_nil_r, EC, cblocks_app.
      rewrite ?elem_of_cons, ?elem_of_app, ?elem_of_cons. intros [->|[[->|?]|[->|?]]]; tauto.
    + rewrite EC, Forall_app. intros [? ?]. apply paths_node; [done|]. repeat constructor; by apply paths_node.
Qed.

(** The child grew a level: its two halves are promoted into the node. *)
Lemma finish_two mode e s' q' s2 s'' cn med l r nb :
  inserted mode s q h lo' hi' c key e s' q' (S h) (TNode cn [med] [l; r]) →
  evolves nowhere s' s2 → evolves nowhere s2 s'' →
  promoted s2 s'' (Z.of_nat (S h)) (ks1 ++ med :: ks2) (t_nr <$> (ch1 ++ l :: r :: ch2)) nb →
  ∃ h' t', t_nr t' = nb ∧ inserted mode s q (S h) lo hi (TNode nr ks ch) key e s'' q' h' t'.
Proof using Hds.
  intros Hi Hev Hev2 Hp. pose proof (evolves_nowhere _ _ _ _ _ Hev Hev2) as Hev'.
  pose proof (inserted_ev _ _ _ _ _ _ _ Hi Hev') as Hevs. destruct ds_rest_held as [_ Hrest].
  destruct (is_ok _ _ _ _ _ _ _ _ _ _ _ _ _ Hi) as (_ & _ & _ & Hl & _ & Hr).
  destruct (is_owned _ _ _ _ _ _ _ _ _ _ _ _ _ Hi) as [Hd Hh]. cbn [blocks map concat] in Hd, Hh.
  rewrite app_nil_r in Hd, Hh. apply NoDup_cons in Hd as [_ Hd]. apply Forall_cons_1 in Hh as [_ Hh].
  pose proof Hh as Hhlr. apply Forall_app in Hhlr as [Hhl Hhr].
  assert (forest (tree_ok h s'' q') lo (ks1 ++ med :: ks2) hi (ch1 ++ l :: r :: ch2)) as HF.
  { apply (fo_two (ds_focus Hds) (tree_ok h s q)); [apply Hds| | |].
    - eapply ds_siblings; [exact Hevs|intros k [_ ?]; by left|apply Hi].
    - eapply tree_ok_quiet; [exact Hev'|done|exact Hl].
    - eapply tree_ok_quiet; [exact Hev'|done|exact Hr]. }
  destruct (forest_sorted _ _ _ _ _ (tree_ok_bounds h s'' q') HF) as (Hs & _ & _).
  set (B := cblocks ch1 ++ (blocks l ++ blocks r) ++ cblocks ch2).
  assert (∀ k, k ∈ blocks l ++ blocks r → k ∈ blocks c ∨ ¬ held s k) as Hin.
  { intros k Hk. apply (is_blocks _ _ _ _ _ _ _ _ _ _ _ _ _ Hi). cbn [blocks map concat]. rewrite app_nil_r. by right. }
  destruct (promoted_tree s2 s'' q' nb _ _ B Hp HF) as (h' & t' & Hnr' & Hok & Hht & Hcon & Hnd & Hhd & Hbl & Hpa).
  - rewrite cblocks_app. cbn [map concat]. subst B. by rewrite <- !app_assoc.
  - subst B. apply (swap_owned (held s) _ (blocks c)); [|by rewrite <- cblocks_app|done|done].
    pose proof (ds_nodup Hds) as Hd0. by apply NoDup_cons in Hd0 as [_ ?].
  - subst B. rewrite cblocks_app, Forall_app in Hrest. destruct Hrest as [Hr1 Hr2].
    rewrite !Forall_app. pose proof (inserted_ev _ _ _ _ _ _ _ Hi Hev) as Hevr.
    split_and!; (eapply Forall_impl; [first [exact Hr1|exact Hr2|exact Hhl|exact Hhr]|]);
      intros k Hk; [by apply Hevr|by apply Hev|by apply Hev|by apply Hevr].
  - done.
  - pose proof (ds_len Hds) as Hlen. rewrite (fo_ks (ds_focus Hds)), length_app, MAX_INTERNAL_KEYS_eq in Hlen.
    rewrite length_app. cbn [length]. lia.
  - exists h', t'. split; [done|]. split; [done| | | | | | |].
    + destruct Hht as [->|[-> ?]]; [by left|by right].
    + intros x. rewrite Hcon.
      refine (content_two (ds_focus Hds) nr nb med l r (Some e) Hs _ x).
      intros y. apply (is_content _ _ _ _ _ _ _ _ _ _ _ _ _ Hi).
    + by split.
    + intros k Hk. apply Hbl in Hk as [Hk|Hk].
      * subst B. rewrite !elem_of_app in Hk. cbn [blocks]. rewrite (fo_ch (ds_focus Hds)), cblocks_middle, elem_of_cons, !elem_of_app.
        specialize (Hin k). rewrite elem_of_app in Hin. tauto.
      * right. intros Hk'. apply Hk. by apply (inserted_ev _ _ _ _ _ _ _ Hi Hev).
    + by eapply inserted_parent.
    + apply Hi.
    + intros _ Hp'. destruct (ds_paths _ _ _ _ _ _ _ Hi Hev' Hp') as [Hps Hpc]. apply Hpa.
      rewrite !Forall_app, !Forall_cons in *. destruct Hps as [? ?].
      split_and!; [done|eapply paths_child; [exact Hpc|by left]|eapply paths_child; [exact Hpc|right; by left]|done].
Qed.
End descended.

Lemma focus_nrs {lo hi lo' hi' : bound} {ks ks1 ks2 : list (list byte)} {ch ch1 ch2 : list tree} {c : tree} {key} c' :
  focus lo ks hi ch key ks1 ks2 ch1 c ch2 lo' hi' →
  <[length ch1 := t_nr c']> (t_nr <$> ch) = t_nr <$> (ch1 ++ c' :: ch2).
Proof.
  intros Hf. rewrite (fo_ch Hf), !fmap_app. cbn [fmap list_fmap].
  rewrite insert_app_r_alt by (by rewrite length_fmap). by rewrite length_fmap, Nat.sub_diag.
Qed.

(** Leaves with room, through [tree_insert]. *)
Lemma tree_insert_leaf fuel s q lo hi nr bs key value kind mode m :
  tree_ok 0 s q lo hi (TLeaf nr bs) → held s nr → sortable_wf key → within lo hi key →
  absorbs bs key = true ∨ (total_entries bs < MAX_ENTRIES)%nat →
  0 ≤ q < 2 ^ 64 - 1 → room s (1 + m) → 0 ≤ m →
  ∃ nr' s' q' bs', tree_insert (S fuel) nr key value kind mode (s, q) = (Ok nr', (s', q')) ∧
    inserted mode s q 0 lo hi (TLeaf nr bs) key (leaf_entry key kind value) s' q' 0 (TLeaf nr' bs') ∧
    q' ≤ q + 1 ∧ room s' m.
Proof using All.
  intros Ht Hh Hwk Hk Hroom Hq Hr Hm. cbn [tree_insert].
  destruct (node_level_ok 0 s q lo hi (TLeaf nr bs) (1 + m) Ht Hr) as (s1 & E1 & Hev1 & Hr1). mstep E1. cbn [t_nr Z.of_nat Z.eqb].
  assert (tree_ok 0 s1 q lo hi (TLeaf nr bs)) as Ht1
    by (eapply tree_ok_quiet; [exact Hev1|by apply Forall_singleton|done]).
  destruct (insert_leaf_fits (tree_insert fuel) s1 q lo hi nr bs key value kind mode m Ht1)
    as (nr' & s' & q' & bs' & E & Hi & Hq' & Hr'); [by apply Hev1|done..|].
  exists nr', s', q', bs'. split_and!; [done| |done|done]. by eapply inserted_before.
Qed.

(** The two halves of a split leaf, as children around the median. *)
Lemma leaf_halves_forest s q bs root rnr bl br s' q' med b1 b2 lo hi :
  leaf_halves s q bs root rnr bl br s' q' med b1 b2 → bound_lt lo hi →
  (∀ k e, view bs k = Some e → within lo hi k) →
  forest (tree_ok 0 s' q') lo [med] hi [TLeaf bl [b1]; TLeaf br [b2]].
Proof.
  intros [_ _ _ Hlf Hrt _ Hview Hvlo Hvhi [e0 Hvmed] (k0 & [e1 Hk0] & Hk0m) _] Hb Hrng.
  destruct (Hrng _ _ Hvmed) as [_ Hmhi]. destruct (Hrng _ _ Hk0) as [Hk0lo _]. cbn [forest].
  split; [|split; [done|]].
  - split; [|split; [done|]].
    + destruct lo as [l|]; [|done]. cbn in *. apply bytes_not_lt in Hk0lo as [->|?]; [done|by eapply bytes_lt_trans].
    + intros k e Hke. split; [|by eapply Hvlo]. eapply Hrng.
      by rewrite <- Hview, (proj2 (bytes_ltb_true k med)); [|by eapply Hvlo].
  - split; [by destruct hi|]. split; [done|]. intros k e Hke. split; [by eapply Hvhi|]. eapply Hrng.
    by rewrite <- Hview, (proj2 (bytes_ltb_false k med)); [|by eapply Hvhi].
Qed.

(** The half that takes the write, and the new root written over both. *)
Lemma split_insert fuel s q lo hi rnr med root bl br b1 b2 key value kind mode m :
  let ch := [TLeaf bl [b1]; TLeaf br [b2]] in
  forest (tree_ok 0 s q) lo [med] hi ch → NoDup [rnr; bl; br] → Forall (held s) [rnr; bl; br] →
  inode root 1 [med] [bl; br] → bound_lt lo hi → within lo hi key → sortable_wf key →
  (length (b_entries b1) < 29 ∧ length (b_entries b2) < 29)%nat → 0 ≤ q < 2 ^ 64 - 1 → room s (1 + m) → 0 ≤ m →
  ∃ s' q' t',
    ('(child_idx, child_nr) ← lift (descend key root);
      child_level ← on_store (node_level child_nr);
      new_child_nr ← tree_insert (S fuel) child_nr key value kind mode;
      new_child_level ← on_store (node_level new_child_nr);
      if child_level <? new_child_level then
        '(median_key, lchild, rchild) ← on_store (with_node new_child_nr median_of);
        on_store (promote_to_parent root child_idx median_key lchild rchild)
      else
        root_box ← lift (set_child_block child_idx new_child_nr root);
        _ ← on_store (write_node rnr root_box);
        mret rnr) (s, q) = (Ok (t_nr t'), (s', q')) ∧
    tree_ok 1 s' q' lo hi t' ∧ (∃ l r, t' = TNode rnr [med] [l; r]) ∧
    updated key (Some (leaf_entry key kind value)) (content (TNode rnr [med] ch)) (content t') ∧ owned s' t' ∧
    (∀ k, k ∈ blocks t' → k ∈ [rnr; bl; br] ∨ ¬ held s k) ∧
    evolves2 (λ k, k ∈ [rnr; bl; br]) (eq rnr) s s' ∧ q ≤ q' ≤ q + 1 ∧ room s' m ∧ paths s' t'.
Proof using All.
  intros ch HF Hd Hh Hroot Hb Hk Hwk Hsmall Hq Hr Hm.
  destruct (descent_intro s q 0 lo hi rnr [med] ch key HF Hd Hh) as (ks1 & ks2 & ch1 & c & ch2 & lo' & hi' & Hds);
    [rewrite MAX_INTERNAL_KEYS_eq; cbn; lia|done|done|].
  pose proof (ds_focus Hds) as Hfo.
  mstep (descend_focus root 1 [med] ch key lo hi _ _ _ _ _ _ _ Hroot ltac:(repeat constructor) Hfo).
  assert (∃ x b, c = TLeaf x [b] ∧ x ∈ [bl; br] ∧ (length (b_entries b) < 29)%nat) as (x & b & -> & Hx & Hlb).
  { assert (c ∈ ch) as Hin by (rewrite (fo_ch Hfo); apply elem_of_app; right; by left).
    subst ch. apply elem_of_cons in Hin as [->|Hin%list_elem_of_singleton]; [|subst c];
      do 2 eexists; (split; [done|]); (split; [|lia]); [by left|right; by left]. }
  cbn [t_nr]. destruct (node_level_ok 0 s q lo' hi' (TLeaf x [b]) (1 + m) (ds_child Hds) Hr) as (s3 & E3 & Hev3 & Hr3).
  mstep E3. destruct (ds_child_owned Hds) as [_ Hhc].
  assert (tree_ok 0 s3 q lo' hi' (TLeaf x [b])) as Hc3
    by (eapply tree_ok_quiet; [exact Hev3|done|apply (ds_child Hds)]).
  destruct (tree_insert_leaf fuel s3 q lo' hi' x [b] key value kind mode m Hc3)
    as (nr' & s4 & q2 & bs' & E4 & Hi & Hq2 & Hr4); [apply Hev3; by apply Forall_cons_1 in Hhc as [? _]|done|
    apply (fo_range Hfo)|right; unfold total_entries; cbn [sum_list_with]; rewrite MAX_ENTRIES_eq; lia|done|done|done|].
  mstep E4. set (c' := TLeaf nr' bs') in *.
  destruct (node_level_ok 0 s4 q2 lo' hi' c' m (is_ok _ _ _ _ _ _ _ _ _ _ _ _ _ Hi) Hr4) as (s5 & E5 & Hev5 & Hr5).
  mstep E5. rewrite Z.ltb_irrefl.
  destruct (is_owned _ _ _ _ _ _ _ _ _ _ _ _ _ Hi) as [Hnd' Hh'].
  assert (held s4 nr') as Hnr' by (by apply Forall_cons_1 in Hh' as [? _]).
  destruct (inode_set_child root 1 [med] [bl; br] (length ch1) nr' Hroot) as (r3 & F3 & Hr3').
  { pose proof (f_equal length (fo_ch Hfo)) as Hlen. rewrite length_app in Hlen. cbn in *. lia. }
  { exact (held_width s4 m nr' Hr4 Hnr'). }
  mstep F3.
  assert (held s5 rnr) as Hrn5.
  { apply Hev5, (is_ev _ _ _ _ _ _ _ _ _ _ _ _ _ Hi), Hev3. by apply Forall_cons_1 in Hh as [? _]. }
  destruct (write_node_ev s5 rnr r3 m (inode_sound _ _ _ _ Hr3') Hrn5 Hr5) as (s6 & E6 & Hev6 & Hr6 & Hl6 & Hca6 & _).
  mstep E6. exists s6, q2, (TNode rnr [med] (ch1 ++ c' :: ch2)).
  set (W := λ k, k ∈ blocks (TLeaf x [b]) ∨ k = rnr).
  assert (evolves2 W (eq rnr) s s6) as HevW.
  { eapply evolves_nowhere; [exact Hev3|]. eapply evolves_trans; [apply Hi| | |].
    - eapply evolves_nowhere; [exact Hev5|exact Hev6].
    - intros k _ [[_ ?]| <-]; [by left|by right].
    - by intros k _ [[]|]. }
  assert (rnr ∉ blocks c') as Hrc.
  { intros Hin. apply (is_blocks _ _ _ _ _ _ _ _ _ _ _ _ _ Hi) in Hin as [Hin|Hin].
    - by destruct (ds_apart Hds rnr Hin).
    - apply Hin, Hev3. by apply Forall_cons_1 in Hh as [? _]. }
  assert (∀ k, held s k → held s6 k) as Hmono by apply HevW.
  assert (Forall (held s6) (blocks c')) as Hhc6
    by (eapply Forall_impl; [exact Hh'|]; intros k Hk'; by apply Hev6, Hev5).
  assert (∀ k, k ∈ blocks c' → k ∈ blocks (TLeaf x [b]) ∨ ¬ held s k) as Hbl.
  { intros k Hin. apply (is_blocks _ _ _ _ _ _ _ _ _ _ _ _ _ Hi) in Hin as [?|Hin]; [by left|right].
    intros Hs. by apply Hin, Hev3. }
  destruct (ds_swap Hds (blocks c') rnr s6 Hnd' Hbl Hhc6 Hmono) as (B1 & B2 & B3);
    [apply Hmono; by apply Forall_cons_1 in Hh as [? _]|done|by left|].
  split_and!; [done| | | | | | |apply Hi|done|done|].
  - split; [done|]. split; [|split; [rewrite MAX_INTERNAL_KEYS_eq; cbn; lia|]].
    + eexists. split; [done|]. apply inode_stamp. rewrite <- (focus_nrs c' Hfo). exact Hr3'.
    + apply (fo_one Hfo (tree_ok 0 s q)); [done| |].
      * eapply (ds_siblings Hds W (eq rnr)); [done|by intros k|apply Hi].
      * eapply (tree_ok_evolves (eq rnr) (eq rnr)); [by eapply evolves_nowhere|done|by intros k Hin <-|done|apply Hi].
  - pose proof (f_equal length (fo_ch Hfo)) as Hlen. rewrite length_app in Hlen. cbn [length ch] in Hlen.
    destruct ch1 as [|y [|? ?]], ch2 as [|z [|? ?]]; cbn in Hlen; try lia; by do 2 eexists.
  - apply (content_one Hfo), Hi.
  - split; cbn [blocks]; by rewrite cblocks_middle.
  - intros k Hin. cbn [blocks] in Hin. rewrite cblocks_middle in Hin. apply B3 in Hin as [?|?]; [by left|by right].
  - eapply evolves_weaken; [exact HevW| |done]. intros k _ [Hin| ->]; [|by left].
    apply list_elem_of_singleton in Hin as ->. by right.
  - apply paths_node; [done|]. apply Forall_forall. intros y [Hy|[->|Hy]%elem_of_cons]%elem_of_app; [|apply paths_leaf|];
      (assert (y ∈ ch) as Hin by (rewrite (fo_ch Hfo), elem_of_app, elem_of_cons; tauto));
      subst ch; rewrite !elem_of_cons in Hin; destruct Hin as [->|[->|[]%elem_of_nil]]; apply paths_leaf.
Qed.

Lemma insert_leaf_splits fuel s q lo hi nr bs key value kind mode m :
  tree_ok 0 s q lo hi (TLeaf nr bs) → held s nr → sortable_wf key → within lo hi key →
  absorbs bs key = false → (MAX_ENTRIES ≤ total_entries bs)%nat →
  0 ≤ q → q + 2 < 2 ^ 64 - 1 → room s (4 + m) → 0 ≤ m →
  ∃ s' q' t', insert_leaf (tree_insert (S fuel)) nr key value kind mode (s, q) = (Ok (t_nr t'), (s', q')) ∧
    inserted mode s q 0 lo hi (TLeaf nr bs) key (leaf_entry key kind value) s' q' 1 t' ∧ room s' m.
Proof using All.
  intros (Hb & (n & Hl & Hn) & Hrng) Hh Hwk Hk Habs Hfull Hq0 Hq Hr Hm. unfold insert_leaf.
  destruct (with_node_ev s nr n (plan_write key) (4 + m) Hl Hr) as (s1 & E1 & Hev1 & Hr1 & _).
  rewrite (plan_write_ok n bs q), Habs, (proj2 (Nat.leb_le _ _)) in E1 by done. mstep E1.
  destruct (split_leaf_ok n bs q s1 (1 + m) Hn Hfull) as (root & rnr & bl & br & s2 & q1 & med & b1 & b2 & E2 & Hlh & Hr2);
    [lia|by replace (3 + (1 + m)) with (4 + m) by lia|lia|].
  mstep E2. pose proof (lh_ev _ _ _ _ _ _ _ _ _ _ _ _ Hlh) as Hev2. pose proof (lh_fresh _ _ _ _ _ _ _ _ _ _ _ _ Hlh) as Hf2.
  pose proof (lh_q _ _ _ _ _ _ _ _ _ _ _ _ Hlh) as Hq1.
  assert (∀ k, k ∈ [rnr; bl; br] → ¬ held s k ∧ held s2 k) as Hfr.
  { intros k Hin. destruct (fresh_not_held _ _ _ k Hf2) as [Hx ?].
    - rewrite !elem_of_cons in *. tauto.
    - split; [|done]. intros Hs. by apply Hx, Hev1. }
  assert (Forall (held s2) [rnr; bl; br]) as Hh2 by (apply Forall_forall; intros k Hin; by apply Hfr).
  destruct (root_children_ok root 1 med bl br) as (r1 & r2 & F1 & F2 & Hr0); [apply Hlh| | |].
  { apply (held_width s2 (1 + m) bl Hr2). apply Hfr. right. by left. }
  { apply (held_width s2 (1 + m) br Hr2). apply Hfr. do 2 right. by left. }
  mstep F1. mstep F2.
  destruct (split_insert fuel s2 q1 lo hi rnr med r2 bl br b1 b2 key value kind mode m)
    as (s' & q' & t' & E & Hok & Hshape & Hcon & Hown & Hbl & Hev & Hq' & Hr' & Hpa); [| |done|done|done|done|done| |lia|done|done|].
  { by eapply leaf_halves_forest. }
  { destruct Hf2 as [Hd _]. rewrite !NoDup_cons, !elem_of_cons in *. intuition congruence. }
  { apply Hlh. }
  exists s', q', t'. split_and!; [exact E| |done]. split; [done| | |done| | |lia|by intros _ _].
  - right. split; [done|]. destruct Hshape as (l & r & ->). by do 4 eexists.
  - intros k. rewrite (Hcon k). cbn [content choose]. by rewrite (lh_view _ _ _ _ _ _ _ _ _ _ _ _ Hlh).
  - intros k Hin. right. apply Hbl in Hin as [Hin|Hin]; [by apply Hfr|]. intros Hs. by apply Hin, Hev2, Hev1.
  - eapply evolves_nowhere; [exact Hev1|]. eapply evolves_trans; [exact Hev2|exact Hev| |].
    + intros k Hs [[]|Hin]. exfalso. destruct (fresh_not_held _ _ _ k Hf2) as [Hx _]; [|done].
      rewrite !elem_of_cons in *. tauto.
    + intros k Hs [[]| <-]. destruct (fresh_not_held _ _ _ rnr Hf2) as [Hx Hx2]; [rewrite !elem_of_cons; tauto|].
      by apply (fresh_not_fixed s1 s2 rnr (ev_chain _ _ _ _ Hev2)) in Hs.
Qed.

(** [tree_insert] with [fuel] is right on trees of height [h]. *)
Definition inserts (fuel h : nat) : Prop :=
  ∀ s q lo hi t key value kind mode m,
    tree_ok h s q lo hi t → owned s t → sortable_wf key → within lo hi key →
    0 ≤ q → q + 2 < 2 ^ 64 - 1 → room s (4 * (Z.of_nat h + 1) + m) → 0 ≤ m →
    ∃ s' q' h' t', tree_insert fuel (t_nr t) key value kind mode (s, q) = (Ok (t_nr t'), (s', q')) ∧
      inserted mode s q h lo hi t key (leaf_entry key kind value) s' q' h' t' ∧ room s' m.

Lemma inserts_leaf fuel : inserts (S (S fuel)) 0.
Proof using All.
  intros s q lo hi [nr bs|] key value kind mode m Ht [_ Hh] Hwk Hk Hq0 Hq Hr Hm; [|by destruct Ht].
  apply Forall_cons_1 in Hh as [Hh _]. change (4 * (Z.of_nat 0 + 1) + m) with (4 + m) in Hr.
  destruct (decide (absorbs bs key = true ∨ (total_entries bs < MAX_ENTRIES)%nat)) as [Hfit|Hfull].
  - destruct (tree_insert_leaf (S fuel) s q lo hi nr bs key value kind mode m Ht Hh Hwk Hk Hfit)
      as (nr' & s' & q' & bs' & E & Hi & _ & Hr'); [lia|eapply room_weaken; [done|lia]|done|].
    by exists s', q', 0%nat, (TLeaf nr' bs').
  - cbn [t_nr]. remember (S fuel) as f eqn:Ef. cbn [tree_insert]. subst f.
    destruct (node_level_ok 0 s q lo hi (TLeaf nr bs) (4 + m) Ht Hr) as (s1 & E1 & Hev1 & Hr1). mstep E1.
    cbn [Z.of_nat Z.eqb].
    destruct (insert_leaf_splits fuel s1 q lo hi nr bs key value kind mode m) as (s' & q' & t' & E & Hi & Hr');
      [|by apply Hev1|done|done| | |done|done|done|done|].
    { eapply tree_ok_quiet; [exact Hev1|by apply Forall_singleton|done]. }
    { destruct (absorbs bs key); [|done]. exfalso. apply Hfull. by left. }
    { destruct (decide (MAX_ENTRIES ≤ total_entries bs)%nat); [done|]. exfalso. apply Hfull. right. lia. }
    exists s', q', 1%nat, t'. split_and!; [done| |done]. by eapply inserted_before.
Qed.

(** After the recursive call, [insert_internal] relinks or promotes. *)
Lemma insert_relinks {s q h lo hi nr ks ch key ks1 ks2 ch1 c ch2 lo' hi'} n e mode s' q' h' c' m :
  descent s q h lo hi nr ks ch key ks1 ks2 ch1 c ch2 lo' hi' →
  loads s nr n → cached s nr → inode n (Z.of_nat (S h)) ks (t_nr <$> ch) → (S h ≤ 52)%nat →
  inserted mode s q h lo' hi' c key e s' q' h' c' → room s' (4 + m) → 0 ≤ m →
  ∃ s'' h'' t',
    (new_child_level ← on_store (node_level (t_nr c'));
     if Z.of_nat h <? new_child_level then
       '(median_key, lchild, rchild) ← on_store (with_node (t_nr c') median_of);
       old_node ← on_store (with_node nr clone_to_heap);
       on_store (promote_to_parent old_node (length ch1) median_key lchild rchild)
     else if t_nr c' =? t_nr c then mret nr
     else on_store (cow_child nr (length ch1) (t_nr c'))) (s', q') = (Ok (t_nr t'), (s'', q')) ∧
    inserted mode s q (S h) lo hi (TNode nr ks ch) key e s'' q' h'' t' ∧ room s'' m.
Proof using All.
  intros Hds Hl Hca Hn Hht Hi Hr Hm. pose proof (ds_focus Hds) as Hfo. destruct (ds_rest_held Hds) as [Hnr _].
  assert (∀ s2, evolves nowhere s' s2 → loads s2 nr n ∧ held s2 nr) as Hload.
  { intros s2 Hev. pose proof (inserted_ev _ _ _ _ _ _ _ Hi Hev) as HevW. split; [|by apply HevW].
    eapply (ds_parent_loads Hds); [exact HevW|by intros k [_ ?]|done]. }
  pose proof (is_ok _ _ _ _ _ _ _ _ _ _ _ _ _ Hi) as Hok'. destruct (is_owned _ _ _ _ _ _ _ _ _ _ _ _ _ Hi) as [Hnd' Hh'].
  destruct (node_level_ok h' s' q' lo' hi' c' (4 + m) Hok' Hr) as (s1 & E1 & Hev1 & Hr1). mstep E1.
  destruct (is_height _ _ _ _ _ _ _ _ _ _ _ _ _ Hi) as [->|(-> & cn & med & l & r & ->)].
  - rewrite Z.ltb_irrefl. destruct (Z.eqb_spec (t_nr c') (t_nr c)) as [Heq|Hne].
    + exists s1, (S h), (TNode nr ks (ch1 ++ c' :: ch2)). split_and!; [done| |eapply room_weaken; [done|lia]].
      eapply (finish_one Hds); [exact Hi|done| |by apply Hload|by apply Hev1, Hi|by left].
      exists n. split; [by apply Hload|]. rewrite <- (focus_nrs c' Hfo), Heq.
      rewrite list_insert_id; [done|]. by rewrite list_lookup_fmap, (fo_ch Hfo), list_lookup_middle.
    + destruct (Hload s1 Hev1) as [Hl1 Hh1].
      destruct (cow_child_ok s1 nr n _ ks (t_nr <$> ch) (length ch1) (t_nr c') m Hl1 Hn Hh1)
        as (nb & s2 & E2 & Hev2 & Hr2 & Hf2 & Hca2 & Hn2).
      { rewrite length_fmap, (fo_ch Hfo), length_app. cbn. lia. }
      { apply (held_width s1 (4 + m) _ Hr1), Hev1. rewrite Forall_forall in Hh'. apply Hh', t_nr_blocks. }
      { eapply room_weaken; [done|lia]. }
      { done. }
      exists s2, (S h), (TNode nb ks (ch1 ++ c' :: ch2)). split_and!; [by apply on_store_ok| |done].
      destruct (fresh_not_held _ _ _ nb Hf2) as [Fn1 Fn2]; [by left|].
      rewrite (focus_nrs c' Hfo) in Hn2.
      eapply (finish_one Hds); [exact Hi|by eapply evolves_nowhere|done|done|done|].
      right. intros Hs. by apply Fn1, Hev1.
  - rewrite (proj2 (Z.ltb_lt _ _)) by lia.
    assert (∃ n', loads s1 cn n' ∧ inode n' (Z.of_nat (S h)) [med] [t_nr l; t_nr r]) as (n' & Hl' & Hn').
    { destruct Hok' as (_ & (n' & Hl' & Hn') & _). exists n'. split; [|done].
      apply Hev1; [|by intros []|done]. by apply Forall_cons_1 in Hh' as [? _]. }
    cbn [t_nr]. destruct (with_node_ev s1 cn n' median_of (4 + m) Hl' Hr1) as (s2 & E2 & Hev2 & Hr2 & _).
    rewrite (median_of_ok n' _ _ _ _ Hn') in E2. mstep E2.
    destruct (Hload s2) as [Hl2 Hh2]; [by eapply evolves_nowhere|].
    destruct (with_node_ev s2 nr n clone_to_heap (4 + m) Hl2 Hr2) as (s3 & E3 & Hev3 & Hr3 & _). mstep E3.
    destruct (promote_ok n (Z.of_nat (S h)) ks (t_nr <$> ch) (length ch1) med (t_nr l) (t_nr r) s3 m Hn)
      as (nb & s4 & E4 & Hev4 & Hr4 & Hp).
    { rewrite (fo_ks Hfo), length_app, (fo_len1 Hfo). lia. }
    { apply Hds. }
    { lia. }
    { by apply (inode_key _ _ _ _ 0 med Hn'). }
    { by apply (inode_child _ _ _ _ 0 _ Hn'). }
    { by apply (inode_child _ _ _ _ 1 _ Hn'). }
    { done. }
    { done. }
    destruct (promoted_columns Hds med l r) as [EK EC]. rewrite EK, EC in Hp.
    destruct (finish_two Hds mode e s' q' s3 s4 cn med l r nb Hi) as (h'' & t' & <- & Hi'); [|done|done|].
    { by eapply evolves_nowhere; [|eapply evolves_nowhere]. }
    exists s4, h'', t'. split_and!; [by apply on_store_ok|done|done].
Qed.

Lemma inserts_node fuel h : inserts fuel h → inserts (S fuel) (S h).
Proof using All.
  intros IH s q lo hi t key value kind mode m Ht Ho Hwk Hk Hq0 Hq Hr Hm.
  destruct t as [|nr ks ch]; [by destruct Ht|]. pose proof (height_bound _ _ _ _ _ _ _ Ht Ho Hr) as Hht.
  cbn [tree_insert t_nr].
  destruct (node_level_ok _ s q lo hi (TNode nr ks ch) _ Ht Hr) as (s1 & E1 & Hev1 & Hr1). mstep E1.
  destruct (Z.eqb_spec (Z.of_nat (S h)) 0) as [?|_]; [lia|]. unfold insert_internal.
  pose proof (tree_ok_quiet _ _ _ _ _ _ _ Hev1 (proj2 Ho) Ht) as Ht1. pose proof (owned_evolves _ _ _ _ _ Hev1 Ho) as Ho1.
  pose proof (node_seps_sorted _ _ _ _ _ _ _ _ Ht1) as [Hs _].
  pose proof Ht1 as (Hb & (n & Hl & Hn) & Hlen & HF).
  destruct (descent_intro s1 q h lo hi nr ks ch key HF (proj1 Ho1) (proj2 Ho1) Hlen Hb Hk)
    as (ks1 & ks2 & ch1 & c & ch2 & lo' & hi' & Hds1).
  destruct (with_node_ev s1 nr n (descend key) _ Hl Hr1) as (s2 & E2 & Hev2 & Hr2 & Hca2).
  rewrite (descend_focus n _ _ _ _ _ _ _ _ _ _ _ _ _ Hn Hs (ds_focus Hds1)) in E2. mstep E2.
  destruct (node_level_ok h s2 q lo' hi' c _ (tree_ok_quiet _ _ _ _ _ _ _ Hev2 (proj2 (ds_child_owned Hds1)) (ds_child Hds1)) Hr2)
    as (s3 & E3 & Hev3 & Hr3). mstep E3.
  pose proof (evolves_nowhere _ _ _ _ _ Hev2 Hev3) as Hev13.
  assert (descent s3 q h lo hi nr ks ch key ks1 ks2 ch1 c ch2 lo' hi') as Hds.
  { destruct Hds1. split; [done| |by eapply owned_evolves|done| | |done|done].
    - eapply tree_ok_quiet; [exact Hev13|apply ds_child_owned0|done].
    - eapply Forall_impl; [done|apply Hev13].
    - eapply forest_mono; [|done]. intros l u x Hx. eapply tree_ok_quiet; [exact Hev13|].
      destruct Ho1 as [_ Hh1]. cbn [blocks] in Hh1. apply Forall_cons_1 in Hh1 as [_ Hh1]. apply Forall_forall.
      intros k Hk'. rewrite Forall_forall in Hh1. by apply Hh1, (blocks_child x). }
  destruct (IH s3 q lo' hi' c key value kind mode (4 + m) (ds_child Hds) (ds_child_owned Hds) Hwk (fo_range (ds_focus Hds)) Hq0 Hq)
    as (s4 & q' & h' & c' & E4 & Hi & Hr4); [eapply room_weaken; [exact Hr3|lia]|lia|].
  mstep E4.
  assert (loads s3 nr n) as Hl3.
  { apply Hev13; [|by intros []|done]. apply (ds_rest_held Hds1). }
  destruct (insert_relinks n _ mode s4 q' h' c' m Hds Hl3 (ev_cached _ _ _ _ Hev3 _ Hca2) Hn Hht Hi Hr4 Hm) as (s5 & h'' & t' & E5 & Hi' & Hr5).
  exists s5, q', h'', t'. split_and!; [exact E5| |done].
  eapply inserted_before; [|exact Hi']. by eapply evolves_nowhere.
Qed.

Lemma tree_insert_ok fuel h : (h + 1 < fuel)%nat → inserts fuel h.
Proof using All.
  revert fuel. induction h as [|h IH]; intros [|[|fuel]] Hf; try lia.
  - apply inserts_leaf.
  - apply inserts_node, IH. lia.
Qed.
End insertion.

(** ** Kind flips *)
Section flips.
Context {D : Type} `{!BlockDevice D} `{!BlockDeviceLaws D} `{!BlockDeviceTotal D} `{!Crc32} `{!Crc32Range}.
Implicit Types s : BlockStore D.

(** [flip_kind_in_place] with [fuel] is right on trees of height [h]. *)
Definition flips (fuel h : nat) : Prop :=
  ∀ s q lo hi t key kind e mode m,
    tree_ok h s q lo hi t → owned s t → within lo hi key → content t key = Some e → kind ≠ Whiteout →
    room s (Z.of_nat h + 1 + m) → 0 ≤ m →
    ∃ s' t', flip_kind_in_place fuel (t_nr t) key kind mode s = (Ok (t_nr t'), s') ∧
      inserted mode s q h lo hi t key (set_kind kind e) s' q h t' ∧ room s' m ∧
      (mode = InPlace → t_nr t' = t_nr t).

Lemma flips_leaf fuel : flips (S fuel) 0.
Proof using All.
  intros s q lo hi [nr bs|] key kind e mode m Ht [_ Hh] Hk He Hkind Hr Hm; [|by destruct Ht].
  apply Forall_cons_1 in Hh as [Hh _]. cbn [flip_kind_in_place t_nr].
  destruct (node_level_ok 0 s q lo hi (TLeaf nr bs) _ Ht Hr) as (s1 & E1 & Hev1 & Hr1). mstep E1.
  change (Z.of_nat 0 =? 0) with true. cbn iota.
  destruct Ht as (Hb & (n & Hl & Hn) & Hrng).
  destruct (flip_ok n bs q key e kind Hn He Hkind) as (n' & bs' & Ef & Hok & _ & Hw).
  assert (∀ k x, view bs' k = Some x → within lo hi k) as Hrng'.
  { intros k x. rewrite Hw. case_decide; [by intros _; subst|]. apply Hrng. }
  assert (loads s1 nr n) as Hl1 by (by apply Hev1; [|intros []|]).
  destruct mode.
  - destruct (with_node_mut_ev s1 nr n n' tt (λ leaf, leaf ← flip key kind leaf; Ok (leaf, tt)) _ Hl1
      ltac:(cbn beta; by rewrite Ef) Hr1) as (s2 & E2 & Hev2 & Hr2 & Hl2 & _).
    mstep E2. exists s2, (TLeaf nr bs'). split_and!; [done| |eapply room_weaken; [done|lia]|done].
    apply (inserted_before InPlace s s1); [done|]. split; [|by left|done| |by intros k; left| |lia|intros _ _; apply paths_leaf].
    + split; [done|]. split; [eauto|done].
    + split; [apply NoDup_singleton|]. apply Forall_singleton. by apply Hev2, Hev1.
    + eapply evolves_weaken; [exact Hev2|intros k _ <-; split; [done|by left]|by intros k _ []].
  - destruct (alloc_ev s1 m) as (nb & s2 & E2 & Hev2 & Hr2 & Hnb & Hh2); [eapply room_weaken; [done|lia]|done|]. mstep E2.
    destruct (with_node_ev s2 nr n clone_to_heap m) as (s3 & E3 & Hev3 & Hr3 & _);
      [by apply Hev2; [apply Hev1|intros []|]|done|].
    mstep E3. mstep Ef. assert (evolves nowhere s1 s3) as Hev by (by eapply evolves_nowhere).
    assert (fresh s1 s3 [nb]) as Hf.
    { apply (fresh_mono s1 s2 s3); [|apply Hev3].
      eapply (fresh_snoc nowhere s1 s1 s2 []); [apply evolves_refl|apply fresh_nil|done|done|apply Hev2]. }
    destruct (write_fresh s1 s3 nb n' m [nb] Hev Hf) as (s4 & E4 & Hev4 & Hr4 & Hl4 & Hm4 & _);
      [by left|by eapply leaf_sound|done|].
    mstep E4. exists s4, (TLeaf nb bs'). split_and!; [done| |done|done].
    destruct (fresh_not_held _ _ _ nb Hf) as [Hn1 Hn2]; [by left|].
    apply (inserted_before Cow s s1); [done|]. split; [|by left|done| | | |lia|intros _ _; apply paths_leaf].
    + split; [done|]. split; [|done]. eexists. split; [done|by apply leaf_stamp].
    + split; [apply NoDup_singleton|]. apply Forall_singleton. by apply Hm4.
    + intros k Hk'%list_elem_of_singleton. subst k. by right.
    + eapply evolves_weaken; [exact Hev4|by intros k _ []..].
Qed.

Lemma flips_node fuel h : flips fuel h → flips (S fuel) (S h).
Proof using All.
  intros IH s q lo hi t key kind e mode m Ht Ho Hk He Hkind Hr Hm.
  destruct t as [|nr ks ch]; [by destruct Ht|]. cbn [flip_kind_in_place t_nr].
  destruct (node_level_ok _ s q lo hi (TNode nr ks ch) _ Ht Hr) as (s1 & E1 & Hev1 & Hr1). mstep E1.
  destruct (Z.eqb_spec (Z.of_nat (S h)) 0) as [?|_]; [lia|].
  pose proof (tree_ok_quiet _ _ _ _ _ _ _ Hev1 (proj2 Ho) Ht) as Ht1. pose proof (owned_evolves _ _ _ _ _ Hev1 Ho) as Ho1.
  pose proof (node_seps_sorted _ _ _ _ _ _ _ _ Ht1) as [Hs _].
  pose proof Ht1 as (_ & (n & Hl & Hn) & _ & _).
  destruct (with_node_ev s1 nr n (descend key) _ Hl Hr1) as (s2 & E2 & Hev2 & Hr2 & Hca2).
  pose proof (tree_ok_quiet _ _ _ _ _ _ _ Hev2 (proj2 Ho1) Ht1) as Ht2. pose proof (owned_evolves _ _ _ _ _ Hev2 Ho1) as Ho2.
  assert (loads s2 nr n) as Hl2.
  { apply Hev2; [|by intros []|done]. destruct Ho1 as [_ Hh1]. by apply Forall_cons_1 in Hh1 as [? _]. }
  pose proof Ht2 as (Hb & _ & Hlen & HF).
  destruct (descent_intro s2 q h lo hi nr ks ch key HF (proj1 Ho2) (proj2 Ho2) Hlen Hb Hk)
    as (ks1 & ks2 & ch1 & c & ch2 & lo' & hi' & Hds).
  pose proof (ds_focus Hds) as Hfo.
  rewrite (descend_focus n _ _ _ _ _ _ _ _ _ _ _ _ _ Hn Hs Hfo) in E2. mstep E2.
  destruct (IH s2 q lo' hi' c key kind e mode (1 + m) (ds_child Hds) (ds_child_owned Hds) (fo_range Hfo))
    as (s3 & c' & E3 & Hi & Hr3 & Hnr); [|done|eapply room_weaken; [exact Hr2|lia]|lia|].
  { cbn [content] in He. rewrite choose_route in He by (by apply forest_length in HF).
    rewrite (fo_route Hfo), (fo_ch Hfo), list_lookup_middle in He by done. exact He. }
  mstep E3. destruct (ds_rest_held Hds) as [Hhn _].
  assert (loads s3 nr n) as Hl3.
  { eapply (ds_parent_loads Hds); [apply Hi|by intros k [_ ?]|done]. }
  assert (held s3 nr) as Hh3 by (by apply (is_ev _ _ _ _ _ _ _ _ _ _ _ _ _ Hi)).
  destruct mode.
  - exists s3, (TNode nr ks (ch1 ++ c' :: ch2)). split_and!; [done| |eapply room_weaken; [done|lia]|done].
    apply (inserted_before InPlace s s2); [by eapply evolves_nowhere|].
    eapply (finish_one Hds); [exact Hi|apply evolves_refl| |done|by apply Hi|by left].
    exists n. split; [done|]. rewrite <- (focus_nrs c' Hfo), Hnr by done.
    rewrite list_insert_id; [done|]. by rewrite list_lookup_fmap, (fo_ch Hfo), list_lookup_middle.
  - destruct (cow_child_ok s3 nr n _ ks (t_nr <$> ch) (length ch1) (t_nr c') m Hl3 Hn Hh3)
      as (nb & s4 & E4 & Hev4 & Hr4 & Hf4 & Hca4 & Hn4).
    { rewrite length_fmap, (fo_ch Hfo), length_app. cbn. lia. }
    { destruct (is_owned _ _ _ _ _ _ _ _ _ _ _ _ _ Hi) as [_ Hh']. rewrite Forall_forall in Hh'.
      apply (held_width s3 (1 + m) _ Hr3), Hh', t_nr_blocks. }
    { done. }
    { done. }
    exists s4, (TNode nb ks (ch1 ++ c' :: ch2)). split_and!; [done| |done|done].
    destruct (fresh_not_held _ _ _ nb Hf4) as [Fn1 Fn2]; [by left|]. rewrite (focus_nrs c' Hfo) in Hn4.
    apply (inserted_before Cow s s2); [by eapply evolves_nowhere|].
    eapply (finish_one Hds); [exact Hi|exact Hev4|done|done|done|by right].
Qed.

Lemma flip_kind_in_place_ok fuel h : (h < fuel)%nat → flips fuel h.
Proof using All.
  revert fuel. induction h as [|h IH]; intros [|fuel] Hf; try lia.
  - apply flips_leaf.
  - apply flips_node, IH. lia.
Qed.
End flips.
