(* ===== verification/BtreeSpec.v ===== *)
(** * BtreeSpec: the B-tree refines a map from versioned keys to rows.

    [amap] is the abstract state: versioned key to value and kind. The methods of
    [Btree] and [Tx] are shown to return and to act on the map as the abstract
    operations [a_put] and [a_delete] do; lookups and scans read it. A transaction
    applies all of its writes or none, and replaying the write log reaches a map
    that no lookup can tell from the original. *)
From Stdlib Require Import Strings.Byte.
From stdpp Require Import base list numbers gmap sorting.
From S2P Require Import Prelude Device BlockBtree NodeRep Merge Storage Journal StoreSpec Heap Btree Leaf Internal Tree TreeRead TreeWrite.
#[local] Open Scope rfs_scope.
#[local] Open Scope Z_scope.

(** ** The abstract map *)
Abbreviation row := (list byte * EntryKind)%type.
Definition amap : Type := list byte → option row.

Definition a_put (key : list byte) (kind : EntryKind) (value : list byte) (m : amap) : amap := λ k,
  if decide (k = key) then Some (take MAX_VALUE_SIZE value, kind) else m k.
Definition a_flip (key : list byte) (kind : EntryKind) (m : amap) : amap := λ k,
  if decide (k = key) then (λ r, (r.1, kind)) <$> m k else m k.

Definition a_find (m : amap) (key : list byte) : option (list byte) :=
  match m key with Some (v, Live) => Some v | _ => None end.

(** The first version on the chain decides. *)
Fixpoint a_visible (m : amap) (logical : list byte) (chain : list Z) : option (list byte * Z) :=
  match chain with
  | [] => None
  | s :: chain =>
      match m (versioned logical s) with
      | None => a_visible m logical chain
      | Some (v, Live) => Some (v, s)
      | Some (_, _) => None
      end
  end.

Definition a_delete (logical : list byte) (snap : Z) (chain : list Z) (m : amap) : bool * amap :=
  match a_visible m logical chain with
  | None => (false, m)
  | Some (_, s) =>
      if decide (s = snap) then (true, a_flip (versioned logical snap) Deleted m)
      else (true, a_put (versioned logical snap) Whiteout [] m)
  end.

(** A write that costs at most this many blocks. *)
Definition OP_BLOCKS : Z := 216.

Section models.
Context {D : Type} `{!BlockDevice D} `{!BlockDeviceLaws D} `{!BlockDeviceTotal D} `{!Crc32} `{!Crc32Range}.
Implicit Types s : BlockStore D.

(** Root block [root] carries tree [t], in a store whose cache a checkpoint can
    rely on. *)
Record tree_at s q (root : Z) (h : nat) (t : tree) : Prop := {
  ta_ok : tree_ok h s q None None t;
  ta_root : t_nr t = root;
  ta_owned : owned s t;
  ta_paths : paths s t;
  ta_store : store_ok s;
}.

Lemma tree_at_evolves W V s s' q q' root h t :
  evolves2 W V s s' → (∀ k, k ∈ blocks t → ¬ W k) → q ≤ q' → tree_at s q root h t → tree_at s' q' root h t.
Proof.
  intros Hev HW Hq [Hok Hr Ho Hp Hs]. split; [|done|by eapply owned_evolves| |by apply Hev].
  - eapply tree_ok_evolves; [exact Hev|apply Ho|done|done|done].
  - eapply paths_evolves; [exact Hev|apply Ho|done|done].
Qed.

Definition models s q (root : Z) (m : amap) : Prop :=
  ∃ h t, tree_at s q root h t ∧ ∀ k, m k = row_of <$> content t k.

Lemma forest_each {A} (R : bound → bound → A → Prop) lo ks hi ch : forest R lo ks hi ch → Forall (λ c, ∃ l u, R l u c) ch.
Proof.
  revert lo ks. induction ch as [|c ch IH]; intros lo [|k ks]; cbn [forest]; try done; intros [H1 H2].
  - subst ch. constructor; [eauto|done].
  - constructor; [eauto|]. by eapply IH.
Qed.

(** A block carries one tree. *)
Lemma tree_ok_blocks h s q q' lo hi lo' hi' t h' t' :
  tree_ok h s q lo hi t → tree_ok h' s q' lo' hi' t' → t_nr t = t_nr t' → blocks t = blocks t'.
Proof.
  revert lo hi lo' hi' t h' t'. induction h as [|h IH]; intros lo hi lo' hi' [nr bs|nr ks ch] h' t' Ht Ht' E;
    cbn [tree_ok] in Ht; try tauto; destruct h' as [|h'], t' as [nr' bs'|nr' ks' ch']; cbn [tree_ok] in Ht'; try tauto;
    destruct Ht as (_ & (n & Hl & Hn) & Hch), Ht' as (_ & (n' & Hl' & Hn') & Hch'); cbn [t_nr] in E; subst nr';
    pose proof (loads_inj _ _ _ _ Hl Hl') as <-.
  - done.
  - pose proof (lo_level _ _ _ Hn). destruct (inode_level _ _ _ _ Hn'). lia.
  - pose proof (lo_level _ _ _ Hn'). destruct (inode_level _ _ _ _ Hn). lia.
  - pose proof (inode_children _ _ _ _ Hn) as C. rewrite (inode_children _ _ _ _ Hn') in C. injection C as C.
    cbn [blocks]. do 2 f_equal. destruct Hch as [_ Hf%forest_each], Hch' as [_ Hf'%forest_each]. clear - IH C Hf Hf'.
    revert ch' C Hf'. induction Hf as [|c ch (lo & hi & Hc) _ IHch]; intros [|c' ch'] C Hf'; try done.
    injection C as C1 C2. apply Forall_cons in Hf' as [(lo' & hi' & Hc') Hf']. cbn [map]. f_equal; [by eapply IH|by apply IHch].
Qed.

(** The blocks of the tree at a root. *)
Definition node_at s (root k : Z) : Prop := ∃ q h t, tree_at s q root h t ∧ k ∈ blocks t.
Lemma node_at_tree s q root h t k : tree_at s q root h t → node_at s root k ↔ k ∈ blocks t.
Proof.
  intros Ht. split; [|by intros Hk; exists q, h, t]. intros (q' & h' & t' & Ht' & Hk).
  rewrite (tree_ok_blocks _ _ _ _ _ _ _ _ _ _ _ (ta_ok _ _ _ _ _ Ht) (ta_ok _ _ _ _ _ Ht')); [done|].
  by rewrite (ta_root _ _ _ _ _ Ht), (ta_root _ _ _ _ _ Ht').
Qed.

(** From root to root, a tree grows only into blocks that were free. *)
Definition spread s root s' root' : Prop := ∀ k, node_at s' root' k → node_at s root k ∨ ¬ held s k.
Lemma spread_refl s root : spread s root s root.
Proof. by left. Qed.
Lemma spread_trans s1 r1 s2 r2 s3 r3 :
  spread s1 r1 s2 r2 → spread s2 r2 s3 r3 → (∀ k, held s1 k → held s2 k) → spread s1 r1 s3 r3.
Proof. intros H1 H2 Hh k [Hk|Hk]%H2; [by apply H1|]. right. auto. Qed.
Lemma spread_trees s q root h t s' q' root' h' t' :
  tree_at s q root h t → tree_at s' q' root' h' t' → (∀ k, k ∈ blocks t' → k ∈ blocks t ∨ ¬ held s k) → spread s root s' root'.
Proof.
  intros Ht Ht' Hb k Hk. apply (node_at_tree _ _ _ _ _ _ Ht'), Hb in Hk as [Hk|Hk]; [left|by right].
  by apply (node_at_tree _ _ _ _ _ _ Ht).
Qed.
(** A tree that stays. *)
Lemma spread_still s q root h t s' q' : tree_at s q root h t → tree_at s' q' root h t → spread s root s' root.
Proof. intros Ht Ht'. eapply spread_trees; [done|done|by left]. Qed.

(** Blocks and seqs for [n] more writes. *)
Record budget s q (n : Z) : Prop := {
  bu_room : room s (OP_BLOCKS * n);
  bu_n : 0 ≤ n;
  bu_q : 0 ≤ q ∧ q + 2 * n < 2 ^ 64 - 1;
}.

Lemma height_fuel h s q lo hi t m : tree_ok h s q lo hi t → owned s t → room s m → (h + 1 < TREE_FUEL)%nat.
Proof. intros Ht Ho Hr. pose proof (height_bound h s q lo hi t m Ht Ho Hr). unfold TREE_FUEL. lia. Qed.

Lemma row_of_leaf_entry key kind value : row_of (leaf_entry key kind value) = (take MAX_VALUE_SIZE value, kind).
Proof. unfold row_of. by rewrite leaf_entry_value, leaf_entry_kind. Qed.

Lemma row_of_set_kind kind e : row_of (set_kind kind e) = (value_of e, kind).
Proof. unfold row_of. by rewrite kind_enum_set. Qed.

(** What an insertion through either write mode promises about the store. *)
Record stepped (mode : WriteMode) s q s' q' : Prop := {
  sp_q : q ≤ q';
  sp_frozen : frozen s s';
  sp_other root h t : mode = Cow → tree_at s q root h t → tree_at s' q' root h t;
}.

Lemma inserted_stepped mode s q h lo hi t key e s' q' h' t' :
  inserted mode s q h lo hi t key e s' q' h' t' → stepped mode s q s' q'.
Proof.
  intros Hi. split; [apply Hi|eapply evolves_frozen, Hi|]. intros root h0 t0 ->.
  eapply tree_at_evolves; [apply Hi|by intros k _ [? _]|apply Hi].
Qed.

Lemma inserted_tree_at mode s q root h t key e s' q' h' t' :
  inserted mode s q h None None t key e s' q' h' t' → tree_at s q root h t → tree_at s' q' (t_nr t') h' t'.
Proof.
  intros Hi [_ _ Ho Hp Hs]. split; [apply Hi|done|apply Hi| |by apply (is_ev _ _ _ _ _ _ _ _ _ _ _ _ _ Hi)].
  eapply is_paths; [exact Hi|apply Ho|done].
Qed.

Lemma insert_models s q root m key value kind mode n :
  models s q root m → budget s q (1 + n) → sortable_wf key → 0 ≤ n →
  ∃ root' s' q', tree_insert TREE_FUEL root key value kind mode (s, q) = (Ok root', (s', q')) ∧
    models s' q' root' (a_put key kind value m) ∧ budget s' q' n ∧ stepped mode s q s' q' ∧ spread s root s' root'.
Proof using All.
  intros (h & t & Ht & Hm) [Hr _ Hq] Hwk Hn. pose proof Ht as [Hok <- Ho _ _]. unfold OP_BLOCKS in *.
  pose proof (height_fuel _ _ _ _ _ _ _ Hok Ho Hr) as Hfuel. pose proof (height_bound _ _ _ _ _ _ _ Hok Ho Hr) as Hh.
  destruct (tree_insert_ok TREE_FUEL h Hfuel s q None None t key value kind mode (216 * n))
    as (s' & q' & h' & t' & E & Hi & Hr'); [done|done|done|done|lia|lia| |lia|].
  { eapply room_weaken; [exact Hr|lia]. }
  exists (t_nr t'), s', q'. pose proof (is_q _ _ _ _ _ _ _ _ _ _ _ _ _ Hi).
  pose proof (inserted_tree_at _ _ _ _ _ _ _ _ _ _ _ _ Hi Ht) as Ht'.
  split_and!; [done| |split; [done|done|lia]|by eapply inserted_stepped|eapply spread_trees; [exact Ht|exact Ht'|apply Hi]].
  exists h', t'. split; [done|]. intros k. unfold a_put.
  rewrite (is_content _ _ _ _ _ _ _ _ _ _ _ _ _ Hi k). case_decide; [|apply Hm].
  cbn. by rewrite row_of_leaf_entry.
Qed.

Lemma flip_models s q root m key kind mode n :
  models s q root m → budget s q (1 + n) → is_Some (m key) → kind ≠ Whiteout → 0 ≤ n →
  ∃ root' s', flip_kind_in_place TREE_FUEL root key kind mode s = (Ok root', s') ∧
    models s' q root' (a_flip key kind m) ∧ budget s' q n ∧ stepped mode s q s' q ∧ spread s root s' root'.
Proof using All.
  intros (h & t & Ht & Hm) [Hr _ Hq] Hk Hkind Hn. pose proof Ht as [Hok <- Ho _ _]. unfold OP_BLOCKS in *.
  pose proof (height_bound _ _ _ _ _ _ _ Hok Ho Hr) as Hh. pose proof (height_fuel _ _ _ _ _ _ _ Hok Ho Hr) as Hfuel.
  rewrite Hm in Hk. destruct (content t key) as [e|] eqn:He; [|by destruct Hk].
  destruct (flip_kind_in_place_ok TREE_FUEL h ltac:(lia) s q None None t key kind e mode (216 * n))
    as (s' & t' & E & Hi & Hr' & _); [done|done|done|done|done| |lia|].
  { eapply room_weaken; [exact Hr|lia]. }
  pose proof (inserted_tree_at _ _ _ _ _ _ _ _ _ _ _ _ Hi Ht) as Ht'. exists (t_nr t'), s'.
  split_and!; [done| |split; [done|done|lia]|by eapply inserted_stepped|eapply spread_trees; [exact Ht|exact Ht'|apply Hi]].
  exists h, t'. split; [done|]. intros k. unfold a_flip.
  rewrite (is_content _ _ _ _ _ _ _ _ _ _ _ _ _ Hi k). case_decide as Hkey; [|apply Hm].
  subst k. rewrite Hm, He. cbn. by rewrite row_of_set_kind.
Qed.

(** Reads keep every tree. *)
Lemma same_heap_tree_at s s' q root h t : same_heap s s' → tree_at s q root h t → tree_at s' q root h t.
Proof.
  intros Hs. eapply tree_at_evolves; [by apply same_heap_evolves|by intros k _ []|lia].
Qed.

Lemma same_heap_models s s' q root m : same_heap s s' → models s q root m → models s' q root m.
Proof. intros Hs (h & t & Ht & Hm). exists h, t. split; [by eapply same_heap_tree_at|done]. Qed.

Lemma same_heap_spread s s' q root m : same_heap s s' → models s q root m → spread s root s' root.
Proof. intros Hs (h & t & Ht & _). eapply spread_still; [exact Ht|by eapply same_heap_tree_at]. Qed.

Lemma same_heap_budget s s' q n : same_heap s s' → budget s q n → budget s' q n.
Proof.
  intros Hs [(Ha & H0' & Hr) ? ?]. split; [|done|done]. split; [by eapply same_heap_alloc|].
  by rewrite (sh_next _ _ Hs).
Qed.

Lemma find_models s q root m key n :
  models s q root m → room s n →
  ∃ s', tree_find root key s = (Ok (a_find m key), s') ∧ same_heap s s'.
Proof using All.
  intros (h & t & [Hok <- Ho _ _] & Hm) Hr. pose proof (height_fuel _ _ _ _ _ _ _ Hok Ho Hr).
  destruct (find_raw_ok h s q None None t TREE_FUEL key Hok) as (s' & E & Hs); [lia|].
  exists s'. split; [|done]. unfold tree_find. rewrite (M_bind_ok _ _ _ _ _ E), <- Hm. unfold a_find.
  by destruct (m key) as [[v []]|].
Qed.

Lemma visible_models t m logical chain :
  (∀ k, m k = row_of <$> content t k) → visible (content t) logical chain = a_visible m logical chain.
Proof.
  intros Hm. induction chain as [|s chain IH]; cbn [visible a_visible]; [done|]. rewrite Hm.
  destruct (content t (versioned logical s)) as [e|]; [|done]. cbn. by destruct (kind_enum e).
Qed.

Lemma find_visible_models s q root m logical chain n :
  models s q root m → room s n → (length logical ≤ MAX_LOGICAL_KEY_SIZE)%nat →
  ascending chain → Forall (in_width 32) chain →
  ∃ s', find_visible_with_snap root logical chain s = (Ok (a_visible m logical chain), s') ∧ same_heap s s'.
Proof using All.
  intros (h & t & [Hok <- Ho _ _] & Hm) Hr Hl Hc Hw. pose proof (height_fuel _ _ _ _ _ _ _ Hok Ho Hr).
  rewrite <- (visible_models t m logical chain Hm). eapply find_visible_with_snap_ok; [done|lia|done|done|done].
Qed.
End models.

(** ** [Btree] methods *)
Section btree_models.
Context {D : Type} `{!BlockDevice D} `{!BlockDeviceLaws D} `{!BlockDeviceTotal D} `{!Crc32} `{!Crc32Range}.
Implicit Types bt : Btree D.

Record bt_models bt (m : amap) (n : Z) : Prop := {
  bm_models : models (store bt) (next_bset_seq bt) (root_block bt) m;
  bm_budget : budget (store bt) (next_bset_seq bt) n;
}.

Lemma bt_models_weaken bt m n n' : 0 ≤ n' ≤ n → bt_models bt m n → bt_models bt m n'.
Proof.
  intros Hn [Hm [Hr Hn0 Hq]]. split; [done|]. split; [eapply room_weaken; [exact Hr|unfold OP_BLOCKS; lia]|lia|lia].
Qed.

(** What only writes change. *)
Record same_log bt bt' : Prop := {
  sl_log : log bt' = log bt;
  sl_logging : logging bt' = logging bt;
  sl_frozen : frozen (store bt) (store bt');
  sl_spread : spread (store bt) (root_block bt) (store bt') (root_block bt');
}.
(** What writes keep. *)
Record kept bt bt' : Prop := {
  kp_logging : logging bt' = logging bt;
  kp_frozen : frozen (store bt) (store bt');
  kp_spread : spread (store bt) (root_block bt) (store bt') (root_block bt');
}.
Lemma same_log_kept bt bt' : same_log bt bt' → kept bt bt'.
Proof. by intros []. Qed.
Lemma kept_trans bt1 bt2 bt3 : kept bt1 bt2 → kept bt2 bt3 → kept bt1 bt3.
Proof. intros [] []. split; [congruence|by etransitivity|]. eapply spread_trans; [done|done|apply kp_frozen0]. Qed.
Lemma kept_refl bt : kept bt bt.
Proof. split; [done|done|apply spread_refl]. Qed.
Lemma same_log_refl bt : same_log bt bt.
Proof. split; [done|done|done|apply spread_refl]. Qed.
Lemma same_log_trans bt1 bt2 bt3 : same_log bt1 bt2 → same_log bt2 bt3 → same_log bt1 bt3.
Proof. intros [] []. split; [congruence|congruence|by etransitivity|]. eapply spread_trans; [done|done|apply sl_frozen0]. Qed.

(** A block that holds data: in use, and not a node of the tree. *)
Definition stored bt (nr : Z) (b : list byte) : Prop :=
  held (store bt) nr ∧ data_at (store bt) nr b ∧ ¬ node_at (store bt) (root_block bt) nr.
(** Code that touches no such block. *)
Definition shelters bt bt' : Prop := ∀ nr b, stored bt nr b → stored bt' nr b.
#[export] Instance shelters_preorder : PreOrder shelters.
Proof. split; [by intros bt nr b|]. intros bt1 bt2 bt3 H1 H2 nr b ?. auto. Qed.
Lemma kept_shelters bt bt' m n : bt_models bt m n → kept bt bt' → shelters bt bt'.
Proof.
  intros [_ [Hr _ _]] [_ [Hh _ Hd _ _] Hsp] nr b (H1 & H2 & H3). split; [by apply Hh|]. split.
  - apply Hd; [done|by eapply held_block_ok|done].
  - by intros [?|?]%Hsp.
Qed.

Lemma in_store_ok {A} (c : M (BlockStore D) error A) bt s' a :
  c (store bt) = (Ok a, s') → in_store c bt = (Ok a, set_store s' bt).
Proof. intros E. unfold in_store, zoom. by rewrite E. Qed.

Lemma in_store_seq_ok {A} (c : M (BlockStore D * Z) error A) bt p a :
  c (store bt, next_bset_seq bt) = (Ok a, p) → in_store_seq c bt = (Ok a, set_store_seq p bt).
Proof. intros E. unfold in_store_seq, zoom. by rewrite E. Qed.

Lemma read_models bt m n s' :
  same_heap (store bt) s' → bt_models bt m n → bt_models (set_store s' bt) m n ∧ same_log bt (set_store s' bt).
Proof.
  intros Hs []. split; [|split; [done|done|by apply same_heap_frozen|by eapply same_heap_spread]]. split; cbn [set_store store next_bset_seq root_block];
    [by eapply same_heap_models|by eapply same_heap_budget].
Qed.

Definition record_of (key : list byte) (snap : Z) (kind : EntryKind) (value : list byte) : LogRecord :=
  {| lr_sortable_key := versioned key snap; lr_kind := kind; lr_value := value |}.

(** The log after a write. *)
Definition logged bt (r : LogRecord) : list LogRecord := log bt ++ (if logging bt then [r] else []).

Lemma log_push_ok r bt :
  log (log_push r bt) = logged bt r ∧ logging (log_push r bt) = logging bt ∧
  store (log_push r bt) = store bt ∧ next_bset_seq (log_push r bt) = next_bset_seq bt ∧
  root_block (log_push r bt) = root_block bt.
Proof. unfold log_push, logged. destruct (logging bt) eqn:E; cbn; by rewrite ?app_nil_r, ?E. Qed.

Lemma insert_with_kind_ok bt m n key snap kind value :
  bt_models bt m (1 + n) → 0 ≤ n → (length key ≤ MAX_LOGICAL_KEY_SIZE)%nat →
  ∃ bt', insert_with_kind key snap kind value bt = (Ok tt, bt') ∧
    bt_models bt' (a_put (versioned key snap) kind value m) n ∧
    log bt' = logged bt (record_of key snap kind value) ∧ kept bt bt'.
Proof using All.
  intros [Hm Hb] Hn Hl. unfold insert_with_kind.
  destruct (insert_models _ _ _ m (versioned key snap) value kind InPlace n Hm Hb (versioned_wf key snap Hl) Hn)
    as (root' & s' & q' & E & Hm' & Hb' & Hst & Hsp).
  mstep (sortable_ok key snap Hl). rewrite gets_bind.
  mstep (in_store_seq_ok _ bt _ _ E).
  rewrite modify_bind.
  unfold modify. fold (record_of key snap kind value). eexists. split; [done|].
  edestruct (log_push_ok (record_of key snap kind value) (set_root root' (set_store_seq (s', q') bt)))
    as (E1 & E2 & E3 & E4 & E5).
  split_and!; [|exact E1|split; [exact E2|rewrite E3; apply Hst|by rewrite E3, E5]]. split; rewrite ?E3, ?E4, ?E5; done.
Qed.

Lemma a_visible_Some m logical chain v s :
  a_visible m logical chain = Some (v, s) → m (versioned logical s) = Some (v, Live) ∧ s ∈ chain.
Proof.
  induction chain as [|s0 chain IH]; cbn [a_visible]; [done|].
  destruct (m (versioned logical s0)) as [[v0 []]|] eqn:E; try done.
  - intros [= -> ->]. split; [done|by left].
  - intros H1. apply IH in H1 as [? ?]. split; [done|by right].
Qed.

Definition chain_ok (chain : list Z) : Prop := ascending chain ∧ Forall (in_width 32) chain.

Lemma budget_room s q n : budget (D := D) s q n → room s (OP_BLOCKS * n).
Proof. by intros []. Qed.

Lemma btree_find_visible_ok bt m n logical chain :
  bt_models bt m n → (length logical ≤ MAX_LOGICAL_KEY_SIZE)%nat → chain_ok chain →
  ∃ bt', btree_find_visible_with_snap logical chain bt = (Ok (a_visible m logical chain), bt') ∧
    bt_models bt' m n ∧ same_log bt bt'.
Proof using All.
  intros Hbt Hl [Hc Hw]. pose proof Hbt as [Hm Hb]. unfold btree_find_visible_with_snap.
  destruct (find_visible_models _ _ _ m logical chain _ Hm (budget_room _ _ _ Hb) Hl Hc Hw) as (s' & E & Hs).
  rewrite gets_bind. rewrite (in_store_ok _ bt s' _ E).
  eexists. split; [done|]. by apply read_models.
Qed.

Lemma find_at_ok bt m n key snap :
  bt_models bt m n → (length key ≤ MAX_LOGICAL_KEY_SIZE)%nat →
  ∃ bt', find_at key snap bt = (Ok (a_find m (versioned key snap)), bt') ∧ bt_models bt' m n ∧ same_log bt bt'.
Proof using All.
  intros Hbt Hl. pose proof Hbt as [Hm Hb]. unfold find_at.
  destruct (find_models _ _ _ m (versioned key snap) _ Hm (budget_room _ _ _ Hb)) as (s' & E & Hs).
  mstep (sortable_ok key snap Hl). rewrite gets_bind, (in_store_ok _ bt s' _ E).
  eexists. split; [done|]. by apply read_models.
Qed.

Lemma btree_find_visible_value_ok bt m n logical chain :
  bt_models bt m n → (length logical ≤ MAX_LOGICAL_KEY_SIZE)%nat → chain_ok chain →
  ∃ bt', btree_find_visible logical chain bt = (Ok (fst <$> a_visible m logical chain), bt') ∧
    bt_models bt' m n ∧ same_log bt bt'.
Proof using All.
  intros Hbt Hl [Hc Hw]. pose proof Hbt as [Hm Hb]. unfold btree_find_visible, find_visible.
  destruct (find_visible_models _ _ _ m logical chain _ Hm (budget_room _ _ _ Hb) Hl Hc Hw) as (s' & E & Hs).
  rewrite gets_bind. erewrite in_store_ok by (rewrite (M_bind_ok _ _ _ _ _ E); done).
  eexists. split; [done|]. by apply read_models.
Qed.

(** The log record a delete writes, if it writes one. *)
Definition delete_record (m : amap) (logical : list byte) (snap : Z) (chain : list Z) : option LogRecord :=
  match a_visible m logical chain with
  | None => None
  | Some (_, s) => Some (record_of logical snap (if decide (s = snap) then Deleted else Whiteout) [])
  end.

Lemma delete_at_ok bt m n logical snap chain :
  bt_models bt m (1 + n) → 0 ≤ n → (length logical ≤ MAX_LOGICAL_KEY_SIZE)%nat → chain_ok chain →
  ∃ bt', delete_at logical snap chain bt = (Ok (a_delete logical snap chain m).1, bt') ∧
    bt_models bt' (a_delete logical snap chain m).2 n ∧
    log bt' = from_option (logged bt) (log bt) (delete_record m logical snap chain) ∧ kept bt bt'.
Proof using All.
  intros Hbt Hn Hl Hc. unfold delete_at.
  destruct (btree_find_visible_ok bt m (1 + n) logical chain Hbt Hl Hc) as (bt1 & E1 & Hbt1 & Hsl). mstep E1.
  pose proof Hsl as [Hlog Hlg Hfz Hsp1]. assert (logged bt1 = logged bt) as Elg by (unfold logged; by rewrite Hlog, Hlg).
  unfold a_delete, delete_record. destruct (a_visible m logical chain) as [[v s]|] eqn:Ev; cbn [from_option fst snd].
  2: { exists bt1. split; [done|]. split; [|by split; [|apply same_log_kept]]. destruct Hbt1 as [? [? ? ?]]. split; [done|].
       split; [eapply room_weaken; [done|unfold OP_BLOCKS; lia]|done|lia]. }
  apply a_visible_Some in Ev as [Ev _]. destruct (Z.eqb_spec s snap) as [->|Hne].
  - rewrite !decide_True by done. destruct Hbt1 as [Hm Hb].
    destruct (flip_models _ _ _ m (versioned logical snap) Deleted InPlace n Hm Hb) as (root' & s' & E & Hm' & Hb' & Hst & Hsp);
      [by eexists|done|done|].
    edestruct (log_push_ok (record_of logical snap Deleted []) (set_root root' (set_store s' bt1)))
      as (F1 & F2 & F3 & F4 & F5).
    eexists. split.
    { unfold mbind at 1, M_bind at 1. mstep (sortable_ok logical snap Hl).
      rewrite gets_bind. mstep (in_store_ok _ bt1 s' _ E).
      rewrite modify_bind.
      unfold modify. fold (record_of logical snap Deleted []). done. }
    cbn [snd]. split_and!; [split; rewrite ?F3, ?F4, ?F5; done| |].
    + rewrite <- Elg. exact F1.
    + split; [by rewrite <- Hlg|rewrite F3; etransitivity; [exact Hfz|apply Hst]|].
      rewrite F3, F5. eapply spread_trans; [exact Hsp1|exact Hsp|apply Hfz].
  - rewrite !decide_False by done.
    destruct (insert_with_kind_ok bt1 m n logical snap Whiteout [] Hbt1 Hn Hl) as (bt2 & E2 & Hbt2 & Hl2 & Hlg2).
    exists bt2. rewrite (M_bind_ok _ _ _ _ _ E2). split_and!; [done|done|by rewrite <- Elg|].
    eapply kept_trans; [by apply same_log_kept|done].
Qed.
End btree_models.

(** ** Sequences of writes, on the tree and in a transaction *)
Inductive wop : Type :=
  | WPut (key : list byte) (snap : Z) (kind : EntryKind) (value : list byte)
  | WDel (key : list byte) (snap : Z) (chain : list Z).

Definition wop_ok (o : wop) : Prop :=
  match o with
  | WPut key _ _ _ => (length key ≤ MAX_LOGICAL_KEY_SIZE)%nat
  | WDel key _ chain => (length key ≤ MAX_LOGICAL_KEY_SIZE)%nat ∧ chain_ok chain
  end.

Definition a_wop (o : wop) (m : amap) : amap :=
  match o with
  | WPut key snap kind value => a_put (versioned key snap) kind value m
  | WDel key snap chain => (a_delete key snap chain m).2
  end.
Definition a_run (ops : list wop) (m : amap) : amap := foldl (λ m o, a_wop o m) m ops.

Definition wop_record (o : wop) (m : amap) : option LogRecord :=
  match o with
  | WPut key snap kind value => Some (record_of key snap kind value)
  | WDel key snap chain => delete_record m key snap chain
  end.
Fixpoint log_of (ops : list wop) (m : amap) : list LogRecord :=
  match ops with
  | [] => []
  | o :: ops => option_list (wop_record o m) ++ log_of ops (a_wop o m)
  end.

Section transactions.
Context {D : Type} `{!BlockDevice D} `{!BlockDeviceLaws D} `{!BlockDeviceTotal D} `{!Crc32} `{!Crc32Range}.
Implicit Types bt : Btree D.

Definition btree_wop (o : wop) : M (Btree D) error unit :=
  match o with
  | WPut key snap kind value => insert_with_kind key snap kind value
  | WDel key snap chain => _ ← delete_at key snap chain; mret tt
  end.
Definition tx_wop (o : wop) : M (Tx D) error unit :=
  match o with
  | WPut key snap kind value => tx_insert_with_kind key snap kind value
  | WDel key snap chain => _ ← tx_delete_at key snap chain; mret tt
  end.

(** An open transaction: the pending root carries [m], the committed root
    still carries [m0]. *)
Record tx_models (tx : Tx D) (m m0 : amap) (n : Z) : Prop := {
  tm_pending : models (store (tx_btree tx)) (next_bset_seq (tx_btree tx)) (pending_root tx) m;
  tm_base : models (store (tx_btree tx)) (next_bset_seq (tx_btree tx)) (root_block (tx_btree tx)) m0;
  tm_budget : budget (store (tx_btree tx)) (next_bset_seq (tx_btree tx)) n;
}.

(** The log of a transaction's tree after a write that recorded [r]. *)
Definition log_step (tx tx' : Tx D) (r : option LogRecord) : Prop :=
  log (tx_btree tx') = log (tx_btree tx) ++ (if logging (tx_btree tx) then option_list r else []) ∧
  kept (tx_btree tx) (tx_btree tx') ∧ root_block (tx_btree tx') = root_block (tx_btree tx) ∧
  spread (store (tx_btree tx)) (pending_root tx) (store (tx_btree tx')) (pending_root tx').

Lemma stepped_spread s q s' q' root m : stepped (D := D) Cow s q s' q' → models s q root m → spread s root s' root.
Proof. intros Hs (h & t & Ht & Hm). eapply spread_still; [exact Ht|by apply Hs]. Qed.
Lemma stepped_models s q s' q' root m : stepped (D := D) Cow s q s' q' → models s q root m → models s' q' root m.
Proof. intros Hs (h & t & Ht & Hm). exists h, t. split; [|done]. by apply Hs. Qed.

Lemma in_tx_ok {A} (c : M (Btree D) error A) tx bt' a :
  c (tx_btree tx) = (Ok a, bt') → in_tx c tx = (Ok a, set_tx_btree bt' tx).
Proof. intros E. unfold in_tx, zoom. by rewrite E. Qed.

Lemma tx_insert_ok tx m m0 n key snap kind value :
  tx_models tx m m0 (1 + n) → 0 ≤ n → (length key ≤ MAX_LOGICAL_KEY_SIZE)%nat →
  ∃ tx', tx_insert_with_kind key snap kind value tx = (Ok tt, tx') ∧
    tx_models tx' (a_put (versioned key snap) kind value m) m0 n ∧
    log_step tx tx' (Some (record_of key snap kind value)).
Proof using All.
  intros [Hm Hb Hbu] Hn Hl. unfold tx_insert_with_kind. set (bt := tx_btree tx) in *.
  destruct (insert_models _ _ _ m (versioned key snap) value kind Cow n Hm Hbu (versioned_wf key snap Hl) Hn)
    as (root' & s' & q' & E & Hm' & Hb' & Hst & Hsp).
  mstep (sortable_ok key snap Hl). rewrite gets_bind. mstep (in_tx_ok _ tx _ _ (in_store_seq_ok _ bt _ _ E)).
  rewrite modify_bind. unfold in_tx, zoom, modify. fold (record_of key snap kind value). eexists. split; [done|].
  edestruct (log_push_ok (record_of key snap kind value) (set_store_seq (s', q') bt)) as (E1 & E2 & E3 & E4 & E5).
  unfold log_step. cbn [set_tx_btree set_pending tx_btree pending_root].
  rewrite ?E1, ?E2, ?E3, ?E4, ?E5. split_and!; [split; cbn [set_tx_btree set_pending tx_btree pending_root]; rewrite ?E3, ?E4, ?E5; [done| |done]|done| |done|done].
  - eapply stepped_models; [exact Hst|done].
  - split; [done|rewrite E3; apply Hst|rewrite E3, E5; by eapply stepped_spread].
Qed.

Lemma tx_delete_ok tx m m0 n logical snap chain :
  tx_models tx m m0 (1 + n) → 0 ≤ n → (length logical ≤ MAX_LOGICAL_KEY_SIZE)%nat → chain_ok chain →
  ∃ tx', tx_delete_at logical snap chain tx = (Ok (a_delete logical snap chain m).1, tx') ∧
    tx_models tx' (a_delete logical snap chain m).2 m0 n ∧
    log_step tx tx' (delete_record m logical snap chain).
Proof using All.
  intros [Hm Hb Hbu] Hn Hl [Hc Hw]. unfold tx_delete_at.
  destruct (find_visible_models _ _ _ m logical chain _ Hm (budget_room _ _ _ Hbu) Hl Hc Hw) as (s' & E & Hs).
  rewrite gets_bind. mstep (in_tx_ok _ tx _ _ (in_store_ok _ (tx_btree tx) s' _ E)).
  set (tx1 := set_tx_btree (set_store s' (tx_btree tx)) tx).
  assert (tx_models tx1 m m0 (1 + n)) as Htx1.
  { split; cbn; [by eapply same_heap_models|by eapply same_heap_models|by eapply same_heap_budget]. }
  unfold a_delete, delete_record. destruct (a_visible m logical chain) as [[v s]|] eqn:Ev; cbn [fst snd].
  2: { exists tx1. split; [done|]. split.
       - destruct Htx1 as [? ? [? ? ?]]. split; [done|done|].
         split; [eapply room_weaken; [done|unfold OP_BLOCKS; lia]|done|lia].
       - unfold log_step. split_and!; [cbn; destruct (logging (tx_btree tx)); by rewrite ?app_nil_r| |done|by eapply same_heap_spread].
         by split; [|apply same_heap_frozen|eapply same_heap_spread]. }
  apply a_visible_Some in Ev as [Ev _]. destruct (Z.eqb_spec s snap) as [->|Hne].
  - rewrite !decide_True by done. destruct Htx1 as [Hm1 Hb1 Hbu1].
    destruct (flip_models _ _ _ m (versioned logical snap) Deleted Cow n Hm1 Hbu1) as (root' & s2 & E2 & Hm2 & Hb2 & Hst & Hsp);
      [by eexists|done|done|].
    edestruct (log_push_ok (record_of logical snap Deleted []) (set_store s2 (tx_btree tx1))) as (F1 & F2 & F3 & F4 & F5).
    eexists. split.
    { unfold mbind at 1, M_bind at 1. mstep (sortable_ok logical snap Hl).
      mstep (in_tx_ok _ tx1 _ _ (in_store_ok _ (tx_btree tx1) s2 _ E2)). rewrite modify_bind.
      unfold in_tx, zoom, modify. fold (record_of logical snap Deleted []). done. }
    unfold log_step. cbn [set_tx_btree set_pending tx_btree pending_root snd].
    rewrite ?F1, ?F2, ?F3, ?F4, ?F5. split_and!; [split; cbn [set_tx_btree set_pending tx_btree pending_root]; rewrite ?F3, ?F4, ?F5; [done| |done]|done| |done|].
    + eapply stepped_models; [exact Hst|done].
    + split; [done|rewrite F3; etransitivity; [by apply same_heap_frozen|apply Hst]|]. rewrite F3, F5.
      eapply spread_trans; [by eapply same_heap_spread|by eapply stepped_spread|]. by apply same_heap_frozen.
    + eapply spread_trans; [by eapply same_heap_spread|exact Hsp|]. by apply same_heap_frozen.
  - rewrite !decide_False by done.
    destruct (tx_insert_ok tx1 m m0 n logical snap Whiteout [] Htx1 Hn Hl) as (tx2 & E2 & Htx2 & Hlog).
    exists tx2. rewrite (M_bind_ok _ _ _ _ _ E2). destruct Hlog as (? & Hk & ? & Hsp).
    split_and!; [done|done|]. split_and!; [done| |done|].
    + eapply kept_trans; [|exact Hk]. by split; [|apply same_heap_frozen|eapply same_heap_spread].
    + eapply spread_trans; [by eapply same_heap_spread|exact Hsp|]. by apply same_heap_frozen.
Qed.

Lemma tx_wop_ok o tx m m0 n :
  tx_models tx m m0 (1 + n) → 0 ≤ n → wop_ok o →
  ∃ tx', tx_wop o tx = (Ok tt, tx') ∧ tx_models tx' (a_wop o m) m0 n ∧ log_step tx tx' (wop_record o m).
Proof using All.
  intros Htx Hn Ho. destruct o as [key snap kind value|key snap chain]; cbn [tx_wop a_wop wop_record].
  - by apply tx_insert_ok.
  - destruct Ho as [Hl Hc]. destruct (tx_delete_ok tx m m0 n key snap chain Htx Hn Hl Hc) as (tx' & E & Htx' & Hlog).
    exists tx'. rewrite (M_bind_ok _ _ _ _ _ E). by split_and!.
Qed.

Lemma tx_run_ok ops tx m m0 n :
  tx_models tx m m0 (Z.of_nat (length ops) + n) → 0 ≤ n → Forall wop_ok ops →
  ∃ tx', forM_ ops tx_wop tx = (Ok tt, tx') ∧ tx_models tx' (a_run ops m) m0 n ∧
    log (tx_btree tx') = log (tx_btree tx) ++ (if logging (tx_btree tx) then log_of ops m else []) ∧
    kept (tx_btree tx) (tx_btree tx') ∧ root_block (tx_btree tx') = root_block (tx_btree tx) ∧
    spread (store (tx_btree tx)) (pending_root tx) (store (tx_btree tx')) (pending_root tx').
Proof using All.
  intros Htx Hn Hops. revert tx m Htx. induction Hops as [|o ops Ho _ IH]; intros tx m Htx; cbn [forM_ length log_of] in *.
  { exists tx. split_and!; [done|done| |apply kept_refl|done|apply spread_refl]. destruct (logging (tx_btree tx)); by rewrite app_nil_r. }
  destruct (tx_wop_ok o tx m m0 (Z.of_nat (length ops) + n)) as (tx1 & E1 & Htx1 & Hlog1 & Hk1 & Hr1 & Hs1);
    [by replace (1 + (Z.of_nat (length ops) + n)) with (Z.of_nat (S (length ops)) + n) by lia|lia|done|].
  mstep E1. destruct (IH tx1 (a_wop o m) Htx1) as (tx2 & E2 & Htx2 & Hlog2 & Hk2 & Hr2 & Hs2).
  exists tx2. split_and!; [done|done| |by eapply kept_trans|congruence|eapply spread_trans; [exact Hs1|exact Hs2|apply Hk1]].
  rewrite Hlog2, Hlog1, (kp_logging _ _ Hk1).
  destruct (logging (tx_btree tx)); by rewrite ?app_nil_r, <- ?app_assoc.
Qed.
End transactions.

(** ** Maps that no lookup can tell apart *)

(** A tombstone's value is never read. *)
Definition erase (r : row) : row := match r with (v, Live) => (v, Live) | (_, k) => ([], k) end.
#[global] Instance amap_equiv : Equiv amap := λ m m', ∀ k, erase <$> m k = erase <$> m' k.
#[global] Instance amap_equivalence : Equivalence (≡@{amap}).
Proof.
  split.
  - by intros m k.
  - intros m m' Hm k. by rewrite (Hm k).
  - intros m1 m2 m3 H1 H2 k. by rewrite (H1 k), (H2 k).
Qed.

#[global] Instance a_put_proper key kind value : Proper ((≡) ==> (≡)) (a_put key kind value).
Proof. intros m m' Hm k. unfold a_put. case_decide; [done|apply Hm]. Qed.

Lemma a_flip_put key m : is_Some (m key) → a_flip key Deleted m ≡ a_put key Deleted [] m.
Proof. intros [r Hr] k. unfold a_flip, a_put. case_decide; [|done]. subst k. rewrite Hr. by destruct r. Qed.

Lemma erase_live m m' k v : m ≡ m' → m k = Some (v, Live) ↔ m' k = Some (v, Live).
Proof.
  intros Hm. specialize (Hm k). destruct (m k) as [[v1 []]|], (m' k) as [[v2 []]|]; cbn in Hm; simplify_eq; done.
Qed.

#[global] Instance a_find_proper : Proper ((≡) ==> (=) ==> (=)) a_find.
Proof.
  intros m m' Hm k _ <-. unfold a_find. specialize (Hm k).
  destruct (m k) as [[v1 []]|], (m' k) as [[v2 []]|]; cbn in Hm; simplify_eq; done.
Qed.

#[global] Instance a_visible_proper : Proper ((≡) ==> (=) ==> (=) ==> (=)) a_visible.
Proof.
  intros m m' Hm l _ <- chain _ <-. induction chain as [|s chain IH]; cbn [a_visible]; [done|].
  specialize (Hm (versioned l s)).
  destruct (m (versioned l s)) as [[v1 []]|], (m' (versioned l s)) as [[v2 []]|]; cbn in Hm; simplify_eq; done.
Qed.

(** ** Replaying a log *)
Lemma versioned_split k :
  sortable_wf k → versioned (take (length k - 4) k) (from_be (drop (length k - 4) k)) = k.
Proof.
  intros [H1 H2]. unfold versioned. rewrite to_from_be_len by (rewrite length_drop; lia). apply take_drop.
Qed.

(** The write a log record stands for. *)
Definition a_replay (r : LogRecord) (m : amap) : amap := a_put (lr_sortable_key r) (lr_kind r) (lr_value r) m.

(** Replaying the record of a write is the write. *)
Lemma wop_replay o m m' :
  m' ≡ m → from_option (λ r, a_replay r m') m' (wop_record o m) ≡ a_wop o m.
Proof.
  intros Hm. destruct o as [key snap kind value|key snap chain]; cbn [wop_record from_option a_wop].
  - unfold a_replay. cbn. by rewrite Hm.
  - unfold delete_record, a_delete. destruct (a_visible m key chain) as [[v s]|] eqn:Ev; cbn [from_option snd]; [|done].
    apply a_visible_Some in Ev as [Ev _]. unfold a_replay. cbn [record_of lr_sortable_key lr_kind lr_value].
    case_decide as Hs; cbn [snd]; [|by rewrite Hm]. subst s. rewrite Hm. symmetry. apply a_flip_put. by eexists.
Qed.

Definition a_replays (l : list LogRecord) (m : amap) : amap := foldl (λ m r, a_replay r m) m l.

Lemma a_replays_app l l' m : a_replays (l ++ l') m = a_replays l' (a_replays l m).
Proof. unfold a_replays. by rewrite foldl_app. Qed.

(** Replaying the log of a sequence of writes is the sequence. *)
Lemma replays_run ops m m' : m' ≡ m → a_replays (log_of ops m) m' ≡ a_run ops m.
Proof.
  revert m m'. induction ops as [|o ops IH]; intros m m' Hm; cbn [log_of]; [done|]. rewrite a_replays_app.
  change (a_run (o :: ops) m) with (a_run ops (a_wop o m)). apply IH. pose proof (wop_replay o m m' Hm) as Hr.
  by destruct (wop_record o m).
Qed.

(** A log decides the rows of the keys it mentions. *)
Lemma a_replays_key l k : (∃ row, ∀ m, a_replays l m k = Some row) ∨ ∀ m, a_replays l m k = m k.
Proof.
  induction l as [|r l IH] using rev_ind; [by right|].
  assert (∀ m, a_replays (l ++ [r]) m k = a_replay r (a_replays l m) k) as E by (intros m; by rewrite a_replays_app).
  destruct (decide (k = lr_sortable_key r)) as [->|Hne].
  - left. exists (take MAX_VALUE_SIZE (lr_value r), lr_kind r). intros m. rewrite E. unfold a_replay, a_put. by rewrite decide_True.
  - assert (∀ m, a_replays (l ++ [r]) m k = a_replays l m k) as E'
      by (intros m; rewrite E; unfold a_replay, a_put; by rewrite decide_False).
    destruct IH as [[row IH]|IH]; [left; exists row|right]; intros m; by rewrite E'.
Qed.
Lemma a_replays_idem l m : a_replays l (a_replays l m) ≡ a_replays l m.
Proof. intros k. destruct (a_replays_key l k) as [[row E]|E]; by rewrite !E. Qed.
#[global] Instance a_replays_proper l : Proper ((≡) ==> (≡)) (a_replays l).
Proof. intros m m' Hm k. destruct (a_replays_key l k) as [[row E]|E]; rewrite !E; [done|apply Hm]. Qed.

Lemma wop_record_wf o m r : wop_ok o → wop_record o m = Some r → sortable_wf (lr_sortable_key r).
Proof.
  destruct o as [key snap kind value|key snap chain]; cbn [wop_ok wop_record].
  - intros Hl [= <-]. by apply versioned_wf.
  - intros [Hl _]. unfold delete_record. destruct (a_visible m key chain) as [[v s]|]; [|done].
    intros [= <-]. by apply versioned_wf.
Qed.
Lemma log_of_Forall (P : LogRecord → Prop) ops m :
  Forall (λ o, ∀ m r, wop_record o m = Some r → P r) ops → Forall P (log_of ops m).
Proof.
  intros Hops. revert m. induction Hops as [|o ops Ho _ IH]; intros m; cbn [log_of]; [done|]. apply Forall_app.
  split; [|done]. destruct (wop_record o m) eqn:E; [|done]. apply Forall_singleton. by eapply Ho.
Qed.
Lemma length_log_of ops m : (length (log_of ops m) ≤ length ops)%nat.
Proof.
  revert m. induction ops as [|o ops IH]; intros m; cbn [log_of]; [done|]. rewrite length_app. cbn [length].
  specialize (IH (a_wop o m)). destruct (wop_record o m); cbn; lia.
Qed.

Section replay.
Context {D : Type} `{!BlockDevice D} `{!BlockDeviceLaws D} `{!BlockDeviceTotal D} `{!Crc32} `{!Crc32Range}.
Implicit Types bt : Btree D.

Lemma replay_record_ok bt m n r :
  bt_models bt m (1 + n) → 0 ≤ n → sortable_wf (lr_sortable_key r) →
  ∃ bt', replay_record r bt = (Ok tt, bt') ∧ bt_models bt' (a_replay r m) n ∧ same_log bt bt'.
Proof using All.
  intros [Hm Hb] Hn Hw. unfold replay_record. set (k := lr_sortable_key r) in *. pose proof Hw as [H1 H2].
  assert (slice (E := error) k 0 (length k - SNAP_ID_BYTES) = Ok (take (length k - 4) k)) as E1.
  { unfold slice. rewrite (proj2 (Nat.leb_le _ (length k))) by lia. cbn [Nat.leb andb].
    consts. by rewrite Nat.sub_0_r, drop_0. }
  assert (slice (E := error) k (length k - SNAP_ID_BYTES) (length k) = Ok (drop (length k - 4) k)) as E2.
  { unfold slice. rewrite (proj2 (Nat.leb_le _ _)), Nat.leb_refl by lia. cbn [andb]. consts.
    rewrite take_ge; [done|]. rewrite length_drop. lia. }
  rewrite (proj2 (Nat.leb_le _ _)) by (consts; lia). mstep E1. mstep E2.
  set (bt0 := set_logging false bt).
  destruct (insert_with_kind_ok bt0 m n (take (length k - 4) k) (from_be (drop (length k - 4) k)) (lr_kind r) (lr_value r))
    as (bt1 & E & [Hm1 Hb1] & Hl1 & [_ Hfz Hsp]); [by split|done|rewrite length_take; consts; lia|].
  rewrite versioned_split in Hm1 by done.
  exists (set_logging (logging bt) bt1). unfold without_logging. fold bt0. rewrite E.
  split_and!; [done|by split|]. split; cbn; [|done|exact Hfz|exact Hsp]. rewrite Hl1. unfold logged. cbn. by rewrite app_nil_r.
Qed.

Lemma replays_ok l bt m n :
  bt_models bt m (Z.of_nat (length l) + n) → 0 ≤ n → Forall (λ r, sortable_wf (lr_sortable_key r)) l →
  ∃ bt', forM_ l replay_record bt = (Ok tt, bt') ∧ bt_models bt' (a_replays l m) n ∧ same_log bt bt'.
Proof using All.
  intros Hbt Hn Hl. revert bt m Hbt. induction Hl as [|r l Hr _ IH]; intros bt m Hbt; cbn [length] in Hbt; [exists bt; split_and!; [done|done|apply same_log_refl]|].
  destruct (replay_record_ok bt m (Z.of_nat (length l) + n) r) as (bt1 & E1 & Hbt1 & Hs1);
    [by replace (1 + (Z.of_nat (length l) + n)) with (Z.of_nat (S (length l)) + n) by lia|lia|done|].
  destruct (IH bt1 _ Hbt1) as (bt2 & E2 & Hbt2 & Hs2). exists bt2. cbn [forM_].
  rewrite (M_bind_ok _ _ _ _ _ E1). split_and!; [done|done|by eapply same_log_trans].
Qed.
End replay.

(** ** Properties *)

(** The versioned key and the row of a scan result. *)
Definition row_key (x : AllSnapRow) : list byte := let '(k, s, _, _) := x in versioned k s.
Definition row_val (x : AllSnapRow) : row := let '(_, _, kind, v) := x in (v, kind).

Lemma all_row_key e : entry_wf e → row_key (all_row_of e) = key_of e ∧ row_val (all_row_of e) = row_of e.
Proof. intros He. split; [|done]. cbn. symmetry. by apply key_of_split. Qed.

Lemma scan_bound_ok b :
  (length b ≤ MAX_LOGICAL_KEY_SIZE)%nat → scan_bound b = Ok (versioned b 0).
Proof.
  intros Hl. unfold scan_bound. rewrite (proj2 (Nat.leb_le _ _)) by done. cbn [assert_that]. mred.
  by apply zero_suffix_ok.
Qed.

Lemma versioned_inj k s k' s' :
  in_width 32 s → in_width 32 s' → versioned k s = versioned k' s' → k = k' ∧ s = s'.
Proof.
  intros Hs Hs' E. unfold versioned in E. apply app_inj_2 in E as [-> E]; [|by rewrite !length_to_be].
  split; [done|]. apply (f_equal from_be) in E. by rewrite !from_to_be_small in E.
Qed.

Lemma snap_of_width e : entry_wf e → in_width 32 (snap_of e).
Proof.
  intros Hwf. unfold snap_of. destruct Hwf.
  pose proof (from_be_range (take SNAP_ID_BYTES (drop (key_len_nat e) (de_key e)))) as Hr.
  rewrite length_take_le in Hr; [exact Hr|]. rewrite length_drop. unfold key_len_nat. revert ewf_key. consts. lia.
Qed.

(** [rows] are the rows of [m] whose key lies in [a, b), in key order. *)
Record row_list (m : amap) (a b : list byte) (rows : list AllSnapRow) : Prop := {
  rl_sorted : StronglySorted bytes_lt (row_key <$> rows);
  rl_width k s kind v : (k, s, kind, v) ∈ rows → in_width 32 s;
  rl_exact k r : (∃ x, x ∈ rows ∧ row_key x = k ∧ row_val x = r) ↔ scanned a b k ∧ m k = Some r;
}.

Lemma content_row_list t m a b es :
  (∀ k, m k = row_of <$> content t k) → (∀ k e, content t k = Some e → entry_wf e ∧ key_of e = k) →
  lists (content t) a b es → row_list m a b (all_row_of <$> es).
Proof.
  intros Hm Hwf [Hsort Hes].
  assert (∀ e, e ∈ es → entry_wf e ∧ scanned a b (key_of e) ∧ content t (key_of e) = Some e) as Hin.
  { intros e [i He]%list_elem_of_lookup. assert (assoc (key_of e) es = Some e) as Ha by (apply assoc_Some; eauto).
    rewrite Hes in Ha. case_decide; [|done]. by destruct (Hwf _ _ Ha). }
  split.
  - assert (row_key <$> (all_row_of <$> es) = key_of <$> es) as ->; [|done].
    rewrite <- list_fmap_compose. apply list_fmap_ext. intros i e He. apply all_row_key.
    apply Hin. by eapply list_elem_of_lookup_2.
  - intros k s kind v (e & [= -> -> -> ->] & He)%list_elem_of_fmap. apply snap_of_width. by apply Hin.
  - intros k r. rewrite Hm. split.
    + intros (x & (e & -> & He)%list_elem_of_fmap & Hk & Hr). destruct (Hin e He) as (Hw & Hsc & Hc).
      destruct (all_row_key e Hw) as [Hk' Hr']. rewrite <- Hk, <- Hr, Hk', Hr', Hc. done.
    + intros [Hsc Hr]. destruct (content t k) as [e|] eqn:Hc; [|done]. cbn in Hr. injection Hr as <-.
      destruct (Hwf _ _ Hc) as [Hw <-]. destruct (all_row_key e Hw) as [Hk' Hr'].
      exists (all_row_of e). split_and!; [|done|done]. apply list_elem_of_fmap_2.
      specialize (Hes (key_of e)). rewrite decide_True, Hc in Hes by done. by apply assoc_key in Hes as [_ ?].
Qed.

Section scans.
Context {D : Type} `{!BlockDevice D} `{!BlockDeviceLaws D} `{!BlockDeviceTotal D} `{!Crc32} `{!Crc32Range}.
Implicit Types bt : Btree D.

(** A scan only brings nodes into the cache. *)
Lemma range_scan_all_reads bt m n start stop :
  bt_models bt m n → (length start ≤ MAX_LOGICAL_KEY_SIZE)%nat → (length stop ≤ MAX_LOGICAL_KEY_SIZE)%nat →
  ∃ s' rows, btree_range_scan_all start stop bt = (Ok rows, set_store s' bt) ∧ same_heap (store bt) s' ∧
    row_list m (versioned start 0) (versioned stop 0) rows.
Proof using All.
  intros Hbt Hl1 Hl2. pose proof Hbt as [(h & t & [Hok Hroot Ho _ _] & Hm) Hb]. unfold btree_range_scan_all.
  mstep (scan_bound_ok start Hl1). mstep (scan_bound_ok stop Hl2). rewrite gets_bind, <- Hroot.
  pose proof (height_fuel _ _ _ _ _ _ _ Hok Ho (budget_room _ _ _ Hb)) as Hfuel.
  destruct (scan_walk_ok all_row _ (versioned start 0) (versioned stop 0) (next_bset_seq bt) h TREE_FUEL
    all_row_reads ltac:(lia) (store bt) None None t [] Hok) as (es & s' & E & Hs & Hes).
  rewrite omap_Some_fmap in E. unfold range_scan_all. rewrite (in_store_ok _ bt s' _ E). cbn [app].
  eexists _, _. do 2 (split; [done|]). eapply content_row_list; [done| |done]. intros k e. by eapply tree_ok_content_wf.
Qed.
Lemma range_scan_all_ok bt m n start stop :
  bt_models bt m n → (length start ≤ MAX_LOGICAL_KEY_SIZE)%nat → (length stop ≤ MAX_LOGICAL_KEY_SIZE)%nat →
  ∃ bt' rows, btree_range_scan_all start stop bt = (Ok rows, bt') ∧ bt_models bt' m n ∧ same_log bt bt' ∧
    row_list m (versioned start 0) (versioned stop 0) rows.
Proof using All.
  intros Hbt Hl1 Hl2. destruct (range_scan_all_reads bt m n start stop Hbt Hl1 Hl2) as (s' & rows & E & Hs & Hr).
  destruct (read_models bt m n s' Hs Hbt). by exists (set_store s' bt), rows.
Qed.
End scans.

Section claims.
Context {D : Type} `{!BlockDevice D} `{!BlockDeviceLaws D} `{!BlockDeviceTotal D} `{!Crc32} `{!Crc32Range}.
Implicit Types bt : Btree D.

Lemma create_in_ok (s : BlockStore D) n :
  0 ≤ n → 2 * n < 2 ^ 63 → room s (1 + OP_BLOCKS * n) → store_ok s →
  ∃ bt, create_in s = Ok bt ∧ bt_models bt (λ _, None) n ∧ log bt = [] ∧ logging bt = true ∧ frozen s (store bt).
Proof using All.
  intros Hn Hq Hr Hso. unfold create_in, initialize_with.
  destruct (start_new_ok (node_new 0) [] 0 node_new_ok) as (n0 & E0 & Hok & _); [consts; cbn; lia|lia|].
  destruct (alloc_write s n0 (OP_BLOCKS * n)) as (root & s1 & s2 & Ea & Ew & Hev & Hr2 & Hnh & Hh & Hl & _);
    [by eapply leaf_sound|done|unfold OP_BLOCKS; lia|].
  rewrite Ea, E0. mred. rewrite Ew. eexists. split; [done|]. split_and!; [|done|done|by eapply evolves_frozen].
  split; cbn [store next_bset_seq root_block].
  - exists 0%nat, (TLeaf root [empty_bset 0]). split; [|done].
    split; [|done|split; [apply NoDup_singleton|by apply Forall_singleton]|apply paths_leaf|by apply Hev].
    split; [done|]. split; [|done]. eexists. split; [done|]. by apply leaf_stamp.
  - split; [done|done|lia].
Qed.

(** C15: inserting refines the abstract map. With room for one more write,
    [insert_with_kind] returns, the tree (split and regrown as needed, up to a new
    root) then stands for the map updated at the written key alone, and the write
    is logged when logging is on. *)
Theorem insert_refines_map bt m n key snap kind value :
  bt_models bt m (1 + n) → 0 ≤ n → (length key ≤ MAX_LOGICAL_KEY_SIZE)%nat →
  ∃ bt', insert_with_kind key snap kind value bt = (Ok tt, bt') ∧
    bt_models bt' (a_put (versioned key snap) kind value m) n ∧
    log bt' = logged bt (record_of key snap kind value) ∧ kept bt bt'.
Proof using All. apply insert_with_kind_ok. Qed.

(** C16: deleting refines the abstract map. When the chain sees the key at the
    target snapshot, that version is turned into a deletion marker; when it sees
    an ancestor's version, a whiteout is written at the target snapshot and the
    ancestor keeps its value; when it sees none, nothing changes. The result says
    whether the key was visible. *)
Theorem delete_refines_map bt m n logical snap chain :
  bt_models bt m (1 + n) → 0 ≤ n → (length logical ≤ MAX_LOGICAL_KEY_SIZE)%nat → chain_ok chain →
  ∃ bt', delete_at logical snap chain bt = (Ok (a_delete logical snap chain m).1, bt') ∧
    bt_models bt' (a_delete logical snap chain m).2 n ∧
    log bt' = from_option (logged bt) (log bt) (delete_record m logical snap chain) ∧ kept bt bt'.
Proof using All. apply delete_at_ok. Qed.

(** C17: lookups answer from the abstract map and leave it as it was: [find_at]
    reads one version, [find_visible_with_snap] the first version on an ancestor
    chain, hidden when that version is a tombstone. *)
Theorem lookups_read_map bt m n key snap chain :
  bt_models bt m n → (length key ≤ MAX_LOGICAL_KEY_SIZE)%nat → chain_ok chain →
  (∃ bt', find_at key snap bt = (Ok (a_find m (versioned key snap)), bt') ∧ bt_models bt' m n ∧ same_log bt bt') ∧
  (∃ bt', btree_find_visible_with_snap key chain bt = (Ok (a_visible m key chain), bt') ∧
     bt_models bt' m n ∧ same_log bt bt').
Proof using All.
  intros Hbt Hl Hc. split; [by apply find_at_ok|by apply btree_find_visible_ok].
Qed.

(** C19: a range scan returns, in key order, exactly the versions of the map whose
    key lies in the range, each with its kind and value. *)
Theorem scan_returns_the_range bt m n start stop :
  bt_models bt m n → (length start ≤ MAX_LOGICAL_KEY_SIZE)%nat → (length stop ≤ MAX_LOGICAL_KEY_SIZE)%nat →
  ∃ bt' rows, btree_range_scan_all start stop bt = (Ok rows, bt') ∧ bt_models bt' m n ∧ same_log bt bt' ∧
    StronglySorted bytes_lt (row_key <$> rows) ∧
    ∀ k r, (∃ x, x ∈ rows ∧ row_key x = k ∧ row_val x = r) ↔
      scanned (versioned start 0) (versioned stop 0) k ∧ m k = Some r.
Proof using All.
  intros Hbt Hl1 Hl2. destruct (range_scan_all_ok bt m n start stop Hbt Hl1 Hl2) as (bt' & rows & E & Hbt' & Hl & [Hs _ Hx]).
  exists bt', rows. by split_and!.
Qed.

(** C6: a transaction is atomic. If its closure succeeds after any sequence of
    inserts and deletes, the tree stands for the map with all of them applied and
    the log has gained their records; if the closure fails, after the same
    writes, the tree stands for the map as it was before and the log is back at
    its mark. *)
Theorem transaction_is_atomic bt m n ops e :
  bt_models bt m (Z.of_nat (length ops) + n) → 0 ≤ n → Forall wop_ok ops →
  (∃ bt', transaction (forM_ ops tx_wop) bt = (Ok tt, bt') ∧ bt_models bt' (a_run ops m) n ∧
     log bt' = log bt ++ (if logging bt then log_of ops m else [])) ∧
  (∃ bt', transaction (R := unit) (_ ← forM_ ops tx_wop; throw e) bt = (Err e, bt') ∧
     bt_models bt' m n ∧ root_block bt' = root_block bt ∧ log bt' = log bt).
Proof using All.
  intros [Hm Hb] Hn Hops. unfold transaction. set (tx := {| tx_btree := bt; pending_root := root_block bt |}).
  destruct (tx_run_ok ops tx m m n) as (tx' & E & [Hp Hba Hbu] & Hlog & Hk & Hroot & _); [by split|done|done|]. split.
  - rewrite E. eexists. split; [done|]. cbn [set_root log]. split; [by split|exact Hlog].
  - rewrite (M_bind_ok _ _ _ _ _ E). unfold throw. eexists. split; [done|]. cbn [log_truncate set_log root_block log].
    split_and!; [by split|exact Hroot|]. rewrite Hlog. by apply take_app_length.
Qed.

(** C18: replaying the write log rebuilds the state. From a tree that stands for
    the map the log started at, replaying the records of any sequence of inserts
    and deletes returns and reaches a tree no lookup can tell from the original
    (only the values under deletion markers may differ), and logs nothing. *)
Theorem replay_rebuilds_state bt m n ops :
  bt_models bt m (Z.of_nat (length ops) + n) → 0 ≤ n → Forall wop_ok ops →
  ∃ bt' m', forM_ (log_of ops m) replay_record bt = (Ok tt, bt') ∧ bt_models bt' m' n ∧ same_log bt bt' ∧
    (∀ k, a_find m' k = a_find (a_run ops m) k) ∧
    ∀ l chain, a_visible m' l chain = a_visible (a_run ops m) l chain.
Proof using All.
  intros Hbt Hn Hops. destruct (replays_ok (log_of ops m) bt m n) as (bt' & E & Hbt' & Hl).
  - eapply bt_models_weaken; [|exact Hbt]. pose proof (length_log_of ops m). lia.
  - done.
  - apply log_of_Forall. eapply Forall_impl; [exact Hops|]. intros o Ho m' r. by apply wop_record_wf.
  - pose proof (replays_run ops m m (reflexivity m)) as Hm'. set (m' := a_replays (log_of ops m) m) in *. exists bt', m'. split_and!; [done|done|done| |].
    + intros k. by rewrite Hm'.
    + intros l chain. by rewrite Hm'.
Qed.
End claims.

(** ** Concrete trees *)
#[local] Existing Instance sum_crc.

Lemma in_memory_room n : 0 ≤ n < 2 ^ 40 → room in_memory n.
Proof.
  intros Hn. split; [apply in_memory_alloc_ok|]. cbn [in_memory with_device next_block_nr].
  unfold FIRST_DATA_BLOCK_NR, FIRST_JOURNAL_BLOCK, JOURNAL_BLOCKS. lia.
Qed.

Definition demo_logical : list byte := to_be 8 7.
Definition demo_chain : list Z := [5; ROOT_SNAP].
Definition demo_ops : list wop :=
  [WPut demo_logical ROOT_SNAP Live [Byte.x61]; WDel demo_logical 5 demo_chain].

Lemma demo_chain_ok : chain_ok demo_chain.
Proof. split; repeat constructor; done. Qed.
Lemma demo_ops_ok : Forall wop_ok demo_ops.
Proof. repeat constructor; cbn; try lia; try done; consts; lia. Qed.

(** A tree in memory, with room for a hundred writes. *)
Lemma demo_tree : ∃ bt, create_in in_memory = Ok bt ∧ bt_models bt (λ _, None) 100.
Proof.
  destruct (create_in_ok in_memory 100) as (bt & E & Hbt & _); [lia|lia|apply in_memory_room; unfold OP_BLOCKS; lia|by apply empty_cache_ok|].
  exists bt. split; [exact E|exact Hbt].
Qed.

(** The tree after one write. *)
Definition demo_map : amap := a_put (versioned demo_logical ROOT_SNAP) Live [Byte.x61] (λ _, None).
Lemma demo_written :
  ∃ bt bt1, create_in in_memory = Ok bt ∧ insert_with_kind demo_logical ROOT_SNAP Live [Byte.x61] bt = (Ok tt, bt1) ∧
    bt_models bt1 demo_map 99.
Proof.
  destruct demo_tree as (bt & E & Hbt).
  destruct (insert_with_kind_ok bt (λ _, None) 99 demo_logical ROOT_SNAP Live [Byte.x61]) as (bt' & E' & Hbt' & _);
    [exact Hbt|lia|cbn; consts; lia|].
  exists bt, bt'. split_and!; [exact E|exact E'|exact Hbt'].
Qed.

Lemma insert_refines_map_witness :
  ∃ bt bt', create_in in_memory = Ok bt ∧ insert_with_kind demo_logical ROOT_SNAP Live [Byte.x61] bt = (Ok tt, bt') ∧
    bt_models bt' (a_put (versioned demo_logical ROOT_SNAP) Live [Byte.x61] (λ _, None)) 99.
Proof.
  destruct demo_tree as (bt & E & Hbt).
  destruct (insert_refines_map bt (λ _, None) 99 demo_logical ROOT_SNAP Live [Byte.x61]) as (bt' & E' & Hbt' & _);
    [exact Hbt|lia|cbn; consts; lia|].
  exists bt, bt'. split_and!; [exact E|exact E'|exact Hbt'].
Defined.

Lemma delete_refines_map_witness :
  ∃ bt bt1 bt2, create_in in_memory = Ok bt ∧
    insert_with_kind demo_logical ROOT_SNAP Live [Byte.x61] bt = (Ok tt, bt1) ∧
    delete_at demo_logical 5 demo_chain bt1 = (Ok true, bt2) ∧
    bt_models bt2 (a_put (versioned demo_logical 5) Whiteout [] demo_map) 98.
Proof.
  destruct demo_written as (bt & bt1 & E & E1 & Hbt).
  destruct (delete_refines_map bt1 demo_map 98 demo_logical 5 demo_chain) as (bt' & E' & Hbt' & _);
    [exact Hbt|lia|cbn; consts; lia|apply demo_chain_ok|].
  exists bt, bt1, bt'. split_and!; [exact E|exact E1|exact E'|exact Hbt'].
Defined.

Lemma lookups_read_map_witness :
  ∃ bt bt1 bt2 bt3, create_in in_memory = Ok bt ∧
    insert_with_kind demo_logical ROOT_SNAP Live [Byte.x61] bt = (Ok tt, bt1) ∧
    find_at demo_logical ROOT_SNAP bt1 = (Ok (Some [Byte.x61]), bt2) ∧
    btree_find_visible_with_snap demo_logical demo_chain bt1 = (Ok (Some ([Byte.x61], ROOT_SNAP)), bt3).
Proof.
  destruct demo_written as (bt & bt1 & E & E1 & Hbt).
  destruct (lookups_read_map bt1 demo_map 99 demo_logical ROOT_SNAP demo_chain) as [(bt2 & E2 & _) (bt3 & E3 & _)];
    [exact Hbt|cbn; consts; lia|apply demo_chain_ok|].
  exists bt, bt1, bt2, bt3. split_and!; [exact E|exact E1|exact E2|exact E3].
Defined.

Lemma scan_returns_the_range_witness :
  ∃ bt bt' rows, bt_models bt demo_map 99 ∧ btree_range_scan_all [] [Byte.xff] bt = (Ok rows, bt') ∧
    ∃ x, x ∈ rows ∧ row_key x = versioned demo_logical ROOT_SNAP ∧ row_val x = ([Byte.x61], Live).
Proof.
  destruct demo_written as (_ & bt & _ & _ & Hbt).
  destruct (scan_returns_the_range bt demo_map 99 [] [Byte.xff]) as (bt' & rows & E' & _ & _ & _ & Hx);
    [exact Hbt|cbn; consts; lia|cbn; consts; lia|].
  exists bt, bt', rows. split_and!; [exact Hbt|exact E'|]. apply Hx. split; [split; vm_compute; done|reflexivity].
Defined.

Lemma transaction_is_atomic_witness :
  ∃ bt bt1 bt2, create_in in_memory = Ok bt ∧
    transaction (forM_ demo_ops tx_wop) bt = (Ok tt, bt1) ∧ bt_models bt1 (a_run demo_ops (λ _, None)) 98 ∧
    transaction (R := unit) (_ ← forM_ demo_ops tx_wop; throw (Io (OtherIo SuperblockSizeMismatch))) bt
      = (Err (Io (OtherIo SuperblockSizeMismatch)), bt2) ∧ bt_models bt2 (λ _, None) 98.
Proof.
  destruct demo_tree as (bt & E & Hbt).
  destruct (transaction_is_atomic bt (λ _, None) 98 demo_ops (Io (OtherIo SuperblockSizeMismatch)))
    as [(bt1 & E1 & H1 & _) (bt2 & E2 & H2 & _)]; [exact Hbt|lia|apply demo_ops_ok|].
  exists bt, bt1, bt2. split_and!; [exact E|exact E1|exact H1|exact E2|exact H2].
Defined.

Lemma replay_rebuilds_state_witness :
  ∃ bt bt' m', create_in in_memory = Ok bt ∧ forM_ (log_of demo_ops (λ _, None)) replay_record bt = (Ok tt, bt') ∧
    bt_models bt' m' 98 ∧ a_visible m' demo_logical demo_chain = None ∧
    a_visible m' demo_logical [ROOT_SNAP] = Some ([Byte.x61], ROOT_SNAP).
Proof.
  destruct demo_tree as (bt & E & Hbt).
  destruct (replay_rebuilds_state bt (λ _, None) 98 demo_ops) as (bt' & m' & E' & Hbt' & _ & _ & Hv);
    [exact Hbt|lia|apply demo_ops_ok|].
  exists bt, bt', m'. split_and!; [exact E|exact E'|exact Hbt'|rewrite Hv; reflexivity|rewrite Hv; reflexivity].
Defined.
