(* ===== verification/Verify.v ===== *)
(** * Verify: the walks that inspect a tree (src/btree.rs).

    [verify_node], the tree checker of the code, [count_keys] and
    [collect_leaf_depths], which its tests call, and [dump]. On every tree that the
    operations build the checker passes, the leaves are at one depth, and the other
    walks report each stored key once, in order. *)
From Stdlib Require Import Strings.Byte.
From stdpp Require Import base list numbers gmap sorting.
From S2P Require Import Prelude Device BlockBtree NodeRep Merge Storage Journal StoreSpec Heap Btree Leaf Internal Tree TreeRead TreeWrite BtreeSpec.
#[local] Open Scope rfs_scope.
#[local] Open Scope Z_scope.

(** ** The walks *)
(** A line that [dump] prints. *)
Inductive line : Type :=
  | DumpBegin (next_block_nr : Z)
  | LeafLine (indent : nat) (nr : Z) (bsets : nat) (keys : list (list byte))
  | InternalLine (indent : nat) (nr level : Z) (nkeys : nat)
  | SepLine (indent : nat) (sep : list byte)
  | DumpEnd.

(** *** On one node *)
Definition key_at (node : BtreeNodeRaw) (b i : nat) : res (list byte) := e ← entry_at node b i; key_bytes e.
Definition sep_at (node : BtreeNodeRaw) (i : nat) : res (list byte) := e ← entry node i; key_bytes e.
(** [k < lo] and [k < hi], with no bound on a side that has none. *)
Definition not_below (lo : option (list byte)) (k : list byte) : bool := match lo with Some lo => negb (bytes_ltb k lo) | None => true end.
Definition below_hi (hi : option (list byte)) (k : list byte) : bool := match hi with Some hi => bytes_ltb k hi | None => true end.

(** The walk over the merged view of a leaf. *)
Fixpoint verify_merged (node : BtreeNodeRaw) (lo hi prev : option (list byte)) (ps : list (nat * nat)) : res unit :=
  match ps with
  | [] => Ok tt
  | (b, i) :: ps =>
      k ← key_at node b i;
      _ ← assert_that (match prev with Some p => bytes_ltb p k | None => true end);
      _ ← assert_that (not_below lo k);
      _ ← assert_that (below_hi hi k);
      verify_merged node lo hi (Some k) ps
  end.
(** No bset whose flag is clear holds a whiteout. *)
Definition verify_flag (node : BtreeNodeRaw) (b : nat) : res unit :=
  needs ← bset_needs_whiteout node b;
  if needs : bool then Ok tt else
  es ← bset_entries node b;
  assert_that (forallb (λ e, negb (bool_decide (kind_enum e = Whiteout))) es).
Fixpoint eachO {A} (f : A → res unit) (l : list A) : res unit :=
  match l with [] => Ok tt | x :: l => _ ← f x; eachO f l end.
Definition verify_leaf (node : BtreeNodeRaw) (lo hi : option (list byte)) : res unit :=
  ps ← merged_collect node;
  _ ← verify_merged node lo hi None ps;
  eachO (verify_flag node) (seq 0 (bset_count node)).

(** Separators of an internal node: sorted, and inside the bounds. *)
Definition verify_seps (node : BtreeNodeRaw) (n : nat) (lo hi : option (list byte)) : res unit :=
  _ ← eachO (λ i, k ← sep_at node (i - 1); k' ← sep_at node i; assert_that (bytes_ltb k k')) (seq 1 (n - 1));
  eachO (λ i, k ← sep_at node i; _ ← assert_that (not_below lo k); assert_that (below_hi hi k)) (seq 0 n).

(** *** On a tree *)
Section walks.
Context {D : Type} `{!BlockDevice D} `{!Crc32}.
Abbreviation SM := (M (BlockStore D) error).

(** [c.unwrap()] *)
Definition unwrapped {A} (c : SM A) : SM A := λ s, match c s with (Err _, s) => (Panic, s) | r => r end.
Definition read_node_copy (nr : Z) : SM BtreeNodeRaw := with_node nr (λ n, Ok n).

Fixpoint count_keys (fuel : nat) (nr : Z) : SM nat :=
  match fuel with
  | O => out_of_fuel
  | S fuel =>
      node ← unwrapped (read_node_copy nr);
      if level node =? 0 then ps ← lift (merged_collect node); mret (length ps)
      else
        n ← lift (nkeys node);
        foldM (λ total i, child ← lift (child_block node i); c ← count_keys fuel child; mret (total + c)%nat) 0%nat (seq 0 (S n))
  end.

Fixpoint collect_leaf_depths (fuel : nat) (nr : Z) (depth : nat) (depths : list nat) : SM (list nat) :=
  match fuel with
  | O => out_of_fuel
  | S fuel =>
      node ← unwrapped (read_node_copy nr);
      if level node =? 0 then mret (depths ++ [depth])
      else
        n ← lift (nkeys node);
        foldM (λ depths i, child ← lift (child_block node i); collect_leaf_depths fuel child (depth + 1) depths) depths (seq 0 (S n))
  end.

(** One round of the loop over the children. *)
Definition verify_child (verify : Z → option (list byte) → option (list byte) → SM unit) (node : BtreeNodeRaw) (n : nat)
    (lo hi : option (list byte)) (i : nat) : SM unit :=
  child_nr ← lift (child_block node i);
  _ ← unwrapped (read_node_copy child_nr);
  child ← unwrapped (read_node_copy child_nr);
  _ ← lift (assert_that (level child =? level node - 1));
  child_lo ← (if (i =? 0)%nat then mret lo else k ← lift (sep_at node (i - 1)); mret (Some k));
  child_hi ← (if (i =? n)%nat then mret hi else k ← lift (sep_at node i); mret (Some k));
  verify child_nr child_lo child_hi.
Fixpoint verify_node (fuel : nat) (nr : Z) (lo hi : option (list byte)) : SM unit :=
  match fuel with
  | O => out_of_fuel
  | S fuel =>
      node ← unwrapped (read_node_copy nr);
      n ← lift (nkeys node);
      let cap := if level node =? 0 then MAX_ENTRIES else MAX_INTERNAL_KEYS in
      _ ← lift (assert_that (n <=? cap)%nat);
      if level node =? 0 then lift (verify_leaf node lo hi)
      else
        _ ← lift (verify_seps node n lo hi);
        forM_ (seq 0 (S n)) (verify_child (verify_node fuel) node n lo hi)
  end.

(** The children of an internal node, each with the separator to its right. *)
Definition dump_plan (node : BtreeNodeRaw) : res (list (Z * option (list byte))) :=
  n ← nkeys node;
  mapM (λ i,
    sep ← (if (i <? n)%nat then e ← entry node i; k ← key_bytes e; Ok (Some k) else Ok None);
    c ← child_block node i; Ok (c, sep)) (seq 0 (S n)).
Fixpoint dump (fuel : nat) (nr : Z) (indent : nat) (out : list line) : SM (list line) :=
  match fuel with
  | O => out_of_fuel
  | S fuel =>
      '(out, children) ← unwrapped (with_node nr (λ node,
        if level node =? 0 then
          ps ← merged_collect node;
          keys ← mapM (λ '(b, i), key_at node b i) ps;
          Ok (out ++ [LeafLine indent nr (bset_count node) keys], [])
        else
          n ← nkeys node;
          children ← dump_plan node;
          Ok (out ++ [InternalLine indent nr (level node) n], children)));
      foldM (λ out '(child, sep),
        out ← dump fuel child (indent + 1) out;
        mret (match sep with Some sep => out ++ [SepLine indent sep] | None => out end)) out children
  end.

(** [Btree::verify] and [Btree::dump]. *)
Definition verify : M (Btree D) error unit := root ← gets root_block; in_store (verify_node TREE_FUEL root None None).
Definition btree_dump : M (Btree D) error (list line) :=
  s ← gets store;
  root ← gets root_block;
  out ← in_store (dump TREE_FUEL root 0 [DumpBegin (next_block_nr s)]);
  mret (out ++ [DumpEnd]).
End walks.

(** ** One node *)
Lemma eachO_ok {A} (f : A → res unit) l : (∀ x, x ∈ l → f x = Ok tt) → eachO f l = Ok tt.
Proof.
  induction l as [|x l IH]; intros Hf; cbn [eachO]; [done|]. rewrite Hf by (by left). mred. apply IH. intros y Hy. apply Hf. by right.
Qed.
Lemma not_below_within lo hi k : within lo hi k → not_below lo k = true ∧ below_hi hi k = true.
Proof.
  intros [Ha Hb]. split.
  - destruct lo as [l|]; [|done]. cbn in *. by rewrite (proj2 (bytes_ltb_false _ _)).
  - destruct hi as [u|]; [|done]. cbn in *. by rewrite (proj2 (bytes_ltb_true _ _)).
Qed.

Lemma key_at_rep n bs i j e b :
  node_rep n bs → bs !! i = Some b → b_entries b !! j = Some e → key_at n i j = Ok (key_of e).
Proof.
  intros Hr Hb He. unfold key_at. rewrite (entry_at_rep Hr _ _ _ _ Hb He). mred. apply key_bytes_ok. by eapply entry_wf_rep.
Qed.

Lemma verify_merged_ok n bs lo hi prev ps es :
  node_rep n bs → positions bs ps es → keys_sorted es → (∀ e, e ∈ es → within lo hi (key_of e)) →
  (∀ p e, prev = Some p → e ∈ es → p ≺ key_of e) → verify_merged n lo hi prev ps = Ok tt.
Proof.
  intros Hr Hp. revert prev. induction Hp as [|[i j] e ps es (b & Hb & He) _ IH]; intros prev Hs Hw Hprev; cbn [verify_merged]; [done|].
  rewrite (key_at_rep n bs i j e b Hr Hb He). mred. apply keys_sorted_cons in Hs as [Hf Hs]. rewrite Forall_forall in Hf.
  destruct (not_below_within lo hi (key_of e)) as [H1 H2]; [apply Hw; by left|]. rewrite H1, H2.
  assert (match prev with Some p => bytes_ltb p (key_of e) | None => true end = true) as ->.
  { destruct prev as [p|]; [|done]. apply bytes_ltb_true, Hprev; [done|by left]. }
  cbn [assert_that]. mred. apply IH; [done|intros x Hx; apply Hw; by right|]. intros p x [= <-] Hx. by apply Hf.
Qed.

Lemma verify_flag_ok n bs i b : node_rep n bs → bs !! i = Some b → flag_ok b → verify_flag n i = Ok tt.
Proof.
  intros Hr Hb Hf. unfold verify_flag, bset_needs_whiteout. rewrite (bset_header_rep Hr _ _ Hb). mred. rewrite has_whiteout_flag_bit.
  destruct (Z.testbit (b_flags b) 0) eqn:Ef; [done|]. rewrite (bset_entries_rep Hr _ _ Hb). mred.
  assert (forallb (λ e, negb (bool_decide (kind_enum e = Whiteout))) (b_entries b) = true) as ->; [|done].
  apply forallb_forall. intros e He%list_elem_of_In. apply negb_true_iff, bool_decide_eq_false. intros Hk. specialize (Hf e He Hk). congruence.
Qed.

Lemma verify_leaf_ok n bs q lo hi :
  leaf_ok n bs q → (∀ k e, view bs k = Some e → within lo hi k) → verify_leaf n lo hi = Ok tt.
Proof.
  intros Hok Hw. pose proof (lo_rep _ _ _ Hok) as Hr. unfold verify_leaf.
  destruct (merged_collect_ok n bs Hr (lo_runs _ _ _ Hok)) as (ps & es & E & Hp & Hs & Ha). rewrite E. mred.
  rewrite (verify_merged_ok n bs lo hi None ps es Hr Hp Hs); [mred| |done].
  - apply eachO_ok. intros i Hi%elem_of_seq. rewrite (bset_count_rep Hr) in Hi.
    destruct (lookup_lt_is_Some_2 bs i) as [b Hb]; [lia|]. eapply verify_flag_ok; [done|done|]. by eapply (Forall_lookup_1 _ _ _ _ (lo_flags _ _ _ Hok)).
  - intros e He. apply (Hw _ e). rewrite <- Ha. apply list_elem_of_lookup in He as [i He]. apply assoc_Some; eauto.
Qed.

Lemma sep_at_ok n L ks cs i k : inode n L ks cs → ks !! i = Some k → sep_at n i = Ok k.
Proof. intros Hn Hk. by destruct (inode_key n L ks cs i k Hn Hk). Qed.

Lemma verify_seps_ok n L ks cs lo hi :
  inode n L ks cs → sorted_seps ks → Forall (λ k, bound_lt lo (Some k) ∧ bound_lt (Some k) hi) ks → verify_seps n (length ks) lo hi = Ok tt.
Proof.
  intros Hn Hs Hb. unfold verify_seps. rewrite (outcome_bind_ok _ _ tt); apply eachO_ok.
  - intros i Hi%elem_of_seq. destruct (lookup_lt_is_Some_2 ks i) as [k Hk]; [lia|].
    rewrite (sep_at_ok _ _ _ _ _ _ Hn Hk). mred. destruct (Forall_lookup_1 _ _ _ _ Hb Hk) as [H1 H2].
    destruct (not_below_within lo hi k) as [-> ->]; [|done]. split; [|by destruct hi].
    destruct lo as [l|]; [|done]. cbn in *. intros H3. eapply bytes_lt_irrefl, bytes_lt_trans; [exact H1|exact H3].
  - intros i Hi%elem_of_seq. destruct (lookup_lt_is_Some_2 ks (i - 1)) as [k Hk]; [lia|]. destruct (lookup_lt_is_Some_2 ks i) as [k' Hk']; [lia|].
    rewrite (sep_at_ok _ _ _ _ _ _ Hn Hk), (sep_at_ok _ _ _ _ _ _ Hn Hk'). mred.
    rewrite (proj2 (bytes_ltb_true k k')); [done|]. eapply (sorted_seps_lookup ks (i - 1) i); [done|lia|done|done].
Qed.

(** ** A tree *)
Lemma forest_nth {A} (R : bound → bound → A → Prop) lo ks hi ch i c :
  forest R lo ks hi ch → ch !! i = Some c →
  R (if (i =? 0)%nat then lo else ks !! (i - 1)%nat) (if (i =? length ks)%nat then hi else ks !! i) c.
Proof.
  revert lo ks i. induction ch as [|c0 ch IH]; intros lo ks i Hf Hi; [done|]. destruct ks as [|k ks], i as [|i]; cbn [forest] in Hf.
  - injection Hi as <-. by destruct Hf as [_ Hf].
  - destruct Hf as [-> _]. done.
  - injection Hi as <-. by destruct Hf as [Hf _].
  - destruct Hf as [_ Hf]. specialize (IH (Some k) ks i Hf Hi). cbn [length Nat.eqb lookup list_lookup].
    replace (S i - 1)%nat with i by lia. destruct i as [|i]; cbn [Nat.eqb] in IH; [done|]. by replace (S i - 1)%nat with i in IH by lia.
Qed.

(** The listing of a node is that of its children, one after the other. *)
Lemma forest_listing R lo ks hi ch ess :
  (∀ l u c x y, R l u c → content c x = Some y → within l u x) → (∀ l u c, R l u c → bound_lt l u) →
  forest R lo ks hi ch → Forall2 (λ c es, listing (content c) es) ch ess →
  listing (λ k, choose (λ c, content c k) k ks ch) (concat ess).
Proof.
  intros HR HB. revert lo ks ess. induction ch as [|c ch IH]; intros lo ks ess Hf He; [by destruct ks|].
  apply Forall2_cons_inv_l in He as (es & ess' & Hc & He & ->). cbn [concat]. destruct ks as [|k0 ks]; cbn [forest choose] in *.
  - destruct Hf as [-> _]. apply Forall2_nil_inv_l in He as ->. cbn [concat]. by rewrite app_nil_r.
  - destruct Hf as [H1 H2]. apply listing_app; [done|by eapply IH| |].
    + intros k e Hk. by destruct (HR _ _ _ _ _ H1 Hk) as [_ ?].
    + intros k e Hk. by destruct (forest_content_range _ _ _ _ _ _ _ HR HB H2 Hk) as [? _].
Qed.

Section trees.
Context {D : Type} `{!BlockDevice D} `{!BlockDeviceLaws D} `{!BlockDeviceTotal D} `{!Crc32} `{!Crc32Range}.
Implicit Types s : BlockStore D.
Abbreviation SM := (M (BlockStore D) error).

Lemma unwrapped_ok {A} (c : SM A) s a s' : c s = (Ok a, s') → unwrapped c s = (Ok a, s').
Proof using Type. intros E. unfold unwrapped. by rewrite E. Qed.
Lemma read_copy_ok s nr n : loads s nr n → ∃ s', unwrapped (read_node_copy nr) s = (Ok n, s') ∧ same_heap s s'.
Proof using All.
  intros Hn. destruct (with_node_loads s nr n (λ n, Ok n) Hn) as (s' & E & Hs). exists s'. unfold unwrapped, read_node_copy. by rewrite E.
Qed.

(** A loop over the children, each of which gives a result that [Q] describes. *)
Lemma children_fold {A B} (body : B → nat → SM B) (Q : tree → A → Prop) (upd : B → A → B) ch j b s :
  (∀ i c b s0, ch !! i = Some c → same_heap s s0 →
    ∃ a s1, body b (j + i)%nat s0 = (Ok (upd b a), s1) ∧ same_heap s0 s1 ∧ Q c a) →
  ∃ l s', foldM body b (seq j (length ch)) s = (Ok (foldl upd b l), s') ∧ same_heap s s' ∧ Forall2 Q ch l.
Proof using Type.
  revert j b s. induction ch as [|c ch IH]; intros j b s Hb; cbn [length seq foldM]; [by exists [], s|].
  destruct (Hb 0%nat c b s eq_refl (reflexivity s)) as (a & s1 & E1 & Hs1 & Ha). rewrite Nat.add_0_r in E1.
  destruct (IH (S j) (upd b a) s1) as (l & s2 & E2 & Hs2 & Hl).
  { intros i x b' s0 Hx Hs0. rewrite Nat.add_succ_comm. apply (Hb (S i)); [done|by etrans]. }
  exists (a :: l), s2. rewrite (M_bind_ok _ _ _ _ _ E1). split; [done|]. split; [by etrans|by constructor].
Qed.
Lemma forM_foldM {A} (l : list A) (f : A → SM unit) s : forM_ l f s = foldM (λ _, f) tt l s.
Proof using Type.
  revert s. induction l as [|x l IH]; intros s; [done|]. cbn [forM_ foldM]. unfold mbind, M_bind.
  destruct (f x s) as [[[]|e| |] s1]; [apply IH|done..].
Qed.

(** The node of a tree, as the walks read it. *)
Lemma leaf_read h s q lo hi t :
  tree_ok h s q lo hi t →
  ∃ n s1, unwrapped (read_node_copy (t_nr t)) s = (Ok n, s1) ∧ same_heap s s1 ∧
    match h, t with
    | O, TLeaf nr bs => leaf_ok n bs q ∧ level n = 0 ∧ nkeys n = Ok (total_entries bs) ∧ ∀ k e, view bs k = Some e → within lo hi k
    | S h, TNode nr ks ch => inode n (Z.of_nat (S h)) ks (t_nr <$> ch) ∧ level n = Z.of_nat (S h) ∧ nkeys n = Ok (length ks) ∧
        (length ks ≤ MAX_INTERNAL_KEYS)%nat ∧ length ch = S (length ks) ∧ forest (tree_ok h s q) lo ks hi ch
    | _, _ => False
    end.
Proof using All.
  intros Ht. destruct h as [|h], t as [nr bs|nr ks ch]; try (destruct Ht as [_ Ht]; by destruct Ht).
  - destruct Ht as (_ & (n & Hn & Hok) & Hw). destruct (read_copy_ok s nr n Hn) as (s1 & E & Hs). exists n, s1.
    split_and!; [done|done|done|apply Hok|apply (nkeys_leaf_rep (lo_rep _ _ _ Hok)), Hok|done].
  - destruct Ht as (_ & (n & Hn & Hok) & [_ Hk] & Hf). destruct (read_copy_ok s nr n Hn) as (s1 & E & Hs). exists n, s1.
    split_and!; [done|done|done|by apply (inode_level _ _ _ _ Hok)|by apply (inode_nkeys _ _ _ _ Hok)|done|by eapply forest_length|done].
Qed.

Lemma child_tree h s s0 q lo ks hi ch i c n L :
  forest (tree_ok h s q) lo ks hi ch → same_heap s s0 → inode n L ks (t_nr <$> ch) → ch !! i = Some c →
  child_block n i = Ok (t_nr c) ∧
  tree_ok h s0 q (if (i =? 0)%nat then lo else ks !! (i - 1)%nat) (if (i =? length ks)%nat then hi else ks !! i) c.
Proof using All.
  intros Hf Hs Hn Hi. split; [eapply inode_child; [exact Hn|]; by rewrite list_lookup_fmap, Hi|].
  eapply same_heap_tree; [exact Hs|]. by eapply forest_nth.
Qed.

(** Run the loop over the children at the head of the goal. *)
Ltac walk_children Q upd ch :=
  match goal with |- context [foldM ?f ?b (seq 0 _) ?s] => destruct (children_fold f Q upd ch 0 b s) as (l & s2 & E2 & Hs2 & Hl2) end.

(** The checker passes. *)
Definition verifies (q : Z) (h : nat) (verify : Z → bound → bound → SM unit) : Prop := ∀ s lo hi t,
  tree_ok h s q lo hi t → ∃ s', verify (t_nr t) lo hi s = (Ok tt, s') ∧ same_heap s s'.

Lemma lift_sep n L ks cs (c : bool) (b : bound) i s :
  inode n L ks cs → (c = false → (i < length ks)%nat) →
  (if c then mret b else k ← lift (sep_at n i); mret (Some k) : SM bound) s = (Ok (if c then b else ks !! i), s).
Proof using Type.
  intros Hn Hi. destruct c; [done|]. destruct (lookup_lt_is_Some_2 ks i) as [k Hk]; [by apply Hi|]. unfold lift. by rewrite (sep_at_ok _ _ _ _ _ _ Hn Hk), Hk.
Qed.
Lemma verify_child_ok h s s0 q lo ks hi ch i c n verify :
  verifies q h verify → forest (tree_ok h s q) lo ks hi ch → same_heap s s0 → inode n (Z.of_nat (S h)) ks (t_nr <$> ch) → ch !! i = Some c →
  ∃ s1, verify_child verify n (length ks) lo hi i s0 = (Ok tt, s1) ∧ same_heap s0 s1.
Proof using All.
  intros Hv Hf Hs Hok Hi. destruct (child_tree h s s0 q lo ks hi ch i c n _ Hf Hs Hok Hi) as [Ec Hc].
  pose proof (lookup_lt_Some _ _ _ Hi) as Hil. rewrite (forest_length _ _ _ _ _ Hf) in Hil. unfold verify_child.
  rewrite Ec, (M_bind_ok _ _ _ (t_nr c) s0) by done.
  destruct (leaf_read _ _ _ _ _ _ Hc) as (n1 & s3 & E3 & Hs3 & _). rewrite (M_bind_ok _ _ _ _ _ E3).
  destruct (leaf_read _ _ _ _ _ _ (same_heap_tree _ _ _ _ _ _ _ Hs3 Hc)) as (n2 & s4 & E4 & Hs4 & Hm4). rewrite (M_bind_ok _ _ _ _ _ E4).
  assert (level n2 = level n - 1) as -> by (destruct (inode_level _ _ _ _ Hok) as [-> _]; destruct h, c; try done; destruct Hm4 as (_ & -> & _); lia).
  rewrite Z.eqb_refl, (M_bind_ok _ _ _ tt s4) by done.
  rewrite (M_bind_ok _ _ s4 _ s4 (lift_sep n _ ks _ (i =? 0)%nat lo (i - 1) s4 Hok ltac:(intros ?%Nat.eqb_neq; lia))).
  rewrite (M_bind_ok _ _ s4 _ s4 (lift_sep n _ ks _ (i =? length ks)%nat hi i s4 Hok ltac:(intros ?%Nat.eqb_neq; lia))).
  destruct (Hv s4 _ _ c (same_heap_tree _ _ _ _ _ _ _ Hs4 (same_heap_tree _ _ _ _ _ _ _ Hs3 Hc))) as (s5 & E5 & Hs5).
  exists s5. split; [exact E5|]. etrans; [exact Hs3|]. by etrans.
Qed.

Lemma verify_node_ok q h fuel : (h < fuel)%nat → verifies q h (verify_node fuel).
Proof using All.
  revert fuel. induction h as [|h IH]; intros [|fuel] Hfuel s lo hi t Ht; try lia;
    destruct (leaf_read _ _ _ _ _ _ Ht) as (n & s1 & E1 & Hs1 & Hm); destruct t as [nr bs|nr ks ch]; try done; cbn [verify_node].
  - destruct Hm as (Hok & Hl & Hk & Hw). rewrite (M_bind_ok _ _ _ _ _ E1), Hk, Hl. exists s1. split; [|done]. cbn [Z.eqb].
    pose proof (rep_total_le n bs (lo_rep _ _ _ Hok)). rewrite MAX_ENTRIES_eq.
    rewrite (M_bind_ok _ _ _ (total_entries bs) s1) by done. rewrite (proj2 (Nat.leb_le _ _)) by lia.
    rewrite (M_bind_ok _ _ _ tt s1) by done. unfold lift. by rewrite (verify_leaf_ok n bs q lo hi Hok Hw).
  - pose proof (node_seps_sorted _ _ _ _ _ _ _ _ Ht) as [Hss Hsb]. destruct Hm as (Hok & Hl & Hk & Hcap & Hlen & Hf).
    rewrite (M_bind_ok _ _ _ _ _ E1), Hk, Hl, (proj2 (Z.eqb_neq _ 0)) by lia. rewrite (M_bind_ok _ _ _ (length ks) s1) by done.
    rewrite (proj2 (Nat.leb_le _ _)), (M_bind_ok _ _ _ tt s1) by done.
    rewrite (M_bind_ok _ _ _ tt s1) by (unfold lift; by rewrite (verify_seps_ok n _ ks _ lo hi Hok Hss Hsb)).
    rewrite forM_foldM, <- Hlen. walk_children (λ (_ : tree) (_ : unit), True) (λ (_ _ : unit), tt) ch.
    { intros i c [] s0 Hi Hs0. destruct (verify_child_ok h s s0 q lo ks hi ch i c n (verify_node fuel)) as (s3 & E3 & Hs3);
        [apply IH; lia|done|by etrans|done|done|]. exists tt, s3. by split. }
    exists s2. split; [|by etrans]. rewrite E2. by destruct (foldl (λ _ _, tt) tt l).
Qed.

Lemma foldl_length {A} (ess : list (list A)) b : foldl (λ n es, n + length es)%nat b ess = (b + length (concat ess))%nat.
Proof using Type. revert b. induction ess as [|es ess IH]; intros b; cbn [foldl concat]; [cbn; lia|]. rewrite IH, length_app. lia. Qed.

Lemma count_keys_ok h s q lo hi t fuel :
  tree_ok h s q lo hi t → (h < fuel)%nat →
  ∃ es s', count_keys fuel (t_nr t) s = (Ok (length es), s') ∧ same_heap s s' ∧ listing (content t) es.
Proof using All.
  revert s lo hi t fuel. induction h as [|h IH]; intros s lo hi t [|fuel] Ht Hfuel; try lia;
    destruct (leaf_read _ _ _ _ _ _ Ht) as (n & s1 & E1 & Hs1 & Hm); destruct t as [nr bs|nr ks ch]; try done; cbn [count_keys].
  - destruct Hm as (Hok & Hl & _). rewrite (M_bind_ok _ _ _ _ _ E1), Hl. cbn [Z.eqb].
    destruct (merged_collect_ok n bs (lo_rep _ _ _ Hok) (lo_runs _ _ _ Hok)) as (ps & es & E & Hp & Hs & Ha). exists es, s1.
    rewrite E, (M_bind_ok _ _ _ ps s1), (Forall2_length _ _ _ Hp) by done. by split_and!.
  - destruct Hm as (Hok & Hl & Hk & _ & Hlen & Hf). rewrite (M_bind_ok _ _ _ _ _ E1), Hk, Hl, (proj2 (Z.eqb_neq _ 0)) by lia.
    rewrite (M_bind_ok _ _ _ (length ks) s1) by done. rewrite <- Hlen.
    walk_children (λ c es, listing (content c) es) (λ (n : nat) (es : list DiskEntry), n + length es)%nat ch.
    { intros i c b s0 Hi Hs0. cbn beta. rewrite Nat.add_0_l. destruct (child_tree h s s0 q lo ks hi ch i c n _ Hf ltac:(by etrans) Hok Hi) as [Ec Hc].
      rewrite Ec, (M_bind_ok _ _ _ (t_nr c) s0) by done. destruct (IH s0 _ _ c fuel Hc ltac:(lia)) as (es & s3 & E3 & Hs3 & Hes).
      exists es, s3. by rewrite (M_bind_ok _ _ _ _ _ E3). }
    exists (concat l), s2. rewrite E2, foldl_length. split_and!; [done|by etrans|]. cbn [content].
    eapply forest_listing; [apply tree_ok_content_range|apply tree_ok_bounds|exact Hf|exact Hl2].
Qed.

Lemma foldl_app_replicate (ks : list nat) x (out : list nat) :
  foldl (λ out k, out ++ replicate (S k) x) out ks = out ++ replicate (sum_list_with S ks) x.
Proof using Type.
  revert out. induction ks as [|k ks IH]; intros out; cbn [foldl sum_list_with]; [by rewrite app_nil_r|]. by rewrite IH, replicate_add, app_assoc.
Qed.
Lemma leaf_depths_ok h s q lo hi t fuel depth out :
  tree_ok h s q lo hi t → (h < fuel)%nat →
  ∃ k s', collect_leaf_depths fuel (t_nr t) depth out s = (Ok (out ++ replicate (S k) (depth + h)%nat), s') ∧ same_heap s s'.
Proof using All.
  revert s lo hi t fuel depth out. induction h as [|h IH]; intros s lo hi t [|fuel] depth out Ht Hfuel; try lia;
    destruct (leaf_read _ _ _ _ _ _ Ht) as (n & s1 & E1 & Hs1 & Hm); destruct t as [nr bs|nr ks ch]; try done; cbn [collect_leaf_depths].
  - destruct Hm as (_ & Hl & _). rewrite (M_bind_ok _ _ _ _ _ E1), Hl. exists 0%nat, s1. by rewrite Nat.add_0_r.
  - destruct Hm as (Hok & Hl & Hk & _ & Hlen & Hf). rewrite (M_bind_ok _ _ _ _ _ E1), Hk, Hl, (proj2 (Z.eqb_neq _ 0)) by lia.
    rewrite (M_bind_ok _ _ _ (length ks) s1) by done. rewrite <- Hlen.
    walk_children (λ (_ : tree) (_ : nat), True) (λ (out : list nat) k, out ++ replicate (S k) (depth + S h)%nat) ch.
    { intros i c b s0 Hi Hs0. cbn beta. rewrite Nat.add_0_l. destruct (child_tree h s s0 q lo ks hi ch i c n _ Hf ltac:(by etrans) Hok Hi) as [Ec Hc].
      rewrite Ec, (M_bind_ok _ _ _ (t_nr c) s0) by done. destruct (IH s0 _ _ c fuel (depth + 1)%nat b Hc ltac:(lia)) as (k & s3 & E3 & Hs3).
      exists k, s3. rewrite E3. by replace (depth + S h)%nat with (depth + 1 + h)%nat by lia. }
    rewrite E2, foldl_app_replicate. destruct ch as [|c ch]; [done|]. apply Forall2_cons_inv_l in Hl2 as (k & l' & _ & _ & ->). cbn [sum_list_with].
    exists (k + sum_list_with S l')%nat, s2. split; [done|by etrans].
Qed.

(** The keys on the lines of a dump. *)
Definition line_keys (ln : line) : list (list byte) := match ln with LeafLine _ _ _ keys => keys | _ => [] end.
Definition dumped (out : list line) : list (list byte) := mbind line_keys out.
Lemma dumped_app out1 out2 : dumped (out1 ++ out2) = dumped out1 ++ dumped out2.
Proof using Type. apply bind_app. Qed.

Definition dumps (q : Z) (h : nat) (walk : Z → nat → list line → SM (list line)) : Prop := ∀ s lo hi t indent out,
  tree_ok h s q lo hi t →
  ∃ es out' s', walk (t_nr t) indent out s = (Ok out', s') ∧ same_heap s s' ∧ listing (content t) es ∧
    dumped out' = dumped out ++ (key_of <$> es).

Lemma dump_children_ok q h walk s lo ks hi ch indent out :
  dumps q h walk → forest (tree_ok h s q) lo ks hi ch →
  ∃ es out' s', foldM (λ out '(child, sep), out ← walk child (indent + 1)%nat out;
      mret (match sep with Some sep => out ++ [SepLine indent sep] | None => out end)) out (plan_of ks (t_nr <$> ch)) s = (Ok out', s') ∧
    same_heap s s' ∧ listing (λ k, choose (λ c, content c k) k ks ch) es ∧ dumped out' = dumped out ++ (key_of <$> es).
Proof using Type.
  intros Hw. revert s lo ks out. induction ch as [|c ch IH]; intros s lo ks out Hf; [by destruct ks|].
  destruct ks as [|k0 ks]; cbn [fmap list_fmap plan_of foldM head tail].
  - destruct Hf as [-> Hc]. destruct (Hw s lo hi c (indent + 1)%nat out Hc) as (es & out1 & s1 & E & Hs & Hl & Hd).
    exists es, out1, s1. unfold mbind, M_bind. rewrite E. done.
  - destruct Hf as [Hc Hf]. destruct (Hw s lo (Some k0) c (indent + 1)%nat out Hc) as (es & out1 & s1 & E & Hs & Hl & Hd).
    destruct (IH s1 (Some k0) ks (out1 ++ [SepLine indent k0])) as (es2 & out2 & s2 & E2 & Hs2 & Hl2 & Hd2).
    { eapply forest_mono; [|exact Hf]. intros l u x _. by apply same_heap_tree. }
    exists (es ++ es2), out2, s2. split; [unfold mbind, M_bind in *; by rewrite E|]. split; [by etrans|]. split.
    + apply listing_app; [done|done| |].
      * intros k e Hk. by apply (tree_ok_content_range _ _ _ _ _ _ _ _ Hc) in Hk as [_ ?].
      * intros k e Hk. by apply (forest_content_range _ _ _ _ _ _ _ (tree_ok_content_range h s q) (tree_ok_bounds h s q) Hf) in Hk as [? _].
    + rewrite Hd2, dumped_app, Hd, fmap_app. cbn. by rewrite app_nil_r, app_assoc.
Qed.

Lemma dump_keys n bs ps es : node_rep n bs → positions bs ps es → mapM (λ '(b, i), key_at n b i) ps = Ok (key_of <$> es).
Proof using Type.
  intros Hr. induction 1 as [|[b i] e ps es (r & Hb & He) _ IH]; [done|]. cbn [mapM fmap list_fmap].
  rewrite (key_at_rep n bs b i e r Hr Hb He). mred. by rewrite IH.
Qed.

Lemma dump_ok q h fuel : (h < fuel)%nat → dumps q h (dump fuel).
Proof using All.
  revert fuel. induction h as [|h IH]; intros [|fuel] Hfuel s lo hi t indent out Ht; try lia; destruct t as [nr bs|nr ks ch];
    try (destruct Ht as [_ Ht]; by destruct Ht); cbn [dump t_nr].
  - destruct Ht as (_ & (n & Hn & Hok) & _). destruct (merged_collect_ok n bs (lo_rep _ _ _ Hok) (lo_runs _ _ _ Hok)) as (ps & es & Ep & Hp & Hs & Ha).
    match goal with |- context [with_node nr ?f] => destruct (with_node_loads s nr n f Hn) as (s1 & E & Hs1) end. cbn beta in E.
    rewrite (lo_level _ _ _ Hok), Ep in E. cbn [Z.eqb] in E. cbn [mbind outcome_bind] in E. rewrite (dump_keys n bs ps es (lo_rep _ _ _ Hok) Hp) in E.
    exists es, (out ++ [LeafLine indent nr (bset_count n) (key_of <$> es)]), s1. split; [by rewrite (M_bind_ok _ _ _ _ _ (unwrapped_ok _ _ _ _ E))|].
    split; [done|]. split; [done|]. rewrite dumped_app. cbn. by rewrite app_nil_r.
  - destruct Ht as (_ & (n & Hn & Hok) & _ & Hf).
    match goal with |- context [with_node nr ?f] => destruct (with_node_loads s nr n f Hn) as (s1 & E & Hs1) end. cbn beta in E.
    destruct (inode_level _ _ _ _ Hok) as [Hlv Hpos]. rewrite Hlv, (proj2 (Z.eqb_neq _ 0)) in E by lia. unfold dump_plan in E.
    rewrite (inode_nkeys _ _ _ _ Hok) in E. cbn [mbind outcome_bind] in E. rewrite (scan_cells n _ ks _ (S (length ks)) 0 Hok) in E by lia.
    rewrite !drop_0 in E. cbn [mbind outcome_bind] in E.
    destruct (dump_children_ok q h (dump fuel) s1 lo ks hi ch indent (out ++ [InternalLine indent nr (Z.of_nat (S h)) (length ks)])) as (es & out' & s2 & E2 & Hs2 & Hl & Hd).
    { apply IH. lia. } { eapply forest_mono; [|exact Hf]. intros l u x _. by apply same_heap_tree. }
    exists es, out', s2. split; [by rewrite (M_bind_ok _ _ _ _ _ (unwrapped_ok _ _ _ _ E))|]. split; [by etrans|]. split; [done|].
    rewrite Hd, dumped_app. cbn. by rewrite app_nil_r.
Qed.
End trees.

(** ** The root *)
Section btree.
Context {D : Type} `{!BlockDevice D} `{!BlockDeviceLaws D} `{!BlockDeviceTotal D} `{!Crc32} `{!Crc32Range}.
Implicit Types bt : Btree D.

Lemma models_tree bt m n : bt_models bt m n → ∃ h t, tree_ok h (store bt) (next_bset_seq bt) None None t ∧ t_nr t = root_block bt ∧
  (h < TREE_FUEL)%nat ∧ ∀ k, m k = row_of <$> content t k.
Proof using All.
  intros [(h & t & [Hok Hr Ho _ _] & Hm) [Hroom _ _]]. exists h, t. pose proof (height_fuel _ _ _ _ _ _ _ Hok Ho Hroom). split_and!; [done|done|lia|done].
Qed.

Lemma verify_ok bt m n :
  bt_models bt m n → ∃ bt', verify bt = (Ok tt, bt') ∧ bt_models bt' m n ∧ same_log bt bt'.
Proof using All.
  intros Hbt. destruct (models_tree _ _ _ Hbt) as (h & t & Ht & Hr & Hh & _).
  destruct (verify_node_ok _ h TREE_FUEL Hh (store bt) None None t Ht) as (s' & E & Hs).
  exists (set_store s' bt). split; [|by apply read_models]. unfold verify. rewrite gets_bind. unfold in_store, zoom. by rewrite <- Hr, E.
Qed.
Lemma balanced_ok bt m n :
  bt_models bt m n → ∃ k depth s', collect_leaf_depths TREE_FUEL (root_block bt) 0 [] (store bt) = (Ok (replicate (S k) depth), s').
Proof using All.
  intros Hbt. destruct (models_tree _ _ _ Hbt) as (h & t & Ht & Hr & Hh & _).
  destruct (leaf_depths_ok h (store bt) _ None None t TREE_FUEL 0 [] Ht Hh) as (k & s' & E & _). exists k, h, s'. rewrite <- Hr. exact E.
Qed.

(** The keys of the map, as a listing of the tree gives them. *)
Lemma listing_keys (m : amap) t es : (∀ k, m k = row_of <$> content t k) → listing (content t) es → ∀ k, k ∈ key_of <$> es ↔ is_Some (m k).
Proof using Type.
  intros Hm Hl k. rewrite Hm, fmap_is_Some, <- (proj2 Hl). split.
  - intros (e & -> & He)%list_elem_of_fmap. rewrite (proj2 Hl), (listing_elem _ _ _ Hl He). by eexists.
  - intros [e [<- He]%assoc_key]. by apply list_elem_of_fmap_2.
Qed.
End btree.

(** ** Claims *)
Section claims.
Context {D : Type} `{!BlockDevice D} `{!BlockDeviceLaws D} `{!BlockDeviceTotal D} `{!Crc32} `{!Crc32Range}.
Implicit Types bt : Btree D.

(** C31: counting and dumping report the stored keys. On a tree that stands for a
    map, [count_keys] returns the number of its keys and the leaf lines of [dump]
    show each of them once, in ascending order; neither changes the tree. *)
Theorem inspection_reports_the_keys bt m n :
  bt_models bt m n →
  ∃ ks out s bt', StronglySorted bytes_lt ks ∧ (∀ k, k ∈ ks ↔ is_Some (m k)) ∧
    count_keys TREE_FUEL (root_block bt) (store bt) = (Ok (length ks), s) ∧
    btree_dump bt = (Ok out, bt') ∧ dumped out = ks ∧ bt_models (set_store s bt) m n ∧ bt_models bt' m n.
Proof using All.
  intros Hbt. destruct (models_tree _ _ _ Hbt) as (h & t & Ht & Hr & Hh & Hm).
  destruct (count_keys_ok h (store bt) _ None None t TREE_FUEL Ht Hh) as (es & s & E & Hs & Hl).
  destruct (dump_ok _ h TREE_FUEL Hh (store bt) None None t 0%nat [DumpBegin (next_block_nr (store bt))] Ht) as (es' & out & s' & E' & Hs' & Hl' & Hd).
  assert (es' = es) as -> by (apply keys_sorted_unique; [apply Hl'|apply Hl|intros k; by rewrite (proj2 Hl), (proj2 Hl')]).
  exists (key_of <$> es), (out ++ [DumpEnd]), s, (set_store s' bt). rewrite length_fmap, <- Hr.
  split_and!; [apply Hl|by eapply listing_keys|exact E| |rewrite dumped_app, Hd; by rewrite app_nil_r|by apply read_models|by apply read_models].
  unfold btree_dump. rewrite !gets_bind. unfold in_store, zoom, mbind, M_bind. by rewrite <- Hr, E'.
Qed.
End claims.

(** ** Concrete runs *)
#[local] Existing Instance sum_crc.
Lemma inspection_reports_the_keys_witness :
  ∃ bt bt1 out s bt', create_in in_memory = Ok bt ∧ insert_with_kind demo_logical ROOT_SNAP Live [Byte.x61] bt = (Ok tt, bt1) ∧
    count_keys TREE_FUEL (root_block bt1) (store bt1) = (Ok 1%nat, s) ∧ btree_dump bt1 = (Ok out, bt') ∧ dumped out = [versioned demo_logical ROOT_SNAP].
Proof.
  destruct demo_written as (bt & bt1 & E & E1 & Hbt).
  destruct (inspection_reports_the_keys bt1 demo_map _ Hbt) as (ks & out & s & bt' & Hs & Hk & Ec & Ed & Hd & _).
  assert (ks = [versioned demo_logical ROOT_SNAP]) as ->.
  { assert (∀ k, k ∈ ks → k = versioned demo_logical ROOT_SNAP) as Hall.
    { intros k Hin. apply Hk in Hin. revert Hin. unfold demo_map, a_put. case_decide as H; [intros _; exact H|intros [? [=]]]. }
    assert (versioned demo_logical ROOT_SNAP ∈ ks) as Hin by (apply Hk; unfold demo_map, a_put; rewrite decide_True; [eexists; reflexivity|reflexivity]).
    destruct ks as [|k ks]; [apply elem_of_nil in Hin; destruct Hin|]. rewrite (Hall k) in * by left.
    destruct ks as [|k' ks]; [reflexivity|]. exfalso. apply StronglySorted_inv in Hs as [_ [Hlt _]%Forall_cons].
    rewrite (Hall k') in Hlt by (right; left). revert Hlt. apply bytes_lt_irrefl. }
  exists bt, bt1, out, s, bt'. split; [exact E|]. split; [exact E1|]. split; [exact Ec|]. split; [exact Ed|exact Hd].
Defined.
