(* ===== verification/Checkpoint.v ===== *)
(** * Checkpoint: flushing a tree leaves its content on the device.

    [checkpoint_flush] copies every dirty node, and the path above it, to fresh
    blocks. The tree behind the root it returns has the same content, every node
    of it is on the device as a mount reads it, and the blocks it reports as freed
    are blocks of the old tree that the new one does not use. [fs_sync] then writes
    the free-list chain and the superblock: the image it leaves is [durable]. *)
From Stdlib Require Import Strings.Byte.
From stdpp Require Import base list numbers gmap sorting.
From S2P Require Import Prelude Device BlockBtree NodeRep Merge Storage Journal StoreSpec Heap Btree Leaf Internal Tree TreeRead TreeWrite BtreeSpec.
#[local] Open Scope rfs_scope.
#[local] Open Scope Z_scope.

Abbreviation cblocks ch := (concat (map blocks ch)).

(** ** Child pointers as a whole *)
Lemma inode_set_children n L ks cs cs' :
  inode n L ks cs → length cs' = length cs → Forall (in_width 64) cs' →
  ∃ n', for_node (seq 0 (length cs')) (λ n i, c ← index cs' i; set_child_block i c n) n = Ok n' ∧ inode n' L ks cs'.
Proof.
  intros (z & Hn & Hl) Hl' Hw.
  destruct (for_node_cells (λ n i, c ← index cs' i; set_child_block i c n) L
    (λ j, (ks ++ [z], overwrite cs 0 (take j cs'))) 0 (length cs') n) as (n' & E & Hn' & _); cbn [fst snd].
  - intros j n1 Hj Hn1. cbn [Nat.add]. destruct (lookup_lt_is_Some_2 cs' j Hj) as [c Hc].
    unfold index. rewrite Hc. cbn [expect]. mred.
    destruct (cells_set_child n1 L _ _ j c Hn1) as (n2 & E2 & Hn2 & Hk).
    { rewrite length_overwrite; [lia|]. rewrite length_take. lia. }
    { rewrite Forall_lookup in Hw. by eapply Hw. }
    exists n2. split_and!; [done| |done]. rewrite <- (overwrite_step cs cs' 0 j c) by (done || lia). exact Hn2.
  - by rewrite take_0, overwrite_nil.
  - exists n'. split; [done|]. exists z. split; [|by rewrite Hl'].
    rewrite firstn_all in Hn'. unfold overwrite in Hn'. cbn [take app Nat.add] in Hn'.
    rewrite drop_ge, app_nil_r in Hn' by lia. exact Hn'.
Qed.

Lemma choose_same {A B} (f : A → option B) k ks ch ch' :
  Forall2 (λ c c', f c' = f c) ch ch' → choose f k ks ch' = choose f k ks ch.
Proof.
  intros Hf. revert ks. induction Hf as [|c c' ch ch' Hc _ IH]; intros ks; [done|]. cbn [choose].
  destruct ks as [|k0 ks]; [done|]. by rewrite Hc, IH.
Qed.

Section flush.
Context {D : Type} `{!BlockDevice D} `{!BlockDeviceLaws D} `{!BlockDeviceTotal D} `{!Crc32} `{!Crc32Range}.
Implicit Types s : BlockStore D.

(** Blocks [B] became the clean blocks [B'], and [F] are no longer used. *)
Record relocated s (B F : list Z) s' (B' : list Z) : Prop := {
  re_ev : evolves nowhere s s';
  re_nodup : NoDup (B' ++ F);
  re_held : Forall (held s') (B' ++ F);
  re_calm : Forall (calm s') B';
  re_old : F ⊆ B;
  re_new k : k ∈ B' → k ∈ B ∨ ¬ held s k;
}.

Lemma relocated_nil s : relocated s [] [] s [].
Proof. split; [apply evolves_refl|constructor..|done|by intros k ?%elem_of_nil]. Qed.
Lemma relocated_keep s B : NoDup B → Forall (held s) B → Forall (calm s) B → relocated s B [] s B.
Proof. intros Hd Hh Hc. split; rewrite ?app_nil_r; [apply evolves_refl|done|done|done|by intros k ?%elem_of_nil|by left]. Qed.

Lemma relocated_before s0 s B F s' B' : evolves nowhere s0 s → relocated s B F s' B' → relocated s0 B F s' B'.
Proof.
  intros Hev []. split; [by eapply evolves_nowhere|done|done|done|done|].
  intros k Hk. destruct (re_new0 k Hk) as [?|Hn]; [by left|right]. intros Hs. by apply Hn, Hev.
Qed.

Lemma relocated_app s B1 F1 s1 B1' B2 F2 s2 B2' :
  relocated s B1 F1 s1 B1' → relocated s1 B2 F2 s2 B2' → NoDup (B1 ++ B2) → Forall (held s) (B1 ++ B2) →
  relocated s (B1 ++ B2) (F1 ++ F2) s2 (B1' ++ B2').
Proof.
  intros R1 R2 Hd Hh. apply Forall_app in Hh as [Hh1 Hh2]. rewrite Forall_forall in Hh1, Hh2.
  apply NoDup_app in Hd as (_ & Hd & _). pose proof (re_held _ _ _ _ _ R1) as Hb1. rewrite Forall_forall in Hb1.
  assert (B1' ++ B2' ++ F1 ++ F2 ≡ₚ (B1' ++ F1) ++ (B2' ++ F2)) as Hp by (by rewrite <- !app_assoc, (app_assoc B2' F1), (app_assoc F1 B2'), (Permutation_app_comm B2' F1)).
  assert (∀ k, k ∈ B1' ++ F1 → k ∈ B1 ∨ ¬ held s k) as N1.
  { intros k [Hk|Hk]%elem_of_app; [by apply R1|left; by apply R1]. }
  assert (∀ k, k ∈ B2' ++ F2 → k ∈ B2 ∨ ¬ held s1 k) as N2.
  { intros k [Hk|Hk]%elem_of_app; [by apply R2|left; by apply R2]. }
  split.
  - eapply evolves_nowhere; [apply R1|apply R2].
  - rewrite <- app_assoc, Hp. apply NoDup_app. split_and!; [apply R1| |apply R2].
    intros k Hk1 Hk2. destruct (N2 k Hk2) as [Hin|Hn]; [|by apply Hn, Hb1].
    destruct (N1 k Hk1) as [Hin1|Hn]; [by apply (Hd k)|by apply Hn, Hh2].
  - rewrite <- app_assoc, Hp. apply Forall_app. split; [|apply R2]. apply Forall_forall. intros k Hk.
    by apply (re_ev _ _ _ _ _ R2), Hb1.
  - apply Forall_app. split; [|apply R2]. pose proof (re_calm _ _ _ _ _ R1) as Hc. rewrite Forall_forall in *.
    intros k Hk. apply (re_ev _ _ _ _ _ R2); [apply Hb1, elem_of_app; by left|by intros []|by apply Hc].
  - intros k. rewrite !elem_of_app. intros [Hk|Hk]; [left; by apply R1|right; by apply R2].
  - intros k. rewrite !elem_of_app. intros [Hk|Hk].
    + apply R1 in Hk. tauto.
    + apply R2 in Hk as [?|Hn]; [tauto|]. right. intros Hs. by apply Hn, (re_ev _ _ _ _ _ R1).
Qed.

Lemma relocated_perm s B C F s' B' C' : B ≡ₚ C → B' ≡ₚ C' → relocated s B F s' B' → relocated s C F s' C'.
Proof.
  intros HB HB' []. split; [done|by rewrite <- HB'|by rewrite <- HB'|by rewrite <- HB'| |].
  - intros k Hk. rewrite <- HB. auto.
  - intros k. rewrite <- HB, <- HB'. auto.
Qed.

(** A node copied to a fresh block. *)
Lemma relocated_move s nr nb s' :
  held s nr → evolves nowhere s s' → ¬ held s nb → held s' nb → calm s' nb → relocated s [nr] [nr] s' [nb].
Proof.
  intros Hh Hev Hn Hb Hc. split; [done| | | |done|].
  - cbn [app]. apply NoDup_cons. split; [|apply NoDup_singleton]. by intros ->%list_elem_of_singleton.
  - cbn [app]. rewrite Forall_cons, Forall_singleton. split; [done|by apply Hev].
  - by apply Forall_singleton.
  - intros k ->%list_elem_of_singleton. by right.
Qed.

(** [checkpoint_flush] with [fuel] is right on trees of height [h]. *)
Definition flushes (fuel h : nat) : Prop := ∀ s q lo hi t m freed,
  tree_ok h s q lo hi t → owned s t → paths s t → room s (Z.of_nat (length (blocks t)) + m) → 0 ≤ m →
  ∃ s' t' F, checkpoint_flush fuel (t_nr t) freed s = (Ok (t_nr t', freed ++ F), s') ∧ tree_ok h s' q lo hi t' ∧
    (∀ k, content t' k = content t k) ∧ relocated s (blocks t) F s' (blocks t') ∧ room s' m.

Lemma with_cached_ok {R} s nr c n (f : BtreeNodeRaw → bool → res R) r :
  node_cache s !! nr = Some c → loads s nr n → f n (cn_dirty c) = Ok r → with_cached_node nr f s = (Ok (Some r), s).
Proof.
  intros Hc [_ Hl] Hf. rewrite Hc in Hl. unfold with_cached_node. rewrite gets_bind, Hc, Hl.
  unfold mbind, M_bind, lift. by rewrite Hf.
Qed.

(** A subtree that is not cached is skipped. *)
Lemma flush_uncached fuel h s q lo hi t m freed :
  tree_ok h s q lo hi t → owned s t → paths s t → room s (Z.of_nat (length (blocks t)) + m) → 0 ≤ m →
  node_cache s !! t_nr t = None →
  ∃ s' t' F, checkpoint_flush (S fuel) (t_nr t) freed s = (Ok (t_nr t', freed ++ F), s') ∧ tree_ok h s' q lo hi t' ∧
    (∀ k, content t' k = content t k) ∧ relocated s (blocks t) F s' (blocks t') ∧ room s' m.
Proof.
  intros Ht [Hd Hh] Hp Hr Hm Hc. exists s, t, []. split_and!; [|done|done| |eapply room_weaken; [done|lia]].
  - cbn [checkpoint_flush]. unfold with_cached_node. unfold mbind at 1, M_bind at 1. rewrite gets_bind, Hc, app_nil_r. done.
  - apply relocated_keep; [done|done|]. apply Forall_forall. intros k Hk. apply (Hp t); [constructor| |done].
    unfold cached. rewrite Hc. by intros [].
Qed.

Lemma flushes_leaf fuel : flushes (S fuel) 0.
Proof using All.
  intros s q lo hi t m freed Ht Ho Hp Hr Hm. destruct (node_cache s !! t_nr t) as [c|] eqn:Hc;
    [|by apply (flush_uncached fuel 0 s q lo hi t m)].
  destruct t as [nr bs|]; [|by destruct Ht]. destruct Ht as (Hb & (n & Hl & Hn) & Hrng). destruct Ho as [_ Hh].
  cbn [t_nr] in *. cbn [checkpoint_flush]. change (Z.of_nat (length (blocks (TLeaf nr bs))) + m) with (1 + m) in Hr.
  mstep (with_cached_ok s nr c n (λ n dirty, Ok (level n, dirty)) (level n, cn_dirty c) Hc Hl eq_refl).
  rewrite (lo_level _ _ _ Hn). cbn [Z.eqb]. destruct (cn_dirty c) eqn:Hdirty; cbn [negb].
  - destruct (with_node_ev s nr n clone_to_heap (1 + m) Hl Hr) as (s1 & E1 & Hev1 & Hr1 & _).
    change (clone_to_heap n) with (Ok (E := error) n) in E1. mstep E1.
    destruct (alloc_write s1 n m) as (nb & s2 & s3 & E2 & E3 & Hev2 & Hr2 & Hnb & Hh2 & Hl2 & _ & Hcalm);
      [by eapply leaf_sound|done|done|].
    mstep E2. mstep E3. exists s3, (TLeaf nb bs), [nr]. split_and!; [done| |done| |done].
    + split; [done|]. split; [|done]. eexists. split; [done|by apply leaf_stamp].
    + apply (relocated_before s s1); [done|]. apply relocated_move; [apply Hev1; by apply Forall_cons_1 in Hh as [? _]|done..].
  - exists s, (TLeaf nr bs), []. rewrite app_nil_r. split_and!; [done| |done| |eapply room_weaken; [done|lia]].
    + split; [done|]. split; [eauto|done].
    + apply relocated_keep; [apply NoDup_singleton|done|]. apply Forall_singleton. intros c' Hc'. congruence.
Qed.

Lemma children_quiet h s s' q bs ch :
  evolves nowhere s s' → Forall (held s) (cblocks ch) → Forall2 (λ b c, tree_ok h s q b.1 b.2 c) bs ch →
  Forall2 (λ b c, tree_ok h s' q b.1 b.2 c) bs ch.
Proof.
  intros Hev Hh HF. induction HF as [|b x bs xs Hx _ IH]; constructor; cbn [map concat] in Hh; apply Forall_app in Hh as [? ?].
  - by eapply tree_ok_quiet.
  - by apply IH.
Qed.

Lemma flush_children fuel h :
  flushes fuel h → ∀ ch s q bs m cs moved freed,
  Forall2 (λ b c, tree_ok h s q b.1 b.2 c) bs ch → NoDup (cblocks ch) → Forall (held s) (cblocks ch) →
  Forall (paths s) ch → room s (Z.of_nat (length (cblocks ch)) + m) → 0 ≤ m →
  ∃ s' ch' F moved',
    foldM (λ '(cs, moved, freed) child,
        '(new_child, freed) ← checkpoint_flush fuel child freed;
        mret (cs ++ [new_child], moved || negb (new_child =? child), freed))
      (cs, moved, freed) (t_nr <$> ch) s = (Ok (cs ++ (t_nr <$> ch'), moved', freed ++ F), s') ∧
    Forall2 (λ b c, tree_ok h s' q b.1 b.2 c) bs ch' ∧ Forall2 (λ c c', ∀ k, content c' k = content c k) ch ch' ∧
    relocated s (cblocks ch) F s' (cblocks ch') ∧ room s' m ∧
    (moved' = false → moved = false ∧ t_nr <$> ch' = t_nr <$> ch).
Proof using All.
  intros IH ch. induction ch as [|c ch IHch]; intros s q bs m cs moved freed HF Hd Hh Hp Hr Hm.
  { exists s, [], [], moved. cbn [fmap list_fmap foldM]. rewrite !app_nil_r.
    split_and!; [done|done|constructor|apply relocated_nil|eapply room_weaken; [done|lia]|done]. }
  cbn [map concat] in Hd, Hh, Hr. pose proof Hd as Hd0. pose proof Hh as Hh0.
  apply NoDup_app in Hd as (Hd1 & _ & Hd2). apply Forall_app in Hh as [Hh1 Hh2]. apply Forall_cons in Hp as [Hpc Hp].
  apply Forall2_cons_inv_r in HF as (b & bs' & Hc & HF & ->). rewrite length_app in Hr.
  destruct (IH s q b.1 b.2 c (Z.of_nat (length (cblocks ch)) + m) freed Hc (conj Hd1 Hh1) Hpc)
    as (s1 & c' & F1 & E1 & Hc1 & Hcon & R1 & Hr1); [eapply room_weaken; [exact Hr|lia]|lia|].
  pose proof (re_ev _ _ _ _ _ R1) as Hev1.
  set (moved1 := moved || negb (t_nr c' =? t_nr c)). cbn [fmap list_fmap foldM].
  match goal with |- context [foldM ?f] =>
    assert (f (cs, moved, freed) (t_nr c) s = (Ok (cs ++ [t_nr c'], moved1, freed ++ F1), s1)) as Estep by (by mstep E1)
  end. mstep Estep.
  assert (∀ x, x ∈ ch → Forall (held s) (blocks x)) as Hsub.
  { intros x Hx. apply Forall_forall. intros k Hk. rewrite Forall_forall in Hh2. by apply Hh2, (blocks_child x). }
  destruct (IHch s1 q bs' m (cs ++ [t_nr c']) moved1 (freed ++ F1)) as (s2 & ch' & F2 & moved' & E2 & HF2 & Hcon2 & R2 & Hr2 & Hmv).
  { by eapply children_quiet. }
  { done. }
  { eapply Forall_impl; [exact Hh2|apply Hev1]. }
  { rewrite Forall_forall in Hp |- *. intros x Hx. eapply paths_quiet; [exact Hev1|by apply Hsub|by apply Hp]. }
  { done. }
  { done. }
  exists s2, (c' :: ch'), (F1 ++ F2), moved'. cbn [fmap list_fmap map concat]. split_and!.
  - rewrite E2, <- !app_assoc. done.
  - constructor; [|done]. eapply tree_ok_quiet; [apply R2| |done]. pose proof (re_held _ _ _ _ _ R1) as Hx.
    by apply Forall_app in Hx as [? _].
  - by constructor.
  - by apply (relocated_app _ _ _ s1).
  - done.
  - intros Hm'. destruct (Hmv Hm') as [Hm1 Heq]. subst moved1. apply orb_false_iff in Hm1 as [-> Hn].
    apply negb_false_iff, Z.eqb_eq in Hn. by rewrite Hn, Heq.
Qed.

(** The ranges of the children between their separators. *)
Fixpoint ranges (lo : bound) (ks : list (list byte)) (hi : bound) : list (bound * bound) :=
  match ks with
  | [] => [(lo, hi)]
  | k :: ks => (lo, Some k) :: ranges (Some k) ks hi
  end.

Lemma forest_ranges {A} (R : bound → bound → A → Prop) lo ks hi ch :
  forest R lo ks hi ch ↔ Forall2 (λ b, R b.1 b.2) (ranges lo ks hi) ch.
Proof.
  revert lo ch. induction ks as [|k ks IH]; intros lo [|c ch]; cbn [forest ranges].
  - split; [done|]. by intros ?%Forall2_cons_nil_inv.
  - rewrite Forall2_cons. split; [by intros [-> ?]|]. by intros [? ->%Forall2_nil_inv_l].
  - split; [done|]. by intros ?%Forall2_cons_nil_inv.
  - by rewrite Forall2_cons, IH.
Qed.

Lemma flushes_node fuel h : flushes fuel h → flushes (S fuel) (S h).
Proof using All.
  intros IH s q lo hi t m freed Ht Ho Hp Hr Hm. destruct (node_cache s !! t_nr t) as [c|] eqn:Hc;
    [|by apply (flush_uncached fuel (S h) s q lo hi t m)].
  destruct t as [|nr ks ch]; [by destruct Ht|]. destruct Ht as (Hb & (n & Hl & Hn) & Hlen & HF). destruct Ho as [Hd Hh].
  cbn [t_nr blocks] in *. cbn [checkpoint_flush]. destruct (inode_level _ _ _ _ Hn) as [Hlv _].
  mstep (with_cached_ok s nr c n (λ n dirty, Ok (level n, dirty)) (level n, cn_dirty c) Hc Hl eq_refl).
  rewrite Hlv. destruct (Z.eqb_spec (Z.of_nat (S h)) 0) as [?|_]; [lia|].
  mstep (with_cached_ok s nr c n (λ n _, children n) _ Hc Hl (inode_children _ _ _ _ Hn)).
  mstep (eq_refl : expect (E := error) (Some (t_nr <$> ch)) = Ok (t_nr <$> ch)).
  pose proof Hd as [Hnr Hd']%NoDup_cons. pose proof Hh as [Hhn Hh']%Forall_cons. rewrite length_cons in Hr.
  destruct (flush_children fuel h IH ch s q (ranges lo ks hi) (1 + m) [] false freed)
    as (s1 & ch' & F & moved & E1 & HF1 & Hcon & R1 & Hr1 & Hmv); [by apply forest_ranges|done|done| | |lia|].
  { apply Forall_forall. intros x Hx. by eapply paths_child. }
  { eapply room_weaken; [exact Hr|lia]. }
  pose proof (re_ev _ _ _ _ _ R1) as Hev1. mstep E1. cbn [app].
  assert (∀ nb, (∀ k, content (TNode nb ks ch') k = content (TNode nr ks ch) k)) as Hcont.
  { intros nb k. cbn [content]. apply choose_same. eapply Forall2_impl; [exact Hcon|]. auto. }
  assert (loads s1 nr n) as Hl1 by (by apply Hev1; [|intros []|]).
  assert (∀ F2 nb s2, relocated s1 [nr] F2 s2 [nb] →
    relocated s (nr :: cblocks ch) (F ++ F2) s2 (nb :: cblocks ch')) as Hre.
  { intros F2 nb s2 R2. eapply relocated_perm; [| |eapply relocated_app; [exact R1|exact R2| |]];
      rewrite 1?(Permutation_app_comm _ [nr]), 1?(Permutation_app_comm _ [nb]); done. }
  destruct (negb (cn_dirty c) && negb moved) eqn:Estay.
  - apply andb_true_iff in Estay as [Hdirty%negb_true_iff Hmoved%negb_true_iff]. destruct (Hmv Hmoved) as [_ Hsame].
    exists s1, (TNode nr ks ch'), F. split_and!; [done| |apply Hcont| |eapply room_weaken; [done|lia]].
    + split; [done|]. split; [|split; [done|by apply forest_ranges]]. exists n. by rewrite Hsame.
    + rewrite <- (app_nil_r F). apply Hre. apply relocated_keep; [apply NoDup_singleton|by apply Forall_singleton, Hev1|].
      apply Forall_singleton. apply Hev1; [done|by intros []|]. intros c' Hc'. congruence.
  - destruct (with_node_ev s1 nr n clone_to_heap (1 + m) Hl1 Hr1) as (s2 & E2 & Hev2 & Hr2 & _).
    change (clone_to_heap n) with (Ok (E := error) n) in E2. mstep E2.
    pose proof (Forall2_length _ _ _ HF1) as Hlc. pose proof (Forall2_length _ _ _ (proj1 (forest_ranges _ _ _ _ _) HF)) as Hlc0.
    destruct (inode_set_children n _ ks (t_nr <$> ch) (t_nr <$> ch') Hn) as (n' & E3 & Hn').
    { rewrite !length_fmap. congruence. }
    { apply Forall_fmap, Forall_forall. intros x Hx. apply (held_width s1 (1 + m) _ Hr1).
      pose proof (re_held _ _ _ _ _ R1) as Hhe. rewrite Forall_forall in Hhe.
      apply Hhe, elem_of_app. left. apply (blocks_child x); [done|]. apply t_nr_blocks. }
    mstep E3.
    destruct (alloc_write s2 n' m) as (nb & s3 & s4 & E4 & E5 & Hev4 & Hr4 & Hnb & Hh4 & Hl4 & _ & Hcalm);
      [by eapply inode_sound|done|done|].
    mstep E4. mstep E5. exists s4, (TNode nb ks ch'), (F ++ [nr]). rewrite app_assoc.
    assert (relocated s1 [nr] [nr] s4 [nb]) as R2.
    { apply (relocated_before s1 s2); [done|]. apply relocated_move; [by apply Hev2, Hev1|done..]. }
    split_and!; [done| |apply Hcont|by apply Hre|done].
    split; [done|]. split; [|split; [done|]].
    + eexists. split; [done|by apply inode_stamp].
    + apply forest_ranges. pose proof (re_held _ _ _ _ _ R1) as Hhe. apply Forall_app in Hhe as [Hhe _].
      eapply children_quiet; [apply R2|done|done].
Qed.

Lemma checkpoint_flush_ok fuel h : (h < fuel)%nat → flushes fuel h.
Proof using All.
  revert fuel. induction h as [|h IH]; intros [|fuel] Hf; try lia.
  - apply flushes_leaf.
  - apply flushes_node, IH. lia.
Qed.
End flush.

(** ** Releasing the old blocks *)
Section release.
Context {D : Type} `{!BlockDevice D} `{!BlockDeviceLaws D} `{!BlockDeviceTotal D} `{!Crc32} `{!Crc32Range}.
Implicit Types s : BlockStore D.

(** The blocks [F] were returned to the allocator. *)
Record released s (F : list Z) s' : Prop := {
  rf_free : free_list s' = free_list s ++ F;
  rf_next : next_block_nr s' = next_block_nr s;
  rf_chain : last_chain_blocks s' = last_chain_blocks s;
  rf_device : device s' = device s;
  rf_kept k : k ∉ F → node_cache s' !! k = node_cache s !! k;
  rf_gone k : k ∈ F → node_cache s' !! k = None;
  rf_data k : k ∉ F → data_cache s' !! k = data_cache s !! k;
}.

Lemma free_all_ok F s : ∃ s', forM_ F free s = (Ok tt, s') ∧ released s F s'.
Proof.
  revert s. induction F as [|nr F IH]; intros s; cbn [forM_].
  { exists s. split; [done|]. split; [by rewrite app_nil_r|done|done|done|done|by intros k ?%elem_of_nil|done]. }
  rewrite (M_bind_ok _ _ _ _ _ (free_eq nr s)).
  match goal with |- context [forM_ F free ?s1] => destruct (IH s1) as (s' & E & []) end.
  exists s'. split; [done|].
  cbn [set_free_list set_data_cache set_node_cache free_list next_block_nr last_chain_blocks device node_cache data_cache] in *.
  split; [by rewrite rf_free0, <- app_assoc|done|done|done| | |].
  - intros k [Hne Hk]%not_elem_of_cons. rewrite rf_kept0 by done. by apply lookup_delete_ne.
  - intros k Hk. destruct (decide (k ∈ F)) as [Hin|Hin]; [by apply rf_gone0|].
    apply elem_of_cons in Hk as [->|?]; [|done]. rewrite rf_kept0 by done. apply lookup_delete_eq.
  - intros k [Hne Hk]%not_elem_of_cons. rewrite rf_data0 by done. by apply lookup_delete_ne.
Qed.

Section released.
Context {s s' : BlockStore D} {F : list Z} (Hf : released s F s').

Lemma released_held k : held s' k ↔ held s k ∧ (k ∉ F).
Proof using Hf. unfold held, unheld. rewrite (rf_free _ _ _ Hf), (rf_next _ _ _ Hf), (rf_chain _ _ _ Hf), !not_elem_of_app. tauto. Qed.

Lemma released_alloc : alloc_ok s → NoDup F → Forall (held s) F → alloc_ok s'.
Proof using Hf.
  intros [] Hd Hh. rewrite Forall_forall in Hh.
  assert (unheld s' ≡ₚ unheld s ++ F) as Hp.
  { unfold unheld. rewrite (rf_free _ _ _ Hf), (rf_chain _ _ _ Hf), <- !app_assoc. by rewrite (Permutation_app_comm F). }
  split; rewrite ?(rf_next _ _ _ Hf).
  - done.
  - rewrite Hp. apply NoDup_app. split_and!; [done| |done]. intros k Hk HF. by destruct (Hh k HF).
  - intros k. rewrite Hp. intros [Hk|Hk]%elem_of_app; [by apply ao_range|by apply Hh].
Qed.

Lemma released_loads k n : k ∉ F → loads s k n → loads s' k n.
Proof using Hf.
  intros Hk [Hh Hl]. split; [by apply released_held|]. rewrite (rf_kept _ _ _ Hf) by done.
  unfold on_disk. by rewrite (rf_device _ _ _ Hf).
Qed.

Lemma released_data k b : k ∉ F → data_at s k b → data_at s' k b.
Proof using Hf. intros Hk [Hr Hc]. unfold data_at. by rewrite (rf_device _ _ _ Hf), (rf_data _ _ _ Hf). Qed.

Lemma released_calm k : calm s k → calm s' k.
Proof using Hf.
  intros Hc c. destruct (decide (k ∈ F)) as [Hk|Hk].
  - by rewrite (rf_gone _ _ _ Hf).
  - rewrite (rf_kept _ _ _ Hf) by done. apply Hc.
Qed.

Lemma released_ok : store_ok s → store_ok s'.
Proof using Hf.
  intros [H1 H2]. assert (∀ k c, node_cache s' !! k = Some c → (k ∉ F) ∧ node_cache s !! k = Some c) as Hlk.
  { intros k c Hk. destruct (decide (k ∈ F)) as [Hin|Hin]; [by rewrite (rf_gone _ _ _ Hf) in Hk|].
    by rewrite (rf_kept _ _ _ Hf) in Hk. }
  split.
  - intros k [c [Hk Hc]%Hlk]. apply released_held. split; [|done]. apply H1. by exists c.
  - intros k c [Hk Hc]%Hlk Hd. unfold on_disk. rewrite (rf_device _ _ _ Hf). by apply H2.
Qed.
End released.

Lemma calm_paths s t : Forall (calm s) (blocks t) → paths s t.
Proof. intros Hc x k Hx _ Hk. rewrite Forall_forall in Hc. by apply Hc, (subtree_blocks x t). Qed.

(** [checkpoint] of a tree: the same map behind a root whose tree is clean, and
    no block outside the old tree was touched. *)
Lemma btree_checkpoint_ok (bt : Btree D) m r :
  models (store bt) (next_bset_seq bt) (root_block bt) m →
  room (store bt) (next_block_nr (store bt) + r) → 0 ≤ r →
  ∃ s' h t, btree_checkpoint bt = (Ok tt, set_store s' (set_root (t_nr t) bt)) ∧
    tree_at s' (next_bset_seq bt) (t_nr t) h t ∧ (∀ k, m k = row_of <$> content t k) ∧ Forall (calm s') (blocks t) ∧
    room s' r ∧ (∀ k, fixed (store bt) k → same_bytes k (device (store bt)) (device s')) ∧ next_block_nr (store bt) ≤ next_block_nr s' ∧
    shelters bt (set_store s' (set_root (t_nr t) bt)).
Proof using All.
  intros (h & t & Ht & Hm) Hr Hr0. pose proof Ht as [Hok Hroot Ho Hp Hs]. unfold btree_checkpoint. rewrite gets_bind.
  assert (Z.of_nat (length (blocks t)) ≤ next_block_nr (store bt)) as Hlen.
  { assert (0 ≤ FIRST_DATA_BLOCK_NR) by done. destruct Hr as ([] & _). apply NoDup_range_length; [lia|apply Ho|].
    eapply Forall_impl; [apply Ho|]. intros k [Hk _]. lia. }
  pose proof (height_fuel _ _ _ _ _ _ _ Hok Ho Hr) as Hfuel. rewrite <- Hroot.
  destruct (checkpoint_flush_ok TREE_FUEL h ltac:(lia) (store bt) _ None None t r [] Hok Ho Hp)
    as (s1 & t' & F & E1 & Hok1 & Hcon & R & Hr1); [eapply room_weaken; [exact Hr|lia]|done|].
  pose proof (re_ev _ _ _ _ _ R) as Hev. mstep (in_store_ok _ bt s1 _ E1). rewrite modify_bind. cbn [app].
  destruct (free_all_ok F s1) as (s2 & E2 & Hrel).
  erewrite in_store_ok by exact E2.
  exists s2, h, t'. pose proof (re_nodup _ _ _ _ _ R) as Hnd. apply NoDup_app in Hnd as (Hnd & Hdis & HndF).
  pose proof (re_held _ _ _ _ _ R) as Hheld. apply Forall_app in Hheld as [Hheld HheldF].
  assert (∀ k, k ∈ blocks t' → k ∉ F) as HnF by (intros k Hk HF; by apply (Hdis k)).
  assert (tree_at s2 (next_bset_seq bt) (t_nr t') h t') as Ht2.
  { split; [|done| | |by apply (released_ok Hrel), Hev].
    + eapply tree_ok_frame; [|reflexivity|done]. intros k n Hk. by apply (released_loads Hrel), HnF.
    + split; [done|]. rewrite Forall_forall in Hheld |- *. intros k Hk. apply (released_held Hrel). auto.
    + apply calm_paths. eapply Forall_impl; [apply R|]. intros k. apply (released_calm Hrel). }
  split_and!; [done|done| | | | | |].
  - intros k. by rewrite Hcon.
  - eapply Forall_impl; [apply R|]. intros k. apply (released_calm Hrel).
  - destruct Hr1 as (Ha & ? & ?). split; [by apply (released_alloc Hrel)|]. by rewrite (rf_next _ _ _ Hrel).
  - intros k Hk. rewrite (rf_device _ _ _ Hrel). apply Hev; [done|by intros []|exact (fixed_block_ok _ _ _ Hr Hk)].
  - rewrite (rf_next _ _ _ Hrel). apply Hev.
  - intros nr b (H1 & H2 & H3). rewrite (node_at_tree _ _ _ _ _ _ Ht) in H3.
    assert (nr ∉ F) as HF by (intros Hin%(re_old _ _ _ _ _ R); done). split; [by apply (released_held Hrel); split; [apply Hev|]|].
    split; [apply (released_data Hrel); [done|]; apply Hev; [done|by intros []|exact (held_block_ok _ _ _ Hr H1)|done]|].
    cbn [set_store set_root store root_block]. rewrite (node_at_tree _ _ _ _ _ _ Ht2). by intros [?|?]%(re_new _ _ _ _ _ R).
Qed.
End release.

(** ** Writing the image *)
Section image.
Context {D : Type} `{!BlockDevice D} `{!BlockDeviceLaws D} `{!BlockDeviceTotal D} `{!Crc32} `{!Crc32Range}.
Implicit Types s : BlockStore D.

(** Device writes outside the blocks in use. *)
Lemma set_device_ev (V : Z → Prop) s d m :
  room s m → (∀ k, held s k → ¬ V k) → (∀ k, fixed s k → ¬ V k → block_ok k → same_bytes k (device s) d) →
  evolves2 nowhere V s (set_device d s) ∧ room (set_device d s) m.
Proof.
  intros Hr HV Hd. split; [|destruct Hr as ([] & ? & ?); by split].
  assert (∀ k, held s k → same_bytes k (device s) d) as Hh.
  { intros k Hk. apply Hd; [by left|by apply HV|by eapply held_block_ok]. }
  assert (∀ k n, held s k → on_disk s k n → on_disk (set_device d s) k n) as Hod.
  { intros k n Hk (bs & Hrd & ?). exists bs. split; [by eapply same_bytes_block; [apply Hh|]|done]. }
  split; [done| |by auto| |done|done| |done|done].
  - intros k n Hk _ [_ Hl]. split; [done|]. cbn [set_device node_cache]. destruct (node_cache s !! k); [done|by apply Hod].
  - intros k b Hk _ _ [Hrd Hc]. split; [by eapply same_bytes_block; [apply Hh|]|done].
  - intros [H1 H2]. split; [exact H1|]. intros k c Hk Hc. apply Hod; [apply H1; by exists c|by apply H2].
Qed.

(** A write somewhere inside block [nr] keeps every other block. *)
Lemma write_inside_same_bytes k nr o b (d d' : D) :
  block_ok k → block_ok nr → k ≠ nr → 0 ≤ o → o + Z.of_nat (length b) ≤ BLOCK_BYTES →
  write_at b (block_offset nr + o) d = (Ok tt, d') → same_bytes k d d'.
Proof.
  intros Hk Hnr Hne Ho Hb Hw o' len bs Ho' Hl. unfold block_ok in *.
  apply (read_write_disjoint d d' b (block_offset nr + o)); [pose proof (block_offset_nonneg nr); lia
    |pose proof (block_offset_nonneg k); lia| |done].
  unfold ranges_disjoint. rewrite !block_offset_small by done. unfold BLOCK_BYTES in *. lia.
Qed.

Lemma fsync_ev s m : room s m → ∃ s', fsync s = (Ok tt, s') ∧ evolves nowhere s s' ∧ room s' m ∧
  (∀ n off, read_at n off (device s') = read_at n off (device s)) ∧ s' = set_device (device s') s.
Proof using All.
  intros Hr. destruct (fsync_total s) as (d & E & Hd). exists (set_device d s). split; [done|].
  assert (∀ n off, read_at n off d = read_at n off (device s)) as Hrd by (intros n off; by apply read_sync).
  destruct (set_device_ev nowhere s d m Hr) as [? ?]; [by intros k _ []| |done].
  intros k _ _ _ o len bs _ _. by rewrite Hrd.
Qed.

Lemma SUPERBLOCK_not_held s : ¬ held s SUPERBLOCK_BLOCK_NR.
Proof. intros [[Hk _] _]. by vm_compute in Hk. Qed.

Lemma write_superblock_ev s sb m : superblock_wf sb → room s m →
  ∃ s', write_superblock sb s = (Ok tt, s') ∧ evolves2 nowhere (eq SUPERBLOCK_BLOCK_NR) s s' ∧ room s' m ∧
    s' = set_device (device s') s ∧
    read_at BLOCK_SIZE (block_offset SUPERBLOCK_BLOCK_NR) (device s') = Ok (encode_superblock (sb_stamp_checksum sb)).
Proof using All.
  intros Hw Hr. destruct (write_superblock_total sb s) as [d E]. exists (set_device d s). split; [done|].
  pose proof (length_encode_superblock _ (sb_stamp_wf sb Hw)) as Hlen.
  apply on_device_Ok in E as (d' & Hwr & [= <-]%(f_equal device)).
  destruct (set_device_ev (eq SUPERBLOCK_BLOCK_NR) s d m Hr) as [? ?].
  - intros k Hk <-. by apply SUPERBLOCK_not_held in Hk.
  - intros k _ Hne Hk. apply (write_same_bytes k SUPERBLOCK_BLOCK_NR (encode_superblock (sb_stamp_checksum sb)));
      [done|done|congruence|done|done].
  - split_and!; [done|done|done|]. rewrite <- Hlen at 1. eapply read_write_same; [apply block_offset_nonneg|exact Hwr].
Qed.

(** Persisting the free list keeps the tree, and what is in use. *)
Section persisted.
Context {s s' : BlockStore D} {head : Z} {cs : list (Z * list Z)} (Hp : persisted s s' head cs).

Lemma persisted_unheld : unheld s' = unheld s ++ reverse (fst <$> cs).
Proof using Hp. unfold unheld at 1. by rewrite (pe_free _ _ _ _ Hp), (pe_blocks _ _ _ _ Hp). Qed.

Lemma persisted_new k : k ∈ reverse (fst <$> cs) → next_block_nr s ≤ k < next_block_nr s'.
Proof using Hp.
  rewrite elem_of_reverse. intros (c & -> & Hc)%list_elem_of_fmap. pose proof (pe_new _ _ _ _ Hp) as Hn.
  rewrite Forall_forall in Hn. by apply Hn.
Qed.

Lemma persisted_held k : held s k → held s' k.
Proof using Hp.
  intros [Hk Hn]. pose proof (pe_next _ _ _ _ Hp). split; [lia|]. rewrite persisted_unheld, not_elem_of_app.
  split; [done|]. intros Hin%persisted_new. lia.
Qed.

Lemma persisted_alloc : alloc_ok s → next_block_nr s' < 2 ^ 64 - 1 → alloc_ok s'.
Proof using Hp.
  intros [] Hmax. pose proof (pe_next _ _ _ _ Hp). split; [lia| |].
  - rewrite persisted_unheld. apply NoDup_app. split_and!; [done| |].
    + intros k Hk%ao_range Hin%persisted_new. lia.
    + rewrite reverse_Permutation. apply Hp.
  - intros k. rewrite persisted_unheld. intros [Hk%ao_range|Hk%persisted_new]%elem_of_app; lia.
Qed.

Lemma persisted_tree_at m q root h t :
  room s m → tree_at s q root h t → tree_at s' q root h t ∧ (∀ k, calm s k → calm s' k).
Proof using Hp.
  intros Hr [Hok Hroot [Hd Hh] Hpa [H1 H2]].
  assert (∀ k n, held s k → on_disk s k n → on_disk s' k n) as Hod.
  { intros k n Hk (bs & Hrd & ?). exists bs. split; [|done]. eapply same_bytes_block; [|exact Hrd].
    apply (pe_dev _ _ _ _ Hp); [by eapply held_block_ok|apply Hk]. }
  assert (∀ k, calm s k ↔ calm s' k) as Hcalm by (intros k; unfold calm; by rewrite (pe_nodes _ _ _ _ Hp)).
  assert (∀ k, cached s k ↔ cached s' k) as Hcached by (intros k; unfold cached; by rewrite (pe_nodes _ _ _ _ Hp)).
  split; [|by intros k ?%Hcalm]. split; [|done| | |].
  - eapply tree_ok_frame; [|reflexivity|done]. intros k n Hk [Hkh Hl]. split; [by apply persisted_held|].
    rewrite (pe_nodes _ _ _ _ Hp). destruct (node_cache s !! k); [done|by apply Hod].
  - split; [done|]. eapply Forall_impl; [exact Hh|apply persisted_held].
  - intros x k Hx Hc Hk. apply Hcalm, (Hpa x); [done| |done]. by rewrite Hcached.
  - split; [intros k ?%Hcached; by apply persisted_held, H1|]. intros k c Hk Hc. rewrite (pe_nodes _ _ _ _ Hp) in Hk.
    apply Hod; [apply H1; by exists c|by apply H2].
Qed.
End persisted.

(** A clean tree is on the device as a mount reads it. *)
Lemma cold_tree h s q lo hi t :
  store_ok s → Forall (calm s) (blocks t) → tree_ok h s q lo hi t → tree_ok h (cold s) q lo hi t.
Proof.
  intros Hs Hc. rewrite Forall_forall in Hc. apply tree_ok_frame; [|reflexivity]. intros k n Hk Hl.
  split; [exact (loads_held _ _ _ Hl)|]. cbn [cold set_data_cache set_node_cache node_cache]. rewrite lookup_empty.
  apply (calm_on_disk s); [done|done|by apply Hc].
Qed.
End image.

(** ** Images that a mount can read *)

(** The blocks a mount puts on the free list: those the chain lists, and its own. *)
Definition listed (cs : list (Z * list Z)) : list Z := concat (snd <$> cs) ++ (fst <$> cs).

Section durable.
Context {D : Type} `{!BlockDevice D} `{!BlockDeviceLaws D} `{!BlockDeviceTotal D} `{!Crc32} `{!Crc32Range}.
Implicit Types s : BlockStore D.

(** What the device holds between two checkpoints: the superblock [sb], the tree
    [t] below its root, the free-list chain [cs] and the journal frames since. *)
Record durable s (sb : Superblock) (h : nat) (t : tree) (cs : list (Z * list Z)) (frames : list JournalFrame) : Prop := {
  du_wf : superblock_wf sb ∧ sb_magic sb = SUPERBLOCK_MAGIC ∧ sb_version sb = SUPERBLOCK_VERSION;
  du_sb : read_at BLOCK_SIZE (block_offset SUPERBLOCK_BLOCK_NR) (device s) = Ok (encode_superblock (sb_stamp_checksum sb));
  du_root : t_nr t = sb_root_block sb;
  du_tree : tree_ok h (cold s) (sb_next_bset_seq sb) None None t;
  du_held : Forall (held s) (blocks t);
  du_nodup : NoDup (blocks t ++ listed cs);
  du_range : Forall (λ k, FIRST_DATA_BLOCK_NR ≤ k < sb_next_block_nr sb) (blocks t ++ listed cs);
  du_next : sb_next_block_nr sb ≤ next_block_nr s;
  du_chain : chain_at (device s) (sb_free_head sb) cs;
  du_fixed : Forall (fixed s) (fst <$> cs);
  du_ring : ring_state (device s) (sb_journal_seq sb + 1) frames;
}.

(** A frame lives inside a block of the ring. *)
Lemma frame_block seq : ∃ k o, 0 < k < FIRST_DATA_BLOCK_NR ∧ 0 ≤ o ∧ o + JOURNAL_FRAME_SIZE ≤ BLOCK_BYTES ∧
  frame_offset seq = block_offset k + o.
Proof.
  pose proof (ring_pos_range seq) as Hp. set (p := seq mod JOURNAL_CAPACITY) in *.
  exists (p / ENTRIES_PER_BLOCK + FIRST_JOURNAL_BLOCK), (p mod ENTRIES_PER_BLOCK * JOURNAL_FRAME_SIZE).
  unfold frame_offset. fold p. unfold FIRST_DATA_BLOCK_NR, FIRST_JOURNAL_BLOCK, JOURNAL_CAPACITY, JOURNAL_BLOCKS, ENTRIES_PER_BLOCK,
    JOURNAL_FRAME_SIZE, BLOCK_BYTES in *.
  pose proof (Z.div_mod p 16 ltac:(lia)). pose proof (Z.mod_pos_bound p 16 ltac:(lia)).
  split_and!; [lia|lia|lia|lia|]. rewrite block_offset_small by lia. unfold BLOCK_BYTES. lia.
Qed.

Lemma ring_same (d d' : D) start frames :
  (∀ k, 0 < k < FIRST_DATA_BLOCK_NR → same_bytes k d d') → ring_state d start frames → ring_state d' start frames.
Proof.
  intros Hf [Hs Hl Hfr Ha].
  assert (∀ seq o, read_frame seq d = Ok o → read_frame seq d' = Ok o) as Hrd.
  { intros seq o. unfold read_frame. destruct (frame_block seq) as (k & off & Hk & Ho & Hb & ->).
    destruct (read_at _ _ d) as [bs|e| |] eqn:E; cbn [map_err]; try done.
    by rewrite (Hf k Hk) with (bs := bs). }
  split; [done|done| |].
  - intros i f Hi. destruct (Hfr i f Hi) as (? & ? & ? & ?). split_and!; auto.
  - intros j Hj. by apply Hrd, Ha.
Qed.

Lemma ring_frozen s s' start frames : frozen s s' → ring_state (device s) start frames → ring_state (device s') start frames.
Proof.
  intros Hf. apply ring_same. intros k Hk. apply Hf; [right; right; lia|apply low_block_ok; lia].
Qed.

(** Code that keeps the blocks in use, the ring apart, keeps the rest of the image. *)
Lemma durable_step s s' m sb h t cs frames frames' :
  (∀ k, held s k → held s' k) → next_block_nr s ≤ next_block_nr s' → last_chain_blocks s' = last_chain_blocks s →
  (∀ k, fixed s k → ¬ 0 < k < FIRST_DATA_BLOCK_NR → block_ok k → same_bytes k (device s) (device s')) →
  ring_state (device s') (sb_journal_seq sb + 1) frames' →
  room s m → durable s sb h t cs frames → durable s' sb h t cs frames'.
Proof.
  intros Hheld Hnx Hchain Hdev Hring Hr []. assert (∀ k, fixed s k → fixed s' k) as Hfix.
  { intros k [Hk|Hk]; [left; by apply Hheld|right]. by rewrite Hchain. }
  assert (∀ k, fixed s k → ¬ 0 < k < FIRST_DATA_BLOCK_NR → same_bytes k (device s) (device s')) as Hsame.
  { intros k Hk Hlow. apply Hdev; [done|done|by eapply fixed_block_ok]. }
  assert (∀ k, held s k → ¬ 0 < k < FIRST_DATA_BLOCK_NR) as Hhigh by (intros k [Hk _]; lia).
  rewrite Forall_forall in du_held0. split; try done.
  - eapply same_bytes_block; [apply Hsame; [right; by right|by intros [? _]]|done].
  - eapply tree_ok_frame; [|reflexivity|done]. intros k n Hk [Hkh Hl]. specialize (du_held0 k Hk). split; [by apply Hheld|].
    cbn [cold set_data_cache set_node_cache node_cache] in *. rewrite lookup_empty in *.
    destruct Hl as (bs & Hrd & ?). exists bs. split; [|done].
    eapply same_bytes_block; [apply Hsame; [by left|by apply Hhigh]|exact Hrd].
  - apply Forall_forall. intros k Hk. by apply Hheld, du_held0.
  - lia.
  - eapply chain_at_same; [|done]. rewrite Forall_fmap in du_fixed0. apply Forall_forall. intros c Hc.
    rewrite Forall_forall in du_fixed0. apply Hsame; [by apply du_fixed0|].
    rewrite Forall_app in du_range0. destruct du_range0 as [_ Hl]. rewrite Forall_forall in Hl.
    assert (c.1 ∈ listed cs) as Hin%Hl by (apply elem_of_app; right; by apply list_elem_of_fmap_2). cbn in Hin. lia.
  - eapply Forall_impl; [done|apply Hfix].
Qed.

(** Code that keeps the blocks in use keeps the image. *)
Lemma durable_frozen s s' m sb h t cs frames :
  frozen s s' → room s m → durable s sb h t cs frames → durable s' sb h t cs frames.
Proof.
  intros Hf Hr Hd. eapply durable_step; [apply Hf|apply Hf|apply Hf| | |exact Hr|exact Hd].
  - intros k Hk _. by apply Hf.
  - eapply ring_frozen; [done|apply Hd].
Qed.

(** Appending a frame to the ring. *)
Lemma append_frame_ok s m sb h t cs frames f :
  room s m → durable s sb h t cs frames → frame_ok f → jf_op_len f ≤ 184 →
  jf_seq f = sb_journal_seq sb + 1 + Z.of_nat (length frames) → Z.of_nat (length frames) < JOURNAL_CAPACITY →
  ∃ d, append f (device s) = (Ok tt, d) ∧ evolves2 nowhere (λ k, 0 < k < FIRST_DATA_BLOCK_NR) s (set_device d s) ∧
    room (set_device d s) m ∧ durable (set_device d s) sb h t cs (frames ++ [f]).
Proof using All.
  intros Hr Hd Hf Hlen Hseq Hcap. destruct (write_total (encode_frame f) (frame_offset (jf_seq f)) (device s)) as (d & Ew).
  assert (append f (device s) = (Ok tt, d)) as Ea by (unfold append, mapping_err; by rewrite Ew).
  exists d. split; [done|].
  assert (∀ k, fixed s k → ¬ 0 < k < FIRST_DATA_BLOCK_NR → block_ok k → same_bytes k (device s) d) as Hsame.
  { intros k _ Hk Hkb. destruct (frame_block (jf_seq f)) as (k' & o & Hk' & Ho & Hb & Eo). rewrite Eo in Ew.
    eapply (write_inside_same_bytes k k' o); [done|apply low_block_ok; lia|lia|done| |exact Ew].
    rewrite length_encode_frame by apply Hf. rewrite Z2Nat.id by done. done. }
  destruct (set_device_ev (λ k, 0 < k < FIRST_DATA_BLOCK_NR) s d m Hr) as [Hev Hr'].
  { intros k [? _]. lia. }
  { done. }
  split; [done|]. split; [done|]. eapply (durable_step s); [done|reflexivity|done|exact Hsame| |exact Hr|exact Hd].
  eapply ring_append; [apply Hd|done|done|done|done|exact Ea].
Qed.
End durable.
