(* ===== verification/Compact.v ===== *)
(** * Compact: the passes that drop entries from every leaf (src/btree.rs).

    [drop_snapshot_keys] and [compact_whiteouts] walk the tree and rebuild in place
    the leaves that hold something to drop. On the abstract map both are a filter:
    the rows of a dead snapshot, or the whiteouts of dead snapshots, are gone, and
    nothing else changes. *)
From Stdlib Require Import Strings.Byte.
From stdpp Require Import base list numbers gmap sorting.
From S2P Require Import Prelude Device BlockBtree NodeRep Merge Storage Journal StoreSpec Heap Btree Leaf Internal Tree TreeRead TreeWrite BtreeSpec Verify Checkpoint.
#[local] Open Scope rfs_scope.
#[local] Open Scope Z_scope.

Section pass.
Context {D : Type} `{!BlockDevice D} `{!BlockDeviceLaws D} `{!BlockDeviceTotal D} `{!Crc32} `{!Crc32Range}.
Implicit Types s : BlockStore D.

(** A pass that drops the entries [drop] selects: [should] lets it skip a leaf
    only when there is nothing to drop, and [compact] rebuilds a leaf without them. *)
Context (drop : DiskEntry → bool) (should : BtreeNodeRaw → res bool) (compact : Z → BtreeNodeRaw → res (BtreeNodeRaw * nat)).
Context (should_ok : ∀ n bs q, leaf_ok n bs q →
  ∃ r, should n = Ok r ∧ (r = false → ∀ k, without drop (view bs) k = view bs k)).
Context (compact_ok : ∀ n bs q seq, leaf_ok n bs q → 0 ≤ seq < 2 ^ 64 - 1 →
  ∃ n' bs' es, compact seq n = Ok (n', length (filter (λ e, drop e = true) es)) ∧ listing (view bs) es ∧ leaf_ok n' bs' (seq + 1) ∧
    ∀ k, view bs' k = without drop (view bs) k).

(** The number of entries dropped. *)
Definition dropped (t : tree) (d : nat) : Prop := ∃ es, listing (content t) es ∧ d = length (filter (λ e, drop e = true) es).

Record compacted s q (h : nat) lo hi (t : tree) s' q' (t' : tree) : Prop := {
  cp_tree : tree_ok h s' q' lo hi t';
  cp_nr : t_nr t' = t_nr t;
  cp_blocks : blocks t' = blocks t;
  cp_content k : content t' k = without drop (content t) k;
  cp_ev : evolves (λ k, k ∈ blocks t) s s';
  cp_seq : q ≤ q' ≤ q + Z.of_nat (length (blocks t));
  cp_paths : paths s t → paths s' t';
}.

Lemma compacted_before s0 s q h lo hi t s' q' t' :
  evolves nowhere s0 s → Forall (held s0) (blocks t) → compacted s q h lo hi t s' q' t' → compacted s0 q h lo hi t s' q' t'.
Proof using Type.
  intros Hev Hh []. split; [done..|by eapply evolves_nowhere|done|]. intros Hp. apply cp_paths0. by eapply paths_quiet.
Qed.

Definition compacts (fuel h : nat) : Prop := ∀ s q lo hi t r,
  tree_ok h s q lo hi t → owned s t → room s r → 0 ≤ q → q + Z.of_nat (length (blocks t)) < 2 ^ 64 - 1 →
  ∃ d s' q' t', compact_pass should compact fuel (t_nr t) (s, q) = (Ok d, (s', q')) ∧
    compacted s q h lo hi t s' q' t' ∧ room s' r ∧ dropped t d.

(** *** Leaves *)
Lemma compacts_leaf fuel : compacts (S fuel) 0.
Proof using All.
  intros s q lo hi [nr bs|] r Ht [_ Hh] Hr Hq0 Hq; [|by destruct Ht]. cbn [blocks length] in Hq. cbn [compact_pass t_nr].
  destruct (node_level_ok 0 s q lo hi (TLeaf nr bs) r Ht Hr) as (s1 & E1 & Hev1 & Hr1).
  mstep (on_store_ok _ _ _ q _ E1). change (Z.of_nat 0 =? 0) with true. cbn iota.
  pose proof (tree_ok_quiet _ _ _ _ _ _ _ Hev1 Hh Ht) as (Hb & (n & Hl & Hn) & Hrng). pose proof Hh as [Hhn _]%Forall_cons.
  destruct (should_ok n bs q Hn) as (b & Es & Hskip). destruct (with_node_ev s1 nr n should r Hl Hr1) as (s2 & E2 & Hev2 & Hr2 & _).
  rewrite Es in E2. mstep (on_store_ok _ _ _ q _ E2). assert (loads s2 nr n) as Hl2 by (by apply Hev2; [apply Hev1|intros []|]).
  destruct b; cbn [negb].
  - destruct (compact_ok n bs q q Hn ltac:(lia)) as (n' & bs' & es & Ec & Hes & Hok & Hv).
    destruct (with_node_mut_ev s2 nr n n' (length (filter (λ e, drop e = true) es)) (compact q) r Hl2 Ec Hr2) as (s3 & E3 & Hev3 & Hr3 & Hl3 & Hc3).
    exists (length (filter (λ e, drop e = true) es)), s3, (q + 1), (TLeaf nr bs'). split_and!; [| |done|by exists es].
    + unfold get_seq. rewrite gets_bind. unfold alloc_seq. cbn [snd fst id]. unfold u64. rewrite wrap_small by (unfold in_width; lia).
      mstep (on_store_ok _ _ _ q _ E3). unfold set_seq. rewrite modify_bind. done.
    + apply (compacted_before s s2); [by eapply evolves_nowhere|by constructor|]. split; [|done|done|done| |cbn; lia|intros _; apply paths_leaf].
      * split; [done|]. split; [by exists n'|]. intros k e. rewrite Hv. unfold without. destruct (view bs k) as [x|] eqn:Ex; [|done]. intros _. by eapply Hrng.
      * eapply evolves_weaken; [exact Hev3|by intros k _ <-; left|by intros k _ []].
  - destruct (collect_leaf_ok n bs) as (es & _ & Hs & Ha & _); [apply Hn..|].
    exists 0%nat, s2, q, (TLeaf nr bs). split_and!; [done| |done|].
    + apply (compacted_before s s2); [by eapply evolves_nowhere|by constructor|].
      split; [|done|done|intros k; symmetry; by apply Hskip|apply evolves_refl|lia|done]. split; [done|]. split; [by exists n|done].
    + exists es. split; [done|]. symmetry. apply length_zero_iff_nil, elem_of_nil_inv. intros e [He Hin]%list_elem_of_filter.
      pose proof (listing_elem (view bs) es e (conj Hs Ha) Hin) as Hvk. specialize (Hskip eq_refl (key_of e)). unfold without in Hskip.
      rewrite Hvk in Hskip. cbn in Hskip. by rewrite He in Hskip.
Qed.

(** *** Inner nodes *)
(** What an earlier sibling's pass leaves of the later ones. *)
Lemma siblings_kept W h s s' q q' bs ch :
  evolves W s s' → q ≤ q' → Forall (held s) (cblocks ch) → (∀ k, k ∈ cblocks ch → ¬ W k) →
  Forall2 (λ b c, tree_ok h s q b.1 b.2 c) bs ch → Forall2 (λ b c, tree_ok h s' q' b.1 b.2 c) bs ch.
Proof using Type.
  intros Hev Hq Hh HW HF. induction HF as [|b c bs ch Hc _ IH]; constructor; cbn [map concat] in Hh, HW; apply Forall_app in Hh as [H1 H2].
  - eapply tree_ok_evolves; [exact Hev|done| |done|done]. intros k Hk. apply HW, elem_of_app. by left.
  - apply IH; [done|]. intros k Hk. apply HW, elem_of_app. by right.
Qed.

Record compacted_list s q (h : nat) (bs : list (bound * bound)) (ch : list tree) s' q' (ch' : list tree) : Prop := {
  cl_trees : Forall2 (λ b c, tree_ok h s' q' b.1 b.2 c) bs ch';
  cl_nrs : t_nr <$> ch' = t_nr <$> ch;
  cl_blocks : map blocks ch' = map blocks ch;
  cl_content : Forall2 (λ c c', ∀ k, content c' k = without drop (content c) k) ch ch';
  cl_ev : evolves (λ k, k ∈ cblocks ch) s s';
  cl_seq : q ≤ q' ≤ q + Z.of_nat (length (cblocks ch));
  cl_paths : Forall (paths s) ch → Forall (paths s') ch';
}.

Lemma compact_children fuel h (IH : compacts fuel h) ch : ∀ s q bs r d0,
  Forall2 (λ b c, tree_ok h s q b.1 b.2 c) bs ch → NoDup (cblocks ch) → Forall (held s) (cblocks ch) → room s r → 0 ≤ q →
  q + Z.of_nat (length (cblocks ch)) < 2 ^ 64 - 1 →
  ∃ ds s' q' ch', foldM (λ dropped child, d ← compact_pass should compact fuel child; mret (dropped + d)%nat) d0 (t_nr <$> ch) (s, q) =
      (Ok (d0 + sum_list ds)%nat, (s', q')) ∧ compacted_list s q h bs ch s' q' ch' ∧ room s' r ∧ Forall2 dropped ch ds.
Proof using All.
  induction ch as [|c ch IHch]; intros s q bs r d0 HF Hd Hh Hr Hq0 Hq.
  { apply Forall2_nil_inv_r in HF as ->. exists [], s, q, []. cbn [fmap list_fmap foldM sum_list]. rewrite Nat.add_0_r.
    split_and!; [done| |done|constructor]. split; [constructor|done|done|constructor|apply evolves_refl|cbn; lia|done]. }
  apply Forall2_cons_inv_r in HF as (b & bs' & Hc & HF & ->). cbn [map concat] in Hd, Hh, Hq. rewrite length_app in Hq.
  pose proof Hd as (Hd1 & Hdis & Hd2)%NoDup_app. pose proof Hh as [Hh1 Hh2]%Forall_app.
  destruct (IH s q b.1 b.2 c r Hc (conj Hd1 Hh1) Hr Hq0 ltac:(lia)) as (d & s1 & q1 & c' & E1 & [C1 C2 C3 C4 C5 C6 C7] & Hr1 & Hdr).
  destruct (IHch s1 q1 bs' r (d0 + d)%nat) as (ds & s2 & q2 & ch' & E2 & [L1 L2 L3 L4 L5 L6 L7] & Hr2 & Hdrs);
    [|done|eapply Forall_impl; [exact Hh2|apply C5]|done|lia|lia|].
  { eapply (siblings_kept _ h s s1 q q1); [exact C5|lia|done| |done]. intros k Hk Hk'. by apply (Hdis k). }
  assert (Forall (held s1) (blocks c)) as Hh1' by (eapply Forall_impl; [exact Hh1|apply C5]).
  exists (d :: ds), s2, q2, (c' :: ch'). cbn [fmap list_fmap foldM sum_list]. split_and!; [|split|done|by constructor].
  - rewrite (M_bind_ok _ _ _ (d0 + d)%nat (s1, q1)) by (by rewrite (M_bind_ok _ _ _ _ _ E1)). rewrite E2. by rewrite Nat.add_assoc.
  - constructor; [|done]. eapply (tree_ok_evolves _ _ h s1 s2 q1 q2); [exact L5| | |lia|exact C1]; rewrite C3; [done|]. intros k Hk Hk'. by apply (Hdis k).
  - by rewrite !fmap_cons, C2, L2.
  - cbn [map]. by rewrite C3, L3.
  - by constructor.
  - eapply evolves_trans; [exact C5|exact L5| |by intros k _ [[]|[]]]. intros k _ [Hk|Hk]; cbn [map concat]; apply elem_of_app; auto.
  - cbn [map concat]. rewrite length_app. lia.
  - intros [Hp Hps]%Forall_cons. constructor.
    + eapply paths_evolves; [exact L5| | |by apply C7]; rewrite C3; [done|]. intros k Hk Hk'. by apply (Hdis k).
    + apply L7. rewrite Forall_forall in Hps |- *. intros x Hx. eapply paths_evolves; [exact C5| | |by apply Hps].
      * apply Forall_forall. intros k Hk. rewrite Forall_forall in Hh2. by apply Hh2, (blocks_child x).
      * intros k Hk Hk'. apply (Hdis k Hk'). by apply (blocks_child x).
Qed.

Lemma choose_without k ks ch ch' :
  Forall2 (λ c c', ∀ k, content c' k = without drop (content c) k) ch ch' →
  choose (λ c, content c k) k ks ch' = without drop (λ k, choose (λ c, content c k) k ks ch) k.
Proof using Type.
  intros Hc. unfold without. revert ks. induction Hc as [|c c' ch ch' H1 _ IH]; intros ks; cbn [choose]; [by destruct ks|].
  destruct ks as [|k0 ks]; [apply H1|]. destruct (bytes_ltb k k0); [apply H1|apply IH].
Qed.

Lemma dropped_node nr ks ch ds lo hi h s q :
  forest (tree_ok h s q) lo ks hi ch → Forall2 dropped ch ds → dropped (TNode nr ks ch) (sum_list ds).
Proof using All.
  intros Hf Hds. assert (∃ ess, Forall2 (λ c es, listing (content c) es) ch ess ∧ sum_list ds = length (filter (λ e, drop e = true) (concat ess)))
    as (ess & Hess & ->).
  { clear Hf. induction Hds as [|c d ch ds (es & He & ->) _ (ess & Hess & E)]; [by exists []|].
    exists (es :: ess). split; [by constructor|]. cbn [sum_list concat]. by rewrite filter_app, length_app, E. }
  exists (concat ess). split; [|done]. cbn [content]. eapply forest_listing; [apply tree_ok_content_range|apply tree_ok_bounds|exact Hf|exact Hess].
Qed.

Lemma compacts_node fuel h : compacts fuel h → compacts (S fuel) (S h).
Proof using All.
  intros IH s q lo hi t r Ht Ho Hr Hq0 Hq. destruct t as [|nr ks ch]; [by destruct Ht|]. cbn [blocks length] in Hq. cbn [compact_pass t_nr].
  destruct (node_level_ok (S h) s q lo hi (TNode nr ks ch) r Ht Hr) as (s1 & E1 & Hev1 & Hr1).
  mstep (on_store_ok _ _ _ q _ E1). destruct (Z.eqb_spec (Z.of_nat (S h)) 0) as [?|_]; [lia|].
  pose proof (tree_ok_quiet _ _ _ _ _ _ _ Hev1 (proj2 Ho) Ht) as (Hb & (n & Hl & Hn) & Hlen & HF).
  destruct (with_node_ev s1 nr n children r Hl Hr1) as (s2 & E2 & Hev2 & Hr2 & Hc2). rewrite (inode_children _ _ _ _ Hn) in E2.
  mstep (on_store_ok _ _ _ q _ E2). assert (evolves nowhere s s2) as Hev by (by eapply evolves_nowhere).
  pose proof Ho as [[Hnr Hd]%NoDup_cons Hh]. pose proof Hh as [Hhn Hhs]%Forall_cons.
  assert (Forall (held s2) (cblocks ch)) as Hhs2 by (eapply Forall_impl; [exact Hhs|apply Hev]).
  pose proof (tree_ok_quiet _ _ _ _ _ _ _ Hev Hh Ht) as (_ & _ & _ & HF2).
  destruct (compact_children fuel h IH ch s2 q (ranges lo ks hi) r 0%nat) as (ds & s3 & q3 & ch' & E3 & [L1 L2 L3 L4 L5 L6 L7] & Hr3 & Hds);
    [by apply forest_ranges|done|done|done|done|lia|].
  assert (loads s3 nr n) as Hl3 by (apply L5; [by apply Hev|done|by apply Hev2; [apply Hev1|intros []|]]).
  exists (sum_list ds), s3, q3, (TNode nr ks ch'). rewrite E3. split_and!; [done| |done|by eapply dropped_node].
  apply (compacted_before s s2); [done|done|]. split; [|done| | | | |].
  - split; [done|]. split; [|split; [done|by apply forest_ranges]]. exists n. by rewrite L2.
  - cbn [blocks]. by rewrite L3.
  - intros k. by apply choose_without.
  - eapply evolves_weaken; [exact L5|intros k _ Hk; by right|by intros k _ []].
  - cbn [blocks length]. lia.
  - intros Hp. apply paths_node; [by apply L5|]. apply L7, Forall_forall. intros x Hx. by eapply paths_child.
Qed.

Lemma compact_pass_ok fuel h : (h < fuel)%nat → compacts fuel h.
Proof using All.
  revert fuel. induction h as [|h IH]; intros [|fuel] Hf; try lia; [apply compacts_leaf|apply compacts_node, IH; lia].
Qed.
End pass.

(** ** On the abstract map *)
(** The snapshot a versioned key ends with. *)
Definition snap_at (k : list byte) : Z := from_be (drop (length k - 4) k).
(** A map less the rows that [sel] selects by key and kind. *)
Definition a_prune (sel : list byte → EntryKind → bool) (m : amap) : amap := λ k,
  match m k with Some (v, kind) => if sel k kind then None else Some (v, kind) | None => None end.
Definition in_snap (dead : Z) (k : list byte) (kind : EntryKind) : bool := snap_at k =? dead.
Definition dead_whiteout (dead : gset Z) (k : list byte) (kind : EntryKind) : bool := bool_decide (kind = Whiteout) && bool_decide (snap_at k ∈ dead).

(** [d] is the number of rows selected. *)
Definition counts (sel : list byte → EntryKind → bool) (m : amap) (d : nat) : Prop := ∃ ks,
  StronglySorted bytes_lt ks ∧ length ks = d ∧ ∀ k, k ∈ ks ↔ ∃ v kind, m k = Some (v, kind) ∧ sel k kind = true.

Lemma snap_at_key e : entry_wf e → snap_at (key_of e) = snap_of e.
Proof.
  intros He. unfold snap_at. rewrite (key_of_split e He), length_app, length_to_be.
  replace (length (logical_of e) + SNAP_ID_BYTES - 4)%nat with (length (logical_of e)) by (consts; lia).
  rewrite drop_app_length. apply from_to_be_small, (snap_of_width e He).
Qed.

Section btree.
Context {D : Type} `{!BlockDevice D} `{!BlockDeviceLaws D} `{!BlockDeviceTotal D} `{!Crc32} `{!Crc32Range}.
Implicit Types bt : Btree D.

Lemma dropped_counts drop sel t (m : amap) d :
  (∀ k, m k = row_of <$> content t k) → (∀ k e, content t k = Some e → drop e = sel k (kind_enum e)) →
  dropped drop t d → counts sel m d.
Proof using Type.
  intros Hm Hsel (es & Hl & ->). exists (key_of <$> filter (λ e, drop e = true) es). split; [by apply keys_sorted_filter, Hl|].
  split; [by rewrite length_fmap|]. intros k. rewrite list_elem_of_fmap. split.
  - intros (e & -> & [He Hin]%list_elem_of_filter). pose proof (listing_elem _ _ _ Hl Hin) as Hc. exists (value_of e), (kind_enum e).
    rewrite Hm, Hc. split; [done|]. by rewrite <- (Hsel _ _ Hc).
  - intros (v & kind & Hk & Hs). rewrite Hm in Hk. apply fmap_Some in Hk as (e & Hc & [= -> ->]). rewrite <- (proj2 Hl) in Hc.
    pose proof Hc as [Hke Hin]%assoc_key. exists e. split; [done|]. apply list_elem_of_filter. split; [|done]. rewrite (proj2 Hl) in Hc. by rewrite (Hsel _ _ Hc).
Qed.

Lemma bt_models_same bt m m' n : (∀ k, m' k = m k) → bt_models bt m n → bt_models bt m' n.
Proof using Type. intros E [(h & t & Ht & Hm) Hb]. split; [|done]. exists h, t. split; [done|]. intros k. by rewrite E. Qed.

(** A pass over the tree of a map. *)
Lemma pass_models drop sel should compact bt m n :
  (∀ e, entry_wf e → drop e = sel (key_of e) (kind_enum e)) →
  (∀ n bs q, leaf_ok n bs q → ∃ r, should n = Ok r ∧ (r = false → ∀ k, without drop (view bs) k = view bs k)) →
  (∀ n bs q seq, leaf_ok n bs q → 0 ≤ seq < 2 ^ 64 - 1 →
    ∃ n' bs' es, compact seq n = Ok (n', length (filter (λ e, drop e = true) es)) ∧ listing (view bs) es ∧ leaf_ok n' bs' (seq + 1) ∧
      ∀ k, view bs' k = without drop (view bs) k) →
  bt_models bt m n → next_bset_seq bt + 2 ^ 52 + 2 * n < 2 ^ 64 - 1 →
  ∃ d bt', in_store_seq (compact_pass should compact TREE_FUEL (root_block bt)) bt = (Ok d, bt') ∧ bt_models bt' (a_prune sel m) n ∧
    same_log bt bt' ∧ counts sel m d ∧ next_bset_seq bt' ≤ next_bset_seq bt + 2 ^ 52.
Proof using All.
  intros Hdrop Hsh Hco [(h & t & Ht & Hm) [Hr Hn [Hq0 Hq]]] Hseq. pose proof Ht as [Hok Hroot Ho Hp Hso].
  pose proof (height_fuel _ _ _ _ _ _ _ Hok Ho Hr) as Hfuel. pose proof (blocks_bound _ _ _ Hr (proj1 Ho) (proj2 Ho)) as Hlen.
  destruct (compact_pass_ok drop should compact Hsh Hco TREE_FUEL h ltac:(lia) (store bt) (next_bset_seq bt) None None t (OP_BLOCKS * n) Hok Ho Hr Hq0 ltac:(lia))
    as (d & s' & q' & t' & E & [C1 C2 C3 C4 C5 C6 C7] & Hr' & Hd). rewrite Hroot in E.
  assert (∀ k e, content t k = Some e → drop e = sel k (kind_enum e)) as Hsel.
  { intros k e He. destruct (tree_ok_content_wf _ _ _ _ _ _ _ _ Hok He) as [Hw <-]. by apply Hdrop. }
  assert (tree_at s' q' (root_block bt) h t') as Ht'.
  { split; [done|congruence| |by apply C7|by apply C5]. unfold owned. rewrite C3. by eapply owned_evolves. }
  exists d, (set_store_seq (s', q') bt). split; [by apply in_store_seq_ok|]. split; [|split; [|split; [by eapply dropped_counts|cbn; lia]]].
  - split; [|split; [done|done|cbn; lia]]. exists h, t'. split; [done|]. intros k. unfold a_prune. rewrite C4, Hm. unfold without.
    destruct (content t k) as [e|] eqn:He; [|done]. cbn. rewrite <- (Hsel k e He). by destruct (drop e).
  - split; [done|done|by eapply evolves_frozen|]. eapply spread_trees; [exact Ht|exact Ht'|]. rewrite C3. by left.
Qed.

Lemma drop_snapshot_keys_ok bt m n dead :
  bt_models bt m n → next_bset_seq bt + 2 ^ 52 + 2 * n < 2 ^ 64 - 1 →
  ∃ d bt', drop_snapshot_keys dead bt = (Ok d, bt') ∧ bt_models bt' (a_prune (in_snap dead) m) n ∧ same_log bt bt' ∧ counts (in_snap dead) m d ∧
    next_bset_seq bt' ≤ next_bset_seq bt + 2 ^ 52.
Proof using All.
  intros Hbt Hseq. unfold drop_snapshot_keys. rewrite gets_bind. eapply (pass_models (drops_snap dead)); [| | |done|done].
  - intros e He. unfold drops_snap, in_snap. by rewrite snap_at_key.
  - intros n' bs q Hn. by apply (leaf_has_snap_entries_ok n' bs q).
  - intros n' bs q seq Hn Hs. destruct (compact_dropping_ok (at_snap dead) (drops_snap dead) n' bs q seq Hn Hs (at_snap_ok dead))
      as (n1 & f & es & E & H1 & H2 & Hok & _ & Hv). by exists n1, [run seq f (filter (λ e, drops_snap dead e = false) es)], es.
Qed.

(** ** Claims *)
(** C28: [drop_snapshot_keys] removes exactly the rows of the snapshot. On a tree that
    stands for a map the pass returns, with the number of rows at the dead snapshot,
    whatever their kind; the tree then stands for the map without them, and nothing
    is logged. *)
Theorem drop_snapshot_removes_its_rows bt m n dead :
  bt_models bt m n → next_bset_seq bt + 2 ^ 52 + 2 * n < 2 ^ 64 - 1 →
  ∃ d bt', drop_snapshot_keys dead bt = (Ok d, bt') ∧ bt_models bt' (a_prune (in_snap dead) m) n ∧ same_log bt bt' ∧ counts (in_snap dead) m d.
Proof using All.
  intros Hbt Hseq. destruct (drop_snapshot_keys_ok bt m n dead Hbt Hseq) as (d & bt' & E & H1 & H2 & H3 & _). by exists d, bt'.
Qed.

(** C29: [compact_whiteouts] removes exactly the whiteouts of the dead snapshots. The
    pass returns with their number; live rows, deletion markers and the whiteouts of
    other snapshots stay, and nothing is logged. *)
Theorem compact_whiteouts_removes_dead_whiteouts bt m n dead :
  bt_models bt m n → next_bset_seq bt + 2 ^ 52 + 2 * n < 2 ^ 64 - 1 →
  ∃ d bt', compact_whiteouts dead bt = (Ok d, bt') ∧ bt_models bt' (a_prune (dead_whiteout dead) m) n ∧ same_log bt bt' ∧ counts (dead_whiteout dead) m d.
Proof using All.
  intros Hbt Hseq. unfold compact_whiteouts. case_decide as He.
  { assert (∀ k kind, dead_whiteout dead k kind = false) as Hf by (intros k kind; subst dead; unfold dead_whiteout; by rewrite andb_false_r).
    exists 0%nat, bt. split; [done|]. split; [|split; [apply same_log_refl|]].
    - eapply bt_models_same; [|exact Hbt]. intros k. unfold a_prune. destruct (m k) as [[v kind]|]; [|done]. by rewrite Hf.
    - exists []. split_and!; [constructor|done|]. intros k. split; [by intros ?%elem_of_nil|]. intros (v & kind & _ & Hs). by rewrite Hf in Hs. }
  rewrite gets_bind. destruct (pass_models (drops_whiteout dead) (dead_whiteout dead) (leaf_has_droppable_whiteout dead)
    (λ seq n, compact_leaf_dropping_whiteouts seq dead n) bt m n) as (d & bt' & E & H1 & H2 & H3 & _); [| | |exact Hbt|exact Hseq|exists d, bt'; split_and!; [exact E|exact H1|exact H2|exact H3]].
  - intros e Hw. unfold drops_whiteout, dead_whiteout. by rewrite snap_at_key.
  - intros n' bs q Hn. by apply (leaf_has_droppable_whiteout_ok n' bs q).
  - intros n' bs q seq Hn Hs. destruct (compact_dropping_ok (droppable_whiteout dead) (drops_whiteout dead) n' bs q seq Hn Hs (droppable_whiteout_ok dead))
      as (n1 & f & es & E & H1 & H2 & Hok & _ & Hv). by exists n1, [run seq f (filter (λ e, drops_whiteout dead e = false) es)], es.
Qed.
End btree.

(** ** Concrete runs *)
#[local] Existing Instance sum_crc.
Lemma demo_seq : match create_in in_memory with
  | Ok bt => next_bset_seq (insert_with_kind demo_logical ROOT_SNAP Live [Byte.x61] bt).2 <? 100 | _ => false end = true.
Proof. vm_compute. reflexivity. Qed.
Lemma demo_written_seq : ∃ bt bt1, create_in in_memory = Ok bt ∧ insert_with_kind demo_logical ROOT_SNAP Live [Byte.x61] bt = (Ok tt, bt1) ∧
  bt_models bt1 demo_map 99 ∧ next_bset_seq bt1 + 2 ^ 52 + 2 * 99 < 2 ^ 64 - 1.
Proof.
  destruct demo_written as (bt & bt1 & E & E1 & Hbt). exists bt, bt1. split; [exact E|]. split; [exact E1|]. split; [exact Hbt|].
  pose proof demo_seq as Hs. rewrite E, E1 in Hs. cbn [snd] in Hs. apply Z.ltb_lt in Hs. lia.
Qed.

Lemma drop_snapshot_removes_its_rows_witness :
  ∃ bt bt1 d bt2, create_in in_memory = Ok bt ∧ insert_with_kind demo_logical ROOT_SNAP Live [Byte.x61] bt = (Ok tt, bt1) ∧
    drop_snapshot_keys ROOT_SNAP bt1 = (Ok d, bt2) ∧ bt_models bt2 (a_prune (in_snap ROOT_SNAP) demo_map) 99 ∧
    a_prune (in_snap ROOT_SNAP) demo_map (versioned demo_logical ROOT_SNAP) = None.
Proof.
  destruct demo_written_seq as (bt & bt1 & E & E1 & Hbt & Hq).
  destruct (drop_snapshot_removes_its_rows bt1 demo_map 99 ROOT_SNAP Hbt Hq) as (d & bt2 & E2 & Hbt2 & _).
  exists bt, bt1, d, bt2. split; [exact E|]. split; [exact E1|]. split; [exact E2|]. split; [exact Hbt2|reflexivity].
Defined.

(** A live row, and a whiteout over it at the dead snapshot 5. *)
Definition demo_hidden : amap := a_put (versioned demo_logical 5) Whiteout [] demo_map.
Lemma demo_hidden_seq : match create_in in_memory with
  | Ok bt => next_bset_seq (insert_with_kind demo_logical 5 Whiteout [] (insert_with_kind demo_logical ROOT_SNAP Live [Byte.x61] bt).2).2 <? 100
  | _ => false end = true.
Proof. vm_compute. reflexivity. Qed.
Lemma compact_whiteouts_removes_dead_whiteouts_witness :
  ∃ bt bt1 bt2 d bt3, create_in in_memory = Ok bt ∧ insert_with_kind demo_logical ROOT_SNAP Live [Byte.x61] bt = (Ok tt, bt1) ∧
    insert_with_kind demo_logical 5 Whiteout [] bt1 = (Ok tt, bt2) ∧
    compact_whiteouts {[5]} bt2 = (Ok d, bt3) ∧ bt_models bt3 (a_prune (dead_whiteout {[5]}) demo_hidden) 98 ∧
    a_prune (dead_whiteout {[5]}) demo_hidden (versioned demo_logical ROOT_SNAP) = Some ([Byte.x61], Live) ∧
    is_Some (demo_hidden (versioned demo_logical 5)) ∧ a_prune (dead_whiteout {[5]}) demo_hidden (versioned demo_logical 5) = None.
Proof.
  destruct demo_written as (bt & bt1 & E & E1 & Hbt).
  destruct (insert_with_kind_ok bt1 demo_map 98 demo_logical 5 Whiteout []) as (bt2 & E2 & Hbt2 & _); [exact Hbt|lia|cbn; consts; lia|].
  assert (next_bset_seq bt2 + 2 ^ 52 + 2 * 98 < 2 ^ 64 - 1) as Hq.
  { pose proof demo_hidden_seq as Hs. rewrite E, E1 in Hs. cbn [snd] in Hs. rewrite E2 in Hs. cbn [snd] in Hs. apply Z.ltb_lt in Hs. lia. }
  destruct (compact_whiteouts_removes_dead_whiteouts bt2 demo_hidden 98 {[5]} Hbt2 Hq) as (d & bt3 & E3 & Hbt3 & _).
  exists bt, bt1, bt2, d, bt3. split; [exact E|]. split; [exact E1|]. split; [exact E2|]. split; [exact E3|]. split; [exact Hbt3|].
  split; [vm_compute; reflexivity|]. split; [eexists; vm_compute; reflexivity|vm_compute; reflexivity].
Defined.
