(* ===== verification/ScanSpec.v ===== *)
(** * ScanSpec: visible range scans agree with point lookups (src/btree.rs,
    [range_scan_visible] and [range_scan_visible_with_snap]).

    The scan reads every version in the range once and decides each logical key
    at the first version on the ancestor chain. It relies on the versions of a
    key standing next to each other in key order. [nothing_between] is that
    condition: it holds for the fixed-length keys of inodes, extents, snapshots,
    subvolumes and work items, and for directory entries whose names do not
    contain the byte 0xFF while snapshot ids start with 0xFF; without it the scan
    disagrees with the lookup. *)
From Stdlib Require Import Strings.Byte.
From stdpp Require Import base list numbers gmap sorting.
From S2P Require Import Prelude Device BlockBtree NodeRep Storage Journal StoreSpec Heap Btree TreeRead TreeWrite BtreeSpec.
#[local] Open Scope rfs_scope.
#[local] Open Scope Z_scope.

Definition row_logical (x : AllSnapRow) : list byte := let '(k, _, _, _) := x in k.

(** ** Rows in blocks of one logical key *)
Inductive grouped : list AllSnapRow → Prop :=
  | grouped_nil : grouped []
  | grouped_block k x g rest :
      Forall (λ y, row_logical y = k) (x :: g) → Forall (λ y, row_logical y ≠ k) rest →
      grouped rest → grouped ((x :: g) ++ rest).

(** The row a logical key contributes to the scan. *)
Definition emitted (k : list byte) (o : option (list byte * Z)) : list VisibleSnapRow :=
  match o with Some (v, s) => [(k, s, v)] | None => [] end.

Lemma step_undecided C out k x :
  row_logical x = k →
  visible_step C (out, Some k, false) x =
    (out ++ emitted k (first_on_chain k C [x]), Some k, bool_decide (x.1.1.2 ∈ C)).
Proof.
  destruct x as [[[k' s] kind] v]. cbn [row_logical fst snd]. intros ->. unfold visible_step. rewrite decide_True by done.
  cbn [first_on_chain]. rewrite (proj2 (bytes_eqb_true k k)) by done. cbn [negb orb].
  case_bool_decide; cbn [negb]; [destruct kind; cbn [emitted]; by rewrite ?app_nil_r|]. cbn [emitted]. by rewrite app_nil_r.
Qed.

Lemma block_decided C out k g :
  Forall (λ y, row_logical y = k) g → foldl (visible_step C) (out, Some k, true) g = (out, Some k, true).
Proof.
  induction 1 as [|[[[k' s] kind] v] g Hx _ IH]; cbn [foldl]; [done|]. cbn in Hx. subst k'.
  unfold visible_step at 2. by rewrite decide_True.
Qed.

Lemma first_on_chain_cons k C x rows :
  row_logical x = k →
  first_on_chain k C (x :: rows) = if bool_decide (x.1.1.2 ∈ C) then first_on_chain k C [x] else first_on_chain k C rows.
Proof.
  destruct x as [[[k' s] kind] v]. cbn [row_logical fst snd first_on_chain]. intros ->.
  rewrite (proj2 (bytes_eqb_true k k)) by done. cbn [negb orb]. by case_bool_decide.
Qed.

Lemma block_undecided C out k g :
  Forall (λ y, row_logical y = k) g →
  ∃ d, foldl (visible_step C) (out, Some k, false) g = (out ++ emitted k (first_on_chain k C g), Some k, d).
Proof.
  intros Hg. revert out. induction Hg as [|x g Hx Hg IH]; intros out; cbn [foldl]; [exists false; cbn; by rewrite app_nil_r|].
  rewrite step_undecided, (first_on_chain_cons k C x g) by done. case_bool_decide as Hin.
  - exists true. by rewrite block_decided.
  - assert (first_on_chain k C [x] = None) as ->.
    { destruct x as [[[k' s] kind] v]. cbn in *. subst k'. rewrite (proj2 (bytes_eqb_true k k)) by done.
      cbn. by rewrite bool_decide_eq_false_2. }
    cbn [emitted]. rewrite app_nil_r. apply IH.
Qed.

Lemma step_new_key C out cur d x :
  cur ≠ Some (row_logical x) →
  visible_step C (out, cur, d) x = visible_step C (out, Some (row_logical x), false) x.
Proof.
  destruct x as [[[k s] kind] v]. cbn [row_logical]. intros Hc. unfold visible_step.
  rewrite (decide_False (P := cur = Some k)) by done. by rewrite decide_True.
Qed.

(** What the scan emits, block by block. *)
Inductive emits (C : gset Z) : list AllSnapRow → list VisibleSnapRow → Prop :=
  | emits_nil : emits C [] []
  | emits_block k x g rest out :
      Forall (λ y, row_logical y = k) (x :: g) → Forall (λ y, row_logical y ≠ k) rest → emits C rest out →
      emits C ((x :: g) ++ rest) (emitted k (first_on_chain k C (x :: g)) ++ out).

Lemma grouped_emits C rows out cur d :
  grouped rows → (∀ x, x ∈ rows → cur ≠ Some (row_logical x)) →
  ∃ new cur' d', foldl (visible_step C) (out, cur, d) rows = (out ++ new, cur', d') ∧ emits C rows new.
Proof.
  intros Hg. revert out cur d. induction Hg as [|k x g rest Hb Hr _ IH]; intros out cur d Hc.
  { exists [], cur, d. rewrite app_nil_r. split; [done|constructor]. }
  rewrite foldl_app. pose proof Hb as Hb'. apply Forall_cons in Hb' as [Hx Hg].
  destruct (block_undecided C out k (x :: g) Hb) as [d1 E1].
  assert (foldl (visible_step C) (out, cur, d) (x :: g) = foldl (visible_step C) (out, Some k, false) (x :: g)) as ->.
  { cbn [foldl]. rewrite step_new_key; [by rewrite Hx|]. apply Hc. by left. }
  rewrite E1. destruct (IH (out ++ emitted k (first_on_chain k C (x :: g))) (Some k) d1) as (new & cur' & d' & E & He).
  { intros y Hy [= ->]. rewrite Forall_forall in Hr. by apply (Hr y). }
  exists (emitted k (first_on_chain k C (x :: g)) ++ new), cur', d'. rewrite E, app_assoc. split; [done|by constructor].
Qed.

Lemma first_on_chain_skip k C g rest :
  Forall (λ y, row_logical y ≠ k) g → first_on_chain k C (g ++ rest) = first_on_chain k C rest.
Proof.
  induction 1 as [|[[[k' s] kind] v] g Hx _ IH]; [done|]. cbn [app first_on_chain].
  destruct (bytes_eqb k' k) eqn:E; [by apply bytes_eqb_true in E|]. cbn [negb orb]. exact IH.
Qed.
Lemma first_on_chain_none k C g : Forall (λ y, row_logical y ≠ k) g → first_on_chain k C g = None.
Proof. intros Hg. rewrite <- (app_nil_r g). by rewrite first_on_chain_skip. Qed.

Lemma first_on_chain_block k C g rest :
  Forall (λ y, row_logical y = k) g → Forall (λ y, row_logical y ≠ k) rest →
  first_on_chain k C (g ++ rest) = first_on_chain k C g.
Proof.
  intros Hg Hr. induction Hg as [|x g Hx _ IH]; cbn [app]; [by apply first_on_chain_none|].
  rewrite (first_on_chain_cons k C x (g ++ rest)), (first_on_chain_cons k C x g) by done. case_bool_decide; [done|exact IH].
Qed.

(** The scan emits a key exactly when the point rule finds it. *)
Lemma emits_elem C rows out :
  emits C rows out → ∀ k s v, (k, s, v) ∈ out ↔ first_on_chain k C rows = Some (v, s).
Proof.
  induction 1 as [|k0 x g rest out Hb Hr He IH]; intros k s v.
  { split; [by intros ?%elem_of_nil|done]. }
  rewrite elem_of_app, IH. destruct (decide (k = k0)) as [->|Hne].
  - rewrite (first_on_chain_block k0) by done. rewrite (first_on_chain_none k0 C rest) by done. split.
    + intros [Hin|?]; [|done]. destruct (first_on_chain k0 C (x :: g)) as [[v' s']|]; cbn in Hin; [|by apply elem_of_nil in Hin].
      apply list_elem_of_singleton in Hin. by simplify_eq.
    + intros ->. left. by left.
  - rewrite (first_on_chain_skip k C (x :: g)).
    + split; [|by right]. intros [Hin|?]; [|done]. destruct (first_on_chain k0 C (x :: g)) as [[v' s']|]; cbn in Hin;
        [|by apply elem_of_nil in Hin]. apply list_elem_of_singleton in Hin. by simplify_eq.
    + eapply Forall_impl; [exact Hb|]. cbn. by intros y -> <-.
Qed.

Lemma first_on_chain_elem k C rows v s : first_on_chain k C rows = Some (v, s) → (k, s, Live, v) ∈ rows.
Proof.
  induction rows as [|[[[k' s'] kind] v'] rows IH]; cbn [first_on_chain]; [done|].
  destruct (bytes_eqb k' k) eqn:E; cbn [negb orb]; [|intros H; right; by apply IH].
  apply bytes_eqb_true in E as ->. case_bool_decide; cbn [negb]; [|intros H'; right; by apply IH].
  destruct kind; try done. intros [= -> ->]. by left.
Qed.

Definition visible_key (x : VisibleSnapRow) : list byte := let '(k, s, _) := x in versioned k s.

Lemma first_on_chain_sublist k C g :
  (visible_key <$> emitted k (first_on_chain k C g)) `sublist_of` (row_key <$> g).
Proof.
  destruct (first_on_chain k C g) as [[v s]|] eqn:E; cbn; [|by apply sublist_nil_l].
  apply first_on_chain_elem in E. apply singleton_sublist_l. apply list_elem_of_fmap. eexists. split; [|exact E]. done.
Qed.

Lemma emits_sublist C rows out : emits C rows out → (visible_key <$> out) `sublist_of` (row_key <$> rows).
Proof.
  induction 1 as [|k x g rest out Hb Hr He IH]; [done|]. rewrite !fmap_app.
  apply sublist_app; [apply first_on_chain_sublist|done].
Qed.

(** ** The point rule *)
Definition row_on_chain (k : list byte) (C : gset Z) (x : AllSnapRow) : Prop := row_logical x = k ∧ x.1.1.2 ∈ C.

Lemma first_on_chain_split k C rows :
  (∃ l1 s kind v l2, rows = l1 ++ (k, s, kind, v) :: l2 ∧ s ∈ C ∧ Forall (λ x, ¬ row_on_chain k C x) l1 ∧
     first_on_chain k C rows = match kind with Live => Some (v, s) | _ => None end) ∨
  (Forall (λ x, ¬ row_on_chain k C x) rows ∧ first_on_chain k C rows = None).
Proof.
  induction rows as [|x rows IH]; [by right|]. destruct (decide (row_logical x = k)) as [Hx|Hx].
  - rewrite first_on_chain_cons by done. case_bool_decide as Hin.
    + left. destruct x as [[[k' s] kind] v]. cbn in Hx, Hin. subst k'. exists [], s, kind, v, rows.
      split_and!; [done|done|done|]. cbn [first_on_chain]. rewrite (proj2 (bytes_eqb_true k k)) by done.
      rewrite bool_decide_eq_true_2 by done. by destruct kind.
    + assert (¬ row_on_chain k C x) by (by intros [_ ?]).
      destruct IH as [(l1 & s & kind & v & l2 & -> & ? & ? & ?)|[? ?]]; [left|right; split; [by constructor|done]].
      exists (x :: l1), s, kind, v, l2. by split_and!; [done|done|constructor|done].
  - assert (¬ row_on_chain k C x) by (by intros [? _]).
    assert (first_on_chain k C (x :: rows) = first_on_chain k C rows) as ->
      by (apply (first_on_chain_skip k C [x] rows); by constructor).
    destruct IH as [(l1 & s & kind & v & l2 & -> & ? & ? & ?)|[? ?]]; [left|right; split; [by constructor|done]].
    exists (x :: l1), s, kind, v, l2. by split_and!; [done|done|constructor|done].
Qed.

Lemma a_visible_none m k chain : (∀ s, s ∈ chain → m (versioned k s) = None) → a_visible m k chain = None.
Proof.
  induction chain as [|s chain IH]; intros Hm; cbn [a_visible]; [done|]. rewrite Hm by (by left).
  apply IH. intros x Hx. apply Hm. by right.
Qed.

Lemma a_visible_first m k chain s v kind :
  ascending chain → s ∈ chain → m (versioned k s) = Some (v, kind) →
  (∀ s', s' ∈ chain → s' < s → m (versioned k s') = None) →
  a_visible m k chain = match kind with Live => Some (v, s) | _ => None end.
Proof.
  induction 1 as [|s0 chain Hs IH Hf]; intros Hin Hm Hlt; [by apply elem_of_nil in Hin|]. cbn [a_visible].
  apply elem_of_cons in Hin as [->|Hin]; [by rewrite Hm; destruct kind|].
  rewrite Forall_forall in Hf. rewrite Hlt by (by left || by apply Hf).
  apply IH; [done|done|]. intros s' Hs'. apply Hlt. by right.
Qed.

(** *** What holds of any scan, grouped or not: emitted rows are live rows, and a
    key the point rule finds is emitted. *)
Lemma visible_step_grows C out cur d x :
  ∃ new cur' d', visible_step C (out, cur, d) x = (out ++ new, cur', d') ∧
    ∀ y, y ∈ new → ∃ k s v, y = (k, s, v) ∧ x = (k, s, Live, v) ∧ s ∈ C.
Proof.
  destruct x as [[[k s] kind] v]. unfold visible_step.
  destruct (decide (cur = Some k)); [destruct d|]; try case_bool_decide; try destruct kind; cbn [negb];
    first [eexists [_], _, _; split; [reflexivity|intros y ->%list_elem_of_singleton; eauto 10]
          |eexists [], _, _; rewrite app_nil_r; split; [reflexivity|by intros y ?%elem_of_nil]].
Qed.

Lemma visible_fold_sound C rows out cur d :
  ∃ new cur' d', foldl (visible_step C) (out, cur, d) rows = (out ++ new, cur', d') ∧
    ∀ k s v, (k, s, v) ∈ new → (k, s, Live, v) ∈ rows ∧ s ∈ C.
Proof.
  revert out cur d. induction rows as [|x rows IH]; intros out cur d; cbn [foldl].
  { exists [], cur, d. rewrite app_nil_r. split; [done|by intros ??? ?%elem_of_nil]. }
  destruct (visible_step_grows C out cur d x) as (new1 & cur1 & d1 & -> & H1).
  destruct (IH (out ++ new1) cur1 d1) as (new2 & cur2 & d2 & -> & H2).
  exists (new1 ++ new2), cur2, d2. rewrite app_assoc. split; [done|]. intros k s v [Hin|Hin]%elem_of_app.
  - destruct (H1 _ Hin) as (? & ? & ? & [= -> -> ->] & -> & ?). split; [by left|done].
  - destruct (H2 _ _ _ Hin). split; [by right|done].
Qed.

Lemma visible_fold_complete C rows out cur d k s v :
  first_on_chain k C rows = Some (v, s) → (cur, d) ≠ (Some k, true) →
  (k, s, v) ∈ (foldl (visible_step C) (out, cur, d) rows).1.1.
Proof.
  revert out cur d. induction rows as [|x rows IH]; intros out cur d Hf Hc; [done|]. cbn [foldl].
  destruct (decide (row_logical x = k)) as [Hx|Hx].
  - assert (visible_step C (out, cur, d) x = visible_step C (out, Some k, false) x) as ->.
    { destruct (decide (cur = Some k)) as [->|Hne]; [destruct d; [done|done]|].
      rewrite step_new_key by (by rewrite Hx). by rewrite Hx. }
    rewrite step_undecided by done. rewrite first_on_chain_cons in Hf by done. case_bool_decide.
    + rewrite Hf. cbn [emitted]. destruct (visible_fold_sound C rows (out ++ [(k, s, v)]) (Some k) true) as (new & ? & ? & -> & _).
      cbn [fst]. rewrite !elem_of_app. left. right. by left.
    + by apply IH.
  - assert (first_on_chain k C rows = Some (v, s)) as Hf'
      by (rewrite <- Hf; symmetry; apply (first_on_chain_skip k C [x] rows); by constructor).
    destruct (visible_step C (out, cur, d) x) as [[out' cur'] d'] eqn:E. apply IH; [done|]. intros [= -> ->].
    destruct x as [[[k' s'] kind] v']. cbn in Hx. unfold visible_step in E.
    destruct (decide (cur = Some k')); [destruct d|]; try case_bool_decide; try destruct kind; cbn [negb] in E; simplify_eq.
Qed.

(** ** From sorted rows to blocks *)

(** No stored key of the range lies between two versions of another key. *)
Definition nothing_between (m : amap) (a b : list byte) : Prop :=
  ∀ k k' s1 s2 s', in_width 32 s1 → in_width 32 s2 → in_width 32 s' → k ≠ k' →
    (∀ x, x ∈ [versioned k s1; versioned k s2; versioned k' s'] → scanned a b x ∧ is_Some (m x)) →
    ¬ (versioned k s1 ≺ versioned k' s' ∧ versioned k' s' ≺ versioned k s2).

(** With one version of a key, the range has all of them. *)
Definition whole_keys (m : amap) (a b : list byte) : Prop :=
  ∀ k s s', in_width 32 s → in_width 32 s' → is_Some (m (versioned k s)) →
    scanned a b (versioned k s) → scanned a b (versioned k s').

Section rows.
Context (m : amap) (a b : list byte) (rows : list AllSnapRow).
Hypothesis Hrows : row_list m a b rows.

Lemma row_stored k s kind v :
  (k, s, kind, v) ∈ rows ↔ in_width 32 s ∧ scanned a b (versioned k s) ∧ m (versioned k s) = Some (v, kind).
Proof using Hrows.
  destruct Hrows as [_ Hw Hx]. split.
  - intros Hin. split; [by eapply Hw|]. apply Hx. eexists. split; [exact Hin|done].
  - intros (Hs & Hsm). apply Hx in Hsm as ([[[k' s'] kind'] v'] & Hin & Hk & Hv). cbn in Hk, Hv.
    apply versioned_inj in Hk as [-> ->]; [|by eapply Hw|done]. by simplify_eq.
Qed.

Lemma no_interleave l1 x l2 y l3 z l4 :
  nothing_between m a b → rows = l1 ++ x :: l2 ++ y :: l3 ++ z :: l4 →
  row_logical z = row_logical x → row_logical y = row_logical x.
Proof using Hrows.
  intros Hb E Hz. destruct x as [[[kx sx] ex] vx], y as [[[ky sy] ey] vy], z as [[[kz sz] ez] vz]. cbn in *. subst kz.
  destruct (decide (ky = kx)) as [|Hne]; [done|exfalso].
  pose proof (rl_sorted _ _ _ _ Hrows) as Hs. rewrite E in Hs.
  rewrite fmap_app, fmap_cons, fmap_app, fmap_cons, fmap_app, fmap_cons in Hs.
  apply StronglySorted_app in Hs as (_ & _ & Hs).
  apply StronglySorted_inv in Hs as [Hs Hx]. apply StronglySorted_app in Hs as (_ & _ & Hs).
  apply StronglySorted_inv in Hs as [_ Hy]. rewrite Forall_forall in Hx, Hy.
  destruct (proj1 (row_stored kx sx ex vx)) as (Wx & Sx & Mx); [rewrite E; apply elem_of_app; right; by left|].
  destruct (proj1 (row_stored ky sy ey vy)) as (Wy & Sy & My).
  { rewrite E. apply elem_of_app; right; right. apply elem_of_app; right; by left. }
  destruct (proj1 (row_stored kx sz ez vz)) as (Wz & Sz & Mz).
  { rewrite E. apply elem_of_app; right; right. apply elem_of_app; right; right. apply elem_of_app; right; by left. }
  apply (Hb kx ky sx sz sy Wx Wz Wy (not_eq_sym Hne)).
  - intros w Hw. rewrite !elem_of_cons, elem_of_nil in Hw. destruct Hw as [->|[->|[->|[]]]]; split; try done; by eexists.
  - split; [apply Hx, elem_of_app; right; by left|]. apply Hy, elem_of_app; right; by left.
Qed.

Lemma sorted_suffix_grouped l : nothing_between m a b → (∃ l0, rows = l0 ++ l) → grouped l.
Proof using Hrows.
  intros Hb. remember (length l) as len eqn:Hlen. revert l Hlen. induction len as [len IH] using lt_wf_ind.
  intros [|x l] -> [l0 E]; [constructor|]. set (P := λ y, row_logical y = row_logical x).
  assert (∃ g rest, l = g ++ rest ∧ Forall P g ∧ match rest with [] => True | y :: _ => ¬ P y end) as (g & rest & -> & Hg & Hrest).
  { clear E IH. induction l as [|y l IHl]; [by exists [], []|]. destruct (decide (row_logical y = row_logical x)) as [Hy|Hy].
    - destruct IHl as (g & rest & -> & Hg & Hr). exists (y :: g), rest. split_and!; [done|by constructor|done].
    - exists [], (y :: l). by split_and!. }
  rewrite app_comm_cons. apply (grouped_block (row_logical x)).
  - by constructor.
  - destruct rest as [|y rest]; [done|]. constructor; [done|]. apply Forall_forall. intros z Hz Hzk. apply Hrest.
    apply list_elem_of_split in Hz as (l3 & l4 & ->). eapply (no_interleave l0 x g y l3 z l4); done.
  - apply (IH (length rest)); [rewrite length_cons, length_app; lia|done|].
    exists (l0 ++ x :: g). by rewrite E, <- app_assoc.
Qed.

(** *** The point rule on the rows is the point rule on the map *)
Lemma first_on_chain_visible k chain :
  whole_keys m a b → chain_ok chain → (∃ s, in_width 32 s ∧ is_Some (m (versioned k s)) ∧ scanned a b (versioned k s)) →
  first_on_chain k (list_to_set chain) rows = a_visible m k chain.
Proof using Hrows.
  intros Hwhole [Hasc Hw] (s0 & Hs0 & Hm0 & Hsc0). rewrite Forall_forall in Hw.
  assert (∀ s v kind, s ∈ chain → m (versioned k s) = Some (v, kind) → (k, s, kind, v) ∈ rows) as Hrow.
  { intros s v kind Hs Hm. apply row_stored. split_and!; [by apply Hw| |done]. apply (Hwhole k s0); [done|by apply Hw|done|done]. }
  destruct (first_on_chain_split k (list_to_set chain) rows) as [(l1 & s & kind & v & l2 & E & Hs & Hl1 & ->)|[Hno ->]].
  - rewrite elem_of_list_to_set in Hs. symmetry.
    destruct (proj1 (row_stored k s kind v)) as (_ & _ & Hm); [rewrite E; apply elem_of_app; right; by left|].
    apply a_visible_first; [done|done|done|]. intros s' Hs' Hlt.
    destruct (m (versioned k s')) as [[v' kind']|] eqn:Hm'; [exfalso|done]. pose proof (Hrow _ _ _ Hs' Hm') as Hin.
    rewrite E in Hin. apply elem_of_app in Hin as [Hin|[Hin|Hin]%elem_of_cons]; [|injection Hin; lia|].
    + rewrite Forall_forall in Hl1. apply (Hl1 _ Hin). split; [done|]. by apply elem_of_list_to_set.
    + pose proof (rl_sorted _ _ _ _ Hrows) as Hso. rewrite E, fmap_app, fmap_cons in Hso.
      apply StronglySorted_app in Hso as (_ & _ & Hso). apply StronglySorted_inv in Hso as [_ Hso].
      rewrite Forall_forall in Hso. specialize (Hso _ (list_elem_of_fmap_2 row_key _ _ Hin)). cbn in Hso.
      apply versioned_lt in Hso; [lia|by apply Hw..].
  - symmetry. apply a_visible_none. intros s Hs. destruct (m (versioned k s)) as [[v kind]|] eqn:Hm; [exfalso|done].
    rewrite Forall_forall in Hno. apply (Hno _ (Hrow _ _ _ Hs Hm)). split; [done|]. by apply elem_of_list_to_set.
Qed.

(** The rows of a visible scan. *)
Lemma visible_rows_ok chain :
  nothing_between m a b → whole_keys m a b → chain_ok chain →
  StronglySorted bytes_lt (visible_key <$> visible_rows (list_to_set chain) rows) ∧
  ∀ k s v, (k, s, v) ∈ visible_rows (list_to_set chain) rows ↔
    a_visible m k chain = Some (v, s) ∧ scanned a b (versioned k s).
Proof using Hrows.
  intros Hnb Hwh Hc. unfold visible_rows.
  destruct (grouped_emits (list_to_set chain) rows [] None false) as (new & cur & d & E & He);
    [by apply sorted_suffix_grouped; [|by exists []]|done|]. rewrite E. cbn [fst app]. split.
  - eapply StronglySorted_sublist; [exact (emits_sublist _ _ _ He)|apply Hrows].
  - intros k s v. rewrite (emits_elem _ _ _ He). split.
    + intros Hf. pose proof (first_on_chain_elem _ _ _ _ _ Hf) as Hin. apply row_stored in Hin as (Hs & Hsc & Hm).
      split; [|done]. rewrite <- Hf. symmetry. apply first_on_chain_visible; [done|done|]. exists s. split_and!; [done|by eexists|done].
    + intros [Hv Hsc]. rewrite first_on_chain_visible; [done|done|done|]. apply a_visible_Some in Hv as [Hm Hin].
      destruct Hc as [_ Hw]. rewrite Forall_forall in Hw. exists s. split_and!; [by apply Hw|by eexists|done].
Qed.
(** What holds of any range: the scan emits live versions on the chain, and every
    key the lookup finds. *)
Lemma visible_rows_any chain :
  whole_keys m a b → chain_ok chain →
  (∀ k s v, (k, s, v) ∈ visible_rows (list_to_set chain) rows →
     m (versioned k s) = Some (v, Live) ∧ scanned a b (versioned k s) ∧ s ∈ chain) ∧
  (∀ k s v, a_visible m k chain = Some (v, s) → scanned a b (versioned k s) →
     (k, s, v) ∈ visible_rows (list_to_set chain) rows).
Proof using Hrows.
  intros Hwh Hc. unfold visible_rows. split.
  - intros k s v Hin. destruct (visible_fold_sound (list_to_set chain) rows [] None false) as (new & cur & d & E & Hs).
    rewrite E in Hin. cbn in Hin. apply Hs in Hin as [Hin HC]. apply row_stored in Hin as (? & ? & ?).
    split_and!; [done|done|by rewrite elem_of_list_to_set in HC].
  - intros k s v Hv Hsc. apply visible_fold_complete; [|done]. rewrite first_on_chain_visible; [done|done|done|].
    apply a_visible_Some in Hv as [Hm Hin]. destruct Hc as [_ Hw]. rewrite Forall_forall in Hw.
    exists s. split_and!; [by apply Hw|by eexists|done].
Qed.
End rows.

(** ** When versions stand together *)

(** Keys of one length compare before their snapshot. *)
Lemma uniform_nothing_between m a b len :
  (∀ k s, in_width 32 s → scanned a b (versioned k s) → is_Some (m (versioned k s)) → length k = len) →
  nothing_between m a b.
Proof.
  intros Hlen k k' s1 s2 s' H1 H2 H' Hne Hst [Hlt1 Hlt2].
  assert (length k = length k') as Hk.
  { rewrite (Hlen k s1), (Hlen k' s'); [done|done| | |done| |]; apply Hst; rewrite !elem_of_cons; tauto. }
  unfold bytes_lt, versioned in Hlt1, Hlt2. rewrite bytes_cmp_app_len in Hlt1, Hlt2 by done.
  rewrite (bytes_cmp_antisym k k') in Hlt2. destruct (bytes_cmp k k') eqn:E; cbn in Hlt2; try done.
  by apply bytes_cmp_eq in E.
Qed.

(** Names without the byte 0xFF, before a suffix that starts with it. *)
Lemma plain_cmp n n' x y x' y' :
  Byte.xff ∉ n → Byte.xff ∉ n' → n ≠ n' →
  bytes_cmp (n ++ Byte.xff :: x) (n' ++ Byte.xff :: y) = bytes_cmp (n ++ Byte.xff :: x') (n' ++ Byte.xff :: y').
Proof.
  revert n'. induction n as [|c n IH]; intros [|d n'] Hn Hn' Hne; [done| | |]; cbn [app bytes_cmp].
  - apply not_elem_of_cons in Hn' as [Hd _]. destruct (Z.compare_spec (b2z Byte.xff) (b2z d)) as [E| |]; [|done|done].
    exfalso. apply Hd. rewrite <- (z2b_b2z Byte.xff), <- (z2b_b2z d). by rewrite E.
  - apply not_elem_of_cons in Hn as [Hd _]. destruct (Z.compare_spec (b2z c) (b2z Byte.xff)) as [E| |]; [|done|done].
    exfalso. apply Hd. rewrite <- (z2b_b2z Byte.xff), <- (z2b_b2z c). by rewrite E.
  - apply not_elem_of_cons in Hn as [_ Hn]. apply not_elem_of_cons in Hn' as [_ Hn'].
    destruct (Z.compare_spec (b2z c) (b2z d)) as [E| |]; [|done|done]. apply IH; [done|done|]. intros ->. apply Hne.
    f_equal. by rewrite <- (z2b_b2z c), <- (z2b_b2z d), E.
Qed.

Definition HIGH_SNAP : Z := 0xFF000000.

Lemma high_snap_bytes s : HIGH_SNAP ≤ s < 2 ^ 32 → ∃ r, to_be 4 s = Byte.xff :: r.
Proof.
  intros Hs. unfold HIGH_SNAP in Hs.
  assert (to_be 4 s = z2b (s / 256 / 256 / 256) :: to_be 3 s) as ->; [done|].
  assert (s / 256 / 256 / 256 = 255) as ->; [|by eexists].
  rewrite !Z.div_div by lia. symmetry. apply Z.div_unique with (s - 255 * (256 * (256 * 256))); lia.
Qed.

Lemma plain_nothing_between m a b p :
  (∀ k s, in_width 32 s → scanned a b (versioned k s) → is_Some (m (versioned k s)) →
     HIGH_SNAP ≤ s ∧ ∃ name, k = p ++ name ∧ (Byte.xff ∉ name)) →
  nothing_between m a b.
Proof.
  intros Hp k k' s1 s2 s' H1 H2 H' Hne Hst [Hlt1 Hlt2].
  destruct (Hp k s1) as (Hh1 & n & -> & Hn); [done|apply Hst; rewrite !elem_of_cons; tauto..|].
  destruct (Hp (p ++ n) s2) as (Hh2 & _); [done|apply Hst; rewrite !elem_of_cons; tauto..|].
  destruct (Hp k' s') as (Hh' & n' & -> & Hn'); [done|apply Hst; rewrite !elem_of_cons; tauto..|].
  destruct (high_snap_bytes s1) as [r1 E1]; [unfold in_width in *; lia|].
  destruct (high_snap_bytes s2) as [r2 E2]; [unfold in_width in *; lia|].
  destruct (high_snap_bytes s') as [r' E']; [unfold in_width in *; lia|].
  unfold bytes_lt, versioned in Hlt1, Hlt2. rewrite <- !app_assoc, !bytes_cmp_app in Hlt1, Hlt2. rewrite E1, E' in Hlt1.
  rewrite E2, E' in Hlt2. assert (n ≠ n') as Hnn by congruence.
  rewrite (plain_cmp n n' r1 r' [] []) in Hlt1 by done. rewrite (plain_cmp n' n r' r2 [] []) in Hlt2 by done.
  rewrite bytes_cmp_antisym, Hlt2 in Hlt1. done.
Qed.

(** Bounds no longer than the keys cut between keys, not between versions. *)
Lemma cmp_bound k s bnd :
  (length bnd ≤ length k)%nat →
  bytes_cmp (versioned k s) (versioned bnd 0) = Lt ↔ bytes_cmp (take (length bnd) k) bnd = Lt.
Proof.
  intros Hl. unfold versioned. rewrite <- (take_drop (length bnd) k) at 1. rewrite <- app_assoc.
  rewrite bytes_cmp_app_len by (rewrite length_take; lia).
  destruct (bytes_cmp (take (length bnd) k) bnd) eqn:E; [|done|done]. split; [|done]. intros Hlt. exfalso.
  change (to_be 4 0) with (replicate 4 Byte.x00) in Hlt. revert Hlt. apply bytes_cmp_zeros.
  rewrite length_app, length_to_be. lia.
Qed.

Lemma long_whole_keys m start stop :
  (∀ k s, in_width 32 s → is_Some (m (versioned k s)) → scanned (versioned start 0) (versioned stop 0) (versioned k s) →
     (length start ≤ length k)%nat ∧ (length stop ≤ length k)%nat) →
  whole_keys m (versioned start 0) (versioned stop 0).
Proof.
  intros Hlen k s s' Hs Hs' Hm Hsc. destruct (Hlen k s Hs Hm Hsc) as [H1 H2]. unfold scanned, bytes_lt in *.
  by rewrite !cmp_bound in * by done.
Qed.

(** ** Visible scans *)
Section claims.
Context {D : Type} `{!BlockDevice D} `{!BlockDeviceLaws D} `{!BlockDeviceTotal D} `{!Crc32} `{!Crc32Range}.
Implicit Types bt : Btree D.

(** [out] lists what the chain sees of the range, in key order. *)
Record visible_list (m : amap) (chain : list Z) (start stop : list byte) (out : list VisibleSnapRow) : Prop := {
  vl_sorted : StronglySorted bytes_lt (visible_key <$> out);
  vl_exact k s v : (k, s, v) ∈ out ↔
    a_visible m k chain = Some (v, s) ∧ scanned (versioned start 0) (versioned stop 0) (versioned k s);
}.

Lemma visible_scan_ok bt m n start stop chain :
  bt_models bt m n → (length start ≤ MAX_LOGICAL_KEY_SIZE)%nat → (length stop ≤ MAX_LOGICAL_KEY_SIZE)%nat →
  chain_ok chain → nothing_between m (versioned start 0) (versioned stop 0) →
  whole_keys m (versioned start 0) (versioned stop 0) →
  ∃ bt' out, range_scan_visible_with_snap start stop chain bt = (Ok out, bt') ∧
    range_scan_visible start stop chain bt = (Ok ((λ '(k, _, v), (k, v)) <$> out), bt') ∧
    bt_models bt' m n ∧ same_log bt bt' ∧ visible_list m chain start stop out.
Proof using All.
  intros Hbt Hl1 Hl2 Hc Hnb Hwh.
  destruct (range_scan_all_ok bt m n start stop Hbt Hl1 Hl2) as (bt' & rows & E & Hbt' & Hlog & Hrows).
  exists bt', (visible_rows (list_to_set chain) rows).
  unfold range_scan_visible_with_snap, range_scan_visible. rewrite !(M_bind_ok _ _ _ _ _ E).
  split_and!; [done|done|done|done|]. destruct (visible_rows_ok m _ _ rows Hrows chain Hnb Hwh Hc). by split.
Qed.

(** Without [nothing_between]: every emitted row is a live version on the chain,
    and every key the lookup finds is emitted. *)
Record visible_cover (m : amap) (chain : list Z) (start stop : list byte) (out : list (list byte * list byte)) : Prop := {
  vc_sound k v : (k, v) ∈ out → ∃ s, in_width 32 s ∧ m (versioned k s) = Some (v, Live) ∧
    scanned (versioned start 0) (versioned stop 0) (versioned k s);
  vc_complete k s v : a_visible m k chain = Some (v, s) →
    scanned (versioned start 0) (versioned stop 0) (versioned k s) → (k, v) ∈ out;
}.

Lemma visible_scan_cover bt m n start stop chain :
  bt_models bt m n → (length start ≤ MAX_LOGICAL_KEY_SIZE)%nat → (length stop ≤ MAX_LOGICAL_KEY_SIZE)%nat →
  chain_ok chain → whole_keys m (versioned start 0) (versioned stop 0) →
  ∃ bt' out, range_scan_visible start stop chain bt = (Ok out, bt') ∧
    bt_models bt' m n ∧ same_log bt bt' ∧ visible_cover m chain start stop out.
Proof using All.
  intros Hbt Hl1 Hl2 Hc Hwh.
  destruct (range_scan_all_ok bt m n start stop Hbt Hl1 Hl2) as (bt' & rows & E & Hbt' & Hlog & Hrows).
  eexists bt', _. unfold range_scan_visible. rewrite (M_bind_ok _ _ _ _ _ E). split_and!; [done|done|done|].
  destruct (visible_rows_any m _ _ rows Hrows chain Hwh Hc) as [Hs Hcp]. destruct Hc as [_ Hw]. rewrite Forall_forall in Hw.
  split.
  - intros k v ([[k' s] v'] & [= -> ->] & Hin)%list_elem_of_fmap. apply Hs in Hin as (? & ? & ?).
    exists s. split_and!; [by apply Hw|done|done].
  - intros k s v Hv Hsc. apply list_elem_of_fmap. exists (k, s, v). split; [done|]. by apply Hcp.
Qed.

(** C20: a visible range scan agrees with point lookups. When the versions of each
    key stand together and the bounds do not cut between versions, the scan
    returns, in key order, exactly the keys of the range that a lookup on the
    same ancestor chain finds, each with the value and snapshot the lookup
    returns. *)
Theorem visible_scan_agrees_with_lookup bt m n start stop chain :
  bt_models bt m n → (length start ≤ MAX_LOGICAL_KEY_SIZE)%nat → (length stop ≤ MAX_LOGICAL_KEY_SIZE)%nat →
  chain_ok chain → nothing_between m (versioned start 0) (versioned stop 0) →
  whole_keys m (versioned start 0) (versioned stop 0) →
  ∃ bt' out, range_scan_visible_with_snap start stop chain bt = (Ok out, bt') ∧
    range_scan_visible start stop chain bt = (Ok ((λ '(k, _, v), (k, v)) <$> out), bt') ∧
    bt_models bt' m n ∧ same_log bt bt' ∧ visible_list m chain start stop out.
Proof using All. apply visible_scan_ok. Qed.
End claims.

(** ** Concrete trees *)
#[local] Existing Instance sum_crc.

Lemma demo_stored k s :
  in_width 32 s → is_Some (demo_map (versioned k s)) → k = demo_logical.
Proof.
  intros Hs. unfold demo_map, a_put. case_decide as Hk; [by apply versioned_inj in Hk as [-> _]|].
  by intros [? ?].
Qed.

Lemma visible_scan_agrees_with_lookup_witness :
  ∃ bt bt' out, bt_models bt demo_map 99 ∧
    range_scan_visible_with_snap [Byte.x00] [Byte.x01] demo_chain bt = (Ok out, bt') ∧
    (demo_logical, ROOT_SNAP, [Byte.x61]) ∈ out.
Proof.
  destruct demo_written as (bt & bt1 & _ & _ & Hbt).
  destruct (visible_scan_agrees_with_lookup bt1 demo_map 99 [Byte.x00] [Byte.x01] demo_chain)
    as (bt' & out & E & _ & _ & _ & [_ Hx]); [exact Hbt|cbn; consts; lia|cbn; consts; lia|apply demo_chain_ok| | |].
  - apply (uniform_nothing_between _ _ _ 8). intros k s Hs _ Hk. by rewrite (demo_stored k s Hs Hk).
  - apply long_whole_keys. intros k s Hs Hk _. rewrite (demo_stored k s Hs Hk). cbn. lia.
  - exists bt1, bt', out. split_and!; [exact Hbt|exact E|]. apply Hx. split; [reflexivity|]. split; vm_compute; done.
Defined.
