(* ===== verification/Ghosts.v ===== *)
(** * Ghosts: what a visible range scan returns when versions interleave
    (src/btree.rs, [range_scan_visible] and [range_scan_visible_with_snap]).

    The scan keeps the key it is at and whether it has decided it, and forgets both
    at the next key. Its rows come in runs of one logical key, and each run is
    decided on its own: a key whose versions stand in two runs is decided twice.
    [Ghosts] says exactly which rows the scan returns, for any stored names; where
    [nothing_between] fails a deleted key comes back. *)
From Stdlib Require Import Strings.Byte.
From stdpp Require Import base list numbers gmap sorting.
From S2P Require Import Prelude Device BlockBtree NodeRep Storage Journal StoreSpec Heap Btree TreeRead TreeWrite BtreeSpec ScanSpec.
#[local] Open Scope rfs_scope.
#[local] Open Scope Z_scope.

(** ** The fold *)

(** The run the scan is in is one of [k], and has a version on the chain. *)
Definition decided_run (C : gset Z) (k : list byte) (rows : list AllSnapRow) : Prop :=
  ∃ pre s kind v post, rows = pre ++ (k, s, kind, v) :: post ∧ s ∈ C ∧ Forall (λ x, row_logical x = k) post.

Lemma decided_run_snoc C k rows k' s kind v :
  decided_run C k (rows ++ [(k', s, kind, v)]) ↔ k' = k ∧ (s ∈ C ∨ decided_run C k rows).
Proof.
  split.
  - intros (pre & s0 & kind0 & v0 & post & E & Hs & Hpost). destruct post as [|y post _] using rev_ind.
    + apply app_inj_tail in E as [-> [= -> -> -> ->]]. auto.
    + rewrite app_comm_cons, app_assoc in E. apply app_inj_tail in E as [-> <-]. apply Forall_app in Hpost as [Hpost Hy]. rewrite Forall_singleton in Hy.
      split; [exact Hy|]. right. by exists pre, s0, kind0, v0, post.
  - intros [-> [Hs|(pre & s0 & kind0 & v0 & post & -> & Hs & Hpost)]]; [by exists rows, s, kind, v, []|].
    exists pre, s0, kind0, v0, (post ++ [(k, s, kind, v)]). rewrite <- app_assoc. split; [done|]. split; [done|].
    apply Forall_app. split; [done|]. by apply Forall_singleton.
Qed.

(** The rows emitted: live versions on the chain, each the first of its run. *)
Definition first_of_run (C : gset Z) (rows : list AllSnapRow) (k : list byte) (s : Z) (v : list byte) : Prop :=
  ∃ pre post, rows = pre ++ (k, s, Live, v) :: post ∧ s ∈ C ∧ ¬ decided_run C k pre.

Lemma first_of_run_snoc C rows x k s v :
  first_of_run C (rows ++ [x]) k s v ↔ first_of_run C rows k s v ∨ x = (k, s, Live, v) ∧ s ∈ C ∧ ¬ decided_run C k rows.
Proof.
  split.
  - intros (pre & post & E & Hs & Hd). destruct post as [|y post _] using rev_ind.
    + apply app_inj_tail in E as [-> ->]. auto.
    + rewrite app_comm_cons, app_assoc in E. apply app_inj_tail in E as [-> <-]. left. by exists pre, post.
  - intros [(pre & post & -> & Hs & Hd)|(-> & Hs & Hd)]; [|by exists rows, []].
    exists pre, (post ++ [x]). by rewrite <- app_assoc.
Qed.

(** One step, by whether the key is decided. *)
Lemma visible_step_cases C out cur d k s kind v :
  let dec := bool_decide (cur = Some k) && d in
  visible_step C (out, cur, d) (k, s, kind, v) =
    (if negb dec && bool_decide (s ∈ C) then out ++ (if kind is Live then [(k, s, v)] else []) else out, Some k, dec || bool_decide (s ∈ C)).
Proof.
  cbn zeta. unfold visible_step. destruct (decide (cur = Some k)) as [->|Hne]; [rewrite (bool_decide_eq_true_2 (Some k = Some k)) by done|rewrite (bool_decide_eq_false_2 _ Hne)]; cbn [andb negb orb].
  1: destruct d; cbn [andb negb orb]; [done|]. all: case_bool_decide; cbn [negb]; [|done]; destruct kind; by rewrite ?app_nil_r.
Qed.

Lemma visible_fold_exact C rows :
  let '(out, cur, d) := foldl (visible_step C) ([], None, false) rows in
  (∀ k, decided_run C k rows ↔ cur = Some k ∧ d = true) ∧ ∀ k s v, (k, s, v) ∈ out ↔ first_of_run C rows k s v.
Proof.
  induction rows as [|[[[k0 s0] kind0] v0] rows IH] using rev_ind.
  { cbn. split; [intros k; split; [|by intros []]; by intros ([|] & ? & ? & ? & ? & ? & _)|].
    intros k s v. split; [by intros ?%elem_of_nil|]. by intros ([|] & post & ? & _). }
  rewrite foldl_snoc. destruct (foldl (visible_step C) ([], None, false) rows) as [[out cur] d]. destruct IH as [Hd Ho].
  rewrite visible_step_cases. cbn zeta. set (dec := bool_decide (cur = Some k0) && d).
  assert (decided_run C k0 rows ↔ dec = true) as Hdec by (rewrite Hd; unfold dec; by rewrite andb_true_iff, bool_decide_eq_true).
  split.
  - intros k. rewrite decided_run_snoc, orb_true_iff, bool_decide_eq_true. split.
    + intros [-> [Hs|Hr]]; [tauto|]. apply Hdec in Hr. tauto.
    + intros [[= ->] [Hr|Hs]]; [apply Hdec in Hr|]; tauto.
  - intros k s v. rewrite first_of_run_snoc, <- Ho. destruct (negb dec && bool_decide (s0 ∈ C)) eqn:E.
    + apply andb_true_iff in E as [Hn%negb_true_iff Hs%bool_decide_eq_true].
      destruct kind0; [|rewrite app_nil_r; split; [tauto|]; by intros [?|([=] & _)]..].
      rewrite elem_of_app, list_elem_of_singleton. split; [|intros [?|([= -> -> ->] & _)]; tauto].
      intros [?|[= -> -> ->]]; [tauto|]. right. split; [done|]. split; [done|]. rewrite Hdec. congruence.
    + split; [tauto|]. intros [?|([= -> -> -> ->] & Hs & Hr)]; [done|]. exfalso. rewrite Hdec in Hr.
      rewrite bool_decide_eq_true_2 in E by done. destruct dec; [by apply Hr|done].
Qed.

(** ** On the map *)

(** A version of another key is stored between two versions of [k]. *)
Definition separated (m : amap) (a b : list byte) (k : list byte) (s0 s : Z) : Prop :=
  ∃ k' s', k' ≠ k ∧ in_width 32 s' ∧ is_Some (m (versioned k' s')) ∧ scanned a b (versioned k' s') ∧
    versioned k s0 ≺ versioned k' s' ∧ versioned k' s' ≺ versioned k s.

(** A version on the chain, with every earlier one behind another key. *)
Definition listed_version (m : amap) (a b : list byte) (chain : list Z) (k : list byte) (s : Z) (v : list byte) : Prop :=
  s ∈ chain ∧ m (versioned k s) = Some (v, Live) ∧ scanned a b (versioned k s) ∧
  ∀ s0, s0 ∈ chain → s0 < s → is_Some (m (versioned k s0)) → scanned a b (versioned k s0) → separated m a b k s0 s.

Section rows.
Context (m : amap) (a b : list byte) (rows : list AllSnapRow) (Hrows : row_list m a b rows).

Lemma rows_around l1 x l2 :
  rows = l1 ++ x :: l2 → (∀ y, y ∈ l1 → row_key y ≺ row_key x) ∧ (∀ y, y ∈ l2 → row_key x ≺ row_key y).
Proof using Hrows.
  intros E. pose proof (rl_sorted _ _ _ _ Hrows) as Hs. rewrite E, fmap_app, fmap_cons in Hs.
  apply StronglySorted_app in Hs as (Hlt & _ & Hs). apply StronglySorted_inv in Hs as [_ Hx]. rewrite Forall_forall in Hx.
  split; intros y Hy; [|by apply Hx, list_elem_of_fmap_2]. apply Hlt; [by apply list_elem_of_fmap_2|by left].
Qed.

Lemma first_of_run_listed chain k s v :
  Forall (in_width 32) chain → first_of_run (list_to_set chain) rows k s v ↔ listed_version m a b chain k s v.
Proof using Hrows.
  intros Hw. rewrite Forall_forall in Hw. unfold listed_version. split.
  - intros (pre & post & E & Hs%elem_of_list_to_set & Hd). destruct (rows_around _ _ _ E) as [Hpre Hpost].
    destruct (proj1 (row_stored m a b rows Hrows k s Live v)) as (_ & Hsc & Hms); [rewrite E; apply elem_of_app; right; by left|].
    do 3 (split; [done|]). intros s0 Hs0 Hlt [[v0 kind0] Hm0] Hsc0.
    pose proof (proj2 (row_stored m a b rows Hrows k s0 kind0 v0) (conj (Hw _ Hs0) (conj Hsc0 Hm0))) as Hin.
    rewrite E in Hin. apply elem_of_app in Hin as [Hin|[Hin|Hin]%elem_of_cons]; [|injection Hin; lia|].
    2: { apply Hpost in Hin. cbn in Hin. apply versioned_lt in Hin; [lia|by apply Hw..]. }
    apply list_elem_of_split in Hin as (p1 & p2 & ->). rewrite <- app_assoc in E. cbn [app] in E. destruct (rows_around _ _ _ E) as [_ Hp].
    destruct (decide (Forall (λ x, row_logical x = k) p2)) as [Hall|Hex].
    { exfalso. apply Hd. exists p1, s0, kind0, v0, p2. split; [done|]. split; [by apply elem_of_list_to_set|done]. }
    apply not_Forall_Exists, Exists_exists in Hex as ([[[k' s'] kind'] v'] & Hin & Hne); [|tc_solve]. cbn in Hne.
    destruct (proj1 (row_stored m a b rows Hrows k' s' kind' v')) as (Hw' & Hsc' & Hm'); [rewrite E; apply elem_of_app; right; right; apply elem_of_app; by left|].
    exists k', s'. split; [done|]. split; [done|]. split; [by eexists|]. split; [done|]. split; [apply (Hp (k', s', kind', v')), elem_of_app; by left|].
    apply (Hpre (k', s', kind', v')), elem_of_app. right. by right.
  - intros (Hs & Hms & Hsc & Hsep). pose proof (proj2 (row_stored m a b rows Hrows k s Live v) (conj (Hw _ Hs) (conj Hsc Hms))) as Hin.
    apply list_elem_of_split in Hin as (pre & post & E). exists pre, post. split; [done|]. split; [by apply elem_of_list_to_set|].
    intros (p1 & s0 & kind0 & v0 & p2 & -> & Hs0%elem_of_list_to_set & Hall). destruct (rows_around _ _ _ E) as [Hpre Hpost].
    pose proof E as E'. rewrite <- app_assoc in E'. cbn [app] in E'. destruct (rows_around _ _ _ E') as [Hp1 Hp2].
    destruct (proj1 (row_stored m a b rows Hrows k s0 kind0 v0)) as (_ & Hsc0 & Hm0); [rewrite E'; apply elem_of_app; right; by left|].
    specialize (Hpre (k, s0, kind0, v0) ltac:(apply elem_of_app; right; by left)). cbn in Hpre. apply versioned_lt in Hpre; [|by apply Hw..].
    destruct (Hsep s0 Hs0 Hpre ltac:(by eexists) Hsc0) as (k' & s' & Hne & Hw' & [[v' kind'] Hm'] & Hsc' & Hlt1 & Hlt2).
    pose proof (proj2 (row_stored m a b rows Hrows k' s' kind' v') (conj Hw' (conj Hsc' Hm'))) as Hin. rewrite E' in Hin.
    apply elem_of_app in Hin as [Hin|[Hin|[Hin|[Hin|Hin]%elem_of_cons]%elem_of_app]%elem_of_cons].
    + apply Hp1 in Hin. cbn in Hin. apply (bytes_lt_irrefl (versioned k s0)). by eapply bytes_lt_trans.
    + by injection Hin.
    + rewrite Forall_forall in Hall. by apply Hall in Hin.
    + by injection Hin.
    + apply Hpost in Hin. cbn in Hin. apply (bytes_lt_irrefl (versioned k s)). by eapply bytes_lt_trans.
Qed.

Lemma visible_rows_exact chain k s v :
  Forall (in_width 32) chain → (k, s, v) ∈ visible_rows (list_to_set chain) rows ↔ listed_version m a b chain k s v.
Proof using Hrows.
  intros Hw. rewrite <- first_of_run_listed by done. unfold visible_rows. pose proof (visible_fold_exact (list_to_set chain) rows) as Hf.
  destruct (foldl _ _ rows) as [[out cur] d]. by apply Hf.
Qed.
End rows.

(** ** The claim *)
Section claims.
Context {D : Type} `{!BlockDevice D} `{!BlockDeviceLaws D} `{!BlockDeviceTotal D} `{!Crc32} `{!Crc32Range}.
Implicit Types bt : Btree D.

(** C24: what a visible range scan returns, whatever names are stored. It returns the
    live versions on the chain that have, between them and every earlier version of
    the same key on the chain, a version of another key. So a key that is deleted at
    the first snapshot of the chain that has it, and live at the next one, is not
    found by a lookup and is returned by the scan whenever another key is stored
    between the two: the scan forgets its decision at the other key. *)
Theorem visible_scan_decides_per_run bt m n start stop chain :
  bt_models bt m n → (length start ≤ MAX_LOGICAL_KEY_SIZE)%nat → (length stop ≤ MAX_LOGICAL_KEY_SIZE)%nat → chain_ok chain →
  ∃ bt' out, range_scan_visible_with_snap start stop chain bt = (Ok out, bt') ∧ bt_models bt' m n ∧ same_log bt bt' ∧
    (∀ k s v, (k, s, v) ∈ out ↔ listed_version m (versioned start 0) (versioned stop 0) chain k s v) ∧
    (∀ k s0 s v dead, s0 ∈ chain → s ∈ chain → s0 < s → dead.2 ≠ Live → m (versioned k s0) = Some dead →
       m (versioned k s) = Some (v, Live) → (∀ s', s' ∈ chain → s' < s → s' ≠ s0 → m (versioned k s') = None) →
       scanned (versioned start 0) (versioned stop 0) (versioned k s) → separated m (versioned start 0) (versioned stop 0) k s0 s →
       a_visible m k chain = None ∧ (k, s, v) ∈ out).
Proof using All.
  intros Hbt Hl1 Hl2 [Hasc Hw]. destruct (range_scan_all_ok bt m n start stop Hbt Hl1 Hl2) as (bt' & rows & E & Hbt' & Hlog & Hrows).
  exists bt', (visible_rows (list_to_set chain) rows). unfold range_scan_visible_with_snap. rewrite (M_bind_ok _ _ _ _ _ E).
  do 3 (split; [done|]). split; [intros k s v; by apply visible_rows_exact|].
  intros k s0 s v [vd []] Hs0 Hs Hlt Hd Hm0 Hm Hno Hsc Hsep; try done.
  all: split; [by erewrite (a_visible_first m k chain s0); [..|exact Hm0|]; [|done|done|intros s' Hs' Hlt'; apply Hno; [done|lia..]]|].
  all: apply (visible_rows_exact m _ _ rows Hrows); [done|]; do 3 (split; [done|]); intros s' Hs' Hlt' [r Hr] _.
  all: by destruct (decide (s' = s0)) as [->|Hne]; [|rewrite (Hno s' Hs' Hlt' Hne) in Hr].
Qed.
End claims.

(** ** A name that comes back *)
#[local] Existing Instance sum_crc.

(** A file name, the same name with [0xFF 0xFF 0xFF 0xFE 0x01] behind it, and a
    snapshot below the root snapshot. *)
Definition ghost : list byte := [Byte.x61].
Definition ghost_longer : list byte := ghost ++ to_be 4 (ROOT_SNAP - 1) ++ [Byte.x01].
Definition ghost_chain : list Z := [ROOT_SNAP - 1; ROOT_SNAP].
Definition ghost_first : amap := a_put (versioned ghost ROOT_SNAP) Live [Byte.x31] (λ _, None).
Definition ghost_both : amap := a_put (versioned ghost_longer ROOT_SNAP) Live [Byte.x32] ghost_first.
Definition ghost_map : amap := (a_delete ghost (ROOT_SNAP - 1) ghost_chain ghost_both).2.

Lemma ghost_chain_ok : chain_ok ghost_chain.
Proof. split; repeat constructor; vm_compute; done. Qed.
Lemma ghost_tree : ∃ bt : Btree MemDevice, bt_models bt ghost_map 97.
Proof.
  destruct demo_tree as (bt & _ & Hbt).
  destruct (insert_with_kind_ok bt (λ _, None) 99 ghost ROOT_SNAP Live [Byte.x31]) as (bt1 & _ & H1 & _); [exact Hbt|lia|cbn; consts; lia|].
  destruct (insert_with_kind_ok bt1 ghost_first 98 ghost_longer ROOT_SNAP Live [Byte.x32]) as (bt2 & _ & H2 & _); [exact H1|lia|cbn; consts; lia|].
  destruct (delete_at_ok bt2 ghost_both 97 ghost (ROOT_SNAP - 1) ghost_chain) as (bt3 & _ & H3 & _); [exact H2|lia|cbn; consts; lia|exact ghost_chain_ok|].
  exists bt3. exact H3.
Qed.

(** Two names are written in the parent snapshot and one is deleted in the child: the
    lookup does not find it, and the scan lists it. *)
Lemma visible_scan_decides_per_run_witness :
  ∃ (bt bt' : Btree MemDevice) out, bt_models bt ghost_map 97 ∧
    range_scan_visible_with_snap [Byte.x61] [Byte.x62] ghost_chain bt = (Ok out, bt') ∧
    a_visible ghost_map ghost ghost_chain = None ∧ (ghost, ROOT_SNAP, [Byte.x31]) ∈ out.
Proof.
  destruct ghost_tree as (bt & Hbt).
  destruct (visible_scan_decides_per_run bt ghost_map 97 [Byte.x61] [Byte.x62] ghost_chain Hbt) as (bt' & out & E & _ & _ & _ & Hg);
    [cbn; consts; lia|cbn; consts; lia|exact ghost_chain_ok|].
  exists bt, bt', out. split; [exact Hbt|]. split; [exact E|].
  apply (Hg ghost (ROOT_SNAP - 1) ROOT_SNAP [Byte.x31] ([], Whiteout)).
  - by left.
  - right. by left.
  - lia.
  - discriminate.
  - vm_compute. reflexivity.
  - vm_compute. reflexivity.
  - intros s' Hs' Hlt Hne. exfalso. apply elem_of_cons in Hs' as [->|[->|Hs']%elem_of_cons]; [by apply Hne|lia|by apply elem_of_nil in Hs'].
  - split; vm_compute; done.
  - exists ghost_longer, ROOT_SNAP. split; [discriminate|]. split; [vm_compute; done|]. split; [eexists; vm_compute; reflexivity|].
    split; [split; vm_compute; done|]. split; vm_compute; reflexivity.
Defined.
