(* ===== verification/FsTypes.v ===== *)
(** * FsTypes: keys, value structs and journal records of the file system
    (src/fs.rs, first third).

    One physical tree stores several logical ones, told apart by a kind byte;
    integers in keys are big-endian so that key order is numeric order. *)
From Stdlib Require Import Strings.Byte.
From stdpp Require Import base list numbers.
From S2P Require Import Prelude Device BlockBtree Storage Btree.
#[local] Open Scope rfs_scope.
#[local] Open Scope Z_scope.

Definition ROOT_INO : Z := 1.
Definition FILE_KIND_REGULAR : Z := 1.
Definition FILE_KIND_DIR : Z := 2.
Definition FILE_KIND_SYMLINK : Z := 3.

Definition KIND_INODE : Z := 1.
Definition KIND_DIRENT : Z := 2.
Definition KIND_EXTENT : Z := 3.
Definition KIND_SNAPSHOT : Z := 0xF0.
Definition KIND_SUBVOL : Z := 0xF1.
Definition KIND_DELETED_INODES : Z := 0xF2.

Definition INODE_KEY_LEN : nat := 1 + 8.
Definition DIRENT_PREFIX_LEN : nat := 1 + 8.
Definition EXTENT_KEY_LEN : nat := 1 + 8 + 8.
Definition SNAPSHOT_KEY_LEN : nat := 1 + 4.
Definition SUBVOL_KEY_LEN : nat := 1 + 4.
Definition DELETED_INODE_KEY_LEN : nat := 1 + 8 + 4.

Definition NO_PARENT_SNAP : Z := 0.
Definition ROOT_SUBVOL : Z := 1.
Definition MAX_NAME_LEN : nat := MAX_LOGICAL_KEY_SIZE - DIRENT_PREFIX_LEN.

(** ** Keys *)
Definition inode_key (ino : Z) : list byte := z2b KIND_INODE :: to_be 8 ino.

Definition dirent_key (parent_ino : Z) (name : list byte) : res (list byte) :=
  _ ← assert_that (length name <=? MAX_NAME_LEN)%nat;
  Ok (z2b KIND_DIRENT :: to_be 8 parent_ino ++ name).

Definition dirent_range (parent_ino : Z) : list byte * list byte :=
  (z2b KIND_DIRENT :: to_be 8 parent_ino, z2b KIND_DIRENT :: to_be 8 (sat_add64 parent_ino 1)).

Definition extent_key (ino offset : Z) : list byte := z2b KIND_EXTENT :: to_be 8 ino ++ to_be 8 offset.
Definition extent_range (ino : Z) : list byte * list byte :=
  (extent_key ino 0, extent_key (sat_add64 ino 1) 0).

Definition extent_offset_from_key (key : list byte) : res Z := from_be <$> slice key 9 17.
Definition dirent_name_from_key (key : list byte) : res (list byte) :=
  slice key DIRENT_PREFIX_LEN (length key).

Definition snapshot_key (snap : Z) : list byte := z2b KIND_SNAPSHOT :: to_be 4 snap.
Definition subvol_key (subvol : Z) : list byte := z2b KIND_SUBVOL :: to_be 4 subvol.
Definition snapshot_range : list byte * list byte := (snapshot_key 0, [z2b (KIND_SNAPSHOT + 1)]).
Definition subvol_range : list byte * list byte := (subvol_key 0, [z2b (KIND_SUBVOL + 1)]).

(** [assert_eq!(key.len(), len); assert_eq!(key[0], kind)], then the tail. *)
Definition checked_tail (kind : Z) (len : nat) (key : list byte) : res (list byte) :=
  _ ← assert_that (length key =? len)%nat;
  b ← index key 0;
  _ ← assert_that (b2z b =? kind);
  Ok (drop 1 key).

Definition snapshot_id_from_key (key : list byte) : res Z :=
  from_be <$> checked_tail KIND_SNAPSHOT SNAPSHOT_KEY_LEN key.
Definition subvol_id_from_key (key : list byte) : res Z :=
  from_be <$> checked_tail KIND_SUBVOL SUBVOL_KEY_LEN key.

Definition deleted_inode_key (ino snap : Z) : list byte :=
  z2b KIND_DELETED_INODES :: to_be 8 ino ++ to_be 4 snap.
Definition deleted_inode_range : list byte * list byte :=
  (deleted_inode_key 0 0, [z2b (KIND_DELETED_INODES + 1)]).
Definition deleted_inode_from_key (key : list byte) : res (Z * Z) :=
  t ← checked_tail KIND_DELETED_INODES DELETED_INODE_KEY_LEN key;
  Ok (from_be (take 8 t), from_be (drop 8 t)).

(** ** Value structs, as [zerocopy] lays them out *)
Record InodeV1 : Type := {
  i_mode : Z; i_uid : Z; i_gid : Z; i_nlink : Z;
  i_size : Z; i_atime : Z; i_mtime : Z; i_ctime : Z; i_parent_ino : Z;
}.
Record DirentV1 : Type := { d_target_ino : Z; d_kind : Z; d_pad : list byte }.
Record ExtentV1 : Type := { x_len : Z; x_pad : list byte; x_data_block : Z }.
Record SnapshotV1 : Type := { s_parent_id : Z; s_flags : Z; s_reserved : list byte }.
Record SubvolV1 : Type := {
  v_snap_id : Z; v_flags : Z; v_root_inode : Z; v_parent_subvol : Z; v_reserved : list byte;
}.
Record DeletedInodeV1 : Type := { o_next_offset : Z; o_pad : list byte }.

Definition SUBVOL_FLAG_READONLY : Z := 1.

Definition zeros (n : nat) : list byte := replicate n Byte.x00.
Definition dirent_new (target_ino kind : Z) : DirentV1 :=
  {| d_target_ino := target_ino; d_kind := kind; d_pad := zeros 7 |}.
Definition deleted_inode_new : DeletedInodeV1 := {| o_next_offset := 0; o_pad := zeros 8 |}.

(** [T::read_from_bytes(&b).expect(..)]: panics unless the length is [T]'s size. *)
Definition sized (n : nat) (b : list byte) : res (list byte) :=
  _ ← assert_that (length b =? n)%nat; Ok b.

Definition inode_as_bytes (i : InodeV1) : list byte :=
  to_le 4 (i_mode i) ++ to_le 4 (i_uid i) ++ to_le 4 (i_gid i) ++ to_le 4 (i_nlink i)
  ++ to_le 8 (i_size i) ++ to_le 8 (i_atime i) ++ to_le 8 (i_mtime i) ++ to_le 8 (i_ctime i)
  ++ to_le 8 (i_parent_ino i).
Definition inode_from_bytes (b : list byte) : res InodeV1 :=
  b ← sized 56 b;
  Ok {| i_mode := field b 0 4; i_uid := field b 4 4; i_gid := field b 8 4; i_nlink := field b 12 4;
        i_size := field b 16 8; i_atime := field b 24 8; i_mtime := field b 32 8;
        i_ctime := field b 40 8; i_parent_ino := field b 48 8 |}.

Definition dirent_as_bytes (d : DirentV1) : list byte :=
  to_le 8 (d_target_ino d) ++ to_le 1 (d_kind d) ++ d_pad d.
Definition dirent_from_bytes (b : list byte) : res DirentV1 :=
  b ← sized 16 b;
  Ok {| d_target_ino := field b 0 8; d_kind := field b 8 1; d_pad := drop 9 b |}.

Definition extent_as_bytes (x : ExtentV1) : list byte :=
  to_le 4 (x_len x) ++ x_pad x ++ to_le 8 (x_data_block x).
Definition extent_from_bytes (b : list byte) : res ExtentV1 :=
  b ← sized 16 b;
  Ok {| x_len := field b 0 4; x_pad := take 4 (drop 4 b); x_data_block := field b 8 8 |}.

Definition snapshot_as_bytes (s : SnapshotV1) : list byte :=
  to_le 4 (s_parent_id s) ++ to_le 4 (s_flags s) ++ s_reserved s.
Definition snapshot_from_bytes (b : list byte) : res SnapshotV1 :=
  b ← sized 24 b;
  Ok {| s_parent_id := field b 0 4; s_flags := field b 4 4; s_reserved := drop 8 b |}.

Definition subvol_as_bytes (v : SubvolV1) : list byte :=
  to_le 4 (v_snap_id v) ++ to_le 4 (v_flags v) ++ to_le 8 (v_root_inode v)
  ++ to_le 4 (v_parent_subvol v) ++ v_reserved v.
Definition subvol_from_bytes (b : list byte) : res SubvolV1 :=
  b ← sized 32 b;
  Ok {| v_snap_id := field b 0 4; v_flags := field b 4 4; v_root_inode := field b 8 8;
        v_parent_subvol := field b 16 4; v_reserved := drop 20 b |}.

Definition deleted_as_bytes (o : DeletedInodeV1) : list byte := to_le 8 (o_next_offset o) ++ o_pad o.
Definition deleted_from_bytes (b : list byte) : res DeletedInodeV1 :=
  b ← sized 16 b; Ok {| o_next_offset := field b 0 8; o_pad := drop 8 b |}.

(** ** Journal op payloads *)
Definition encode_log_record (rec : LogRecord) : list byte :=
  z2b (Z.of_nat (length (lr_sortable_key rec))) :: lr_sortable_key rec ++ lr_value rec.

Definition decode_log_record (op_kind : Z) (payload : list byte) : res LogRecord :=
  match payload with
  | [] => Err (Io (OtherIo MalformedRecord))
  | b :: _ =>
      let key_len := Z.to_nat (b2z b) in
      if (length payload <? 1 + key_len)%nat then Err (Io (OtherIo MalformedRecord)) else
      sortable_key ← slice payload 1 (1 + key_len);
      value ← slice payload (1 + key_len) (length payload);
      Ok {| lr_sortable_key := sortable_key; lr_kind := kind_from_u8 op_kind; lr_value := value |}
  end.

(** ** Errors of the file-system layer *)
Inductive FsError : Type :=
  | BtreeErr (e : error)
  | NotFound | NotADirectory | NotEmpty | AlreadyExists | Exhausted | Invalid | Busy.

(** ** Round trips of the value structs *)
Definition inode_wf (i : InodeV1) : Prop :=
  in_width 32 (i_mode i) ∧ in_width 32 (i_uid i) ∧ in_width 32 (i_gid i) ∧ in_width 32 (i_nlink i) ∧
  in_width 64 (i_size i) ∧ in_width 64 (i_atime i) ∧ in_width 64 (i_mtime i) ∧ in_width 64 (i_ctime i) ∧
  in_width 64 (i_parent_ino i).
Definition dirent_wf (d : DirentV1) : Prop :=
  in_width 64 (d_target_ino d) ∧ in_width 8 (d_kind d) ∧ length (d_pad d) = 7%nat.
Definition extent_wf (x : ExtentV1) : Prop :=
  in_width 32 (x_len x) ∧ length (x_pad x) = 4%nat ∧ in_width 64 (x_data_block x).
Definition snapshot_wf (s : SnapshotV1) : Prop :=
  in_width 32 (s_parent_id s) ∧ in_width 32 (s_flags s) ∧ length (s_reserved s) = 16%nat.
Definition subvol_wf (v : SubvolV1) : Prop :=
  in_width 32 (v_snap_id v) ∧ in_width 32 (v_flags v) ∧ in_width 64 (v_root_inode v) ∧
  in_width 32 (v_parent_subvol v) ∧ length (v_reserved v) = 12%nat.
Definition deleted_wf (o : DeletedInodeV1) : Prop :=
  in_width 64 (o_next_offset o) ∧ length (o_pad o) = 8%nat.

(** Close [read_from_bytes (as_bytes v) = v] field by field: every field of the
    concrete layout is [from_le (to_le n z)]. *)
Ltac struct_round_trip :=
  unfold sized; rewrite (proj2 (Nat.eqb_eq _ _))
    by (rewrite ?length_app, ?length_to_le; cbn; lia);
  cbn [assert_that]; mred; f_equal; f_equal; unfold field;
  lazymatch goal with
  | |- from_le _ = ?z =>
      first [exact (from_to_le_small 8 z ltac:(assumption))
            |exact (from_to_le_small 4 z ltac:(assumption))
            |exact (from_to_le_small 1 z ltac:(assumption))]
  | _ => reflexivity
  end.

Lemma inode_round_trip i : inode_wf i → inode_from_bytes (inode_as_bytes i) = Ok i.
Proof.
  destruct i. intros (?&?&?&?&?&?&?&?&?). unfold inode_from_bytes, inode_as_bytes.
  cbn [i_mode i_uid i_gid i_nlink i_size i_atime i_mtime i_ctime i_parent_ino] in *. struct_round_trip.
Qed.

Lemma dirent_round_trip d : dirent_wf d → dirent_from_bytes (dirent_as_bytes d) = Ok d.
Proof.
  destruct d. intros (?&?&?). unfold dirent_from_bytes, dirent_as_bytes.
  cbn [d_target_ino d_kind d_pad] in *. struct_round_trip.
Qed.

Lemma extent_round_trip x : extent_wf x → extent_from_bytes (extent_as_bytes x) = Ok x.
Proof.
  destruct x as [l p b]. intros (?&Hp&?). unfold extent_from_bytes, extent_as_bytes.
  cbn [x_len x_pad x_data_block] in *. destruct p as [|? [|? [|? [|? [|]]]]]; try done. struct_round_trip.
Qed.

Lemma snapshot_round_trip s : snapshot_wf s → snapshot_from_bytes (snapshot_as_bytes s) = Ok s.
Proof.
  destruct s. intros (?&?&?). unfold snapshot_from_bytes, snapshot_as_bytes.
  cbn [s_parent_id s_flags s_reserved] in *. struct_round_trip.
Qed.

Lemma subvol_round_trip v : subvol_wf v → subvol_from_bytes (subvol_as_bytes v) = Ok v.
Proof.
  destruct v. intros (?&?&?&?&?). unfold subvol_from_bytes, subvol_as_bytes.
  cbn [v_snap_id v_flags v_root_inode v_parent_subvol v_reserved] in *. struct_round_trip.
Qed.

Lemma deleted_round_trip o : deleted_wf o → deleted_from_bytes (deleted_as_bytes o) = Ok o.
Proof.
  destruct o. intros (?&?). unfold deleted_from_bytes, deleted_as_bytes.
  cbn [o_next_offset o_pad] in *. struct_round_trip.
Qed.

(** ** Keys: inverses and order *)
Lemma checked_tail_ok kind len t :
  in_width 8 kind → S (length t) = len → checked_tail kind len (z2b kind :: t) = Ok t.
Proof.
  intros Hk Hl. unfold checked_tail. cbn [length]. rewrite Hl, Nat.eqb_refl. cbn [assert_that]. mred.
  unfold index. cbn [lookup list_lookup]. mred.
  rewrite b2z_z2b. unfold u8. rewrite wrap_small, Z.eqb_refl by done. cbn [assert_that]. mred.
  by rewrite skipn_cons, drop_0.
Qed.

Lemma snapshot_id_key s : in_width 32 s → snapshot_id_from_key (snapshot_key s) = Ok s.
Proof.
  intros. unfold snapshot_id_from_key, snapshot_key. rewrite checked_tail_ok; [|done|by rewrite length_to_be].
  mred. by rewrite (from_to_be_small 4).
Qed.

Lemma subvol_id_key v : in_width 32 v → subvol_id_from_key (subvol_key v) = Ok v.
Proof.
  intros. unfold subvol_id_from_key, subvol_key. rewrite checked_tail_ok; [|done|by rewrite length_to_be].
  mred. by rewrite (from_to_be_small 4).
Qed.

Lemma deleted_inode_of_key ino s :
  in_width 64 ino → in_width 32 s → deleted_inode_from_key (deleted_inode_key ino s) = Ok (ino, s).
Proof.
  intros. unfold deleted_inode_from_key, deleted_inode_key.
  rewrite checked_tail_ok; [|done|by rewrite length_app, !length_to_be]. mred.
  rewrite take_app_length', drop_app_length' by (by rewrite length_to_be).
  by rewrite (from_to_be_small 8), (from_to_be_small 4).
Qed.

Lemma extent_offset_key ino off : in_width 64 off → extent_offset_from_key (extent_key ino off) = Ok off.
Proof.
  intros. unfold extent_offset_from_key, extent_key.
  rewrite app_comm_cons, <- (app_nil_r (to_be 8 off)).
  rewrite slice_app; [|cbn [length]; by rewrite length_to_be|cbn [length]; by rewrite !length_to_be].
  mred. by rewrite (from_to_be_small 8).
Qed.

Lemma dirent_name_key p name k : dirent_key p name = Ok k → dirent_name_from_key k = Ok name.
Proof.
  unfold dirent_key. destruct (_ <=? _)%nat; [|done]. cbn [assert_that]. mred. intros Hk.
  apply (f_equal (λ o, match o with Ok x => x | _ => k end)) in Hk. subst k. unfold dirent_name_from_key.
  rewrite app_comm_cons. rewrite <- (app_nil_r name) at 1. apply slice_app.
  - cbn [length]. by rewrite length_to_be.
  - rewrite length_app. done.
Qed.

(** ** Journal records *)
Lemma log_record_round_trip rec :
  (length (lr_sortable_key rec) < 256)%nat →
  decode_log_record (kind_to_u8 (lr_kind rec)) (encode_log_record rec) = Ok rec.
Proof.
  destruct rec as [k kd v]. cbn [lr_sortable_key lr_kind]. intros Hk.
  unfold decode_log_record, encode_log_record. cbn [lr_sortable_key lr_value].
  assert (b2z (z2b (Z.of_nat (length k))) = Z.of_nat (length k)) as ->.
  { rewrite b2z_z2b. apply wrap_small. unfold in_width. lia. }
  rewrite Nat2Z.id. cbn [length]. rewrite length_app.
  destruct (Nat.ltb_spec (S (length k + length v)) (1 + length k)); [lia|].
  rewrite (slice_app [z2b (Z.of_nat (length k))] k v 1 (1 + length k)) by done. mred.
  rewrite app_comm_cons. rewrite <- (app_nil_r v) at 1.
  rewrite (slice_app (z2b (Z.of_nat (length k)) :: k) v []); [|done|cbn; lia]. mred. by destruct kd.
Qed.

Lemma log_record_fits rec :
  (length (lr_sortable_key rec) ≤ MAX_KEY_SIZE)%nat → (length (lr_value rec) ≤ MAX_VALUE_SIZE)%nat →
  (length (encode_log_record rec) ≤ JOURNAL_OP_CAPACITY)%nat.
Proof.
  intros. unfold encode_log_record. cbn [length]. rewrite length_app.
  unfold MAX_KEY_SIZE, MAX_VALUE_SIZE, JOURNAL_OP_CAPACITY in *. lia.
Qed.

(** ** Ranges select exactly the keys of one object *)

(** The bytes a tree scan compares: a logical key with its snapshot suffix, and
    a logical bound with a zero suffix. *)
Definition in_range (r : list byte * list byte) (k : list byte) : Prop :=
  bytes_ltb k (versioned r.1 0) = false ∧ bytes_ltb k (versioned r.2 0) = true.

Lemma bytes_ltb_zeros k : (4 ≤ length k)%nat → bytes_ltb k (to_be 4 0) = false.
Proof.
  intros Hl. unfold bytes_ltb. pose proof (bytes_cmp_zeros 4 k Hl) as H.
  change (to_be 4 0) with (replicate 4 Byte.x00). by destruct (bytes_cmp k _).
Qed.

(** Keys under one kind byte and one big-endian id. *)
Lemma ltb_same_kind kind x y a b :
  in_width 64 x → in_width 64 y →
  bytes_ltb (z2b kind :: to_be 8 x ++ a) (z2b kind :: to_be 8 y ++ b) =
    if x <? y then true else if x =? y then bytes_ltb a b else false.
Proof.
  intros Hx Hy. unfold bytes_ltb. cbn [bytes_cmp]. rewrite Z.compare_refl, (bytes_cmp_to_be_app 8) by done.
  destruct (Z.compare_spec x y), (Z.ltb_spec x y), (Z.eqb_spec x y); try lia; done.
Qed.

Lemma sat_add64_small x : in_width 64 x → x < U64_MAX → sat_add64 x 1 = x + 1.
Proof. unfold sat_add64, in_width. lia. Qed.

(** A key of directory [other] lies in the range of [parent] when they are one. *)
Lemma dirent_in_range parent other name snap :
  in_width 64 parent → in_width 64 other → parent < U64_MAX →
  in_range (dirent_range parent) (versioned (z2b KIND_DIRENT :: to_be 8 other ++ name) snap) ↔ other = parent.
Proof.
  intros Hp Ho Hmax. unfold in_range, dirent_range, versioned. cbn [fst snd app]. rewrite <- app_assoc.
  rewrite sat_add64_small by done. rewrite !ltb_same_kind by (done || unfold in_width in *; lia).
  rewrite !bytes_ltb_zeros by (rewrite length_app, length_to_be; lia).
  destruct (Z.ltb_spec other parent), (Z.eqb_spec other parent), (Z.ltb_spec other (parent + 1)),
    (Z.eqb_spec other (parent + 1)); split; try lia; try done; by intros [? ?].
Qed.

(** Every value struct the file system stores reads back as it was written. *)
Lemma value_structs_round_trip i d x s v o :
  inode_wf i → dirent_wf d → extent_wf x → snapshot_wf s → subvol_wf v → deleted_wf o →
  inode_from_bytes (inode_as_bytes i) = Ok i ∧ dirent_from_bytes (dirent_as_bytes d) = Ok d ∧
  extent_from_bytes (extent_as_bytes x) = Ok x ∧ snapshot_from_bytes (snapshot_as_bytes s) = Ok s ∧
  subvol_from_bytes (subvol_as_bytes v) = Ok v ∧ deleted_from_bytes (deleted_as_bytes o) = Ok o.
Proof.
  intros. split_and!; [by apply inode_round_trip|by apply dirent_round_trip|by apply extent_round_trip
    |by apply snapshot_round_trip|by apply subvol_round_trip|by apply deleted_round_trip].
Qed.

