(* ===== verification/Fs.v ===== *)
(** * Fs: the file system over the tree (src/fs.rs).

    [Fs] keeps the tree (which owns the block store the code shares through an
    [Arc]), the id counters and the journal position. Its methods are
    state-passing computations; a read may fault nodes into the cache, so reads
    thread the state too. [.expect(..)] on an [Err] or [None] is a [Panic]. *)
From Stdlib Require Import Strings.Byte.
From stdpp Require Import base list numbers gmap.
From S2P Require Import Prelude Device BlockBtree Storage Journal Btree FsTypes.
#[local] Open Scope Z_scope.

Definition JOURNAL_RECLAIM_SOFT_LIMIT : Z := JOURNAL_CAPACITY - 64.
Definition RECLAIM_IN_MEMORY_BUDGET : Z := 128.
Definition RECLAIM_COMMIT_RESERVED_FRAMES : Z := 3.

(** Loops over snapshot ids: at most [2 ^ 33] rounds, more than there are ids. *)
Definition SNAP_LOOP : nat := 33.

Record Fs (D : Type) : Type := {
  tree : Btree D;
  next_ino : Z;
  next_snap_id : Z;
  next_subvol_id : Z;
  current_subvol : Z;
  journal : bool;
  next_journal_seq : Z;
  last_checkpoint_seq : Z;
}.
Arguments tree {D}. Arguments next_ino {D}. Arguments next_snap_id {D}.
Arguments next_subvol_id {D}. Arguments current_subvol {D}. Arguments journal {D}.
Arguments next_journal_seq {D}. Arguments last_checkpoint_seq {D}.

Section fs.
Context {D : Type} `{!BlockDevice D} `{!Crc32}.
Abbreviation SM := (M (BlockStore D) error).
Abbreviation TM := (M (Btree D) error).
Abbreviation FM := (M (Fs D) error).
Abbreviation FsM := (M (Fs D) FsError).

Definition set_tree (t : Btree D) (fs : Fs D) : Fs D :=
  {| tree := t; next_ino := next_ino fs; next_snap_id := next_snap_id fs;
     next_subvol_id := next_subvol_id fs; current_subvol := current_subvol fs;
     journal := journal fs; next_journal_seq := next_journal_seq fs;
     last_checkpoint_seq := last_checkpoint_seq fs |}.
Definition set_next_ino (n : Z) (fs : Fs D) : Fs D :=
  {| tree := tree fs; next_ino := n; next_snap_id := next_snap_id fs;
     next_subvol_id := next_subvol_id fs; current_subvol := current_subvol fs;
     journal := journal fs; next_journal_seq := next_journal_seq fs;
     last_checkpoint_seq := last_checkpoint_seq fs |}.
Definition set_ids (snap subvol : Z) (fs : Fs D) : Fs D :=
  {| tree := tree fs; next_ino := next_ino fs; next_snap_id := snap;
     next_subvol_id := subvol; current_subvol := current_subvol fs;
     journal := journal fs; next_journal_seq := next_journal_seq fs;
     last_checkpoint_seq := last_checkpoint_seq fs |}.
Definition set_current_subvol (v : Z) (fs : Fs D) : Fs D :=
  {| tree := tree fs; next_ino := next_ino fs; next_snap_id := next_snap_id fs;
     next_subvol_id := next_subvol_id fs; current_subvol := v;
     journal := journal fs; next_journal_seq := next_journal_seq fs;
     last_checkpoint_seq := last_checkpoint_seq fs |}.
Definition set_journal (j : bool) (seq : Z) (fs : Fs D) : Fs D :=
  {| tree := tree fs; next_ino := next_ino fs; next_snap_id := next_snap_id fs;
     next_subvol_id := next_subvol_id fs; current_subvol := current_subvol fs;
     journal := j; next_journal_seq := seq; last_checkpoint_seq := last_checkpoint_seq fs |}.
Definition set_journal_seq (seq : Z) (fs : Fs D) : Fs D := set_journal (journal fs) seq fs.
Definition set_checkpoint_seq (seq : Z) (fs : Fs D) : Fs D :=
  {| tree := tree fs; next_ino := next_ino fs; next_snap_id := next_snap_id fs;
     next_subvol_id := next_subvol_id fs; current_subvol := current_subvol fs;
     journal := journal fs; next_journal_seq := next_journal_seq fs; last_checkpoint_seq := seq |}.

Definition on_tree {A} (c : TM A) : FM A := zoom tree set_tree c.
Definition on_fs_store {A} (c : SM A) : FM A := on_tree (in_store c).
(** [journal.append] and friends run on the store's device. *)
Definition on_journal {A} (c : M D error A) : FM A :=
  on_fs_store (zoom device set_device c).

(** [r.expect(..)] on a [Result]. *)
Definition expecting {A} (c : FM A) : FM A := λ fs,
  match c fs with
  | (Err _, fs') => (Panic, fs')
  | r => r
  end.

(** [bytes.map(|b| T::read_from_bytes(&b).expect(..))] *)
Definition parsed {T} (parse : list byte → res T) (b : option (list byte)) : FM (option T) :=
  match b with
  | None => mret None
  | Some b => v ← lift (parse b); mret (Some v)
  end.

(** ** Snapshot tree *)
Definition put_snapshot (snap : Z) (sv : SnapshotV1) : FM unit :=
  on_tree (insert_at (snapshot_key snap) ROOT_SNAP (snapshot_as_bytes sv)).
Definition get_snapshot (snap : Z) : FM (option SnapshotV1) :=
  bytes ← on_tree (find_at (snapshot_key snap) ROOT_SNAP);
  parsed snapshot_from_bytes bytes.

Definition list_snapshots : FM (list (Z * SnapshotV1)) :=
  let '(start, stop) := snapshot_range in
  rows ← on_tree (range_scan_visible start stop [ROOT_SNAP]);
  lift (mapM (λ '(key, value),
    snap ← snapshot_id_from_key key; meta ← snapshot_from_bytes value; Ok (snap, meta)) rows).

(** One round of the ancestor walk, on [(chain, cur)]. *)
Definition ancestor_round '((chain, cur) : list Z * Z) : FM (list Z * Z + list Z) :=
  m ← get_snapshot cur;
  mret (match m with
        | None => inr chain
        | Some meta =>
            if s_parent_id meta =? NO_PARENT_SNAP then inr chain
            else if s_parent_id meta <=? cur then inr chain
            else inl (chain ++ [s_parent_id meta], s_parent_id meta)
        end).
Definition ancestor_chain (snap : Z) : FM (list Z) :=
  whileM SNAP_LOOP ancestor_round ([snap], snap).

Definition is_ancestor_round (ancestor cur : Z) : FM (Z + bool) :=
  if cur =? ancestor then mret (inr true) else
  m ← get_snapshot cur;
  mret (match m with
        | None => inr false
        | Some meta =>
            if (s_parent_id meta =? NO_PARENT_SNAP) || (s_parent_id meta <=? cur) then inr false
            else inl (s_parent_id meta)
        end).
Definition is_ancestor (ancestor of_ : Z) : FM bool :=
  if ancestor <? of_ then mret false else
  whileM SNAP_LOOP (is_ancestor_round ancestor) of_.

(** ** Subvolume tree *)
Definition put_subvol (id : Z) (sv : SubvolV1) : FM unit :=
  on_tree (insert_at (subvol_key id) ROOT_SNAP (subvol_as_bytes sv)).
Definition get_subvol (id : Z) : FM (option SubvolV1) :=
  bytes ← on_tree (find_at (subvol_key id) ROOT_SNAP);
  parsed subvol_from_bytes bytes.
Definition list_subvols : FM (list (Z * SubvolV1)) :=
  let '(start, stop) := subvol_range in
  rows ← on_tree (range_scan_visible start stop [ROOT_SNAP]);
  lift (mapM (λ '(key, value),
    id ← subvol_id_from_key key; meta ← subvol_from_bytes value; Ok (id, meta)) rows).

Definition list_deleted_inodes : FM (list (Z * Z * Z)) :=
  let '(start, stop) := deleted_inode_range in
  rows ← on_tree (range_scan_visible start stop [ROOT_SNAP]);
  lift (mapM (λ '(key, value),
    '(ino, snap) ← deleted_inode_from_key key;
    progress ← deleted_from_bytes value;
    Ok (ino, snap, o_next_offset progress)) rows).

Definition current_snap : FM Z :=
  cur ← gets current_subvol;
  o ← expecting (get_subvol cur);
  v ← lift (expect o);
  mret (v_snap_id v).
Definition current_chain : FM (list Z) := s ← current_snap; ancestor_chain s.

Definition alloc_ino : FM Z :=
  ino ← gets next_ino;
  _ ← modify (set_next_ino (u64 (ino + 1)));
  mret ino.

Definition alloc_data_block : FM Z := on_fs_store alloc.
Definition free_data_block (nr : Z) : FM unit := on_fs_store (free nr).
Definition read_data_block (nr : Z) : FM (list byte) := on_fs_store (read_data nr).

(** ** Inodes and directory entries *)
Definition put_inode (ino : Z) (inode : InodeV1) : FM unit :=
  snap ← current_snap;
  on_tree (insert_at (inode_key ino) snap (inode_as_bytes inode)).
Definition get_inode (ino : Z) : FM (option InodeV1) :=
  chain ← current_chain;
  bytes ← on_tree (btree_find_visible (inode_key ino) chain);
  parsed inode_from_bytes bytes.
Definition delete_inode (ino : Z) : FM bool :=
  snap ← current_snap;
  chain ← current_chain;
  on_tree (delete_at (inode_key ino) snap chain).

Definition put_dirent (parent : Z) (name : list byte) (d : DirentV1) : FM unit :=
  snap ← current_snap;
  k ← lift (dirent_key parent name);
  on_tree (insert_at k snap (dirent_as_bytes d)).
Definition lookup_dirent (parent : Z) (name : list byte) : FM (option DirentV1) :=
  chain ← current_chain;
  k ← lift (dirent_key parent name);
  bytes ← on_tree (btree_find_visible k chain);
  parsed dirent_from_bytes bytes.
Definition delete_dirent (parent : Z) (name : list byte) : FM bool :=
  snap ← current_snap;
  chain ← current_chain;
  k ← lift (dirent_key parent name);
  on_tree (delete_at k snap chain).
Definition list_dirents (parent : Z) : FM (list (list byte * DirentV1)) :=
  chain ← current_chain;
  let '(start, stop) := dirent_range parent in
  entries ← on_tree (range_scan_visible start stop chain);
  lift (mapM (λ '(k, v),
    name ← dirent_name_from_key k; d ← dirent_from_bytes v; Ok (name, d)) entries).

(** ** Extents *)
Definition put_extent (ino offset : Z) (data : list byte) : FM unit :=
  _ ← lift (assert_that (length data <=? BLOCK_SIZE)%nat);
  snap ← current_snap;
  block_nr ← alloc_data_block;
  block ← lift (splice (replicate BLOCK_SIZE Byte.x00) 0 data);
  _ ← on_fs_store (write_data block_nr block);
  let extent := {| x_len := u32 (Z.of_nat (length data)); x_pad := zeros 4; x_data_block := block_nr |} in
  on_tree (insert_at (extent_key ino offset) snap (extent_as_bytes extent)).

Definition get_extent (ino offset : Z) : FM (option ExtentV1) :=
  chain ← current_chain;
  bytes ← on_tree (btree_find_visible (extent_key ino offset) chain);
  parsed extent_from_bytes bytes.
Definition delete_extent (ino offset : Z) : FM bool :=
  snap ← current_snap;
  chain ← current_chain;
  on_tree (delete_at (extent_key ino offset) snap chain).

Definition collect_extents (start stop : list byte) (chain : list Z) : FM (list (Z * ExtentV1)) :=
  entries ← on_tree (range_scan_visible start stop chain);
  lift (mapM (λ '(k, v),
    offset ← extent_offset_from_key k; x ← extent_from_bytes v; Ok (offset, x)) entries).
Definition list_extents (ino : Z) : FM (list (Z * ExtentV1)) :=
  chain ← current_chain;
  let '(start, stop) := extent_range ino in
  collect_extents start stop chain.
Definition extents_in_range (ino start_off end_off : Z) : FM (list (Z * ExtentV1)) :=
  if end_off <=? start_off then mret [] else
  chain ← current_chain;
  collect_extents (extent_key ino start_off) (extent_key ino end_off) chain.

(** [x & !(BLOCK_SIZE - 1)] *)
Definition block_floor (x : Z) : Z := Z.ldiff x (BLOCK_BYTES - 1).

(** Copy the part of one extent that overlaps [offset, stop) into [out]. *)
Definition copy_extent (offset stop : Z) (out : list byte) '((ext_off, ext) : Z * ExtentV1)
    : FM (list byte) :=
  let ext_end := u64 (ext_off + x_len ext) in
  if (ext_end <=? offset) || (stop <=? ext_off) then mret out else
  let copy_start := Z.max offset ext_off in
  let copy_end := Z.min stop ext_end in
  src_block ← expecting (read_data_block (x_data_block ext));
  src ← lift (slice src_block (Z.to_nat (copy_start - ext_off)) (Z.to_nat (copy_end - ext_off)));
  lift (splice out (Z.to_nat (copy_start - offset)) src).

Definition fs_read_at (ino offset size : Z) : FM (list byte) :=
  i ← get_inode ino;
  match i with
  | None => mret []
  | Some inode =>
      if i_size inode <=? offset then mret [] else
      let stop := Z.min (u64 (offset + size)) (i_size inode) in
      let out := replicate (Z.to_nat (u64 (stop - offset))) Byte.x00 in
      exts ← extents_in_range ino (block_floor offset) stop;
      foldM (copy_extent offset stop) out exts
  end.

(** One block of a write: read-modify-write of the chunk at [cursor]. *)
Definition write_chunk (ino cursor : Z) (remaining : list byte) : FM nat :=
  let block_off := block_floor cursor in
  let in_block := Z.to_nat (cursor - block_off) in
  let n := Nat.min (BLOCK_SIZE - in_block) (length remaining) in
  let buf := replicate BLOCK_SIZE Byte.x00 in
  e ← get_extent ino block_off;
  '(buf, existing_len) ←
    match e with
    | None => mret (buf, 0%nat)
    | Some ext =>
        let existing_len := Z.to_nat (x_len ext) in
        src ← expecting (read_data_block (x_data_block ext));
        src ← lift (slice src 0 existing_len);
        buf ← lift (splice buf 0 src);
        mret (buf, existing_len)
    end;
  chunk ← lift (slice remaining 0 n);
  buf ← lift (splice buf in_block chunk);
  let new_len := Nat.max (in_block + n) existing_len in
  data ← lift (slice buf 0 new_len);
  _ ← put_extent ino block_off data;
  mret n.

Fixpoint write_loop (fuel : nat) (ino cursor : Z) (remaining : list byte) : FM unit :=
  match remaining with
  | [] => mret tt
  | _ =>
      match fuel with
      | O => out_of_fuel
      | S fuel =>
          n ← write_chunk ino cursor remaining;
          write_loop fuel ino (u64 (cursor + Z.of_nat n)) (drop n remaining)
      end
  end.
Definition fs_write_at (ino offset : Z) (data : list byte) : FM Z :=
  _ ← write_loop (length data) ino offset data;
  mret (Z.of_nat (length data)).

Definition truncate_extent (ino new_size : Z) '((ext_off, ext) : Z * ExtentV1) : FM unit :=
  let boundary_block := block_floor new_size in
  let tail_offset := Z.to_nat (new_size mod BLOCK_BYTES) in
  if new_size <=? ext_off then
    _ ← delete_extent ino ext_off;
    free_data_block (x_data_block ext)
  else if (ext_off =? boundary_block) && (0 <? tail_offset)%nat
          && (new_size - ext_off <? x_len ext) then
    buf ← read_data_block (x_data_block ext);
    gap ← lift (slice buf tail_offset (Z.to_nat (x_len ext)));
    buf ← lift (splice buf tail_offset (zeros (length gap)));
    data ← lift (slice buf 0 tail_offset);
    put_extent ino ext_off data
  else mret tt.
Definition truncate_extents (ino new_size : Z) : FM unit :=
  exts ← list_extents ino;
  forM_ exts (truncate_extent ino new_size).
End fs.

Section fs_ops.
Context {D : Type} `{!BlockDevice D} `{!Crc32}.
Abbreviation SM := (M (BlockStore D) error).
Abbreviation FM := (M (Fs D) error).
Abbreviation FsM := (M (Fs D) FsError).
Abbreviation XM := (M (Tx D) error).

(** ** Reclaim of deleted inodes *)
Definition put_deleted_inode (ino snap next_offset : Z) : FM unit :=
  on_tree (insert_at (deleted_inode_key ino snap) ROOT_SNAP
    (deleted_as_bytes {| o_next_offset := next_offset; o_pad := zeros 8 |})).
Definition delete_deleted_inode (ino snap : Z) : FM bool :=
  on_tree (delete_at (deleted_inode_key ino snap) ROOT_SNAP [ROOT_SNAP]).

(** The extents of one work item; returns [(finished, last_offset, budget, issued)]. *)
Fixpoint reclaim_extents (ino snap : Z) (chain : list Z) (extents : list VisibleSnapRow)
    (last_offset budget issued : Z) : FM (bool * Z * Z * Z) :=
  match extents with
  | [] => mret (true, last_offset, budget, issued)
  | (key, visible_snap, extent_bytes) :: extents =>
      if budget =? 0 then mret (false, last_offset, budget, issued) else
      extent ← lift (extent_from_bytes extent_bytes);
      offset ← lift (extent_offset_from_key key);
      _ ← on_tree (delete_at (extent_key ino offset) snap chain);
      _ ← (if visible_snap =? snap then on_fs_store (free (x_data_block extent)) else mret tt);
      reclaim_extents ino snap chain extents offset (budget - 1) (issued + 1)
  end.

Fixpoint reclaim_orphans (orphans : list (Z * Z * Z)) (budget issued : Z) : FM Z :=
  match orphans with
  | [] => mret issued
  | (ino, snap, next_offset) :: orphans =>
      if budget =? 0 then mret issued else
      m ← get_snapshot snap;
      match m with
      | None =>
          _ ← delete_deleted_inode ino snap;
          reclaim_orphans orphans (budget - 1) (issued + 1)
      | Some _ =>
          chain ← ancestor_chain snap;
          let stop := (extent_range ino).2 in
          let start := extent_key ino next_offset in
          extents ← on_tree (range_scan_visible_with_snap start stop chain);
          '(finished, last_offset, budget, issued) ←
            reclaim_extents ino snap chain extents next_offset budget issued;
          if finished : bool then
            if budget =? 0 then reclaim_orphans orphans budget issued else
            _ ← delete_deleted_inode ino snap;
            reclaim_orphans orphans (budget - 1) (issued + 1)
          else
            let next := sat_add64 last_offset 1 in
            _ ← (if next =? next_offset then mret tt else put_deleted_inode ino snap next);
            reclaim_orphans orphans budget issued
      end
  end.
Definition reclaim_deleted_inodes (op_budget : Z) : FM Z :=
  orphans ← list_deleted_inodes;
  reclaim_orphans orphans op_budget 0.

(** ** Checkpoint and commit *)
Definition fs_sync : FM unit :=
  _ ← on_tree btree_checkpoint;
  free_head ← on_fs_store persist_free_list;
  _ ← on_fs_store fsync;
  fs ← gets id;
  let journal_seq := sat_sub (next_journal_seq fs) 1 in
  let sb := {|
    sb_magic := SUPERBLOCK_MAGIC; sb_version := SUPERBLOCK_VERSION;
    sb_root_block := root_block (tree fs); sb_next_block_nr := next_block_nr (store (tree fs));
    sb_next_bset_seq := next_bset_seq (tree fs); sb_next_ino := next_ino fs;
    sb_journal_seq := journal_seq; sb_next_snap_id := next_snap_id fs;
    sb_next_subvol_id := next_subvol_id fs; sb_current_subvol := current_subvol fs;
    sb_checksum := 0; sb_free_head := free_head; sb_reserved := zeros RESERVED_BYTES |} in
  _ ← on_fs_store (write_superblock sb);
  _ ← on_fs_store fsync;
  modify (set_checkpoint_seq journal_seq).

Definition reclaim_budget_for_commit (fs : Fs D) : Z :=
  let outstanding := sat_sub (next_journal_seq fs) (last_checkpoint_seq fs) in
  let headroom := sat_sub JOURNAL_RECLAIM_SOFT_LIMIT outstanding in
  let already_spoken_for := Z.of_nat (pending_log_len (tree fs)) + RECLAIM_COMMIT_RESERVED_FRAMES in
  sat_sub headroom already_spoken_for.

(** [let seq = self.next_journal_seq; self.next_journal_seq += 1;] *)
Definition take_journal_seq : FM Z :=
  seq ← gets next_journal_seq;
  _ ← modify (set_journal_seq (u64 (seq + 1)));
  mret seq.

Definition append_record (rec : LogRecord) : FM unit :=
  seq ← take_journal_seq;
  frame ← lift (logged_op seq (kind_to_u8 (lr_kind rec)) (encode_log_record rec));
  on_journal (append (frame_stamp_checksum frame)).

Definition append_commit_end : FM unit :=
  seq ← take_journal_seq;
  fs ← gets id;
  on_journal (append (frame_stamp_checksum
    (commit_end seq (root_block (tree fs)) (next_block_nr (store (tree fs)))
       (next_bset_seq (tree fs)) (next_ino fs) (next_snap_id fs) (next_subvol_id fs)
       (current_subvol fs)))).

Definition journal_commit : FM unit :=
  j ← gets journal;
  if negb j then _ ← reclaim_deleted_inodes RECLAIM_IN_MEMORY_BUDGET; mret tt else
  near ← gets (λ fs, JOURNAL_RECLAIM_SOFT_LIMIT
                      <=? sat_sub (next_journal_seq fs) (last_checkpoint_seq fs));
  _ ← (if near : bool then fs_sync else mret tt);
  reclaim_budget ← gets reclaim_budget_for_commit;
  _ ← (if 0 <? reclaim_budget then _ ← reclaim_deleted_inodes reclaim_budget; mret tt else mret tt);
  records ← on_tree drain_log;
  _ ← forM_ records append_record;
  _ ← append_commit_end;
  on_fs_store fsync.

(** ** Garbage collection *)
Definition mark_live (hwm : Z) (mark : gset Z) (nr : Z) : gset Z :=
  if nr <? hwm then {[nr]} ∪ mark else mark.
Definition mark_all (hwm : Z) (mark : gset Z) (l : list Z) : gset Z := foldl (mark_live hwm) mark l.

(** The data blocks of the live rows of an extent scan. *)
Definition live_extent_blocks (rows : list AllSnapRow) : res (list Z) :=
  foldO (λ out '(_, _, kind, value),
    if decide (kind = Live) then x ← extent_from_bytes value; Ok (out ++ [x_data_block x])
    else Ok out) [] rows.

Definition gc_mark : FM (Z * gset Z) :=
  hwm ← gets (λ fs, next_block_nr (store (tree fs)));
  let mark := mark_all hwm ∅ (seqZ 0 FIRST_DATA_BLOCK_NR) in
  nodes ← on_tree collect_live_node_blocks;
  let mark := mark_all hwm mark nodes in
  extents ← on_tree (btree_range_scan_all [z2b KIND_EXTENT] [z2b (KIND_EXTENT + 1)]);
  blocks ← lift (live_extent_blocks extents);
  let mark := mark_all hwm mark blocks in
  freel ← gets (λ fs, free_list_snapshot (store (tree fs)));
  let mark := mark_all hwm mark freel in
  chain ← gets (λ fs, chain_blocks_snapshot (store (tree fs)));
  mret (hwm, mark_all hwm mark chain).

Definition gc_sweep (hwm : Z) (mark : gset Z) : FM Z :=
  foldM (λ reclaimed nr,
    if bool_decide (nr ∈ mark) then mret reclaimed
    else _ ← on_fs_store (free nr); mret (reclaimed + 1))
    0 (seqZ FIRST_DATA_BLOCK_NR (hwm - FIRST_DATA_BLOCK_NR)).

Definition gc : FM Z :=
  p ← gets (λ fs, persistent (store (tree fs)));
  if negb p then mret 0 else
  _ ← fs_sync;
  '(hwm, mark) ← gc_mark;
  reclaimed ← gc_sweep hwm mark;
  _ ← fs_sync;
  mret reclaimed.

(** ** Construction *)

(** Run a computation, dropping the state on failure. *)
Definition exec {S A} (c : M S error A) (s : S) : res (A * S) :=
  match c s with
  | (Ok a, s) => Ok (a, s)
  | (Err e, _) => Err e
  | (Panic, _) => Panic
  | (OutOfFuel, _) => OutOfFuel
  end.

Definition seed (t : Btree D) (root_ino : Z) : res (Fs D) :=
  let fs := {| tree := t; next_ino := root_ino; next_snap_id := ROOT_SNAP - 1;
               next_subvol_id := ROOT_SUBVOL + 1; current_subvol := ROOT_SUBVOL; journal := false;
               next_journal_seq := 0; last_checkpoint_seq := 0 |} in
  '(_, fs) ← exec (expecting (put_snapshot ROOT_SNAP
    {| s_parent_id := NO_PARENT_SNAP; s_flags := 0; s_reserved := zeros 16 |})) fs;
  '(_, fs) ← exec (expecting (put_subvol ROOT_SUBVOL
    {| v_snap_id := ROOT_SNAP; v_flags := 0; v_root_inode := ROOT_INO; v_parent_subvol := 0;
       v_reserved := zeros 12 |})) fs;
  Ok fs.

(** [Fs::create] on a fresh store. *)
Definition create_on (s : BlockStore D) : res (Fs D) :=
  '(_, s) ← exec (on_device (set_len (u64 ((FIRST_JOURNAL_BLOCK + JOURNAL_BLOCKS) * BLOCK_BYTES)))) s;
  t ← create_in s;
  fs ← seed t ROOT_INO;
  let fs := set_journal true 1 fs in
  '(_, fs) ← exec (on_tree drain_log) fs;
  '(_, fs) ← exec fs_sync fs;
  Ok fs.

Definition replay_op '((op_kind, payload) : Z * list byte) : M (Btree D) error unit :=
  rec ← lift (decode_log_record op_kind payload);
  replay_record rec.
Definition replay_groups (groups : list CommitGroup) : M (Btree D) error unit :=
  forM_ groups (λ g, forM_ (cg_ops g) replay_op).

(** [Fs::open] on the store of an image; [fuel] bounds the free-list chain. *)
Definition open_on (fuel : nat) (s : BlockStore D) : res (Fs D) :=
  '(sb, s) ← exec read_superblock s;
  let start := u64 (sb_journal_seq sb + 1) in
  groups ← scan_groups start (device s);
  next_seq ← next_seq_after_scan start (device s);
  let final_next_block_nr :=
    match last groups with Some g => jf_next_block_nr (cg_end g) | None => sb_next_block_nr sb end in
  let s := set_next_block_nr final_next_block_nr s in
  '(_, s) ← exec (if sb_free_head sb =? 0 then mret tt else load_free_list fuel (sb_free_head sb)) s;
  let t := reopen s (sb_root_block sb) (sb_next_bset_seq sb) in
  '(_, t) ← exec (replay_groups groups) t;
  let '(ino, snap, subvol, cur) :=
    match last groups with
    | Some g => let e := cg_end g in
        (jf_next_ino e, jf_next_snap_id e, jf_next_subvol_id e, jf_current_subvol e)
    | None => (sb_next_ino sb, sb_next_snap_id sb, sb_next_subvol_id sb, sb_current_subvol sb)
    end in
  Ok {| tree := t; next_ino := ino; next_snap_id := snap; next_subvol_id := subvol;
        current_subvol := cur; journal := true; next_journal_seq := next_seq;
        last_checkpoint_seq := sb_journal_seq sb |}.

(** ** POSIX-ish operations *)
Definition from_btree {A} (c : FM A) : FsM A := mapping_err BtreeErr c.
(** [opt.ok_or(e)?] *)
Definition ok_or {A} (e : FsError) (o : option A) : FsM A :=
  match o with Some a => mret a | None => throw e end.
Definition in_transaction {A} (f : XM A) : FM A := on_tree (transaction f).

Definition with_nlink (n : Z) (i : InodeV1) : InodeV1 :=
  {| i_mode := i_mode i; i_uid := i_uid i; i_gid := i_gid i; i_nlink := n; i_size := i_size i;
     i_atime := i_atime i; i_mtime := i_mtime i; i_ctime := i_ctime i; i_parent_ino := i_parent_ino i |}.

Definition unlink (parent : Z) (name : list byte) : FsM unit :=
  snap ← from_btree current_snap;
  chain ← from_btree current_chain;
  od ← from_btree (lookup_dirent parent name);
  dirent ← ok_or NotFound od;
  let target_ino := d_target_ino dirent in
  oi ← from_btree (get_inode target_ino);
  inode ← ok_or NotFound oi;
  dirent_k ← from_btree (lift (dirent_key parent name));
  let inode_k := inode_key target_ino in
  let orphan_k := deleted_inode_key target_ino snap in
  from_btree (in_transaction (
    _ ← tx_delete_at dirent_k snap chain;
    if i_nlink inode <=? 1 then
      _ ← tx_delete_at inode_k snap chain;
      tx_insert orphan_k ROOT_SNAP (deleted_as_bytes deleted_inode_new)
    else
      tx_insert inode_k snap (inode_as_bytes (with_nlink (i_nlink inode - 1) inode)))).

Definition rmdir (parent : Z) (name : list byte) : FsM unit :=
  snap ← from_btree current_snap;
  chain ← from_btree current_chain;
  od ← from_btree (lookup_dirent parent name);
  dirent ← ok_or NotFound od;
  if negb (d_kind dirent =? FILE_KIND_DIR) then throw NotADirectory else
  let target_ino := d_target_ino dirent in
  entries ← from_btree (list_dirents target_ino);
  if negb (length entries =? 0)%nat then throw NotEmpty else
  dirent_k ← from_btree (lift (dirent_key parent name));
  let inode_k := inode_key target_ino in
  from_btree (in_transaction (
    _ ← tx_delete_at dirent_k snap chain;
    _ ← tx_delete_at inode_k snap chain;
    mret tt)).

Definition rename (old_parent : Z) (old_name : list byte) (new_parent : Z) (new_name : list byte)
    : FsM unit :=
  snap ← from_btree current_snap;
  chain ← from_btree current_chain;
  os ← from_btree (lookup_dirent old_parent old_name);
  src_dirent ← ok_or NotFound os;
  od ← from_btree (lookup_dirent new_parent new_name);
  if bool_decide (is_Some od) then throw AlreadyExists else
  old_k ← from_btree (lift (dirent_key old_parent old_name));
  new_k ← from_btree (lift (dirent_key new_parent new_name));
  from_btree (in_transaction (
    _ ← tx_insert new_k snap (dirent_as_bytes src_dirent);
    _ ← tx_delete_at old_k snap chain;
    mret tt)).

(** ** Snapshots and subvolumes *)

(** [u32::checked_sub] and [u32::checked_add]. *)
Definition checked_sub (a b : Z) : option Z := if a <? b then None else Some (a - b).
Definition checked_add32 (a b : Z) : option Z := if U32_MAX <? a + b then None else Some (a + b).

Definition with_snap_id (s : Z) (v : SubvolV1) : SubvolV1 :=
  {| v_snap_id := s; v_flags := v_flags v; v_root_inode := v_root_inode v;
     v_parent_subvol := v_parent_subvol v; v_reserved := v_reserved v |}.

Definition snapshot_subvol (src : Z) : FsM Z :=
  o ← from_btree (get_subvol src);
  src_subvol ← ok_or NotFound o;
  let parent_snap := v_snap_id src_subvol in
  s_w ← gets next_snap_id;
  s_ro ← ok_or Exhausted (checked_sub s_w 1);
  next_snap ← ok_or Exhausted (checked_sub s_w 2);
  new_subvol_id ← gets next_subvol_id;
  next_subvol ← ok_or Exhausted (checked_add32 new_subvol_id 1);
  let snap_w := {| s_parent_id := parent_snap; s_flags := 0; s_reserved := zeros 16 |} in
  let snap_ro := {| s_parent_id := parent_snap; s_flags := 1; s_reserved := zeros 16 |} in
  let dst_subvol := {| v_snap_id := s_ro; v_flags := SUBVOL_FLAG_READONLY;
                       v_root_inode := v_root_inode src_subvol; v_parent_subvol := src;
                       v_reserved := zeros 12 |} in
  let updated_src := with_snap_id s_w src_subvol in
  _ ← from_btree (in_transaction (
    _ ← tx_insert (snapshot_key s_w) ROOT_SNAP (snapshot_as_bytes snap_w);
    _ ← tx_insert (snapshot_key s_ro) ROOT_SNAP (snapshot_as_bytes snap_ro);
    _ ← tx_insert (subvol_key src) ROOT_SNAP (subvol_as_bytes updated_src);
    tx_insert (subvol_key new_subvol_id) ROOT_SNAP (subvol_as_bytes dst_subvol)));
  _ ← modify (set_ids next_snap next_subvol);
  mret new_subvol_id.

Definition switch_subvol (id : Z) : FsM unit :=
  o ← from_btree (get_subvol id);
  match o with
  | None => throw NotFound
  | Some _ => modify (set_current_subvol id)
  end.

(** One round of the sweep: the snapshots no subvolume points at and no
    snapshot descends from. *)
Definition sweep_round (_ : unit) : FM (unit + unit) :=
  subvols ← list_subvols;
  let subvol_snaps : gset Z := list_to_set ((λ '(_, meta), v_snap_id meta) <$> subvols) in
  snapshots ← list_snapshots;
  let parent_ids : gset Z :=
    list_to_set (filter (λ p, p ≠ NO_PARENT_SNAP) ((λ '(_, meta), s_parent_id meta) <$> snapshots)) in
  let candidates :=
    filter (λ snap, snap ≠ ROOT_SNAP ∧ (snap ∉ subvol_snaps) ∧ (snap ∉ parent_ids)) (snapshots.*1) in
  if (length candidates =? 0)%nat then mret (inr tt) else
  _ ← in_transaction (forM_ candidates (λ snap,
        _ ← tx_delete_at (snapshot_key snap) ROOT_SNAP [ROOT_SNAP]; mret tt));
  _ ← forM_ candidates (λ snap, _ ← on_tree (drop_snapshot_keys snap); mret tt);
  mret (inl tt).
Definition sweep_unreferenced_snapshots : FsM unit :=
  from_btree (whileM SNAP_LOOP sweep_round tt).

(** [for (id, meta) in subvols { .. return Err(Busy) }]: whether some other
    subvolume depends on [dead_snap]. *)
Fixpoint subvol_in_use (subvol dead_snap : Z) (l : list (Z * SubvolV1)) : FM bool :=
  match l with
  | [] => mret false
  | (id, meta) :: l =>
      if id =? subvol then subvol_in_use subvol dead_snap l else
      if v_parent_subvol meta =? subvol then mret true else
      a ← is_ancestor dead_snap (v_snap_id meta);
      if a : bool then mret true else subvol_in_use subvol dead_snap l
  end.

Definition delete_snapshot (subvol : Z) : FsM unit :=
  if subvol =? ROOT_SUBVOL then throw Invalid else
  o ← from_btree (get_subvol subvol);
  target ← ok_or NotFound o;
  if Z.land (v_flags target) SUBVOL_FLAG_READONLY =? 0 then throw Invalid else
  cur ← gets current_subvol;
  if cur =? subvol then throw Busy else
  let dead_snap := v_snap_id target in
  if dead_snap =? ROOT_SNAP then throw Invalid else
  snapshots ← from_btree list_snapshots;
  if existsb (λ '(_, meta), s_parent_id meta =? dead_snap) snapshots then throw Busy else
  subvols ← from_btree list_subvols;
  busy ← from_btree (subvol_in_use subvol dead_snap subvols);
  if busy : bool then throw Busy else
  _ ← from_btree (in_transaction (
    _ ← tx_delete_at (snapshot_key dead_snap) ROOT_SNAP [ROOT_SNAP];
    _ ← tx_delete_at (subvol_key subvol) ROOT_SNAP [ROOT_SNAP];
    mret tt));
  _ ← from_btree (on_tree (drop_snapshot_keys dead_snap));
  sweep_unreferenced_snapshots.
End fs_ops.

(** [Fs::new], [Fs::create] and [Fs::open]. *)
Definition fs_new `{!Crc32} : res (Fs MemDevice) :=
  t ← btree_new;
  fs ← seed t ROOT_INO;
  Ok (set_journal false 0 fs).
Definition fs_create `{!Crc32} : res (Fs FileDevice) := create_on create_image.
Definition fs_open `{!Crc32} (fuel : nat) (image : FileDevice) : res (Fs FileDevice) :=
  open_on fuel (open_image image).
