(* ===== verification/FsSpec.v ===== *)
(** * FsSpec: the file system's metadata over the abstract map.

    The operations of [Fs] are specified against the map [amap] the tree stands
    for. [typed] is the format invariant of that map (every key has the shape of
    its kind and every live value the size of its struct), so that no
    [.expect("size mismatch")] of the code fires. [chain_from] is the ancestor
    chain of a snapshot; what a subvolume sees of a key is the first version on
    its chain. *)
From Stdlib Require Import Strings.Byte.
From stdpp Require Import base list numbers gmap sorting.
From S2P Require Import Prelude Device BlockBtree NodeRep Storage Heap Btree TreeRead TreeWrite BtreeSpec FsTypes Fs.
#[local] Open Scope rfs_scope.
#[local] Open Scope Z_scope.

(** ** The format of the map *)

(** Shortest and longest logical key of a kind, and the size of its values. *)
Definition layout (kind : Z) : option (nat * nat * nat) :=
  if kind =? KIND_INODE then Some (9, 9, 56)%nat
  else if kind =? KIND_DIRENT then Some (9, 28, 16)%nat
  else if kind =? KIND_EXTENT then Some (17, 17, 16)%nat
  else if kind =? KIND_SNAPSHOT then Some (5, 5, 24)%nat
  else if kind =? KIND_SUBVOL then Some (5, 5, 32)%nat
  else if kind =? KIND_DELETED_INODES then Some (13, 13, 16)%nat
  else None.

Definition row_typed (key : list byte) (r : row) : Prop :=
  match key with
  | [] => False
  | b :: _ =>
      match layout (b2z b) with
      | None => False
      | Some (lo, hi, size) =>
          (lo + 4 ≤ length key ≤ hi + 4)%nat ∧ (r.2 = Live → length r.1 = size)
      end
  end.
Definition typed (m : amap) : Prop := ∀ key r, m key = Some r → row_typed key r.

Lemma typed_put m key kind value :
  typed m → (length value ≤ MAX_VALUE_SIZE)%nat → row_typed key (value, kind) → typed (a_put key kind value m).
Proof.
  intros Hm Hl Hr k r. unfold a_put. case_decide; [|apply Hm]. subst k. intros [= <-]. by rewrite take_ge by done.
Qed.

Lemma row_typed_dead key r r' : row_typed key r → r'.2 ≠ Live → row_typed key r'.
Proof. unfold row_typed. destruct key as [|b key]; [done|]. destruct (layout _) as [[[lo hi] sz]|]; [|done]. by intros [? _] ?. Qed.

Lemma typed_delete m logical snap chain :
  typed m → row_typed (versioned logical snap) ([], Deleted) → typed (a_delete logical snap chain m).2.
Proof.
  intros Hm Hk. unfold a_delete. destruct (a_visible m logical chain) as [[v s]|]; [|done]. case_decide.
  - intros k r. cbn [snd]. unfold a_flip. case_decide; [|apply Hm]. destruct (m k) as [r0|] eqn:E; [|done].
    intros [= <-]. by eapply row_typed_dead; [by apply Hm|].
  - apply typed_put; [done|cbn; lia|]. by eapply row_typed_dead.
Qed.

(** ** Typed reads of the map *)

(** Parsing a value that is there. *)
Definition decoded {T} (parse : list byte → res T) (o : option (list byte)) : option T :=
  b ← o; match parse b with Ok v => Some v | _ => None end.

Definition a_snapshot (m : amap) (s : Z) : option SnapshotV1 :=
  decoded snapshot_from_bytes (a_find m (versioned (snapshot_key s) ROOT_SNAP)).
Definition a_subvol (m : amap) (id : Z) : option SubvolV1 :=
  decoded subvol_from_bytes (a_find m (versioned (subvol_key id) ROOT_SNAP)).
(** The value a chain sees at a logical key. *)
Definition seen (m : amap) (logical : list byte) (chain : list Z) : option (list byte) :=
  fst <$> a_visible m logical chain.

Definition a_inode (m : amap) (chain : list Z) (ino : Z) : option InodeV1 :=
  decoded inode_from_bytes (seen m (inode_key ino) chain).
Definition dirent_bytes (parent : Z) (name : list byte) : list byte :=
  z2b KIND_DIRENT :: to_be 8 parent ++ name.
Definition a_dirent (m : amap) (chain : list Z) (parent : Z) (name : list byte) : option DirentV1 :=
  decoded dirent_from_bytes (seen m (dirent_bytes parent name) chain).

(** The parent the ancestor walk follows; a link that does not go up ends it. *)
Definition a_parent (m : amap) (s : Z) : option Z :=
  meta ← a_snapshot m s;
  if (s_parent_id meta =? NO_PARENT_SNAP) || (s_parent_id meta <=? s) then None
  else Some (s_parent_id meta).

Inductive chain_from (m : amap) : Z → list Z → Prop :=
  | chain_top s : a_parent m s = None → chain_from m s [s]
  | chain_up s p l : a_parent m s = Some p → chain_from m p l → chain_from m s (s :: l).

Lemma chain_from_inj m s l l' : chain_from m s l → chain_from m s l' → l = l'.
Proof.
  intros H. revert l'. induction H as [s E|s p l E _ IH]; intros l' H'; inversion H'; subst; try congruence.
  f_equal. apply IH. congruence.
Qed.

(** A parsed struct has the widths of its fields. *)
Lemma field_width b off w : in_width (8 * Z.of_nat w) (field b off w).
Proof.
  unfold field. pose proof (from_le_range (take w (drop off b))) as [H1 H2]. split; [done|].
  eapply Z.lt_le_trans; [exact H2|]. apply Z.pow_le_mono_r; [lia|]. rewrite length_take. lia.
Qed.

Lemma sized_Ok n b : length b = n → sized n b = Ok b.
Proof. intros <-. unfold sized. by rewrite Nat.eqb_refl. Qed.
Lemma sized_inv n b b' : sized n b = Ok b' → b' = b ∧ length b = n.
Proof. unfold sized. destruct (Nat.eqb_spec (length b) n); cbn; [|done]. by intros [= <-]. Qed.

Lemma snapshot_parsed_wf b s : snapshot_from_bytes b = Ok s → snapshot_wf s.
Proof.
  intros (b' & [-> Hl]%sized_inv & E)%outcome_bind_Ok_inv. injection E as <-. unfold snapshot_wf. cbn.
  split_and!; [apply (field_width b 0 4)|apply (field_width b 4 4)|rewrite length_drop; lia].
Qed.
Lemma subvol_parsed_wf b v : subvol_from_bytes b = Ok v → subvol_wf v.
Proof.
  intros (b' & [-> Hl]%sized_inv & E)%outcome_bind_Ok_inv. injection E as <-. unfold subvol_wf. cbn.
  split_and!; [apply (field_width b 0 4)|apply (field_width b 4 4)|apply (field_width b 8 8)|apply (field_width b 16 4)
    |rewrite length_drop; lia].
Qed.

Lemma decoded_Some {T} (parse : list byte → res T) o v :
  decoded parse o = Some v → ∃ b, o = Some b ∧ parse b = Ok v.
Proof. destruct o as [b|]; [|done]. cbn. destruct (parse b) eqn:E; try done. intros [= <-]. eauto. Qed.

Lemma a_snapshot_wf m s meta : a_snapshot m s = Some meta → snapshot_wf meta.
Proof. intros (b & _ & Hb)%decoded_Some. by eapply snapshot_parsed_wf. Qed.
Lemma a_subvol_wf m id sv : a_subvol m id = Some sv → subvol_wf sv.
Proof. intros (b & _ & Hb)%decoded_Some. by eapply subvol_parsed_wf. Qed.

Lemma a_parent_up m s p : a_parent m s = Some p → s < p ∧ in_width 32 p.
Proof.
  unfold a_parent. destruct (a_snapshot m s) as [meta|] eqn:E; [|done]. cbn.
  destruct (Z.eqb_spec (s_parent_id meta) NO_PARENT_SNAP), (Z.leb_spec (s_parent_id meta) s); try done.
  intros [= <-]. split; [lia|]. apply (a_snapshot_wf _ _ _ E).
Qed.

Lemma chain_from_ok m s l : chain_from m s l → in_width 32 s → chain_ok l ∧ Forall (λ x, s ≤ x) l ∧ s ∈ l.
Proof.
  induction 1 as [s E|s p l E _ IH]; intros Hs.
  - split_and!; [split; repeat constructor; apply Hs|repeat constructor; lia|by left].
  - destruct (a_parent_up _ _ _ E) as [Hlt Hp]. destruct (IH Hp) as ((Ha & Hw) & Hle & _).
    assert (Forall (λ x, s < x) l) by (eapply Forall_impl; [exact Hle|]; intros; cbn in *; lia).
    split_and!; [split; by constructor| |by left]. constructor; [lia|].
    eapply Forall_impl; [eassumption|]. intros; cbn in *; lia.
Qed.

(** Every id has a chain: links go up and ids are 32 bits wide. *)
Lemma chain_exists m s : in_width 32 s → ∃ l, chain_from m s l.
Proof.
  intros Hs. remember (Z.to_nat (2 ^ 32 - s)) as k eqn:Hk. revert s Hs Hk.
  induction k as [k IH] using lt_wf_ind. intros s Hs ->. destruct (a_parent m s) as [p|] eqn:E.
  - destruct (a_parent_up _ _ _ E) as [Hlt Hp]. destruct (IH (Z.to_nat (2 ^ 32 - p))) with (s := p) as [l Hl]; try done.
    { unfold in_width in *. lia. }
    exists (s :: l). by econstructor.
  - exists [s]. by constructor.
Qed.

(** A live value has the size its kind prescribes. *)
Lemma typed_size m key v b rest lo hi size :
  typed m → m key = Some (v, Live) → key = b :: rest → layout (b2z b) = Some (lo, hi, size) → length v = size.
Proof. intros Hm Hk -> Hl. apply Hm in Hk. unfold row_typed in Hk. rewrite Hl in Hk. by apply Hk. Qed.

Lemma a_find_Some m k v : a_find m k = Some v → m k = Some (v, Live).
Proof. unfold a_find. destruct (m k) as [[? []]|]; try done. by intros [= <-]. Qed.

Lemma seen_Some m l chain v : seen m l chain = Some v → ∃ s, m (versioned l s) = Some (v, Live) ∧ s ∈ chain.
Proof.
  unfold seen. destruct (a_visible m l chain) as [[v' s]|] eqn:E; [|done]. intros [= <-].
  apply a_visible_Some in E. eauto.
Qed.

(** [reads m cur c a]: on any state that stands for [m] with active subvolume
    [cur], [c] returns [a] and changes nothing but caches. *)
Section fs_models.
Context {D : Type} `{!BlockDevice D} `{!BlockDeviceLaws D} `{!BlockDeviceTotal D} `{!Crc32} `{!Crc32Range}.
Implicit Types fs : Fs D.

Record fs_models fs (m : amap) (n : Z) : Prop := {
  fm_bt : bt_models (tree fs) m n;
  fm_typed : typed m;
}.
Record fs_quiet fs fs' : Prop := {
  fq_tree : fs' = set_tree (tree fs') fs;
  fq_log : same_log (tree fs) (tree fs');
}.

Lemma fs_quiet_refl fs : fs_quiet fs fs.
Proof. split; [by destruct fs|apply same_log_refl]. Qed.
Lemma fs_quiet_trans fs1 fs2 fs3 : fs_quiet fs1 fs2 → fs_quiet fs2 fs3 → fs_quiet fs1 fs3.
Proof.
  intros [E1 ?] [E2 ?]. split; [|by eapply same_log_trans]. rewrite E2, E1 at 1. done.
Qed.
Lemma fs_quiet_subvol fs fs' : fs_quiet fs fs' → current_subvol fs' = current_subvol fs.
Proof. intros [-> _]. done. Qed.

Definition reads {E A} (m : amap) (cur : Z) (c : M (Fs D) E A) (a : A) : Prop := ∀ fs n,
  fs_models fs m n → current_subvol fs = cur →
  ∃ fs', c fs = (Ok a, fs') ∧ fs_models fs' m n ∧ fs_quiet fs fs'.

Lemma reads_ret {E A} m cur (a : A) : reads (E := E) m cur (mret a) a.
Proof. intros fs n ? ?. exists fs. by split_and!; [|done|apply fs_quiet_refl]. Qed.

Lemma reads_bind {E A B} m cur (c : M (Fs D) E A) (k : A → M (Fs D) E B) a b :
  reads m cur c a → reads m cur (k a) b → reads m cur (c ≫= k) b.
Proof.
  intros Hc Hk fs n Hm Hcur. destruct (Hc fs n Hm Hcur) as (fs1 & E1 & Hm1 & Hq1).
  destruct (Hk fs1 n Hm1) as (fs2 & E2 & Hm2 & Hq2); [by rewrite (fs_quiet_subvol _ _ Hq1)|].
  exists fs2. rewrite (M_bind_ok _ _ _ _ _ E1). split_and!; [done|done|by eapply fs_quiet_trans].
Qed.

Lemma reads_lift {E A} m cur (c : outcome E A) a : c = Ok a → reads m cur (lift c) a.
Proof. intros ->. apply reads_ret. Qed.

Lemma reads_subvol {E} m cur : reads (E := E) m cur (gets current_subvol) cur.
Proof. intros fs n ? <-. exists fs. by split_and!; [|done|apply fs_quiet_refl]. Qed.

Lemma reads_expecting {A} m cur (c : M (Fs D) error A) a : reads m cur c a → reads m cur (expecting c) a.
Proof.
  intros Hc fs n Hm Hcur. destruct (Hc fs n Hm Hcur) as (fs1 & E1 & H1). exists fs1. unfold expecting. by rewrite E1.
Qed.

Lemma reads_from_btree {A} m cur (c : M (Fs D) error A) a : reads m cur c a → reads m cur (from_btree c) a.
Proof.
  intros Hc fs n Hm Hcur. destruct (Hc fs n Hm Hcur) as (fs1 & E1 & H1). exists fs1.
  unfold from_btree, mapping_err. by rewrite E1.
Qed.

Lemma reads_parsed {T} m cur (parse : list byte → res T) o :
  (∀ b, o = Some b → is_Some (decoded parse (Some b))) → reads m cur (parsed parse o) (decoded parse o).
Proof.
  intros Hp. destruct o as [b|]; cbn [parsed decoded]; [|apply reads_ret]. destruct (Hp b eq_refl) as [v Hv].
  cbn in *. destruct (parse b) as [v'|e| |]; try done. eapply reads_bind; [by apply reads_lift|apply reads_ret].
Qed.

(** Tree reads that keep the map are file-system reads. *)
Lemma reads_on_tree {A} m cur (c : M (Btree D) error A) a :
  (∀ bt n, bt_models bt m n → ∃ bt', c bt = (Ok a, bt') ∧ bt_models bt' m n ∧ same_log bt bt') →
  reads m cur (on_tree c) a.
Proof.
  intros Hc fs n [Hm Ht] Hcur. destruct (Hc (tree fs) n Hm) as (bt' & E & Hm' & Hl).
  exists (set_tree bt' fs). unfold on_tree, zoom. rewrite E. by split_and!.
Qed.
End fs_models.

(** ** Values of the right size parse *)
Ltac parses := intros Hl; cbn; rewrite (sized_Ok _ _ Hl); by eexists.
Lemma snapshot_parses b : length b = 24%nat → is_Some (decoded snapshot_from_bytes (Some b)).
Proof. unfold decoded, snapshot_from_bytes. parses. Qed.
Lemma subvol_parses b : length b = 32%nat → is_Some (decoded subvol_from_bytes (Some b)).
Proof. unfold decoded, subvol_from_bytes. parses. Qed.
Lemma inode_parses b : length b = 56%nat → is_Some (decoded inode_from_bytes (Some b)).
Proof. unfold decoded, inode_from_bytes. parses. Qed.
Lemma dirent_parses b : length b = 16%nat → is_Some (decoded dirent_from_bytes (Some b)).
Proof. unfold decoded, dirent_from_bytes. parses. Qed.

Lemma find_size m k s v b rest lo hi size :
  typed m → a_find m (versioned k s) = Some v → k = b :: rest → layout (b2z b) = Some (lo, hi, size) → length v = size.
Proof. intros Hm Hf%a_find_Some -> Hl. by eapply typed_size. Qed.
Lemma seen_size m k chain v b rest lo hi size :
  typed m → seen m k chain = Some v → k = b :: rest → layout (b2z b) = Some (lo, hi, size) → length v = size.
Proof. intros Hm (s & Hf & _)%seen_Some -> Hl. by eapply typed_size. Qed.

(** ** Metadata reads *)
Section fs_reads.
Context {D : Type} `{!BlockDevice D} `{!BlockDeviceLaws D} `{!BlockDeviceTotal D} `{!Crc32} `{!Crc32Range}.
Abbreviation reads := (reads (D := D)).
Implicit Types fs : Fs D.

Lemma get_snapshot_reads m cur s : typed m → reads m cur (get_snapshot s) (a_snapshot m s).
Proof using All.
  intros Hm. unfold get_snapshot, a_snapshot. eapply reads_bind.
  - apply reads_on_tree. intros bt n Hbt. apply find_at_ok; [done|]. cbn. consts. lia.
  - apply reads_parsed. intros b Hb. apply snapshot_parses. by eapply find_size.
Qed.

Lemma get_subvol_reads m cur id : typed m → reads m cur (get_subvol id) (a_subvol m id).
Proof using All.
  intros Hm. unfold get_subvol, a_subvol. eapply reads_bind.
  - apply reads_on_tree. intros bt n Hbt. apply find_at_ok; [done|]. cbn. consts. lia.
  - apply reads_parsed. intros b Hb. apply subvol_parses. by eapply find_size.
Qed.

(** One round of the ancestor walk, seen on the map. *)
Lemma ancestor_round_reads m cur chain s :
  typed m → reads m cur (ancestor_round (chain, s))
    (match a_parent m s with Some p => inl (chain ++ [p], p) | None => inr chain end).
Proof using All.
  intros Hm. unfold ancestor_round. eapply reads_bind; [by apply get_snapshot_reads|].
  unfold a_parent. destruct (a_snapshot m s) as [meta|]; cbn; [|apply reads_ret].
  destruct (s_parent_id meta =? NO_PARENT_SNAP), (s_parent_id meta <=? s); cbn; apply reads_ret.
Qed.

Lemma ancestor_rounds m cur s l fs n acc :
  typed m → chain_from m s l → in_width 32 s → fs_models fs m n → current_subvol fs = cur →
  ∃ k fs', rounds ancestor_round k (acc ++ [s], s) fs (acc ++ l) fs' ∧ Z.of_nat k ≤ 2 ^ 32 - s ∧
    fs_models fs' m n ∧ fs_quiet fs fs'.
Proof using All.
  intros Hm Hl. revert fs acc. induction Hl as [s E|s p l E _ IH]; intros fs acc Hs Hfs Hcur.
  - destruct (ancestor_round_reads m cur (acc ++ [s]) s Hm fs n Hfs Hcur) as (fs' & E' & Hfs' & Hq).
    rewrite E in E'. exists 1%nat, fs'. split_and!; [by constructor|unfold in_width in *; lia|done|done].
  - destruct (a_parent_up _ _ _ E) as [Hlt Hp].
    destruct (ancestor_round_reads m cur (acc ++ [s]) s Hm fs n Hfs Hcur) as (fs1 & E1 & Hfs1 & Hq1).
    rewrite E in E1. destruct (IH fs1 (acc ++ [s])) as (k & fs' & Hr & Hk & Hfs' & Hq'); [done|done| |].
    { by rewrite (fs_quiet_subvol _ _ Hq1). }
    exists (S k), fs'. replace (acc ++ s :: l) with ((acc ++ [s]) ++ l) by (by rewrite <- app_assoc).
    split_and!; [by econstructor|lia|done|by eapply fs_quiet_trans].
Qed.

Lemma ancestor_chain_reads m cur s l :
  typed m → chain_from m s l → in_width 32 s → reads m cur (ancestor_chain s) l.
Proof using All.
  intros Hm Hl Hs fs n Hfs Hcur.
  destruct (ancestor_rounds m cur s l fs n [] Hm Hl Hs Hfs Hcur) as (k & fs' & Hr & Hk & Hfs' & Hq).
  exists fs'. split_and!; [|done|done]. unfold ancestor_chain. eapply whileM_rounds; [exact Hr|].
  unfold SNAP_LOOP, in_width in *. change (2 ^ Z.of_nat 33) with (2 * 2 ^ 32). lia.
Qed.

(** *** The short-cut ancestor test *)
Lemma is_ancestor_round_reads m cur anc s :
  typed m → reads m cur (is_ancestor_round anc s)
    (if decide (s = anc) then inr true
     else match a_parent m s with Some p => inl p | None => inr false end).
Proof using All.
  intros Hm. unfold is_ancestor_round. destruct (Z.eqb_spec s anc); [rewrite decide_True by done; apply reads_ret|].
  rewrite decide_False by done. eapply reads_bind; [by apply get_snapshot_reads|].
  unfold a_parent. destruct (a_snapshot m s) as [meta|]; cbn; [|apply reads_ret].
  destruct (s_parent_id meta =? NO_PARENT_SNAP), (s_parent_id meta <=? s); cbn; apply reads_ret.
Qed.

Lemma is_ancestor_rounds m cur anc s l fs n :
  typed m → chain_from m s l → in_width 32 s → fs_models fs m n → current_subvol fs = cur →
  ∃ k fs', rounds (is_ancestor_round anc) k s fs (bool_decide (anc ∈ l)) fs' ∧ Z.of_nat k ≤ 2 ^ 32 - s ∧
    fs_models fs' m n ∧ fs_quiet fs fs'.
Proof using All.
  intros Hm Hl. revert fs. induction Hl as [s E|s p l E Hl IH]; intros fs Hs Hfs Hcur;
    destruct (is_ancestor_round_reads m cur anc s Hm fs n Hfs Hcur) as (fs1 & E1 & Hfs1 & Hq1);
    rewrite E in E1; case_decide as Hd.
  - exists 1%nat, fs1. rewrite bool_decide_eq_true_2 by (subst; by left).
    split_and!; [by constructor|unfold in_width in *; lia|done|done].
  - exists 1%nat, fs1. rewrite bool_decide_eq_false_2 by (by intros ->%list_elem_of_singleton).
    split_and!; [by constructor|unfold in_width in *; lia|done|done].
  - exists 1%nat, fs1. rewrite bool_decide_eq_true_2 by (subst; by left).
    split_and!; [by constructor|unfold in_width in *; lia|done|done].
  - destruct (a_parent_up _ _ _ E) as [Hlt Hp].
    destruct (IH fs1) as (k & fs' & Hr & Hk & Hfs' & Hq'); [done|done|by rewrite (fs_quiet_subvol _ _ Hq1)|].
    exists (S k), fs'. rewrite (bool_decide_ext (anc ∈ s :: l) (anc ∈ l)).
    + split_and!; [by econstructor|lia|done|by eapply fs_quiet_trans].
    + rewrite elem_of_cons. split; [by intros [->|?]|by right].
Qed.

Lemma is_ancestor_reads m cur anc s l :
  typed m → chain_from m s l → in_width 32 s → reads m cur (is_ancestor anc s) (bool_decide (anc ∈ l)).
Proof using All.
  intros Hm Hl Hs. unfold is_ancestor. destruct (Z.ltb_spec anc s).
  - destruct (chain_from_ok _ _ _ Hl Hs) as (_ & Hle & _). rewrite bool_decide_eq_false_2; [apply reads_ret|].
    intros Hin. rewrite Forall_forall in Hle. apply Hle in Hin. lia.
  - intros fs n Hfs Hcur.
    destruct (is_ancestor_rounds m cur anc s l fs n Hm Hl Hs Hfs Hcur) as (k & fs' & Hr & Hk & Hfs' & Hq).
    exists fs'. split_and!; [|done|done]. eapply whileM_rounds; [exact Hr|].
    unfold SNAP_LOOP, in_width in *. change (2 ^ Z.of_nat 33) with (2 * 2 ^ 32). lia.
Qed.
End fs_reads.

(** ** Operations as lists of writes *)
Definition wop_typed (o : wop) : Prop :=
  match o with
  | WPut key snap kind value => (length value ≤ MAX_VALUE_SIZE)%nat ∧ row_typed (versioned key snap) (value, kind)
  | WDel key snap _ => row_typed (versioned key snap) ([], Deleted)
  end.

(** A write that fits a key, a value and the layout of its kind. *)
Definition wop_good (o : wop) : Prop := wop_ok o ∧ wop_typed o.

Lemma a_wop_typed o m : typed m → wop_typed o → typed (a_wop o m).
Proof. destruct o; cbn; [|by intros; apply typed_delete]. intros ? [? ?]. by apply typed_put. Qed.
Lemma a_run_typed ops m : typed m → Forall wop_typed ops → typed (a_run ops m).
Proof.
  intros Hm Hops. revert m Hm. induction Hops as [|o ops Ho _ IH]; intros m Hm; cbn; [done|].
  apply IH. by apply a_wop_typed.
Qed.

Lemma a_run_app ops ops' m : a_run (ops ++ ops') m = a_run ops' (a_run ops m).
Proof. unfold a_run. by rewrite foldl_app. Qed.
Lemma log_of_app ops ops' m : log_of (ops ++ ops') m = log_of ops m ++ log_of ops' (a_run ops m).
Proof.
  revert m. induction ops as [|o ops IH]; intros m; cbn [app log_of]; [done|]. by rewrite IH, app_assoc.
Qed.

Section performs.
Context {D : Type} `{!BlockDevice D} `{!BlockDeviceLaws D} `{!BlockDeviceTotal D} `{!Crc32} `{!Crc32Range}.
Implicit Types fs : Fs D.

(** The log after [ops], when logging is on. *)
Definition log_after (bt : Btree D) (ops : list wop) (m : amap) : list LogRecord :=
  log bt ++ (if logging bt then log_of ops m else []).

(** A step of an open transaction that returns [a] after the writes [ops]. *)
Definition tx_does {A} (m : amap) (c : M (Tx D) error A) (a : A) (ops : list wop) : Prop := ∀ tx m0 n,
  tx_models tx m m0 (Z.of_nat (length ops) + n) → 0 ≤ n →
  ∃ tx', c tx = (Ok a, tx') ∧ tx_models tx' (a_run ops m) m0 n ∧
    log (tx_btree tx') = log_after (tx_btree tx) ops m ∧ kept (tx_btree tx) (tx_btree tx') ∧
    root_block (tx_btree tx') = root_block (tx_btree tx) ∧
    spread (store (tx_btree tx)) (pending_root tx) (store (tx_btree tx')) (pending_root tx') ∧ Forall wop_ok ops.

Lemma tx_does_ret {A} m (a : A) : tx_does m (mret a) a [].
Proof.
  intros tx m0 n Htx Hn. exists tx. unfold log_after. cbn. split_and!; [done|done| |apply kept_refl|done|apply spread_refl|constructor].
  destruct (logging (tx_btree tx)); by rewrite app_nil_r.
Qed.

Lemma tx_does_bind {A B} m (c : M (Tx D) error A) (k : A → M (Tx D) error B) a b ops ops' :
  tx_does m c a ops → tx_does (a_run ops m) (k a) b ops' → tx_does m (c ≫= k) b (ops ++ ops').
Proof.
  intros Hc Hk tx m0 n Htx Hn. rewrite length_app, Nat2Z.inj_add, <- Z.add_assoc in Htx.
  destruct (Hc tx m0 _ Htx) as (tx1 & E1 & Htx1 & L1 & G1 & R1 & P1 & O1); [lia|].
  destruct (Hk tx1 m0 n Htx1 Hn) as (tx2 & E2 & Htx2 & L2 & G2 & R2 & P2 & O2).
  exists tx2. rewrite (M_bind_ok _ _ _ _ _ E1), a_run_app. unfold log_after in *.
  split_and!; [done|done| |by eapply kept_trans|congruence|eapply spread_trans; [exact P1|exact P2|apply G1]|by apply Forall_app].
  rewrite L2, L1, (kp_logging _ _ G1), log_of_app.
  destruct (logging (tx_btree tx)); by rewrite ?app_nil_r, <- ?app_assoc.
Qed.

Lemma tx_insert_does m key snap kind value :
  wop_ok (WPut key snap kind value) →
  tx_does m (tx_insert_with_kind key snap kind value) tt [WPut key snap kind value].
Proof using All.
  intros Ho tx m0 n Htx Hn. destruct (tx_insert_ok tx m m0 n key snap kind value Htx Hn Ho) as (tx' & E & Htx' & L & G & R & P).
  exists tx'. split_and!; [done..|by apply Forall_singleton].
Qed.

Lemma tx_delete_does m key snap chain :
  wop_ok (WDel key snap chain) →
  tx_does m (tx_delete_at key snap chain) (a_delete key snap chain m).1 [WDel key snap chain].
Proof using All.
  intros [Hl Hc] tx m0 n Htx Hn. destruct (tx_delete_ok tx m m0 n key snap chain Htx Hn Hl Hc) as (tx' & E & Htx' & L & G & R & P).
  exists tx'. split_and!; [done|done| |done|done|done|by apply Forall_singleton]. unfold log_after. cbn. by rewrite app_nil_r.
Qed.

(** [ops] were written, and logged when logging is on. *)
Definition wrote fs (m : amap) (ops : list wop) fs' : Prop :=
  log (tree fs') = log_after (tree fs) ops m ∧ kept (tree fs) (tree fs') ∧ Forall wop_good ops.

Lemma wrote_nil fs m fs' : fs_quiet fs fs' → wrote fs m [] fs'.
Proof.
  intros [_ Hq]. split; [|by split; [apply same_log_kept|]]. unfold log_after. cbn.
  rewrite (sl_log _ _ Hq). destruct (logging (tree fs)); by rewrite app_nil_r.
Qed.
Lemma wrote_quiet fs1 fs2 fs3 m ops : fs_quiet fs1 fs2 → wrote fs2 m ops fs3 → wrote fs1 m ops fs3.
Proof.
  intros [_ Hq] (L & K & G). pose proof Hq as [L1 G1 _ _]. split; [|split; [by eapply kept_trans; [apply same_log_kept|]|done]].
  rewrite L. unfold log_after. by rewrite L1, G1.
Qed.
Lemma wrote_app fs1 fs2 fs3 m ops1 ops2 : wrote fs1 m ops1 fs2 → wrote fs2 (a_run ops1 m) ops2 fs3 → wrote fs1 m (ops1 ++ ops2) fs3.
Proof.
  intros (L1 & K1 & G1) (L2 & K2 & G2). split; [|split; [by eapply kept_trans|by apply Forall_app]].
  rewrite L2. unfold log_after in *. rewrite L1, (kp_logging _ _ K1), log_of_app.
  destruct (logging (tree fs1)); by rewrite ?app_nil_r, <- ?app_assoc.
Qed.

(** A file-system operation that returns [a] after the writes [ops], changing
    nothing else. *)
Definition performs {E A} (m : amap) (cur : Z) (c : M (Fs D) E A) (a : A) (ops : list wop) : Prop := ∀ fs n,
  fs_models fs m (Z.of_nat (length ops) + n) → 0 ≤ n → current_subvol fs = cur →
  ∃ fs', c fs = (Ok a, fs') ∧ fs_models fs' (a_run ops m) n ∧ fs' = set_tree (tree fs') fs ∧
    wrote fs m ops fs'.

(** An operation that is refused with [e] and changes nothing. *)
Definition refuses {E A} (m : amap) (cur : Z) (c : M (Fs D) E A) (e : E) : Prop := ∀ fs n,
  fs_models fs m n → current_subvol fs = cur →
  ∃ fs', c fs = (Err e, fs') ∧ fs_models fs' m n ∧ fs_quiet fs fs'.

Lemma reads_performs {E A B} m cur (c : M (Fs D) E A) (k : A → M (Fs D) E B) a b ops :
  reads m cur c a → performs m cur (k a) b ops → performs m cur (c ≫= k) b ops.
Proof.
  intros Hc Hk fs n Hm Hn Hcur. destruct (Hc fs _ Hm Hcur) as (fs1 & E1 & Hm1 & Hq1).
  destruct (Hk fs1 n Hm1 Hn) as (fs2 & E2 & Hm2 & T2 & W2); [by rewrite (fs_quiet_subvol _ _ Hq1)|].
  exists fs2. rewrite (M_bind_ok _ _ _ _ _ E1).
  split; [done|]. split; [done|]. split; [|by eapply wrote_quiet]. rewrite T2 at 1. by rewrite (fq_tree _ _ Hq1).
Qed.

Lemma reads_refuses {E A B} m cur (c : M (Fs D) E A) (k : A → M (Fs D) E B) a e :
  reads m cur c a → refuses m cur (k a) e → refuses m cur (c ≫= k) e.
Proof.
  intros Hc Hk fs n Hm Hcur. destruct (Hc fs n Hm Hcur) as (fs1 & E1 & Hm1 & Hq1).
  destruct (Hk fs1 n Hm1) as (fs2 & E2 & Hm2 & Hq2); [by rewrite (fs_quiet_subvol _ _ Hq1)|].
  exists fs2. rewrite (M_bind_ok _ _ _ _ _ E1). split_and!; [done|done|by eapply fs_quiet_trans].
Qed.

Lemma throw_refuses {E A} m cur (e : E) : refuses (A := A) m cur (throw e) e.
Proof. intros fs n ? ?. exists fs. by split_and!; [|done|apply fs_quiet_refl]. Qed.

Lemma performs_from_btree {A} m cur (c : M (Fs D) error A) a ops :
  performs m cur c a ops → performs m cur (from_btree c) a ops.
Proof.
  intros Hc fs n Hm Hn Hcur. destruct (Hc fs n Hm Hn Hcur) as (fs1 & E1 & H1). exists fs1.
  unfold from_btree, mapping_err. by rewrite E1.
Qed.

Lemma performs_insert m cur key snap kind value :
  wop_ok (WPut key snap kind value) → wop_typed (WPut key snap kind value) →
  performs m cur (on_tree (insert_with_kind key snap kind value)) tt [WPut key snap kind value].
Proof using All.
  intros Ho Ht fs n [Hm Hty] Hn Hcur.
  destruct (insert_with_kind_ok (tree fs) m n key snap kind value Hm Hn Ho) as (bt' & E & Hm' & L & G).
  exists (set_tree bt' fs). unfold on_tree, zoom. rewrite E. split_and!; [done|split; [done|]|done|split; [done|split; [done|by apply Forall_singleton]]].
  by apply (a_run_typed [_]); [|constructor].
Qed.

Lemma performs_delete m cur key snap chain :
  wop_ok (WDel key snap chain) → wop_typed (WDel key snap chain) →
  performs m cur (on_tree (delete_at key snap chain)) (a_delete key snap chain m).1 [WDel key snap chain].
Proof using All.
  intros [Hl Hc] Ht fs n [Hm Hty] Hn Hcur.
  destruct (delete_at_ok (tree fs) m n key snap chain Hm Hn Hl Hc) as (bt' & E & Hm' & L & G).
  exists (set_tree bt' fs). unfold on_tree, zoom. rewrite E. split_and!; [done|split; [done|]|done|split; [|split; [done|by apply Forall_singleton]]].
  - by apply (a_run_typed [_]); [|constructor].
  - cbn [set_tree tree]. rewrite L. unfold log_after, logged. cbn [log_of wop_record].
    destruct (delete_record m key snap chain) as [r|], (logging (tree fs)); cbn; by rewrite ?app_nil_r.
Qed.

(** A transaction performs the writes of its closure. *)
Lemma performs_transaction {A} m cur (f : M (Tx D) error A) a ops :
  tx_does m f a ops → Forall wop_typed ops → performs m cur (in_transaction f) a ops.
Proof.
  intros Hf Ht fs n [[Hm Hb] Hty] Hn Hcur. unfold in_transaction, on_tree, zoom, transaction.
  destruct (Hf {| tx_btree := tree fs; pending_root := root_block (tree fs) |} m n) as (tx' & E & [Hp Hba Hbu] & L & G & R & P & O);
    [by split|done|]. rewrite E. eexists. split; [done|].
  split_and!; [|done|split; [done|split; [by split; [apply G|apply G|exact P]|apply Forall_and; by split]]]. split; [by split|]. by apply a_run_typed.
Qed.
End performs.

(** ** What writes do to what chains see *)
Definition wop_key (o : wop) : list byte :=
  match o with WPut key _ _ _ => key | WDel key _ _ => key end.
Definition wop_snap (o : wop) : Z :=
  match o with WPut _ snap _ _ => snap | WDel _ snap _ => snap end.

(** A write touches one versioned key. *)
Lemma a_wop_other o m k : k ≠ versioned (wop_key o) (wop_snap o) → a_wop o m k = m k.
Proof.
  intros Hk. destruct o as [key snap kind v|key snap chain]; cbn in *; [unfold a_put; by rewrite decide_False|].
  unfold a_delete. destruct (a_visible m key chain) as [[v s]|]; [|done]. case_decide; cbn; [unfold a_flip|unfold a_put];
    by rewrite decide_False.
Qed.

Lemma a_visible_ext m m' k chain :
  (∀ s, s ∈ chain → m' (versioned k s) = m (versioned k s)) → a_visible m' k chain = a_visible m k chain.
Proof.
  induction chain as [|s chain IH]; intros Hm; cbn [a_visible]; [done|]. rewrite Hm by (by left).
  rewrite IH; [done|]. intros s' Hs'. apply Hm. by right.
Qed.

(** A write is invisible to other keys and to chains without its snapshot. *)
Definition untouched (o : wop) (k : list byte) (chain : list Z) : Prop :=
  in_width 32 (wop_snap o) ∧ (k ≠ wop_key o ∨ wop_snap o ∉ chain).

Lemma a_wop_visible o m k chain :
  Forall (in_width 32) chain → untouched o k chain → a_visible (a_wop o m) k chain = a_visible m k chain.
Proof.
  intros Hw [Ho Hu]. apply a_visible_ext. intros s Hs. apply a_wop_other. intros [-> ->]%versioned_inj;
    [by destruct Hu|rewrite Forall_forall in Hw; by apply Hw|done].
Qed.

Lemma a_run_visible ops m k chain :
  Forall (in_width 32) chain → Forall (λ o, untouched o k chain) ops → a_visible (a_run ops m) k chain = a_visible m k chain.
Proof.
  intros Hw Hops. revert m. induction Hops as [|o ops Ho _ IH]; intros m; [done|].
  change (a_run (o :: ops) m) with (a_run ops (a_wop o m)). rewrite IH. by apply a_wop_visible.
Qed.

Lemma a_run_seen ops m k chain :
  Forall (in_width 32) chain → Forall (λ o, untouched o k chain) ops → seen (a_run ops m) k chain = seen m k chain.
Proof. intros. unfold seen. by rewrite a_run_visible. Qed.

(** Metadata lives at [ROOT_SNAP]. *)
Lemma a_run_find ops m k s :
  in_width 32 s → Forall (λ o, untouched o k [s]) ops → a_find (a_run ops m) (versioned k s) = a_find m (versioned k s).
Proof.
  intros Hs Hops. unfold a_find. f_equal. revert m. induction Hops as [|o ops [Ho Hu] _ IH]; intros m; [done|].
  change (a_run (o :: ops) m) with (a_run ops (a_wop o m)). rewrite IH. rewrite a_wop_other; [done|]. intros [-> ->]%versioned_inj; [|done|done].
  destruct Hu as [Hu|Hu]; [done|]. apply Hu. by left.
Qed.

Lemma a_put_seen m k s l v :
  in_width 32 s → (length v ≤ MAX_VALUE_SIZE)%nat → seen (a_put (versioned k s) Live v m) k (s :: l) = Some v.
Proof. intros Hs Hv. unfold seen. cbn [a_visible]. unfold a_put at 1. rewrite decide_True by done. cbn. by rewrite take_ge. Qed.

(** Deleting at the head of a chain hides the key from the chain. *)
Lemma a_delete_seen m k s l : seen (a_delete k s (s :: l) m).2 k (s :: l) = None.
Proof.
  unfold seen, a_delete. destruct (a_visible m k (s :: l)) as [[v s']|] eqn:E; cbn [snd]; [|by rewrite E].
  case_decide; cbn [snd a_visible].
  - subst s'. apply a_visible_Some in E as [E _]. unfold a_flip. rewrite decide_True by done. by rewrite E.
  - unfold a_put. by rewrite decide_True.
Qed.

Lemma a_delete_true m k chain s : is_Some (seen m k chain) → (a_delete k s chain m).1 = true.
Proof. unfold seen, a_delete. destruct (a_visible m k chain) as [[v s']|]; [|by intros [? ?]]. by case_decide. Qed.

(** ** The view of a subvolume *)
Record view (m : amap) (cur s : Z) (l : list Z) : Prop := {
  vw_subvol : v_snap_id <$> a_subvol m cur = Some s;
  vw_chain : chain_from m s l;
}.

Lemma view_width m cur s l : view m cur s l → in_width 32 s.
Proof.
  intros [Hs _]. destruct (a_subvol m cur) as [sv|] eqn:E; [|done]. injection Hs as <-.
  apply a_subvol_wf in E. apply E.
Qed.
Lemma view_chain_ok m cur s l : view m cur s l → chain_ok l.
Proof. intros Hv. eapply chain_from_ok; [apply Hv|by eapply view_width]. Qed.
Lemma view_head m cur s l : view m cur s l → ∃ l', l = s :: l' ∧ s ∉ l'.
Proof.
  intros Hv. pose proof (view_chain_ok _ _ _ _ Hv) as [Ha _]. destruct Hv as [_ Hc].
  assert (∃ l', l = s :: l') as [l' ->] by (destruct Hc; eauto). exists l'. split; [done|].
  apply StronglySorted_inv in Ha as [_ Hf]. intros Hin. rewrite Forall_forall in Hf. apply Hf in Hin. lia.
Qed.
Lemma view_exists m cur : is_Some (a_subvol m cur) → ∃ s l, view m cur s l.
Proof.
  intros [sv E]. destruct (chain_exists m (v_snap_id sv)) as [l Hl]; [by apply (a_subvol_wf _ _ _ E)|].
  exists (v_snap_id sv), l. split; [by rewrite E|done].
Qed.

(** ** Keys of the kinds *)
Lemma length_inode_bytes i : length (inode_as_bytes i) = 56%nat.
Proof. unfold inode_as_bytes. by rewrite !length_app, !length_to_le. Qed.
Lemma length_dirent_bytes d : length (d_pad d) = 7%nat → length (dirent_as_bytes d) = 16%nat.
Proof. intros Hd. unfold dirent_as_bytes. by rewrite !length_app, !length_to_le, Hd. Qed.
Lemma length_snapshot_bytes s : length (s_reserved s) = 16%nat → length (snapshot_as_bytes s) = 24%nat.
Proof. intros Hd. unfold snapshot_as_bytes. by rewrite !length_app, !length_to_le, Hd. Qed.
Lemma length_subvol_bytes v : length (v_reserved v) = 12%nat → length (subvol_as_bytes v) = 32%nat.
Proof. intros Hd. unfold subvol_as_bytes. by rewrite !length_app, !length_to_le, Hd. Qed.

Lemma row_typed_intro b k s r lo hi size :
  layout (b2z b) = Some (lo, hi, size) → (lo ≤ S (length k) ≤ hi)%nat → (r.2 = Live → length r.1 = size) →
  row_typed (versioned (b :: k) s) r.
Proof.
  intros Hl Hk Hr. unfold row_typed, versioned. cbn [app]. rewrite Hl. split; [|done].
  cbn [length]. rewrite length_app, length_to_be. lia.
Qed.

Lemma dirent_key_ok parent name :
  (length name ≤ MAX_NAME_LEN)%nat → dirent_key parent name = Ok (dirent_bytes parent name).
Proof. intros Hl. unfold dirent_key. by rewrite (proj2 (Nat.leb_le _ _)). Qed.
Lemma length_dirent_key parent name : length (dirent_bytes parent name) = (9 + length name)%nat.
Proof. unfold dirent_bytes. cbn [length]. rewrite length_app, length_to_be. lia. Qed.

(** The writes of the metadata operations. *)
Lemma inode_wop_typed ino s i : wop_typed (WPut (inode_key ino) s Live (inode_as_bytes i)).
Proof.
  split; [rewrite length_inode_bytes; consts; lia|].
  eapply row_typed_intro; [reflexivity|rewrite length_to_be; lia|]. intros _. apply length_inode_bytes.
Qed.
Lemma inode_del_typed ino s l : wop_typed (WDel (inode_key ino) s l).
Proof. eapply row_typed_intro; [reflexivity|rewrite length_to_be; lia|done]. Qed.
Lemma dirent_wop_typed parent name s d :
  (length name ≤ MAX_NAME_LEN)%nat → length (d_pad d) = 7%nat →
  wop_typed (WPut (dirent_bytes parent name) s Live (dirent_as_bytes d)).
Proof.
  intros Hn Hd. split; [rewrite length_dirent_bytes by done; consts; lia|].
  eapply row_typed_intro; [reflexivity| |intros _; by apply length_dirent_bytes].
  rewrite length_app, length_to_be. unfold MAX_NAME_LEN, DIRENT_PREFIX_LEN in Hn. revert Hn. consts. lia.
Qed.
Lemma dirent_del_typed parent name s l :
  (length name ≤ MAX_NAME_LEN)%nat → wop_typed (WDel (dirent_bytes parent name) s l).
Proof.
  intros Hn. eapply row_typed_intro; [reflexivity| |done].
  rewrite length_app, length_to_be. unfold MAX_NAME_LEN, DIRENT_PREFIX_LEN in Hn. revert Hn. consts. lia.
Qed.
Lemma orphan_wop_typed ino s o :
  length (o_pad o) = 8%nat → wop_typed (WPut (deleted_inode_key ino s) ROOT_SNAP Live (deleted_as_bytes o)).
Proof.
  intros Ho. assert (length (deleted_as_bytes o) = 16%nat) as El
    by (unfold deleted_as_bytes; by rewrite length_app, length_to_le, Ho).
  split; [rewrite El; consts; lia|].
  eapply row_typed_intro; [reflexivity|rewrite length_app, !length_to_be; lia|done].
Qed.
Lemma snapshot_wop_typed s sv :
  length (s_reserved sv) = 16%nat → wop_typed (WPut (snapshot_key s) ROOT_SNAP Live (snapshot_as_bytes sv)).
Proof.
  intros Hs. split; [rewrite length_snapshot_bytes by done; consts; lia|].
  eapply row_typed_intro; [reflexivity|rewrite length_to_be; lia|]. intros _. by apply length_snapshot_bytes.
Qed.
Lemma subvol_wop_typed id v :
  length (v_reserved v) = 12%nat → wop_typed (WPut (subvol_key id) ROOT_SNAP Live (subvol_as_bytes v)).
Proof.
  intros Hs. split; [rewrite length_subvol_bytes by done; consts; lia|].
  eapply row_typed_intro; [reflexivity|rewrite length_to_be; lia|]. intros _. by apply length_subvol_bytes.
Qed.
