(* ===== verification/FsOps.v ===== *)
(** * FsOps: the operations of the file system on the abstract map (src/fs.rs).

    Each operation is shown to be refused, or to perform a list of tree writes
    and nothing else. What a subvolume sees before and after follows from those
    writes. *)
From Stdlib Require Import Strings.Byte.
From stdpp Require Import base list numbers gmap sorting.
From S2P Require Import Prelude Device BlockBtree NodeRep Storage Journal StoreSpec Heap Btree TreeRead TreeWrite BtreeSpec ScanSpec FsTypes Fs FsSpec.
#[local] Open Scope rfs_scope.
#[local] Open Scope Z_scope.

Section ops.
Context {D : Type} `{!BlockDevice D} `{!BlockDeviceLaws D} `{!BlockDeviceTotal D} `{!Crc32} `{!Crc32Range}.
Abbreviation reads := (reads (D := D)).
Abbreviation performs := (performs (D := D)).
Abbreviation refuses := (refuses (D := D)).
Implicit Types fs : Fs D.

(** ** Reads at the active subvolume *)
Lemma current_snap_reads m cur s l : typed m → view m cur s l → reads m cur current_snap s.
Proof using All.
  intros Hm [Hs _]. destruct (a_subvol m cur) as [sv|] eqn:E; [|done]. injection Hs as <-. unfold current_snap.
  eapply reads_bind; [apply reads_subvol|]. eapply reads_bind; [by apply reads_expecting, get_subvol_reads|].
  rewrite E. eapply reads_bind; [by apply reads_lift|]. apply reads_ret.
Qed.

Lemma current_chain_reads m cur s l : typed m → view m cur s l → reads m cur current_chain l.
Proof using All.
  intros Hm Hv. unfold current_chain. eapply reads_bind; [by eapply current_snap_reads|].
  apply ancestor_chain_reads; [done|apply Hv|by eapply view_width].
Qed.

Lemma seen_reads m cur k l :
  (length k ≤ MAX_LOGICAL_KEY_SIZE)%nat → chain_ok l → reads m cur (on_tree (btree_find_visible k l)) (seen m k l).
Proof using All. intros Hk Hl. apply reads_on_tree. intros bt n Hbt. by apply btree_find_visible_value_ok. Qed.

Lemma get_inode_reads m cur s l ino : typed m → view m cur s l → reads m cur (get_inode ino) (a_inode m l ino).
Proof using All.
  intros Hm Hv. unfold get_inode, a_inode. eapply reads_bind; [by eapply current_chain_reads|].
  eapply reads_bind; [apply seen_reads; [cbn; consts; lia|by eapply view_chain_ok]|].
  apply reads_parsed. intros b Hb. apply inode_parses. by eapply seen_size.
Qed.

Lemma lookup_dirent_reads m cur s l parent name :
  typed m → view m cur s l → (length name ≤ MAX_NAME_LEN)%nat →
  reads m cur (lookup_dirent parent name) (a_dirent m l parent name).
Proof using All.
  intros Hm Hv Hn. unfold lookup_dirent, a_dirent. eapply reads_bind; [by eapply current_chain_reads|].
  eapply reads_bind; [apply reads_lift; by apply dirent_key_ok|].
  eapply reads_bind; [apply seen_reads; [|by eapply view_chain_ok]|].
  { rewrite length_dirent_key. unfold MAX_NAME_LEN, DIRENT_PREFIX_LEN in Hn. revert Hn. consts. lia. }
  apply reads_parsed. intros b Hb. apply dirent_parses. by eapply seen_size.
Qed.

(** ** Point writes *)
Lemma put_inode_performs m cur s l ino i :
  typed m → view m cur s l →
  performs m cur (put_inode ino i) tt [WPut (inode_key ino) s Live (inode_as_bytes i)].
Proof using All.
  intros Hm Hv. unfold put_inode. eapply reads_performs; [by eapply current_snap_reads|].
  apply performs_insert; [cbn; consts; lia|apply inode_wop_typed].
Qed.

Lemma name_wop_ok parent name s kind v : (length name ≤ MAX_NAME_LEN)%nat → wop_ok (WPut (dirent_bytes parent name) s kind v).
Proof. intros Hn. cbn [wop_ok]. rewrite length_dirent_key. unfold MAX_NAME_LEN, DIRENT_PREFIX_LEN in Hn. revert Hn. consts. lia. Qed.
Lemma name_del_ok parent name s l : (length name ≤ MAX_NAME_LEN)%nat → chain_ok l → wop_ok (WDel (dirent_bytes parent name) s l).
Proof. intros Hn Hl. split; [|done]. exact (name_wop_ok parent name s Live [] Hn). Qed.
Lemma inode_del_ok ino s l : chain_ok l → wop_ok (WDel (inode_key ino) s l).
Proof. intros Hl. split; [|done]. cbn. consts. lia. Qed.

Lemma put_dirent_performs m cur s l parent name d :
  typed m → view m cur s l → (length name ≤ MAX_NAME_LEN)%nat → length (d_pad d) = 7%nat →
  performs m cur (put_dirent parent name d) tt [WPut (dirent_bytes parent name) s Live (dirent_as_bytes d)].
Proof using All.
  intros Hm Hv Hn Hd. unfold put_dirent. eapply reads_performs; [by eapply current_snap_reads|].
  eapply reads_performs; [apply reads_lift; by apply dirent_key_ok|].
  apply performs_insert; [by apply name_wop_ok|by apply dirent_wop_typed].
Qed.

(** ** Transactions of the POSIX-ish operations *)
Lemma dirent_parsed_pad b d : dirent_from_bytes b = Ok d → length (d_pad d) = 7%nat.
Proof.
  intros (b' & [-> Hl]%sized_inv & E)%outcome_bind_Ok_inv. injection E as <-. cbn. rewrite length_drop. lia.
Qed.
Lemma a_dirent_pad m l parent name d : a_dirent m l parent name = Some d → length (d_pad d) = 7%nat.
Proof. intros (b & _ & Hb)%decoded_Some. by eapply dirent_parsed_pad. Qed.

(** *** Scans whose result is described, not computed *)
Definition reads_some {E A} (m : amap) (cur : Z) (c : M (Fs D) E A) (P : A → Prop) : Prop := ∀ fs n,
  fs_models fs m n → current_subvol fs = cur →
  ∃ a fs', c fs = (Ok a, fs') ∧ P a ∧ fs_models fs' m n ∧ fs_quiet fs fs'.

Lemma reads_reads_some {E A B} m cur (c : M (Fs D) E A) (k : A → M (Fs D) E B) a P :
  reads m cur c a → reads_some m cur (k a) P → reads_some m cur (c ≫= k) P.
Proof.
  intros Hc Hk fs n Hm Hcur. destruct (Hc fs n Hm Hcur) as (fs1 & E1 & Hm1 & Hq1).
  destruct (Hk fs1 n Hm1) as (b & fs2 & E2 & HP & Hm2 & Hq2); [by rewrite (fs_quiet_subvol _ _ Hq1)|].
  exists b, fs2. rewrite (M_bind_ok _ _ _ _ _ E1). split_and!; [done|done|done|by eapply fs_quiet_trans].
Qed.

Lemma reads_some_bind {E A B} m cur (c : M (Fs D) E A) (k : A → M (Fs D) E B) P Q :
  reads_some m cur c P → (∀ a, P a → reads_some m cur (k a) Q) → reads_some m cur (c ≫= k) Q.
Proof.
  intros Hc Hk fs n Hm Hcur. destruct (Hc fs n Hm Hcur) as (a & fs1 & E1 & HP & Hm1 & Hq1).
  destruct (Hk a HP fs1 n Hm1) as (b & fs2 & E2 & HQ & Hm2 & Hq2); [by rewrite (fs_quiet_subvol _ _ Hq1)|].
  exists b, fs2. rewrite (M_bind_ok _ _ _ _ _ E1). split_and!; [done|done|done|by eapply fs_quiet_trans].
Qed.

Lemma reads_some_weaken {E A} m cur (c : M (Fs D) E A) a (P : A → Prop) :
  reads m cur c a → P a → reads_some m cur c P.
Proof. intros Hc HP fs n Hm Hcur. destruct (Hc fs n Hm Hcur) as (fs1 & ?). by exists a, fs1; destruct_and!. Qed.

Lemma reads_some_from_btree {A} m cur (c : M (Fs D) error A) P :
  reads_some m cur c P → reads_some m cur (from_btree c) P.
Proof.
  intros Hc fs n Hm Hcur. destruct (Hc fs n Hm Hcur) as (a & fs1 & E1 & H1). exists a, fs1.
  unfold from_btree, mapping_err. by rewrite E1.
Qed.

Lemma reads_some_performs {E A B} m cur (c : M (Fs D) E A) (k : A → M (Fs D) E B) P b ops :
  reads_some m cur c P → (∀ a, P a → performs m cur (k a) b ops) → performs m cur (c ≫= k) b ops.
Proof.
  intros Hc Hk fs n Hm Hn Hcur. destruct (Hc fs _ Hm Hcur) as (a & fs1 & E1 & HP & Hm1 & Hq1).
  destruct (Hk a HP fs1 n Hm1 Hn) as (fs2 & E2 & Hm2 & T2 & W2); [by rewrite (fs_quiet_subvol _ _ Hq1)|].
  exists fs2. rewrite (M_bind_ok _ _ _ _ _ E1).
  split; [done|]. split; [done|]. split; [|by eapply wrote_quiet]. rewrite T2 at 1. by rewrite (fq_tree _ _ Hq1).
Qed.

Lemma reads_some_refuses {E A B} m cur (c : M (Fs D) E A) (k : A → M (Fs D) E B) P e :
  reads_some m cur c P → (∀ a, P a → refuses m cur (k a) e) → refuses m cur (c ≫= k) e.
Proof.
  intros Hc Hk fs n Hm Hcur. destruct (Hc fs n Hm Hcur) as (a & fs1 & E1 & HP & Hm1 & Hq1).
  destruct (Hk a HP fs1 n Hm1) as (fs2 & E2 & Hm2 & Hq2); [by rewrite (fs_quiet_subvol _ _ Hq1)|].
  exists fs2. rewrite (M_bind_ok _ _ _ _ _ E1). split_and!; [done|done|by eapply fs_quiet_trans].
Qed.

Lemma reads_some_on_tree {A} m cur (c : M (Btree D) error A) P :
  (∀ bt n, bt_models bt m n → ∃ bt' a, c bt = (Ok a, bt') ∧ bt_models bt' m n ∧ same_log bt bt' ∧ P a) →
  reads_some m cur (on_tree c) P.
Proof.
  intros Hc fs n [Hm Ht] Hcur. destruct (Hc (tree fs) n Hm) as (bt' & a & E & Hm' & Hl & HP).
  exists a, (set_tree bt' fs). unfold on_tree, zoom. rewrite E. by split_and!.
Qed.

(** A range between two keys of one kind holds keys of that kind. *)
Lemma range_kind b x y c z : scanned (b :: x) (b :: y) (c :: z) → c = b.
Proof.
  unfold scanned, bytes_lt. cbn [bytes_cmp]. intros [H1 H2].
  destruct (Z.compare_spec (b2z c) (b2z b)) as [E| |]; [|by destruct H1|done].
  by rewrite <- (z2b_b2z c), <- (z2b_b2z b), E.
Qed.

Lemma dirent_range_keys m parent k s :
  typed m → in_width 32 s → is_Some (m (versioned k s)) →
  scanned (versioned (dirent_range parent).1 0) (versioned (dirent_range parent).2 0) (versioned k s) →
  ∃ k', k = z2b KIND_DIRENT :: k' ∧ (9 ≤ length k ≤ 28)%nat ∧ ∀ v, m (versioned k s) = Some (v, Live) → length v = 16%nat.
Proof.
  intros Hm Hs [r Hr] Hsc. pose proof (Hm _ _ Hr) as Ht. unfold row_typed in Ht.
  destruct (versioned k s) as [|c z] eqn:E; [done|]. unfold dirent_range, versioned in Hsc. cbn [fst snd app] in Hsc.
  apply range_kind in Hsc as ->. change (layout (b2z (z2b KIND_DIRENT))) with (Some (9, 28, 16)%nat) in Ht. cbn beta iota in Ht.
  rewrite <- E in Ht. unfold versioned in Ht. rewrite length_app, length_to_be in Ht.
  destruct k as [|c k]; [cbn in Ht; lia|]. injection E as -> _. exists k. split_and!; [done|lia|lia|].
  intros v Hv. destruct Ht as [_ Ht]. assert (r = (v, Live)) as -> by congruence. by apply Ht.
Qed.

Lemma dirent_whole_keys m parent : typed m → whole_keys m (versioned (dirent_range parent).1 0) (versioned (dirent_range parent).2 0).
Proof.
  intros Hm. apply long_whole_keys. intros k s Hs Hk Hsc.
  destruct (dirent_range_keys m parent k s Hm Hs Hk Hsc) as (k' & -> & Hl & _).
  cbn [dirent_range fst snd length] in *. rewrite !length_to_be. lia.
Qed.

(** Every entry of a directory lies in its range. *)
Lemma dirent_scanned parent name s :
  in_width 64 parent → parent < U64_MAX →
  scanned (versioned (dirent_range parent).1 0) (versioned (dirent_range parent).2 0) (versioned (dirent_bytes parent name) s).
Proof.
  intros Hp Hmax. destruct (proj2 (dirent_in_range parent parent name s Hp Hp Hmax) eq_refl) as [H1 H2].
  split; [|by apply bytes_ltb_true]. intros Hlt%bytes_ltb_true. unfold dirent_bytes in Hlt. congruence.
Qed.

Lemma dirent_name_of_bytes parent name : dirent_name_from_key (dirent_bytes parent name) = Ok name.
Proof.
  unfold dirent_name_from_key, dirent_bytes. rewrite app_comm_cons. rewrite <- (app_nil_r name) at 1. apply slice_app.
  - cbn [length]. by rewrite length_to_be.
  - rewrite length_app. done.
Qed.

Definition parse_dirent '((k, v) : list byte * list byte) : res (list byte * DirentV1) :=
  name ← dirent_name_from_key k; d ← dirent_from_bytes v; Ok (name, d).

(** A scanned row and the entry it parses to. *)
Definition dirent_of (parent : Z) (kv : list byte * list byte) (e : list byte * DirentV1) : Prop :=
  kv.1 = dirent_bytes parent e.1 ∧ dirent_from_bytes kv.2 = Ok e.2.

(** Rows stored in a directory's range are its entries, and they parse. *)
Lemma parse_dirent_ok m parent k v s :
  typed m → in_width 64 parent → parent < U64_MAX → in_width 32 s → m (versioned k s) = Some (v, Live) →
  scanned (versioned (dirent_range parent).1 0) (versioned (dirent_range parent).2 0) (versioned k s) →
  ∃ e, parse_dirent (k, v) = Ok e ∧ dirent_of parent (k, v) e.
Proof.
  intros Hm Hp Hmax Hs Hst Hsc. destruct (dirent_range_keys m parent k s Hm Hs ltac:(by eexists) Hsc) as (k' & -> & [Hlk _] & Hlv).
  cbn [length] in Hlk. specialize (Hlv v Hst).
  assert (to_be 8 (from_be (take 8 k')) = take 8 k') as Eb by (apply to_from_be_len; rewrite length_take; lia).
  assert (in_width 64 (from_be (take 8 k'))) as Hw.
  { pose proof (from_be_range (take 8 k')) as Hr. rewrite length_take_le in Hr by lia. exact Hr. }
  assert (from_be (take 8 k') = parent) as Ep.
  { apply (dirent_in_range parent _ (drop 8 k') s Hp Hw Hmax). rewrite Eb, take_drop.
    destruct Hsc as [H1 H2]. split; [by apply bytes_ltb_false|by apply bytes_ltb_true]. }
  assert (z2b KIND_DIRENT :: k' = dirent_bytes parent (drop 8 k')) as Ek
    by (unfold dirent_bytes; by rewrite <- Ep, Eb, take_drop).
  destruct (dirent_parses v Hlv) as [d Hd]. cbn in Hd. destruct (dirent_from_bytes v) as [d'| | |] eqn:Ed; try done.
  exists (drop 8 k', d'). unfold parse_dirent, dirent_of. cbn [fst snd]. rewrite Ek, dirent_name_of_bytes. mred.
  rewrite Ed. by mred.
Qed.

Lemma parse_dirents_ok m parent out :
  typed m → in_width 64 parent → parent < U64_MAX →
  (∀ k v, (k, v) ∈ out → ∃ s, in_width 32 s ∧ m (versioned k s) = Some (v, Live) ∧
     scanned (versioned (dirent_range parent).1 0) (versioned (dirent_range parent).2 0) (versioned k s)) →
  ∃ es, mapM parse_dirent out = Ok es ∧ Forall2 (dirent_of parent) out es.
Proof.
  intros Hm Hp Hmax Hout.
  assert (∀ x, x ∈ out → ∃ e, parse_dirent x = Ok e ∧ dirent_of parent x e) as Hall.
  { intros [k v] Hin. destruct (Hout k v Hin) as (s & Hs & Hst & Hsc). by eapply parse_dirent_ok. }
  destruct (mapM_ok parse_dirent out) as (es & E & Hes); [intros x Hx; destruct (Hall x Hx) as (e & ? & _); eauto|].
  exists es. split; [done|]. apply Forall2_same_length_lookup_2; [by eapply Forall2_length|].
  intros i x e Hx He. destruct (Hall x) as (e' & E1 & Hd); [by eapply list_elem_of_lookup_2|].
  pose proof (Forall2_lookup_lr _ _ _ _ _ _ Hes Hx He) as E2. congruence.
Qed.

Lemma dirent_range_bounds parent :
  (length (dirent_range parent).1 ≤ MAX_LOGICAL_KEY_SIZE ∧ length (dirent_range parent).2 ≤ MAX_LOGICAL_KEY_SIZE)%nat.
Proof. cbn [dirent_range fst snd length]. rewrite !length_to_be. consts. lia. Qed.

(** Every entry the chain sees is listed. *)
Definition dirents_cover (m : amap) (l : list Z) (parent : Z) (es : list (list byte * DirentV1)) : Prop :=
  ∀ name d, a_dirent m l parent name = Some d → (name, d) ∈ es.
(** Exactly the entries the chain sees are listed. *)
Definition dirents_exact (m : amap) (l : list Z) (parent : Z) (es : list (list byte * DirentV1)) : Prop :=
  ∀ name d, (name, d) ∈ es ↔ a_dirent m l parent name = Some d.

Lemma a_dirent_visible m l parent name d :
  a_dirent m l parent name = Some d →
  ∃ v s, a_visible m (dirent_bytes parent name) l = Some (v, s) ∧ dirent_from_bytes v = Ok d.
Proof.
  intros (v & Hse & Hparse)%decoded_Some. unfold seen in Hse.
  destruct (a_visible m (dirent_bytes parent name) l) as [[v' s']|] eqn:Ev; [|done]. injection Hse as ->. eauto.
Qed.

Section list_dirents.
Context (m : amap) (cur s : Z) (l : list Z) (parent : Z).
Context (Hm : typed m) (Hv : view m cur s l) (Hp : in_width 64 parent) (Hmax : parent < U64_MAX).
Abbreviation rstart := (dirent_range parent).1.
Abbreviation rstop := (dirent_range parent).2.

Lemma listed_row out es name v d :
  Forall2 (dirent_of parent) out es → (dirent_bytes parent name, v) ∈ out → dirent_from_bytes v = Ok d → (name, d) ∈ es.
Proof using Type.
  intros Hes [i Hi]%list_elem_of_lookup Hd. destruct (Forall2_lookup_l _ _ _ _ _ Hes Hi) as ([name' d'] & Hi' & Hk & Hd').
  cbn in Hk, Hd'. injection Hk as <-.
  assert (d' = d) as -> by congruence. by eapply list_elem_of_lookup_2.
Qed.

Lemma list_dirents_cover : reads_some m cur (list_dirents parent) (dirents_cover m l parent).
Proof using All.
  unfold list_dirents. eapply reads_reads_some; [by eapply current_chain_reads|].
  rewrite (surjective_pairing (dirent_range parent)). destruct (dirent_range_bounds parent) as [Hl1 Hl2].
  eapply reads_some_bind.
  { apply reads_some_on_tree. intros bt n Hbt.
    destruct (visible_scan_cover bt m n rstart rstop l Hbt Hl1 Hl2 (view_chain_ok _ _ _ _ Hv) (dirent_whole_keys m parent Hm))
      as (bt' & out & ? & ? & ? & Hco).
    exists bt', out. split_and!; [done|done|done|exact Hco]. }
  intros out Hco. destruct (parse_dirents_ok m parent out Hm Hp Hmax (vc_sound _ _ _ _ _ Hco)) as (es & Ees & Hes).
  apply reads_some_weaken with es; [by apply reads_lift|].
  intros name d (v & s' & Hvis & Hd)%a_dirent_visible. eapply listed_row; [done| |done].
  apply (vc_complete _ _ _ _ _ Hco _ s'); [done|by apply dirent_scanned].
Qed.

Lemma list_dirents_exact :
  nothing_between m (versioned rstart 0) (versioned rstop 0) →
  reads_some m cur (list_dirents parent) (dirents_exact m l parent).
Proof using All.
  intros Hnb. unfold list_dirents. eapply reads_reads_some; [by eapply current_chain_reads|].
  rewrite (surjective_pairing (dirent_range parent)). destruct (dirent_range_bounds parent) as [Hl1 Hl2].
  pose proof (view_chain_ok _ _ _ _ Hv) as Hc.
  eapply (reads_some_bind _ _ _ _ (λ kvs, ∃ out, kvs = (λ '(k, _, v), (k, v)) <$> out ∧ visible_list m l rstart rstop out)).
  { apply reads_some_on_tree. intros bt n Hbt.
    destruct (visible_scan_ok bt m n rstart rstop l Hbt Hl1 Hl2 Hc Hnb (dirent_whole_keys m parent Hm))
      as (bt' & out & _ & ? & ? & ? & Hvl).
    eexists bt', _. split_and!; [done|done|done|]. by exists out. }
  intros kvs (out & -> & [_ Hx]). destruct Hc as [_ Hw]. rewrite Forall_forall in Hw.
  destruct (parse_dirents_ok m parent ((λ '(k, _, v), (k, v)) <$> out) Hm Hp Hmax) as (es & Ees & Hes).
  { intros k v ([[k' s'] v'] & [= -> ->] & Hin)%list_elem_of_fmap. apply Hx in Hin as [Hvis Hsc].
    apply a_visible_Some in Hvis as [Hst Hin]. exists s'. split_and!; [by apply Hw|done|done]. }
  apply reads_some_weaken with es; [by apply reads_lift|]. intros name d. split.
  - intros [i Hi]%list_elem_of_lookup. destruct (Forall2_lookup_r _ _ _ _ _ Hes Hi) as ([k v] & Hkv & Hk & Hd). cbn in Hk, Hd. subst k.
    apply list_elem_of_lookup_2, list_elem_of_fmap in Hkv as ([[k' s'] v'] & [= <- <-] & Hin). apply Hx in Hin as [Hvis _].
    unfold a_dirent, seen. rewrite Hvis. cbn. by rewrite Hd.
  - intros (v & s' & Hvis & Hd)%a_dirent_visible. eapply listed_row; [done| |done].
    apply list_elem_of_fmap. exists (dirent_bytes parent name, s', v). split; [done|]. apply Hx.
    split; [done|by apply dirent_scanned].
Qed.
End list_dirents.

(** Listing any directory returns. *)
Lemma list_dirents_total m cur s l parent :
  typed m → view m cur s l → reads_some m cur (list_dirents parent) (λ _, True).
Proof using All.
  intros Hm Hv. unfold list_dirents. eapply reads_reads_some; [by eapply current_chain_reads|].
  rewrite (surjective_pairing (dirent_range parent)). destruct (dirent_range_bounds parent) as [Hl1 Hl2].
  eapply reads_some_bind.
  { apply reads_some_on_tree. intros bt n Hbt.
    destruct (visible_scan_cover bt m n _ _ l Hbt Hl1 Hl2 (view_chain_ok _ _ _ _ Hv) (dirent_whole_keys m parent Hm))
      as (bt' & out & ? & ? & ? & Hco).
    exists bt', out. split_and!; [done|done|done|exact Hco]. }
  intros out Hco. destruct (mapM_ok parse_dirent out) as (es & E & _); [|by apply reads_some_weaken with es; [apply reads_lift|]].
  intros [k v] Hin. apply (vc_sound _ _ _ _ _ Hco) in Hin as (s' & Hs' & Hst & Hsc).
  destruct (dirent_range_keys m parent k s' Hm Hs' ltac:(by eexists) Hsc) as (k' & -> & [Hlk _] & Hlv).
  unfold parse_dirent, dirent_name_from_key, slice. rewrite Nat.leb_refl, (proj2 (Nat.leb_le _ _)) by (unfold DIRENT_PREFIX_LEN; lia).
  cbn [andb]. mred. unfold dirent_from_bytes. rewrite (sized_Ok 16 v (Hlv v Hst)). mred. by eexists.
Qed.
End ops.

(** Step over a read of an operation. *)
Ltac fs_read H :=
  first [ eapply reads_refuses; [by first [eapply reads_from_btree, H|eapply H]|]
        | eapply reads_performs; [by first [eapply reads_from_btree, H|eapply H]|] ];
  cbn beta iota zeta.

(** ** Rename, unlink, rmdir *)
Section posix.
Context {D : Type} `{!BlockDevice D} `{!BlockDeviceLaws D} `{!BlockDeviceTotal D} `{!Crc32} `{!Crc32Range}.
Abbreviation performs := (performs (D := D)).
Abbreviation refuses := (refuses (D := D)).
Context (m : amap) (cur s : Z) (l : list Z) (Hm : typed m) (Hv : view m cur s l).

Section rename.
Context (op : Z) (on : list byte) (np : Z) (nn : list byte).
Hypothesis Hon : (length on ≤ MAX_NAME_LEN)%nat.
Hypothesis Hnn : (length nn ≤ MAX_NAME_LEN)%nat.

Lemma rename_missing : a_dirent m l op on = None → refuses m cur (rename op on np nn) NotFound.
Proof using All.
  intros Hd. unfold rename. fs_read current_snap_reads. fs_read current_chain_reads. fs_read lookup_dirent_reads.
  rewrite Hd. apply throw_refuses.
Qed.

Lemma rename_exists d d' :
  a_dirent m l op on = Some d → a_dirent m l np nn = Some d' → refuses m cur (rename op on np nn) AlreadyExists.
Proof using All.
  intros Hd Hd'. unfold rename. fs_read current_snap_reads. fs_read current_chain_reads. fs_read lookup_dirent_reads.
  rewrite Hd. eapply reads_refuses; [apply reads_ret|]. fs_read lookup_dirent_reads. rewrite Hd'. apply throw_refuses.
Qed.

Definition rename_ops (d : DirentV1) : list wop :=
  [WPut (dirent_bytes np nn) s Live (dirent_as_bytes d); WDel (dirent_bytes op on) s l].

Lemma rename_performs d :
  a_dirent m l op on = Some d → a_dirent m l np nn = None → performs m cur (rename op on np nn) tt (rename_ops d).
Proof using All.
  intros Hd Hd'. pose proof (view_chain_ok _ _ _ _ Hv) as Hc. pose proof (a_dirent_pad _ _ _ _ _ Hd) as Hpad.
  unfold rename. fs_read current_snap_reads. fs_read current_chain_reads. fs_read lookup_dirent_reads.
  rewrite Hd. eapply reads_performs; [apply reads_ret|]. fs_read lookup_dirent_reads. rewrite Hd'. cbn [is_Some].
  rewrite bool_decide_eq_false_2 by (by intros [? ?]).
  eapply reads_performs; [apply reads_from_btree, reads_lift; by apply dirent_key_ok|].
  eapply reads_performs; [apply reads_from_btree, reads_lift; by apply dirent_key_ok|].
  apply performs_from_btree, performs_transaction.
  - apply (tx_does_bind _ _ _ tt tt [_] [_]); [apply tx_insert_does; by apply name_wop_ok|].
    eapply (tx_does_bind _ _ _ _ _ [_] []); [apply tx_delete_does; by apply name_del_ok|]. apply tx_does_ret.
  - unfold rename_ops. rewrite !Forall_cons. split_and!; [by apply dirent_wop_typed|by apply dirent_del_typed|constructor].
Qed.
End rename.

(** *** Unlink *)
Section unlink.
Context (parent : Z) (name : list byte).
Hypothesis Hn : (length name ≤ MAX_NAME_LEN)%nat.

Lemma unlink_missing : a_dirent m l parent name = None → refuses m cur (unlink parent name) NotFound.
Proof using All.
  intros Hd. unfold unlink. fs_read current_snap_reads. fs_read current_chain_reads. fs_read lookup_dirent_reads.
  rewrite Hd. apply throw_refuses.
Qed.

Lemma unlink_dangling d :
  a_dirent m l parent name = Some d → a_inode m l (d_target_ino d) = None → refuses m cur (unlink parent name) NotFound.
Proof using All.
  intros Hd Hi. unfold unlink. fs_read current_snap_reads. fs_read current_chain_reads. fs_read lookup_dirent_reads.
  rewrite Hd. eapply reads_refuses; [apply reads_ret|]. cbn zeta. fs_read get_inode_reads. rewrite Hi. apply throw_refuses.
Qed.

(** The last link: entry and inode are tombstoned and the inode's extents are
    queued for reclaim. *)
Definition unlink_last_ops (d : DirentV1) : list wop :=
  [WDel (dirent_bytes parent name) s l; WDel (inode_key (d_target_ino d)) s l;
   WPut (deleted_inode_key (d_target_ino d) s) ROOT_SNAP Live (deleted_as_bytes deleted_inode_new)].
(** Another link remains: the link count drops. *)
Definition unlink_shared_ops (d : DirentV1) (i : InodeV1) : list wop :=
  [WDel (dirent_bytes parent name) s l;
   WPut (inode_key (d_target_ino d)) s Live (inode_as_bytes (with_nlink (i_nlink i - 1) i))].

Lemma unlink_performs d i :
  a_dirent m l parent name = Some d → a_inode m l (d_target_ino d) = Some i →
  performs m cur (unlink parent name) tt
    (if i_nlink i <=? 1 then unlink_last_ops d else unlink_shared_ops d i).
Proof using All.
  intros Hd Hi. pose proof (view_chain_ok _ _ _ _ Hv) as Hc.
  unfold unlink. fs_read current_snap_reads. fs_read current_chain_reads. fs_read lookup_dirent_reads.
  rewrite Hd. eapply reads_performs; [apply reads_ret|]. cbn zeta. fs_read get_inode_reads. rewrite Hi.
  eapply reads_performs; [apply reads_ret|].
  eapply reads_performs; [apply reads_from_btree, reads_lift; by apply dirent_key_ok|]. cbn zeta.
  apply performs_from_btree, performs_transaction.
  - destruct (i_nlink i <=? 1); unfold unlink_last_ops, unlink_shared_ops.
    + eapply (tx_does_bind _ _ _ _ _ [_] [_; _]); [apply tx_delete_does; by apply name_del_ok|].
      eapply (tx_does_bind _ _ _ _ _ [_] [_]); [apply tx_delete_does; by apply inode_del_ok|].
      apply tx_insert_does. cbn. consts. lia.
    + eapply (tx_does_bind _ _ _ _ _ [_] [_]); [apply tx_delete_does; by apply name_del_ok|].
      apply tx_insert_does. cbn. consts. lia.
  - destruct (i_nlink i <=? 1); unfold unlink_last_ops, unlink_shared_ops; rewrite !Forall_cons;
      split_and!; first [by apply dirent_del_typed|apply inode_del_typed|apply inode_wop_typed|by apply orphan_wop_typed|constructor].
Qed.
End unlink.

(** *** Rmdir *)
Section rmdir.
Context (parent : Z) (name : list byte).
Hypothesis Hn : (length name ≤ MAX_NAME_LEN)%nat.

Lemma rmdir_missing : a_dirent m l parent name = None → refuses m cur (rmdir parent name) NotFound.
Proof using All.
  intros Hd. unfold rmdir. fs_read current_snap_reads. fs_read current_chain_reads. fs_read lookup_dirent_reads.
  rewrite Hd. apply throw_refuses.
Qed.

Lemma rmdir_not_dir d :
  a_dirent m l parent name = Some d → d_kind d ≠ FILE_KIND_DIR → refuses m cur (rmdir parent name) NotADirectory.
Proof using All.
  intros Hd Hk. unfold rmdir. fs_read current_snap_reads. fs_read current_chain_reads. fs_read lookup_dirent_reads.
  rewrite Hd. eapply reads_refuses; [apply reads_ret|]. rewrite (proj2 (Z.eqb_neq _ _)) by done. apply throw_refuses.
Qed.

Context (d : DirentV1) (Hd : a_dirent m l parent name = Some d) (Hk : d_kind d = FILE_KIND_DIR).
Hypothesis Hmax : d_target_ino d < U64_MAX.

Lemma target_width : in_width 64 (d_target_ino d).
Proof using All.
  apply decoded_Some in Hd as (b & _ & (b' & [-> Hl]%sized_inv & E)%outcome_bind_Ok_inv). injection E as <-. apply (field_width b 0 8).
Qed.

(** A directory with a visible entry is never removed. *)
Lemma rmdir_not_empty child cd :
  a_dirent m l (d_target_ino d) child = Some cd → refuses m cur (rmdir parent name) NotEmpty.
Proof using All.
  intros Hch. unfold rmdir. fs_read current_snap_reads. fs_read current_chain_reads. fs_read lookup_dirent_reads.
  rewrite Hd. eapply reads_refuses; [apply reads_ret|]. rewrite Hk, Z.eqb_refl. cbn [negb].
  eapply reads_some_refuses; [eapply reads_some_from_btree, list_dirents_cover; [done|done|apply target_width|done]|].
  intros es Hes. specialize (Hes child cd Hch). destruct es as [|e es]; [by apply elem_of_nil in Hes|].
  apply throw_refuses.
Qed.

(** An empty directory is removed: its entry and its inode are tombstoned. *)
Definition rmdir_ops : list wop := [WDel (dirent_bytes parent name) s l; WDel (inode_key (d_target_ino d)) s l].

Lemma rmdir_performs :
  nothing_between m (versioned (dirent_range (d_target_ino d)).1 0) (versioned (dirent_range (d_target_ino d)).2 0) →
  (∀ child, a_dirent m l (d_target_ino d) child = None) →
  performs m cur (rmdir parent name) tt rmdir_ops.
Proof using All.
  intros Hnb Hno. pose proof (view_chain_ok _ _ _ _ Hv) as Hc.
  unfold rmdir. fs_read current_snap_reads. fs_read current_chain_reads. fs_read lookup_dirent_reads.
  rewrite Hd. eapply reads_performs; [apply reads_ret|]. rewrite Hk, Z.eqb_refl. cbn [negb].
  eapply reads_some_performs; [eapply reads_some_from_btree, list_dirents_exact; [done|done|apply target_width|done|done]|].
  intros es Hes. destruct es as [|[child cd] es]; [|by specialize (proj1 (Hes child cd) ltac:(by left)) as Hch; rewrite Hno in Hch].
  cbn [length Nat.eqb negb]. eapply reads_performs; [apply reads_from_btree, reads_lift; by apply dirent_key_ok|]. cbn zeta.
  apply performs_from_btree, performs_transaction.
  - eapply (tx_does_bind _ _ _ _ _ [_] [_]); [apply tx_delete_does; by apply name_del_ok|].
    eapply (tx_does_bind _ _ _ _ _ [_] []); [apply tx_delete_does; by apply inode_del_ok|]. apply tx_does_ret.
  - unfold rmdir_ops. rewrite !Forall_cons. split_and!; [by apply dirent_del_typed|apply inode_del_typed|constructor].
Qed.
End rmdir.
End posix.
