(* ===== verification/Snapshot.v ===== *)
(** * Snapshot: snapshots freeze what a subvolume sees (src/fs.rs).

    [ids_ok] ties the id counters of [Fs] to the map: no row, snapshot or
    subvolume uses an id the counters have yet to hand out. Taking a snapshot
    gives the source and the new subvolume fresh leaves above the old chain, so
    both go on seeing the old data; later writes of the source land at its own
    fresh id, which the snapshot's chain does not contain. *)
From Stdlib Require Import Strings.Byte.
From stdpp Require Import base list numbers gmap sorting.
From S2P Require Import Prelude Device BlockBtree NodeRep Storage Journal StoreSpec Heap Btree TreeRead TreeWrite BtreeSpec ScanSpec FsTypes Fs FsSpec FsOps.
#[local] Open Scope rfs_scope.
#[local] Open Scope Z_scope.

(** ** Key kinds *)
Definition kind_of (k : list byte) : option Z := b2z <$> head k.
(** Keys of files: versioned by the snapshot of the writing subvolume. *)
Definition file_key (k : list byte) : Prop :=
  kind_of k = Some KIND_INODE ∨ kind_of k = Some KIND_DIRENT ∨ kind_of k = Some KIND_EXTENT.
Definition meta_key (k : list byte) : Prop := kind_of k = Some KIND_SNAPSHOT ∨ kind_of k = Some KIND_SUBVOL.

Lemma file_not_meta k : file_key k → ¬ meta_key k.
Proof. intros [E|[E|E]] [E'|E']; rewrite E in E'; done. Qed.

(** The writes a file operation makes in a subvolume at snapshot [s]. *)
Definition local_op (s : Z) (o : wop) : Prop :=
  (file_key (wop_key o) ∧ wop_snap o = s) ∨ (kind_of (wop_key o) = Some KIND_DELETED_INODES ∧ wop_snap o = ROOT_SNAP).

Lemma local_not_meta s o : local_op s o → ¬ meta_key (wop_key o).
Proof. intros [[Hf _]|[E _]]; [by apply file_not_meta|]. intros [E'|E']; rewrite E in E'; done. Qed.

Lemma snapshot_key_meta s : meta_key (snapshot_key s).
Proof. by left. Qed.
Lemma subvol_key_meta id : meta_key (subvol_key id).
Proof. by right. Qed.

Lemma local_width s o : in_width 32 s → local_op s o → in_width 32 (wop_snap o).
Proof. by intros Hs [[_ ->]|[_ ->]]. Qed.

(** Metadata is out of reach of file operations. *)
Lemma local_meta s ops m k :
  in_width 32 s → Forall (local_op s) ops → meta_key k →
  a_find (a_run ops m) (versioned k ROOT_SNAP) = a_find m (versioned k ROOT_SNAP).
Proof.
  intros Hs Hops Hk. apply a_run_find; [done|]. eapply Forall_impl; [exact Hops|]. intros o Ho.
  split; [by eapply local_width|]. left. intros ->. by eapply local_not_meta.
Qed.
Lemma local_snapshot s ops m x :
  in_width 32 s → Forall (local_op s) ops → a_snapshot (a_run ops m) x = a_snapshot m x.
Proof. intros. unfold a_snapshot. erewrite local_meta; [done|done|done|apply snapshot_key_meta]. Qed.
Lemma local_subvol s ops m x :
  in_width 32 s → Forall (local_op s) ops → a_subvol (a_run ops m) x = a_subvol m x.
Proof. intros. unfold a_subvol. erewrite local_meta; [done|done|done|apply subvol_key_meta]. Qed.

(** File data at other snapshots is out of reach too. *)
Lemma local_seen s ops m k chain :
  in_width 32 s → Forall (in_width 32) chain → Forall (local_op s) ops → file_key k → s ∉ chain →
  seen (a_run ops m) k chain = seen m k chain.
Proof.
  intros Hs Hc Hops Hk Hnot. apply a_run_seen; [done|]. eapply Forall_impl; [exact Hops|]. intros o Ho.
  split; [by eapply local_width|]. destruct Ho as [[_ ->]|[E _]]; [by right|]. left. intros ->.
  destruct Hk as [E'|[E'|E']]; rewrite E in E'; done.
Qed.

(** ** Chains under metadata changes *)
Lemma chain_from_ext m m' s l :
  chain_from m s l → (∀ x, x ∈ l → a_snapshot m' x = a_snapshot m x) → chain_from m' s l.
Proof.
  induction 1 as [s E|s p l E _ IH]; intros Hx.
  - apply chain_top. unfold a_parent in *. by rewrite Hx by (by left).
  - apply chain_up with p; [unfold a_parent in *; by rewrite Hx by (by left)|]. apply IH. intros x Hin. apply Hx. by right.
Qed.

Lemma view_ext m m' cur s l :
  view m cur s l → a_subvol m' cur = a_subvol m cur → (∀ x, x ∈ l → a_snapshot m' x = a_snapshot m x) → view m' cur s l.
Proof. intros [Hs Hc] E Hx. split; [by rewrite E|by eapply chain_from_ext]. Qed.

Lemma view_local s0 ops m cur s l :
  in_width 32 s0 → Forall (local_op s0) ops → view m cur s l → view (a_run ops m) cur s l.
Proof.
  intros Hs Hops Hv. eapply view_ext; [done|by eapply local_subvol|]. intros x _. by eapply local_snapshot.
Qed.

(** ** The id counters *)
Record ids_ok (m : amap) (next_snap next_subvol : Z) : Prop := {
  io_snap : 0 ≤ next_snap < ROOT_SNAP;
  io_subvol_width : in_width 32 next_subvol;
  io_rows k s : in_width 32 s → s ≤ next_snap → m (versioned k s) = None;
  io_subvol id sv : in_width 32 id → a_subvol m id = Some sv → next_snap < v_snap_id sv;
  io_fresh id : next_subvol ≤ id → in_width 32 id → a_subvol m id = None;
}.

Lemma view_above m cur s l ns nv : view m cur s l → in_width 32 cur → ids_ok m ns nv → ns < s ∧ Forall (λ x, ns < x) l.
Proof.
  intros Hv Hcur Hi. assert (ns < s) as Hlt.
  { destruct Hv as [Hs _]. destruct (a_subvol m cur) as [sv|] eqn:E; [|done]. injection Hs as <-. by eapply io_subvol. }
  split; [done|]. destruct (chain_from_ok _ _ _ (vw_chain _ _ _ _ Hv) (view_width _ _ _ _ Hv)) as (_ & Hle & _).
  eapply Forall_impl; [exact Hle|]. cbn. intros; lia.
Qed.

Lemma a_run_other ops m k : Forall (λ o, k ≠ versioned (wop_key o) (wop_snap o)) ops → a_run ops m k = m k.
Proof.
  intros Hops. revert m. induction Hops as [|o ops Ho _ IH]; intros m; [done|].
  change (a_run (o :: ops) m) with (a_run ops (a_wop o m)). rewrite IH. by apply a_wop_other.
Qed.

Lemma ids_ok_rows ops m ns nv :
  ids_ok m ns nv → Forall (λ o, in_width 32 (wop_snap o) ∧ ns < wop_snap o) ops →
  ∀ k s, in_width 32 s → s ≤ ns → a_run ops m (versioned k s) = None.
Proof.
  intros Hi Hops k s Hs Hle. rewrite a_run_other; [by eapply io_rows|]. eapply Forall_impl; [exact Hops|].
  intros o [Hw Hlt] [_ ->]%versioned_inj; [lia|done|done].
Qed.

Lemma ids_ok_local s ops m ns nv :
  ids_ok m ns nv → in_width 32 s → ns < s → Forall (local_op s) ops → ids_ok (a_run ops m) ns nv.
Proof.
  intros Hi Hs Hlt Hops. pose proof Hi as [H1 H2 H3 H4 H5]. split; [done|done| | |].
  - eapply ids_ok_rows; [done|]. eapply Forall_impl; [exact Hops|]. intros o Ho. split; [exact (local_width s o Hs Ho)|].
    destruct Ho as [[_ ->]|[_ ->]]; [done|lia].
  - intros id sv. rewrite (local_subvol s) by done. apply H4.
  - intros id. rewrite (local_subvol s) by done. apply H5.
Qed.

(** ** Taking a snapshot *)
Section snapshot.
Context {D : Type} `{!BlockDevice D} `{!BlockDeviceLaws D} `{!BlockDeviceTotal D} `{!Crc32} `{!Crc32Range}.
Implicit Types fs : Fs D.

(** The metadata a snapshot of [src], at snapshot [S], writes with fresh ids. *)
Definition snap_meta (S flags : Z) : SnapshotV1 := {| s_parent_id := S; s_flags := flags; s_reserved := zeros 16 |}.
Definition snap_subvol (src ro : Z) (sv : SubvolV1) : SubvolV1 :=
  {| v_snap_id := ro; v_flags := SUBVOL_FLAG_READONLY; v_root_inode := v_root_inode sv; v_parent_subvol := src;
     v_reserved := zeros 12 |}.
Definition snapshot_ops (src w v : Z) (sv : SubvolV1) : list wop :=
  [WPut (snapshot_key w) ROOT_SNAP Live (snapshot_as_bytes (snap_meta (v_snap_id sv) 0));
   WPut (snapshot_key (w - 1)) ROOT_SNAP Live (snapshot_as_bytes (snap_meta (v_snap_id sv) 1));
   WPut (subvol_key src) ROOT_SNAP Live (subvol_as_bytes (with_snap_id w sv));
   WPut (subvol_key v) ROOT_SNAP Live (subvol_as_bytes (snap_subvol src (w - 1) sv))].

Lemma ok_or_Some {A B} e (a : A) (k : A → M (Fs D) FsError B) fs : (ok_or e (Some a) ≫= k) fs = k a fs.
Proof. done. Qed.

(** What no operation on files and subvolumes changes. *)
Definition steady fs fs' : Prop :=
  journal fs' = journal fs ∧ next_journal_seq fs' = next_journal_seq fs ∧ last_checkpoint_seq fs' = last_checkpoint_seq fs ∧
  next_ino fs' = next_ino fs.
Lemma steady_tree fs fs' : fs' = set_tree (tree fs') fs → steady fs fs'.
Proof. by intros ->. Qed.

Lemma snapshot_performs m cur src w v sv :
  length (v_reserved sv) = 12%nat →
  performs (D := D) m cur (from_btree (in_transaction (
    _ ← tx_insert (snapshot_key w) ROOT_SNAP (snapshot_as_bytes (snap_meta (v_snap_id sv) 0));
    _ ← tx_insert (snapshot_key (w - 1)) ROOT_SNAP (snapshot_as_bytes (snap_meta (v_snap_id sv) 1));
    _ ← tx_insert (subvol_key src) ROOT_SNAP (subvol_as_bytes (with_snap_id w sv));
    tx_insert (subvol_key v) ROOT_SNAP (subvol_as_bytes (snap_subvol src (w - 1) sv))))) tt (snapshot_ops src w v sv).
Proof using All.
  intros Hres. apply performs_from_btree, performs_transaction.
  - do 3 (eapply (tx_does_bind _ _ _ _ _ [_] (_ :: _)); [apply tx_insert_does; cbn; consts; lia|]).
    apply tx_insert_does; cbn; consts; lia.
  - unfold snapshot_ops. rewrite !Forall_cons.
    split_and!; [by apply snapshot_wop_typed..|by apply subvol_wop_typed|by apply subvol_wop_typed|constructor].
Qed.

Lemma snapshot_runs fs m n src sv :
  fs_models fs m (4 + n) → 0 ≤ n → a_subvol m src = Some sv → 2 ≤ next_snap_id fs → next_subvol_id fs < U32_MAX →
  ∃ fs', snapshot_subvol src fs = (Ok (next_subvol_id fs), fs') ∧
    fs_models fs' (a_run (snapshot_ops src (next_snap_id fs) (next_subvol_id fs) sv) m) n ∧
    next_snap_id fs' = next_snap_id fs - 2 ∧ next_subvol_id fs' = next_subvol_id fs + 1 ∧
    current_subvol fs' = current_subvol fs ∧ steady fs fs' ∧ wrote fs m (snapshot_ops src (next_snap_id fs) (next_subvol_id fs) sv) fs'.
Proof using All.
  intros Hfs Hn Hsv Hsnap Hvol. pose proof (a_subvol_wf _ _ _ Hsv) as (_ & _ & _ & _ & Hres).
  destruct (reads_from_btree _ _ _ _ (get_subvol_reads m (current_subvol fs) src (fm_typed _ _ _ Hfs)) fs _ Hfs eq_refl)
    as (fs1 & E1 & Hfs1 & Hq1). pose proof Hq1 as [T1 _].
  rewrite Hsv in E1. unfold snapshot_subvol. rewrite (M_bind_ok _ _ _ _ _ E1), ok_or_Some. cbn zeta.
  destruct (snapshot_performs m (current_subvol fs1) src (next_snap_id fs) (next_subvol_id fs) sv Hres fs1 n)
    as (fs2 & E2 & Hfs2 & T2 & W2); [exact Hfs1|done|done|].
  assert (next_snap_id fs1 = next_snap_id fs ∧ next_subvol_id fs1 = next_subvol_id fs ∧ current_subvol fs1 = current_subvol fs)
    as (Es & Ev & Ec) by (rewrite T1; done).
  rewrite gets_bind, Es. unfold checked_sub, checked_add32. rewrite !(proj2 (Z.ltb_ge (next_snap_id fs) _)) by lia.
  rewrite !ok_or_Some, gets_bind, Ev, (proj2 (Z.ltb_ge _ _)) by lia. rewrite ok_or_Some.
  unfold snap_meta, snap_subvol in E2. rewrite (M_bind_ok _ _ _ _ _ E2), modify_bind. eexists. split; [done|].
  destruct Hfs2 as [Hbt Hty]. split; [by split|]. split_and!; [done|done| | |by eapply wrote_quiet].
  - cbn [set_ids current_subvol]. by rewrite T2, <- Ec.
  - rewrite T2, T1. done.
Qed.

Lemma snapshot_refused fs m n src :
  fs_models fs m n → a_subvol m src = None →
  ∃ fs', snapshot_subvol src fs = (Err NotFound, fs') ∧ fs_models fs' m n ∧ fs_quiet fs fs'.
Proof using All.
  intros Hfs Hsv.
  destruct (reads_from_btree _ _ _ _ (get_subvol_reads m (current_subvol fs) src (fm_typed _ _ _ Hfs)) fs _ Hfs eq_refl)
    as (fs1 & E1 & Hfs1 & Hq). rewrite Hsv in E1. exists fs1. unfold snapshot_subvol.
  by rewrite (M_bind_ok _ _ _ _ _ E1).
Qed.

Lemma snapshot_exhausted fs m n src sv :
  fs_models fs m n → a_subvol m src = Some sv → next_snap_id fs < 2 ∨ U32_MAX ≤ next_subvol_id fs →
  ∃ fs', snapshot_subvol src fs = (Err Exhausted, fs') ∧ fs_models fs' m n ∧ fs_quiet fs fs'.
Proof using All.
  intros Hfs Hsv Hex.
  destruct (reads_from_btree _ _ _ _ (get_subvol_reads m (current_subvol fs) src (fm_typed _ _ _ Hfs)) fs _ Hfs eq_refl)
    as (fs1 & E1 & Hfs1 & Hq). rewrite Hsv in E1. exists fs1. unfold snapshot_subvol.
  rewrite (M_bind_ok _ _ _ _ _ E1), ok_or_Some. cbn zeta. rewrite gets_bind.
  destruct Hq as [T1 HL]. split; [|by split_and!]. rewrite T1. cbn [set_tree next_snap_id].
  unfold checked_sub, checked_add32. destruct (Z.ltb_spec (next_snap_id fs) 1); [done|]. rewrite ok_or_Some.
  destruct (Z.ltb_spec (next_snap_id fs) 2); [done|]. rewrite ok_or_Some, gets_bind. cbn [set_tree next_subvol_id].
  by rewrite (proj2 (Z.ltb_lt _ _)) by lia.
Qed.
End snapshot.

(** ** What the new metadata says *)
Lemma find_put k k' v m :
  a_find (a_put (versioned k ROOT_SNAP) Live v m) (versioned k' ROOT_SNAP) =
    if decide (k' = k) then Some (take MAX_VALUE_SIZE v) else a_find m (versioned k' ROOT_SNAP).
Proof.
  unfold a_find, a_put. destruct (decide (k' = k)) as [->|Hne]; [by rewrite decide_True|].
  rewrite decide_False; [done|]. by intros [-> _]%versioned_inj.
Qed.

Lemma snapshot_key_inj s s' : in_width 32 s → in_width 32 s' → snapshot_key s = snapshot_key s' → s = s'.
Proof. intros Hs Hs' E. apply (f_equal snapshot_id_from_key) in E. rewrite !snapshot_id_key in E by done. congruence. Qed.
Lemma subvol_key_inj s s' : in_width 32 s → in_width 32 s' → subvol_key s = subvol_key s' → s = s'.
Proof. intros Hs Hs' E. apply (f_equal subvol_id_from_key) in E. rewrite !subvol_id_key in E by done. congruence. Qed.

Lemma snap_meta_decoded S flags :
  in_width 32 S → in_width 32 flags →
  decoded snapshot_from_bytes (Some (take MAX_VALUE_SIZE (snapshot_as_bytes (snap_meta S flags)))) = Some (snap_meta S flags).
Proof.
  intros HS Hf. rewrite take_ge by (rewrite length_snapshot_bytes by done; consts; lia).
  unfold decoded. cbn [mbind option_bind]. by rewrite (snapshot_round_trip (snap_meta S flags)).
Qed.
Lemma subvol_decoded v :
  subvol_wf v → decoded subvol_from_bytes (Some (take MAX_VALUE_SIZE (subvol_as_bytes v))) = Some v.
Proof.
  intros Hv. rewrite take_ge by (rewrite length_subvol_bytes by apply Hv; consts; lia).
  unfold decoded. cbn [mbind option_bind]. by rewrite (subvol_round_trip v).
Qed.

Section snapshot_map.
Context (m : amap) (src w v : Z) (sv : SubvolV1) (l : list Z).
Hypothesis Hsv : a_subvol m src = Some sv.
Hypothesis Hids : ids_ok m w v.
Hypothesis Hw : 2 ≤ w.
Hypothesis Hsrc : in_width 32 src.
Abbreviation S := (v_snap_id sv).
Abbreviation m' := (a_run (snapshot_ops src w v sv) m).
Hypothesis Hl : chain_from m S l.

Lemma snapshot_widths : in_width 32 w ∧ in_width 32 (w - 1) ∧ in_width 32 S ∧ w < S ∧ src ≠ v.
Proof using Hids Hsv Hw Hsrc.
  pose proof (io_snap _ _ _ Hids) as H1. pose proof (io_subvol _ _ _ Hids _ _ Hsrc Hsv). pose proof (a_subvol_wf _ _ _ Hsv) as (HS & _).
  unfold ROOT_SNAP, in_width in *. split_and!; try lia. intros ->.
  rewrite (io_fresh _ _ _ Hids v) in Hsv; [done|lia|apply (io_subvol_width _ _ _ Hids)].
Qed.

Lemma snapshot_a_snapshot x :
  in_width 32 x →
  a_snapshot m' x = if decide (x = w) then Some (snap_meta S 0)
                    else if decide (x = w - 1) then Some (snap_meta S 1) else a_snapshot m x.
Proof using Hids Hsv Hw Hsrc.
  intros Hx. destruct snapshot_widths as (W1 & W2 & W3 & _). unfold a_snapshot, a_run, snapshot_ops. cbn [foldl a_wop].
  rewrite !find_put. rewrite !(decide_False (P := snapshot_key x = subvol_key _)) by done.
  destruct (decide (x = w - 1)) as [->|Hne2].
  - rewrite decide_True by done. rewrite (decide_False (P := w - 1 = w)) by lia. by apply snap_meta_decoded.
  - rewrite (decide_False (P := snapshot_key x = snapshot_key (w - 1))) by (by intros ?%snapshot_key_inj).
    destruct (decide (x = w)) as [->|Hne]; [rewrite decide_True by done; by apply snap_meta_decoded|].
    by rewrite decide_False by (by intros ?%snapshot_key_inj).
Qed.

Lemma snapshot_a_subvol id :
  in_width 32 id →
  a_subvol m' id = if decide (id = v) then Some (snap_subvol src (w - 1) sv)
                   else if decide (id = src) then Some (with_snap_id w sv) else a_subvol m id.
Proof using Hids Hsv Hw Hsrc.
  intros Hx. destruct snapshot_widths as (W1 & W2 & W3 & _ & Hsv'). pose proof (io_subvol_width _ _ _ Hids) as Wv.
  pose proof (a_subvol_wf _ _ _ Hsv) as (_ & Hf & Hr & Hp & Hres).
  unfold a_subvol, a_run, snapshot_ops. cbn [foldl a_wop].
  rewrite !find_put. rewrite !(decide_False (P := subvol_key id = snapshot_key _)) by done.
  destruct (decide (id = v)) as [->|Hne2].
  - rewrite decide_True by done. apply subvol_decoded. by repeat split; try apply W2; try apply Hr; try apply Hsrc.
  - rewrite (decide_False (P := subvol_key id = subvol_key v)) by (by intros ?%subvol_key_inj).
    destruct (decide (id = src)) as [->|Hne]; [rewrite decide_True by done; apply subvol_decoded; by repeat split; try apply W1; try apply Hf; try apply Hr; try apply Hp|].
    by rewrite decide_False by (by intros ?%subvol_key_inj).
Qed.

(** The old chain is as it was; both fresh ids hang below its head. *)
Lemma snapshot_chain x : x = w ∨ x = w - 1 → chain_from m' x (x :: l).
Proof using All.
  destruct snapshot_widths as (W1 & W2 & W3 & Hlt & _). intros Hx.
  destruct (chain_from_ok _ _ _ Hl W3) as ((_ & Hwl) & Hle & _). rewrite Forall_forall in Hle, Hwl.
  apply chain_up with S.
  - unfold a_parent. rewrite snapshot_a_snapshot by (destruct Hx as [-> | ->]; done).
    pose proof (io_snap _ _ _ Hids). assert (S ≠ NO_PARENT_SNAP) by (unfold NO_PARENT_SNAP; lia).
    destruct Hx as [-> | ->]; [rewrite decide_True by done|rewrite decide_False, decide_True by lia];
      cbn; rewrite (proj2 (Z.eqb_neq _ _)), (proj2 (Z.leb_gt _ _)) by (done || lia); done.
  - eapply chain_from_ext; [exact Hl|]. intros y Hy. specialize (Hle y Hy). cbn in Hle.
    rewrite snapshot_a_snapshot by (by apply Hwl). by rewrite !decide_False by lia.
Qed.

Lemma snapshot_views : view m' src w (w :: l) ∧ view m' v (w - 1) (w - 1 :: l).
Proof using All.
  destruct snapshot_widths as (W1 & W2 & W3 & Hlt & Hne). pose proof (io_subvol_width _ _ _ Hids) as Wv.
  split; (split; [rewrite snapshot_a_subvol by done|apply snapshot_chain; auto]).
  - by rewrite decide_False, decide_True by done.
  - by rewrite decide_True by done.
Qed.

(** The rows of files are untouched, and none of them is at a fresh id. *)
Lemma snapshot_seen k x : file_key k → x = w ∨ x = w - 1 → seen m' k (x :: l) = seen m k l.
Proof using All.
  intros Hk Hx. destruct snapshot_widths as (W1 & W2 & W3 & Hlt & _).
  destruct (chain_from_ok _ _ _ Hl W3) as ((_ & Hwl) & _ & _).
  rewrite a_run_seen.
  - unfold seen. cbn [a_visible]. rewrite (io_rows _ _ _ Hids k x); [done|by destruct Hx as [-> | ->]|lia].
  - constructor; [by destruct Hx as [-> | ->]|done].
  - unfold snapshot_ops. apply file_not_meta in Hk. repeat apply Forall_cons_2; [..|constructor];
      (split; [done|left; intros ->; apply Hk; (apply snapshot_key_meta || apply subvol_key_meta)]).
Qed.

(** Other subvolumes notice nothing, and the fresh id is on none of their chains. *)
Lemma snapshot_other cur s0 l0 :
  view m cur s0 l0 → in_width 32 cur → cur ≠ src →
  view m' cur s0 l0 ∧ (w ∉ l0) ∧ ∀ k, (¬ meta_key k) → seen m' k l0 = seen m k l0.
Proof using All.
  intros Hv Hc Hne. destruct snapshot_widths as (W1 & W2 & W3 & Hlt & Hsv'). destruct (view_above _ _ _ _ _ _ Hv Hc Hids) as [_ Hab].
  pose proof (view_chain_ok _ _ _ _ Hv) as [_ Hwl]. rewrite Forall_forall in Hab, Hwl. split; [|split].
  - eapply view_ext; [exact Hv| |].
    + rewrite snapshot_a_subvol by done. rewrite !decide_False; [done|done|]. intros ->. destruct Hv as [Hv _].
      rewrite (io_fresh _ _ _ Hids v) in Hv; [done|lia|done].
    + intros x Hx. specialize (Hab x Hx). cbn in Hab. rewrite snapshot_a_snapshot by (by apply Hwl). by rewrite !decide_False by lia.
  - intros Hin%Hab. lia.
  - intros k Hk. rewrite a_run_seen; [done|by apply Forall_forall|].
    unfold snapshot_ops. repeat apply Forall_cons_2; [..|constructor];
      (split; [done|left; intros ->; apply Hk; (apply snapshot_key_meta || apply subvol_key_meta)]).
Qed.

Lemma snapshot_ids : v < U32_MAX → ids_ok m' (w - 2) (v + 1).
Proof using All.
  intros Hv. destruct snapshot_widths as (W1 & W2 & W3 & Hlt & Hne). pose proof Hids as [H1 H2 H3 H4 H5].
  split; [lia|unfold in_width in *; lia| | |].
  - intros k x Hx Hle. rewrite a_run_other; [apply H3; [done|lia]|].
    repeat apply Forall_cons_2; [..|constructor]; intros [_ ->]%versioned_inj; cbn in *; unfold ROOT_SNAP, in_width in *; lia.
  - intros id sv0 Wid Hid. rewrite snapshot_a_subvol in Hid by done.
    destruct (decide (id = v)); [injection Hid as <-; cbn; lia|].
    destruct (decide (id = src)); [injection Hid as <-; cbn; lia|]. specialize (H4 _ _ Wid Hid). lia.
  - intros id Hle Wid. rewrite snapshot_a_subvol by done. rewrite decide_False by lia.
    destruct (decide (id = src)) as [->|]; [|apply H5; [lia|done]]. rewrite (H5 src) in Hsv by (done || lia). done.
Qed.
End snapshot_map.

(** ** Sequences of operations *)
Inductive fop : Type :=
  | FPutInode (ino : Z) (i : InodeV1)
  | FPutDirent (parent : Z) (name : list byte) (d : DirentV1)
  | FUnlink (parent : Z) (name : list byte)
  | FRmdir (parent : Z) (name : list byte)
  | FRename (old_parent : Z) (old_name : list byte) (new_parent : Z) (new_name : list byte)
  | FSnapshot (src : Z)
  | FSwitch (id : Z).

(** Names fit a key and ids are 32 bits wide; [FUSE] checks the former. *)
Definition fop_ok (o : fop) : Prop :=
  match o with
  | FPutInode _ _ => True
  | FPutDirent _ name d => (length name ≤ MAX_NAME_LEN)%nat ∧ length (d_pad d) = 7%nat
  | FUnlink _ name | FRmdir _ name => (length name ≤ MAX_NAME_LEN)%nat
  | FRename _ on _ nn => (length on ≤ MAX_NAME_LEN)%nat ∧ (length nn ≤ MAX_NAME_LEN)%nat
  | FSnapshot id | FSwitch id => in_width 32 id
  end.
(** Operations on files, as opposed to subvolumes. *)
Definition file_op (o : fop) : Prop := match o with FSnapshot _ | FSwitch _ => False | _ => True end.
#[export] Instance file_op_dec o : Decision (file_op o).
Proof. destruct o; apply _. Defined.

(** Writes that touch no extent. *)
Definition no_extent (o : wop) : Prop := kind_of (wop_key o) ≠ Some KIND_EXTENT.

Lemma no_extent_row ops m k s :
  Forall no_extent ops → kind_of k = Some KIND_EXTENT → a_run ops m (versioned k s) = m (versioned k s).
Proof.
  intros Hops Hk. revert m. induction Hops as [|o ops Ho _ IH]; intros m; [done|].
  change (a_run (o :: ops) m) with (a_run ops (a_wop o m)). rewrite IH. apply a_wop_other. intros E. apply Ho.
  destruct k as [|b k]; [done|]. unfold versioned in E. destruct (wop_key o) as [|b' k'] eqn:Ek; [|by injection E as -> _].
  apply (f_equal length) in E. cbn [length app] in E. rewrite length_app, !length_to_be in E. lia.
Qed.

Lemma local_dirent s l parent name : local_op s (WDel (dirent_bytes parent name) s l).
Proof. left. split; [right; by left|done]. Qed.
Lemma local_inode s l ino : local_op s (WDel (inode_key ino) s l).
Proof. left. split; [by left|done]. Qed.

Section steps.
Context {D : Type} `{!BlockDevice D} `{!BlockDeviceLaws D} `{!BlockDeviceTotal D} `{!Crc32} `{!Crc32Range}.
Implicit Types fs : Fs D.

Definition run_fop (o : fop) : M (Fs D) FsError unit :=
  match o with
  | FPutInode ino i => from_btree (put_inode ino i)
  | FPutDirent parent name d => from_btree (put_dirent parent name d)
  | FUnlink parent name => unlink parent name
  | FRmdir parent name => rmdir parent name
  | FRename op on np nn => rename op on np nn
  | FSnapshot src => _ ← snapshot_subvol src; mret tt
  | FSwitch id => switch_subvol id
  end.

(** The outcome of a file operation: local writes, or an error and no write. *)
Definition acts (m : amap) (cur s : Z) (c : M (Fs D) FsError unit) : Prop := ∀ fs n,
  fs_models fs m (4 + n) → 0 ≤ n → current_subvol fs = cur →
  ∃ r fs' ops, c fs = (r, fs') ∧ (r = Ok tt ∨ (∃ e, r = Err e) ∧ ops = []) ∧ Forall (local_op s) ops ∧
    fs_models fs' (a_run ops m) n ∧ fs' = set_tree (tree fs') fs ∧ wrote fs m ops fs' ∧ Forall no_extent ops.

Lemma fs_models_weaken fs m n n' : 0 ≤ n' ≤ n → fs_models fs m n → fs_models fs m n'.
Proof.
  intros Hn [Hm Ht]. split; [by eapply bt_models_weaken|done].
Qed.

Lemma performs_acts m cur s c ops :
  performs m cur c tt ops → (length ops ≤ 4)%nat → Forall (local_op s) ops → Forall no_extent ops → acts m cur s c.
Proof.
  intros Hc Hl Hops Hx fs n Hfs Hn Hcur. destruct (Hc fs n) as (fs' & E & Hfs' & T & W); [|done|done|].
  { eapply fs_models_weaken; [|exact Hfs]. lia. }
  exists (Ok tt), fs', ops. do 5 (split; [by auto|]). done.
Qed.

Lemma refuses_acts m cur s c e : refuses m cur c e → acts m cur s c.
Proof.
  intros Hc fs n Hfs Hn Hcur. destruct (Hc fs _ Hfs Hcur) as (fs' & E & Hfs' & Hq).
  exists (Err e), fs', []. split; [done|]. split; [right; eauto|]. split; [done|]. split; [eapply fs_models_weaken; [|exact Hfs']; lia|].
  split; [apply Hq|]. split; [by apply wrote_nil|done].
Qed.

Lemma reads_acts {A} m cur s (c : M (Fs D) FsError A) k a : reads m cur c a → acts m cur s (k a) → acts m cur s (c ≫= k).
Proof.
  intros Hc Hk fs n Hfs Hn Hcur. destruct (Hc fs _ Hfs Hcur) as (fs1 & E1 & Hfs1 & Hq).
  destruct (Hk fs1 n Hfs1 Hn) as (r & fs' & ops & E & Hr & Hops & Hfs' & T & W & Hx); [by rewrite (fq_tree _ _ Hq)|].
  exists r, fs', ops. rewrite (M_bind_ok _ _ _ _ _ E1). do 4 (split; [done|]).
  split; [rewrite T at 1; by rewrite (fq_tree _ _ Hq)|]. split; [by eapply wrote_quiet|done].
Qed.
Lemma reads_some_acts {A} m cur s (c : M (Fs D) FsError A) k P :
  reads_some m cur c P → (∀ a, P a → acts m cur s (k a)) → acts m cur s (c ≫= k).
Proof.
  intros Hc Hk fs n Hfs Hn Hcur. destruct (Hc fs _ Hfs Hcur) as (a & fs1 & E1 & HP & Hfs1 & Hq).
  destruct (Hk a HP fs1 n Hfs1 Hn) as (r & fs' & ops & E & Hr & Hops & Hfs' & T & W & Hx); [by rewrite (fq_tree _ _ Hq)|].
  exists r, fs', ops. rewrite (M_bind_ok _ _ _ _ _ E1). do 4 (split; [done|]).
  split; [rewrite T at 1; by rewrite (fq_tree _ _ Hq)|]. split; [by eapply wrote_quiet|done].
Qed.

Section file_ops.
Context (m : amap) (cur s : Z) (l : list Z) (Hm : typed m) (Hv : view m cur s l).

Lemma rmdir_acts parent name : (length name ≤ MAX_NAME_LEN)%nat → acts m cur s (rmdir parent name).
Proof using All.
  intros Hn. pose proof (view_chain_ok _ _ _ _ Hv) as Hc. destruct (a_dirent m l parent name) as [d|] eqn:Hd;
    [|by eapply refuses_acts, rmdir_missing].
  destruct (decide (d_kind d = FILE_KIND_DIR)) as [Hk|Hk]; [|by eapply refuses_acts, rmdir_not_dir].
  unfold rmdir. eapply reads_acts; [by eapply reads_from_btree, current_snap_reads|].
  eapply reads_acts; [by eapply reads_from_btree, current_chain_reads|].
  eapply reads_acts; [by eapply reads_from_btree, lookup_dirent_reads|].
  rewrite Hd. eapply reads_acts; [apply reads_ret|]. rewrite Hk, Z.eqb_refl. cbn [negb].
  eapply reads_some_acts; [by eapply reads_some_from_btree, list_dirents_total|]. intros es _.
  destruct (length es =? 0)%nat; cbn [negb]; [|eapply refuses_acts, throw_refuses].
  eapply reads_acts; [apply reads_from_btree, reads_lift; by apply dirent_key_ok|]. cbn zeta.
  eapply (performs_acts _ _ _ _ [WDel (dirent_bytes parent name) s l; WDel (inode_key (d_target_ino d)) s l]);
    [|cbn; lia|repeat apply Forall_cons_2; [apply local_dirent|apply local_inode|constructor]|by repeat constructor].
  apply performs_from_btree, performs_transaction.
  - eapply (tx_does_bind _ _ _ _ _ [_] [_]); [apply tx_delete_does; by apply name_del_ok|].
    eapply (tx_does_bind _ _ _ _ _ [_] []); [apply tx_delete_does; by apply inode_del_ok|]. apply tx_does_ret.
  - repeat apply Forall_cons_2; [by apply dirent_del_typed|apply inode_del_typed|constructor].
Qed.

(** Every file operation returns; it writes at its own snapshot or refuses. *)
Lemma file_op_acts o : file_op o → fop_ok o → acts m cur s (run_fop o).
Proof using All.
  intros Hf Ho. destruct o as [ino i|parent name d|parent name|parent name|op on np nn|src|id]; cbn [run_fop fop_ok] in *; try done.
  - eapply performs_acts; [by eapply performs_from_btree, put_inode_performs|cbn; lia| |by repeat constructor].
    apply Forall_singleton. left. split; [by left|done].
  - destruct Ho. eapply performs_acts; [by eapply performs_from_btree, put_dirent_performs|cbn; lia| |by repeat constructor].
    apply Forall_singleton. left. split; [right; by left|done].
  - destruct (a_dirent m l parent name) as [d|] eqn:Hd; [|by eapply refuses_acts, unlink_missing].
    destruct (a_inode m l (d_target_ino d)) as [i|] eqn:Hi; [|by eapply refuses_acts, unlink_dangling].
    eapply performs_acts; [by eapply unlink_performs|destruct (_ <=? _); cbn; lia| |by destruct (_ <=? _); repeat constructor].
    destruct (_ <=? _); repeat apply Forall_cons_2; [apply local_dirent|apply local_inode|by right|constructor
      |apply local_dirent|left; split; [by left|done]|constructor].
  - by apply rmdir_acts.
  - destruct Ho as [Hon Hnn]. destruct (a_dirent m l op on) as [d|] eqn:Hd; [|by eapply refuses_acts, rename_missing].
    destruct (a_dirent m l np nn) as [d'|] eqn:Hd'; [by eapply refuses_acts, rename_exists|].
    eapply performs_acts; [by eapply rename_performs|cbn; lia| |by repeat constructor].
    repeat apply Forall_cons_2; [left; split; [right; by left|done]|apply local_dirent|constructor].
Qed.
End file_ops.

(** *** The invariant of reachable states *)
Record fs_inv fs (m : amap) (n : Z) : Prop := {
  fi_models : fs_models fs m n;
  fi_ids : ids_ok m (next_snap_id fs) (next_subvol_id fs);
  fi_width : in_width 32 (current_subvol fs);
  fi_current : is_Some (a_subvol m (current_subvol fs));
}.

Lemma fs_inv_weaken fs m n n' : 0 ≤ n' ≤ n → fs_inv fs m n → fs_inv fs m n'.
Proof. intros Hn []. split; [by eapply fs_models_weaken|done..]. Qed.

(** A file operation keeps the invariant and the views of all subvolumes. *)
Lemma file_op_inv fs m n s l o :
  fs_inv fs m (4 + n) → 0 ≤ n → view m (current_subvol fs) s l → file_op o → fop_ok o →
  ∃ r fs' ops, run_fop o fs = (r, fs') ∧ (r = Ok tt ∨ ∃ e, r = Err e) ∧ Forall (local_op s) ops ∧
    fs_inv fs' (a_run ops m) n ∧ fs' = set_tree (tree fs') fs ∧ wrote fs m ops fs' ∧ Forall no_extent ops.
Proof using All.
  intros [Hfs Hids Hw Hcur] Hn Hv Hf Ho.
  destruct (file_op_acts m _ s l (fm_typed _ _ _ Hfs) Hv o Hf Ho fs n Hfs Hn eq_refl) as (r & fs' & ops & E & Hr & Hops & Hfs' & T & W & Hx).
  exists r, fs', ops. pose proof (view_width _ _ _ _ Hv) as Ws. destruct (view_above _ _ _ _ _ _ Hv Hw Hids) as [Hlt _].
  assert (current_subvol fs' = current_subvol fs ∧ next_snap_id fs' = next_snap_id fs ∧ next_subvol_id fs' = next_subvol_id fs)
    as (Ec & Es & Ev) by (rewrite T; done).
  split; [done|]. split; [destruct Hr as [?|[? _]]; auto|]. split; [done|].
  split; [|by split]. split; rewrite ?Ec, ?Es, ?Ev; [done|by eapply ids_ok_local|done|]. by rewrite (local_subvol s).
Qed.

Lemma switch_inv fs m n id :
  fs_inv fs m n → in_width 32 id →
  ∃ fs', switch_subvol id fs = (match a_subvol m id with Some _ => Ok tt | None => Err NotFound end, fs') ∧ fs_inv fs' m n ∧
    current_subvol fs' = match a_subvol m id with Some _ => id | None => current_subvol fs end ∧
    steady fs fs' ∧ wrote fs m [] fs'.
Proof using All.
  intros [Hfs Hids Hw Hcur] Hid. unfold switch_subvol.
  destruct (reads_from_btree _ _ _ _ (get_subvol_reads m (current_subvol fs) id (fm_typed _ _ _ Hfs)) fs _ Hfs eq_refl)
    as (fs1 & E1 & Hfs1 & Hq). rewrite (M_bind_ok _ _ _ _ _ E1). pose proof Hq as [T1 _].
  pose proof (wrote_nil _ m _ Hq) as W. pose proof (steady_tree _ _ T1) as Hst.
  assert (current_subvol fs1 = current_subvol fs ∧ next_snap_id fs1 = next_snap_id fs ∧ next_subvol_id fs1 = next_subvol_id fs)
    as (Ec & Es & Ev) by (rewrite T1; done).
  destruct (a_subvol m id) as [sv|] eqn:Esv; eexists; (split; [done|]).
  - destruct Hfs1 as [Hbt Hty]. split; [|done]. split; cbn [set_current_subvol current_subvol next_snap_id next_subvol_id].
    + by split.
    + by rewrite Es, Ev.
    + done.
    + by rewrite Esv.
  - split; [|done]. split; rewrite ?Ec, ?Es, ?Ev; done.
Qed.

(** What one operation does, whatever its outcome: writes at keys that are not
    extents, in the log when logging is on. *)
Record stepped fs (m : amap) (ops : list wop) fs' : Prop := {
  sp_wrote : wrote fs m ops fs';
  sp_plain : Forall no_extent ops;
  sp_steady : steady fs fs';
}.
Lemma stepped_quiet fs m fs' : fs_quiet fs fs' → stepped fs m [] fs'.
Proof. intros Hq. split; [by apply wrote_nil|done|apply steady_tree, Hq]. Qed.
Lemma fs_inv_quiet fs fs' m n : fs_inv fs m n → fs_models fs' m n → fs_quiet fs fs' → fs_inv fs' m n.
Proof using Type. intros [_ Hids Hw Hcur] Hfs' [T _]. split; [done|..]; rewrite T; done. Qed.

Lemma snapshot_taken fs m n src sv :
  fs_inv fs m (4 + n) → 0 ≤ n → in_width 32 src → a_subvol m src = Some sv → 2 ≤ next_snap_id fs → next_subvol_id fs < U32_MAX →
  let ops := snapshot_ops src (next_snap_id fs) (next_subvol_id fs) sv in
  ∃ fs', snapshot_subvol src fs = (Ok (next_subvol_id fs), fs') ∧ fs_inv fs' (a_run ops m) n ∧ stepped fs m ops fs' ∧
    current_subvol fs' = current_subvol fs.
Proof using All.
  intros [Hfs Hids Hw [svc Hcur]] Hn Hsrc Esv H1 H2. destruct (snapshot_runs fs m n src sv Hfs Hn Esv H1 H2) as (fs' & E & Hfs' & Es & Ev & Ec & Hst & W).
  destruct (chain_exists m (v_snap_id sv)) as [l Hl]; [by apply (a_subvol_wf _ _ _ Esv)|].
  exists fs'. split; [exact E|]. split; [|split; [split; [exact W|by repeat constructor|done]|done]]. split; [exact Hfs'| | |].
  - rewrite Es, Ev. by eapply snapshot_ids.
  - by rewrite Ec.
  - rewrite Ec. rewrite (snapshot_a_subvol _ _ _ _ _ Esv Hids H1 Hsrc) by done.
    destruct (decide _); [by eexists|]. destruct (decide _); by eexists.
Qed.

Lemma snapshot_inv fs m n src :
  fs_inv fs m (4 + n) → 0 ≤ n → in_width 32 src →
  ∃ r fs' ops, snapshot_subvol src fs = (r, fs') ∧ ((∃ v, r = Ok v) ∨ ∃ e, r = Err e) ∧ fs_inv fs' (a_run ops m) n ∧ stepped fs m ops fs'.
Proof using All.
  intros Hinv Hn Hsrc. pose proof Hinv as [Hfs Hids Hw [svc Hcur]].
  assert (∀ e fs', snapshot_subvol src fs = (Err e, fs') ∧ fs_models fs' m (4 + n) ∧ fs_quiet fs fs' →
    ∃ r fs' ops, snapshot_subvol src fs = (r, fs') ∧ ((∃ v, r = Ok v) ∨ ∃ e, r = Err e) ∧ fs_inv fs' (a_run ops m) n ∧ stepped fs m ops fs')
    as Hrefuse.
  { intros e fs' (E & Hfs' & Hq). exists (Err e), fs', []. split; [done|]. split; [eauto|]. split; [|by apply stepped_quiet].
    eapply (fs_inv_weaken _ _ (4 + n)); [lia|]. by eapply fs_inv_quiet. }
  destruct (a_subvol m src) as [sv|] eqn:Esv; [|destruct (snapshot_refused fs m _ src Hfs Esv) as (fs' & H1); by eapply Hrefuse].
  destruct (decide (2 ≤ next_snap_id fs ∧ next_subvol_id fs < U32_MAX)) as [[H1 H2]|Hex].
  - destruct (snapshot_taken fs m n src sv Hinv Hn Hsrc Esv H1 H2) as (fs' & E & Hinv' & Hst & _).
    eexists _, fs', _. split; [exact E|]. split; [left; eauto|]. by split.
  - destruct (snapshot_exhausted fs m _ src sv Hfs Esv ltac:(lia)) as (fs' & H1). by eapply Hrefuse.
Qed.

(** One operation, whatever its outcome. *)
Lemma step_inv fs m n o :
  fs_inv fs m (4 + n) → 0 ≤ n → fop_ok o →
  ∃ r fs' ops, run_fop o fs = (r, fs') ∧ (r = Ok tt ∨ ∃ e, r = Err e) ∧ fs_inv fs' (a_run ops m) n ∧ stepped fs m ops fs'.
Proof using All.
  intros Hinv Hn Ho. destruct (decide (file_op o)) as [Hf|Hf].
  - destruct (view_exists m (current_subvol fs) (fi_current _ _ _ Hinv)) as (s & l & Hv).
    destruct (file_op_inv fs m n s l o Hinv Hn Hv Hf Ho) as (r & fs' & ops & E & Hr & _ & Hinv' & T & W & Hx).
    exists r, fs', ops. split; [done|]. split; [done|]. split; [done|]. split; [done|done|by apply steady_tree].
  - destruct o as [| | | | |src|id]; try done; cbn [fop_ok run_fop] in *.
    + destruct (snapshot_inv fs m n src Hinv Hn Ho) as (r & fs' & ops & E & Hr & Hinv').
      unfold mbind, M_bind. rewrite E. destruct r as [v|e| |]; [| |by destruct Hr as [[? ?]|[? ?]]..]; eexists _, fs', ops; eauto.
    + destruct (switch_inv fs m _ id Hinv Ho) as (fs' & E & Hinv' & _ & Hst & W). eexists _, fs', []. split; [exact E|].
      split; [destruct (a_subvol m id); eauto|]. split; [|by split]. eapply (fs_inv_weaken _ _ (4 + n)); [lia|done].
Qed.

End steps.

(** ** The first state *)
Definition root_snapshot : SnapshotV1 := snap_meta NO_PARENT_SNAP 0.
Definition root_subvol : SubvolV1 :=
  {| v_snap_id := ROOT_SNAP; v_flags := 0; v_root_inode := ROOT_INO; v_parent_subvol := 0; v_reserved := zeros 12 |}.
Definition seed_ops : list wop :=
  [WPut (snapshot_key ROOT_SNAP) ROOT_SNAP Live (snapshot_as_bytes root_snapshot);
   WPut (subvol_key ROOT_SUBVOL) ROOT_SNAP Live (subvol_as_bytes root_subvol)].
Definition seed_map : amap := a_run seed_ops (λ _, None).

Lemma seed_subvol id : in_width 32 id → a_subvol seed_map id = if decide (id = ROOT_SUBVOL) then Some root_subvol else None.
Proof.
  intros Hid. unfold a_subvol, seed_map, a_run, seed_ops. cbn [foldl a_wop]. rewrite !find_put.
  rewrite (decide_False (P := subvol_key id = snapshot_key _)) by done.
  destruct (decide (id = ROOT_SUBVOL)) as [->|Hne]; [rewrite decide_True by done; by apply subvol_decoded|].
  by rewrite decide_False by (by intros ?%subvol_key_inj).
Qed.

Lemma seed_ids : ids_ok seed_map (ROOT_SNAP - 1) (ROOT_SUBVOL + 1).
Proof.
  split; [done|done| | |].
  - intros k s Hs Hle. unfold seed_map. rewrite a_run_other; [done|].
    repeat apply Forall_cons_2; [..|constructor]; intros [_ ->]%versioned_inj; done.
  - intros id sv Hid. rewrite seed_subvol by done. destruct (decide _); [|done]. by intros [= <-].
  - intros id Hle Hid. rewrite seed_subvol by done. rewrite decide_False; [done|]. unfold ROOT_SUBVOL in *. lia.
Qed.

Section seed.
Context {D : Type} `{!BlockDevice D} `{!BlockDeviceLaws D} `{!BlockDeviceTotal D} `{!Crc32} `{!Crc32Range}.

Lemma exec_ok {S A} (c : M S error A) st a st' : c st = (Ok a, st') → exec c st = Ok (a, st').
Proof. intros E. unfold exec. by rewrite E. Qed.

Lemma performs_expecting {A} m cur (c : M (Fs D) error A) a ops :
  performs m cur c a ops → performs m cur (expecting c) a ops.
Proof.
  intros Hc fs n Hm Hn Hcur. destruct (Hc fs n Hm Hn Hcur) as (fs1 & E1 & H1). exists fs1. unfold expecting. by rewrite E1.
Qed.

Lemma put_snapshot_performs m cur s sv :
  length (s_reserved sv) = 16%nat →
  performs (D := D) m cur (put_snapshot s sv) tt [WPut (snapshot_key s) ROOT_SNAP Live (snapshot_as_bytes sv)].
Proof using All. intros Hs. apply performs_insert; [cbn; consts; lia|by apply snapshot_wop_typed]. Qed.
Lemma put_subvol_performs m cur id sv :
  length (v_reserved sv) = 12%nat →
  performs (D := D) m cur (put_subvol id sv) tt [WPut (subvol_key id) ROOT_SNAP Live (subvol_as_bytes sv)].
Proof using All. intros Hs. apply performs_insert; [cbn; consts; lia|by apply subvol_wop_typed]. Qed.

Lemma seed_steps (bt : Btree D) root_ino fs1 fs2 :
  expecting (put_snapshot ROOT_SNAP root_snapshot)
    {| tree := bt; next_ino := root_ino; next_snap_id := ROOT_SNAP - 1; next_subvol_id := ROOT_SUBVOL + 1;
       current_subvol := ROOT_SUBVOL; journal := false; next_journal_seq := 0; last_checkpoint_seq := 0 |} = (Ok (), fs1) →
  expecting (put_subvol ROOT_SUBVOL root_subvol) fs1 = (Ok (), fs2) → seed bt root_ino = Ok fs2.
Proof using Type.
  intros E1 E2. unfold root_snapshot, snap_meta, root_subvol in E1, E2. unfold seed.
  etransitivity; [apply (outcome_bind_ok _ _ _ (exec_ok _ _ _ _ E1))|]. cbn beta iota.
  etransitivity; [apply (outcome_bind_ok _ _ _ (exec_ok _ _ _ _ E2))|]. done.
Qed.

Lemma seed_ok (bt : Btree D) n root_ino :
  bt_models bt (λ _, None) (2 + n) → 0 ≤ n →
  ∃ fs, seed bt root_ino = Ok fs ∧ fs_inv fs seed_map n ∧ current_subvol fs = ROOT_SUBVOL ∧ next_ino fs = root_ino ∧
    next_snap_id fs = ROOT_SNAP - 1 ∧ next_subvol_id fs = ROOT_SUBVOL + 1 ∧ kept bt (tree fs).
Proof using All.
  intros Hbt Hn.
  set (fs0 := {| tree := bt; next_ino := root_ino; next_snap_id := ROOT_SNAP - 1; next_subvol_id := ROOT_SUBVOL + 1;
                 current_subvol := ROOT_SUBVOL; journal := false; next_journal_seq := 0; last_checkpoint_seq := 0 |}).
  edestruct (performs_expecting _ ROOT_SUBVOL _ _ _ (put_snapshot_performs (λ _, None) ROOT_SUBVOL ROOT_SNAP root_snapshot eq_refl) fs0 (1 + n))
    as (fs1 & E1 & Hfs1 & T1 & W1); [split; [|done]|lia|done|].
  { cbn [tree fs0 length]. by replace (Z.of_nat 1 + (1 + n)) with (2 + n) by lia. }
  edestruct (performs_expecting _ ROOT_SUBVOL _ _ _ (put_subvol_performs (a_run [WPut (snapshot_key ROOT_SNAP) ROOT_SNAP Live (snapshot_as_bytes root_snapshot)] (λ _, None)) ROOT_SUBVOL ROOT_SUBVOL root_subvol eq_refl) fs1 n)
    as (fs2 & E2 & Hfs2 & T2 & W2); [exact Hfs1|lia|by rewrite T1|].
  exists fs2. split; [exact (seed_steps _ _ _ _ E1 E2)|]. assert (next_snap_id fs2 = ROOT_SNAP - 1 ∧ next_subvol_id fs2 = ROOT_SUBVOL + 1 ∧
    current_subvol fs2 = ROOT_SUBVOL ∧ next_ino fs2 = root_ino) as (Es & Ev & Ec & Ei) by (rewrite T2, T1; done).
  split_and!; [|done..|exact (kept_trans _ _ _ (proj1 (proj2 W1)) (proj1 (proj2 W2)))].
  split; rewrite ?Es, ?Ev, ?Ec; [|apply seed_ids|done|by rewrite seed_subvol].
  rewrite <- a_run_app in Hfs2. exact Hfs2.
Qed.
End seed.

Section claims.
Context {D : Type} `{!BlockDevice D} `{!BlockDeviceLaws D} `{!BlockDeviceTotal D} `{!Crc32} `{!Crc32Range}.
Implicit Types fs : Fs D.

Lemma chain_links m x l : chain_from m x l → ∀ i y z, l !! i = Some y → l !! S i = Some z → a_parent m y = Some z.
Proof using Type.
  induction 1 as [s E|s p l E Hl IH]; intros i y z Hy Hz; [by destruct i|].
  destruct i as [|i]; [|by eapply IH]. injection Hy as <-. by destruct Hl; injection Hz as <-.
Qed.

(** C23: the walk up the snapshot tree ends, whatever parent links are stored,
    cycles and dangling links included: [ancestor_chain] returns a strictly
    ascending list that starts at the snapshot asked for and follows the stored
    links, and changes nothing. *)
Theorem ancestor_chain_terminates fs m n x :
  fs_inv fs m n → in_width 32 x →
  ∃ l fs', ancestor_chain x fs = (Ok l, fs') ∧ fs_inv fs' m n ∧ head l = Some x ∧ StronglySorted Z.lt l ∧
    ∀ i y z, l !! i = Some y → l !! S i = Some z → a_parent m y = Some z.
Proof using All.
  intros Hinv Hx. pose proof Hinv as [Hfs _ _ _]. destruct (chain_exists m x Hx) as [l Hl].
  destruct (ancestor_chain_reads m (current_subvol fs) x l (fm_typed _ _ _ Hfs) Hl Hx fs n Hfs eq_refl) as (fs' & E & Hfs' & Hq).
  destruct (chain_from_ok _ _ _ Hl Hx) as ((Ha & _) & _). exists l, fs'.
  split_and!; [done|by eapply fs_inv_quiet|by destruct Hl|done|by eapply chain_links].
Qed.

(** [is_ancestor], the walk that stops early, answers membership in the list
    [ancestor_chain] builds. *)
Theorem is_ancestor_agrees_with_chain fs m n anc x :
  fs_inv fs m n → in_width 32 x →
  ∃ l fs1 fs2, ancestor_chain x fs = (Ok l, fs1) ∧ is_ancestor anc x fs = (Ok (bool_decide (anc ∈ l)), fs2).
Proof using All.
  intros Hinv Hx. pose proof Hinv as [Hfs _ _ _]. destruct (chain_exists m x Hx) as [l Hl].
  destruct (ancestor_chain_reads m (current_subvol fs) x l (fm_typed _ _ _ Hfs) Hl Hx fs n Hfs eq_refl) as (fs1 & E1 & _).
  destruct (is_ancestor_reads m (current_subvol fs) anc x l (fm_typed _ _ _ Hfs) Hl Hx fs n Hfs eq_refl) as (fs2 & E2 & _).
  by exists l, fs1, fs2.
Qed.
End claims.

(** ** A new file system *)
Lemma seed_view : view seed_map ROOT_SUBVOL ROOT_SNAP [ROOT_SNAP].
Proof. split; [by rewrite seed_subvol|]. apply chain_top. by vm_compute. Qed.

#[local] Strategy 100 [initialize_with seed].
Lemma new_steps `{!Crc32} bt fs : btree_new = Ok bt → seed bt ROOT_INO = Ok fs → fs_new = Ok (set_journal false 0 fs).
Proof.
  intros E1 E2. unfold fs_new. rewrite (outcome_bind_ok _ _ _ E1), (outcome_bind_ok _ _ _ E2). reflexivity.
Qed.

Lemma fs_new_ok `{!Crc32} `{!Crc32Range} n :
  0 ≤ n ≤ 1000000 →
  ∃ fs, fs_new = Ok fs ∧ fs_inv fs seed_map n ∧ current_subvol fs = ROOT_SUBVOL ∧ next_snap_id fs = ROOT_SNAP - 1 ∧
    next_subvol_id fs = ROOT_SUBVOL + 1 ∧ next_ino fs = ROOT_INO ∧ journal fs = false.
Proof.
  intros Hn. destruct (create_in_ok in_memory (2 + n)) as (bt & E & Hbt & _); [lia|lia|apply in_memory_room; unfold OP_BLOCKS; lia|exact (empty_cache_ok in_memory eq_refl)|].
  destruct (seed_ok bt n ROOT_INO Hbt ltac:(lia)) as (fs & E' & [Hfs Hids Hw Hcur] & Ec & Ei & Es & Ev & _).
  exists (set_journal false 0 fs).
  split; [|split; [split; [split; [exact (fm_bt _ _ _ Hfs)|exact (fm_typed _ _ _ Hfs)]|exact Hids|exact Hw|exact Hcur]|]].
  2: { split; [exact Ec|split; [exact Es|split; [exact Ev|split; [exact Ei|reflexivity]]]]. }
  exact (new_steps bt fs E E').
Qed.

(** ** Concrete runs *)
#[local] Existing Instance sum_crc.

Definition demo_name : list byte := [Byte.x61].
Definition demo_dirent : DirentV1 := {| d_target_ino := 2; d_kind := FILE_KIND_REGULAR; d_pad := zeros 7 |}.
Definition demo_inode : InodeV1 :=
  {| i_mode := 33188; i_uid := 0; i_gid := 0; i_nlink := 1; i_size := 0; i_atime := 0; i_mtime := 0; i_ctime := 0; i_parent_ino := 1 |}.
Definition demo_file_map : amap :=
  a_run [WPut (dirent_bytes ROOT_INO demo_name) ROOT_SNAP Live (dirent_as_bytes demo_dirent)] seed_map.

Lemma demo_file_local :
  Forall (local_op ROOT_SNAP) [WPut (dirent_bytes ROOT_INO demo_name) ROOT_SNAP Live (dirent_as_bytes demo_dirent)].
Proof. apply Forall_singleton. left. split; [right; by left|done]. Qed.

Lemma root_width : in_width 32 ROOT_SNAP.
Proof. by unfold in_width, ROOT_SNAP. Qed.

(** A new file system with one name in its root directory. *)
Lemma demo_fs :
  ∃ fs0 fs, fs_new = Ok fs0 ∧ put_dirent ROOT_INO demo_name demo_dirent fs0 = (Ok tt, fs) ∧ fs_inv fs demo_file_map 100 ∧
    current_subvol fs = ROOT_SUBVOL ∧ next_snap_id fs = ROOT_SNAP - 1 ∧ next_subvol_id fs = ROOT_SUBVOL + 1 ∧
    view demo_file_map ROOT_SUBVOL ROOT_SNAP [ROOT_SNAP].
Proof.
  destruct (fs_new_ok 101) as (fs0 & E0 & [Hfs Hids Hw Hcur] & Ec & Es & Ev & _); [lia|].
  destruct (put_dirent_performs seed_map ROOT_SUBVOL ROOT_SNAP [ROOT_SNAP] ROOT_INO demo_name demo_dirent (fm_typed _ _ _ Hfs) seed_view
    ltac:(cbn; consts; lia) eq_refl fs0 100) as (fs & E & Hfs1 & T & _); [exact Hfs|lia|exact Ec|].
  assert (current_subvol fs = ROOT_SUBVOL ∧ next_snap_id fs = ROOT_SNAP - 1 ∧ next_subvol_id fs = ROOT_SUBVOL + 1) as (Ec1 & Es1 & Ev1).
  { rewrite T. cbn [set_tree current_subvol next_snap_id next_subvol_id]. split_and!; [exact Ec|exact Es|exact Ev]. }
  assert (view demo_file_map ROOT_SUBVOL ROOT_SNAP [ROOT_SNAP]) as Hv
    by exact (view_local _ _ _ _ _ _ root_width demo_file_local seed_view).
  exists fs0, fs. split_and!; [exact E0|exact E| |exact Ec1|exact Es1|exact Ev1|exact Hv].
  split; [exact Hfs1|rewrite Es1, Ev1|rewrite Ec1, <- Ec; exact Hw|rewrite Ec1].
  - apply (ids_ok_local ROOT_SNAP); [|apply root_width|lia|apply demo_file_local]. rewrite <- Es, <- Ev. exact Hids.
  - unfold demo_file_map. rewrite (local_subvol ROOT_SNAP); [rewrite <- Ec; exact Hcur|apply root_width|apply demo_file_local].
Qed.

(** The walk from the root snapshot. *)
Lemma ancestor_chain_terminates_witness :
  ∃ fs l fs', fs_inv fs demo_file_map 100 ∧ ancestor_chain ROOT_SNAP fs = (Ok l, fs') ∧ head l = Some ROOT_SNAP.
Proof.
  destruct demo_fs as (fs0 & fs & _ & _ & Hinv & _).
  destruct (ancestor_chain_terminates fs demo_file_map 100 ROOT_SNAP Hinv root_width) as (l & fs' & E & _ & Hh & _).
  exists fs, l, fs'. split; [exact Hinv|]. split; [exact E|exact Hh].
Defined.
