(* ===== verification/Posix.v ===== *)
(** * Posix: names and inodes as a subvolume sees them (src/fs.rs).

    [tview] is the abstract state of one subvolume: a map from directory and name
    to entry, and a map from inode number to inode. [spec_rename], [spec_unlink]
    and [spec_rmdir] say what the namespace operations promise on it, errors
    included; the theorems show that the operations of [Fs], run on the tree,
    implement them. *)
From Stdlib Require Import Strings.Byte.
From stdpp Require Import base list numbers sorting.
From S2P Require Import Prelude Device BlockBtree NodeRep Storage Journal StoreSpec Heap Btree TreeRead TreeWrite BtreeSpec ScanSpec FsTypes Fs FsSpec FsOps Snapshot.
#[local] Open Scope rfs_scope.
#[local] Open Scope Z_scope.

(** ** The abstract state *)
Record tview : Type := { names : Z → list byte → option DirentV1; inodes : Z → option InodeV1 }.

Definition view_of (m : amap) (l : list Z) : tview := {| names := a_dirent m l; inodes := a_inode m l |}.

(** Two views agree on the inode numbers there are. *)
#[export] Instance tview_equiv : Equiv tview := λ t t',
  (∀ p n, in_width 64 p → names t p n = names t' p n) ∧ (∀ i, in_width 64 i → inodes t i = inodes t' i).
#[export] Instance tview_equivalence : Equivalence (≡@{tview}).
Proof.
  split.
  - by intros t.
  - intros t t' [H1 H2]. split; intros; symmetry; [by apply H1|by apply H2].
  - intros t1 t2 t3 [H1 H2] [H3 H4]. split; intros; [rewrite H1, H3|rewrite H2, H4]; done.
Qed.

Definition set_name (p : Z) (n : list byte) (d : option DirentV1) (t : tview) : tview :=
  {| names p' n' := if decide (p' = p ∧ n' = n) then d else names t p' n'; inodes := inodes t |}.
Definition set_inode (ino : Z) (i : option InodeV1) (t : tview) : tview :=
  {| names := names t; inodes ino' := if decide (ino' = ino) then i else inodes t ino' |}.
#[export] Instance set_name_proper p n d : Proper ((≡) ==> (≡)) (set_name p n d).
Proof. intros t t' [H1 H2]. split; cbn; [|done]. intros p' n' Hp. case_decide; auto. Qed.
#[export] Instance set_inode_proper ino i : Proper ((≡) ==> (≡)) (set_inode ino i).
Proof. intros t t' [H1 H2]. split; cbn; [done|]. intros ino' Hp. case_decide; auto. Qed.

(** ** What the operations promise *)
Definition spec_rename (op : Z) (on : list byte) (np : Z) (nn : list byte) (t : tview) : outcome FsError tview :=
  match names t op on with
  | None => Err NotFound
  | Some d =>
    match names t np nn with
    | Some _ => Err AlreadyExists
    | None => Ok (set_name op on None (set_name np nn (Some d) t))
    end
  end.

Definition spec_unlink (p : Z) (n : list byte) (t : tview) : outcome FsError tview :=
  match names t p n with
  | None => Err NotFound
  | Some d =>
    match inodes t (d_target_ino d) with
    | None => Err NotFound
    | Some i =>
      if i_nlink i <=? 1 then Ok (set_inode (d_target_ino d) None (set_name p n None t))
      else Ok (set_inode (d_target_ino d) (Some (with_nlink (i_nlink i - 1) i)) (set_name p n None t))
    end
  end.

Inductive spec_rmdir (p : Z) (n : list byte) (t : tview) : outcome FsError tview → Prop :=
  | rmdir_no_entry : names t p n = None → spec_rmdir p n t (Err NotFound)
  | rmdir_no_dir d : names t p n = Some d → d_kind d ≠ FILE_KIND_DIR → spec_rmdir p n t (Err NotADirectory)
  | rmdir_full d c cd : names t p n = Some d → d_kind d = FILE_KIND_DIR → names t (d_target_ino d) c = Some cd →
      spec_rmdir p n t (Err NotEmpty)
  | rmdir_done d : names t p n = Some d → d_kind d = FILE_KIND_DIR → (∀ c, names t (d_target_ino d) c = None) →
      spec_rmdir p n t (Ok (set_inode (d_target_ino d) None (set_name p n None t))).

(** The specification of an operation, and of a sequence of them. *)
Definition spec_fop (o : fop) (t : tview) : outcome FsError tview :=
  match o with
  | FPutInode ino i => Ok (set_inode ino (Some i) t)
  | FPutDirent p n d => Ok (set_name p n (Some d) t)
  | FUnlink p n => spec_unlink p n t
  | FRename op on np nn => spec_rename op on np nn t
  | _ => Panic
  end.
Definition spec_fop_step (o : fop) (t : tview) : outcome FsError unit * tview :=
  match spec_fop o t with
  | Ok t' => (Ok tt, t')
  | Err e => (Err e, t)
  | _ => (Panic, t)
  end.
Fixpoint spec_all (ops : list fop) (t : tview) : list (outcome FsError unit) * tview :=
  match ops with
  | [] => ([], t)
  | o :: ops => let '(r, t) := spec_fop_step o t in let '(rs, t) := spec_all ops t in (r :: rs, t)
  end.

(** Arguments in range: 64-bit inode numbers, names that fit a key, records whose
    fields fit their formats. *)
Definition fop_wf (o : fop) : Prop :=
  match o with
  | FPutInode ino i => in_width 64 ino ∧ inode_wf i
  | FPutDirent p n d => in_width 64 p ∧ (length n ≤ MAX_NAME_LEN)%nat ∧ dirent_wf d
  | FUnlink p n => in_width 64 p ∧ (length n ≤ MAX_NAME_LEN)%nat
  | FRename op on np nn => in_width 64 op ∧ in_width 64 np ∧ (length on ≤ MAX_NAME_LEN)%nat ∧ (length nn ≤ MAX_NAME_LEN)%nat
  | _ => False
  end.

(** ** Writes, on views *)
Lemma to_be_8_inj x y : in_width 64 x → in_width 64 y → to_be 8 x = to_be 8 y → x = y.
Proof. intros Hx Hy E. rewrite <- (from_to_be_small 8 x Hx), <- (from_to_be_small 8 y Hy). by rewrite E. Qed.
Lemma dirent_bytes_inj p n p' n' : in_width 64 p → in_width 64 p' → dirent_bytes p n = dirent_bytes p' n' → p = p' ∧ n = n'.
Proof.
  intros Hp Hp' E. apply (f_equal (drop 1)) in E. cbn [dirent_bytes drop] in E. apply app_inj_1 in E as [E ->]; [|by rewrite !length_to_be]. split; [|done].
  by apply to_be_8_inj.
Qed.
Lemma inode_key_inj i i' : in_width 64 i → in_width 64 i' → inode_key i = inode_key i' → i = i'.
Proof. intros Hi Hi' E. apply (f_equal (drop 1)) in E. by apply to_be_8_inj. Qed.

Lemma dirent_parsed_wf b d : dirent_from_bytes b = Ok d → dirent_wf d.
Proof.
  intros (b' & [-> Hl]%sized_inv & E)%outcome_bind_Ok_inv. injection E as <-. unfold dirent_wf. cbn [d_target_ino d_kind d_pad].
  split_and!; [apply (field_width b 0 8)|apply (field_width b 8 1)|rewrite length_drop; lia].
Qed.
Lemma a_dirent_wf m l p n d : a_dirent m l p n = Some d → dirent_wf d.
Proof. intros (b & _ & Hb)%decoded_Some. by eapply dirent_parsed_wf. Qed.
Lemma inode_parsed_wf b i : inode_from_bytes b = Ok i → inode_wf i.
Proof.
  intros (b' & [-> Hl]%sized_inv & E)%outcome_bind_Ok_inv. injection E as <-. unfold inode_wf.
  cbn [i_mode i_uid i_gid i_nlink i_size i_atime i_mtime i_ctime i_parent_ino].
  split_and!; first [apply (field_width b _ 4)|apply (field_width b _ 8)].
Qed.
Lemma a_inode_wf m l ino i : a_inode m l ino = Some i → inode_wf i.
Proof. intros (b & _ & Hb)%decoded_Some. by eapply inode_parsed_wf. Qed.

(** Entries name inodes of 64 bits. *)
Definition targets_ok (t : tview) : Prop := ∀ p n d, in_width 64 p → names t p n = Some d → dirent_wf d.

Lemma spec_fop_proper o t t' :
  fop_wf o → targets_ok t → t ≡ t' →
  match spec_fop o t, spec_fop o t' with
  | Ok u, Ok u' => u ≡ u'
  | Err e, Err e' => e = e'
  | Panic, Panic => True
  | _, _ => False
  end.
Proof.
  intros Ho Hok Ht. pose proof Ht as [Hnames Hinodes].
  destruct o as [ino i|p n d|p n|p n|op on np nn|src|id]; cbn [spec_fop fop_wf] in *; try done.
  - by apply set_inode_proper.
  - by apply set_name_proper.
  - destruct Ho as [Hp _]. unfold spec_unlink. rewrite <- Hnames by done. destruct (names t p n) as [d|] eqn:Ed; [|done].
    destruct (Hok _ _ _ Hp Ed) as [Hd _]. rewrite <- Hinodes by done. destruct (inodes t _) as [i|]; [|done].
    destruct (_ <=? 1); by apply set_inode_proper, set_name_proper.
  - destruct Ho as (Hp & Hp' & _). unfold spec_rename. rewrite <- !Hnames by done. destruct (names t op on) as [d|]; [|done].
    destruct (names t np nn); [done|]. by apply set_name_proper, set_name_proper.
Qed.

Lemma set_name_targets p n d t : (∀ d', d = Some d' → dirent_wf d') → targets_ok t → targets_ok (set_name p n d t).
Proof. intros Hd Ht p' n' d' Hp'. cbn [names set_name]. case_decide; [apply Hd|by apply Ht]. Qed.

Lemma spec_fop_targets o t t' : fop_wf o → targets_ok t → spec_fop o t = Ok t' → targets_ok t'.
Proof.
  intros Ho Hok. destruct o as [ino i|p n d|p n|p n|op on np nn|src|id]; cbn [spec_fop fop_wf] in *; try done.
  - by intros [= <-].
  - intros [= <-]. apply set_name_targets; [|done]. intros ? [= <-]. apply Ho.
  - unfold spec_unlink. destruct (names t p n) as [d|]; [|done]. destruct (inodes t _) as [i|]; [|done].
    destruct (_ <=? 1); intros [= <-]; by apply (set_name_targets p n None).
  - unfold spec_rename. destruct (names t op on) as [d|] eqn:Ed; [|done]. destruct (names t np nn); [done|]. intros [= <-].
    apply set_name_targets; [done|]. apply set_name_targets; [|done]. intros ? [= <-]. apply (Hok op on); [apply Ho|done].
Qed.

Lemma spec_all_proper ops t t' :
  Forall fop_wf ops → targets_ok t → t ≡ t' → fst (spec_all ops t) = fst (spec_all ops t') ∧ snd (spec_all ops t) ≡ snd (spec_all ops t').
Proof.
  intros Hops. revert t t'. induction Hops as [|o ops Ho _ IH]; intros t t' Hok Ht; [done|]. cbn [spec_all]. unfold spec_fop_step.
  pose proof (spec_fop_proper o t t' Ho Hok Ht) as Hp. pose proof (spec_fop_targets o t) as Hok'.
  destruct (spec_fop o t) as [u|e| |], (spec_fop o t') as [u'|e'| |]; try done; [destruct (IH u u') as [E1 E2]; [by eapply Hok'|done|]
    |destruct (IH t t') as [E1 E2]; [done..|]|destruct (IH t t') as [E1 E2]; [done..|]];
    destruct (spec_all ops _), (spec_all ops _); cbn [fst snd] in *; by subst.
Qed.

Section writes.
Context (m : amap) (s : Z) (l : list Z) (Hc : Forall (in_width 32) (s :: l)).

Lemma seen_wop o k : untouched o k (s :: l) → seen (a_wop o m) k (s :: l) = seen m k (s :: l).
Proof using Hc. intros Ho. apply (a_run_seen [o]); [done|]. by apply Forall_singleton. Qed.
Lemma seen_other o k : k ≠ wop_key o → wop_snap o = s → seen (a_wop o m) k (s :: l) = seen m k (s :: l).
Proof using Hc.
  intros Hk Ho. apply seen_wop. split; [|by left]. rewrite Ho. by apply Forall_cons in Hc as [? _].
Qed.

Lemma put_name_view p n d :
  in_width 64 p → dirent_wf d →
  view_of (a_wop (WPut (dirent_bytes p n) s Live (dirent_as_bytes d)) m) (s :: l) ≡ set_name p n (Some d) (view_of m (s :: l)).
Proof using Hc.
  intros Hp Hd. pose proof Hc as [Hs _]%Forall_cons. split; cbn [names inodes view_of set_name].
  - intros p' n' Hp'. unfold a_dirent. destruct (decide (p' = p ∧ n' = n)) as [[-> ->]|Hne].
    + cbn [a_wop]. rewrite a_put_seen; [|done|rewrite length_dirent_bytes by apply Hd; consts; lia].
      unfold decoded. cbn [mbind option_bind]. by rewrite (dirent_round_trip d).
    + rewrite seen_other; [done| |done]. by intros ?%dirent_bytes_inj.
  - intros i _. unfold a_inode. by rewrite seen_other.
Qed.
Lemma del_name_view p n :
  in_width 64 p → view_of (a_wop (WDel (dirent_bytes p n) s (s :: l)) m) (s :: l) ≡ set_name p n None (view_of m (s :: l)).
Proof using Hc.
  intros Hp. split; cbn [names inodes view_of set_name].
  - intros p' n' Hp'. unfold a_dirent. destruct (decide (p' = p ∧ n' = n)) as [[-> ->]|Hne].
    + cbn [a_wop]. by rewrite a_delete_seen.
    + rewrite seen_other; [done| |done]. by intros ?%dirent_bytes_inj.
  - intros i _. unfold a_inode. by rewrite seen_other.
Qed.
Lemma put_inode_view ino i :
  in_width 64 ino → inode_wf i →
  view_of (a_wop (WPut (inode_key ino) s Live (inode_as_bytes i)) m) (s :: l) ≡ set_inode ino (Some i) (view_of m (s :: l)).
Proof using Hc.
  intros Hi Hw. pose proof Hc as [Hs _]%Forall_cons. split; cbn [names inodes view_of set_inode].
  - intros p n _. unfold a_dirent. by rewrite seen_other.
  - intros i' Hi'. unfold a_inode. destruct (decide (i' = ino)) as [->|Hne].
    + cbn [a_wop]. rewrite a_put_seen; [|done|rewrite length_inode_bytes; consts; lia].
      unfold decoded. cbn [mbind option_bind]. by rewrite (inode_round_trip i).
    + rewrite seen_other; [done| |done]. by intros ?%inode_key_inj.
Qed.
Lemma del_inode_view ino :
  in_width 64 ino → view_of (a_wop (WDel (inode_key ino) s (s :: l)) m) (s :: l) ≡ set_inode ino None (view_of m (s :: l)).
Proof using Hc.
  intros Hi. split; cbn [names inodes view_of set_inode].
  - intros p n _. unfold a_dirent. by rewrite seen_other.
  - intros i' Hi'. unfold a_inode. destruct (decide (i' = ino)) as [->|Hne].
    + cbn [a_wop]. by rewrite a_delete_seen.
    + rewrite seen_other; [done| |done]. by intros ?%inode_key_inj.
Qed.
Lemma put_orphan_view ino v :
  view_of (a_wop (WPut (deleted_inode_key ino s) ROOT_SNAP Live v) m) (s :: l) ≡ view_of m (s :: l).
Proof using Hc.
  split; cbn [names inodes view_of]; intros; unfold a_dirent, a_inode;
    (rewrite seen_wop; [done|split; [done|by left]]).
Qed.
End writes.

(** ** The operations implement their specifications *)
Section implements.
Context {D : Type} `{!BlockDevice D} `{!BlockDeviceLaws D} `{!BlockDeviceTotal D} `{!Crc32} `{!Crc32Range}.
Implicit Types fs : Fs D.

(** Run from a state that stands for [m], in a subvolume at snapshot [s] with
    ancestor chain [l], the operation returns what the specification says, and the
    view becomes the one it says; on an error nothing is written. *)
Definition implements (m : amap) (cur s : Z) (l : list Z) (c : M (Fs D) FsError unit)
    (spec : outcome FsError tview → Prop) : Prop :=
  ∀ fs n, fs_models fs m (4 + n) → 0 ≤ n → current_subvol fs = cur →
  ∃ r fs' m', spec r ∧ fs_models fs' m' n ∧ view m' (current_subvol fs') s l ∧
    match r with
    | Ok t => c fs = (Ok tt, fs') ∧ view_of m' l ≡ t
    | Err e => c fs = (Err e, fs') ∧ m' = m
    | _ => False
    end.

Lemma refuses_implements m cur s l c e (spec : outcome FsError tview → Prop) :
  view m cur s l → refuses m cur c e → spec (Err e) → implements m cur s l c spec.
Proof.
  intros Hv Hc Hs fs n Hfs Hn Hcur. destruct (Hc fs _ Hfs Hcur) as (fs' & E & Hfs' & [T _]).
  exists (Err e), fs', m. split_and!; [done|by eapply fs_models_weaken; [|exact Hfs']; lia| |done|done].
  rewrite T. cbn [set_tree current_subvol]. by rewrite Hcur.
Qed.

Lemma performs_implements m cur s l c ops t (spec : outcome FsError tview → Prop) :
  view m cur s l → performs m cur c tt ops → (length ops ≤ 4)%nat → Forall (local_op s) ops →
  view_of (a_run ops m) l ≡ t → spec (Ok t) → implements m cur s l c spec.
Proof.
  intros Hv Hc Hl Hops Ht Hs fs n Hfs Hn Hcur. destruct (Hc fs n) as (fs' & E & Hfs' & T & _); [|done|done|].
  { eapply fs_models_weaken; [|exact Hfs]. lia. }
  exists (Ok t), fs', (a_run ops m). split_and!; [done|done| |done|done].
  rewrite T. cbn [set_tree current_subvol]. rewrite Hcur. eapply view_local; [|exact Hops|done]. by eapply view_width.
Qed.

Lemma run_two o1 o2 m : a_run [o1; o2] m = a_wop o2 (a_wop o1 m).
Proof. done. Qed.
Lemma run_three o1 o2 o3 m : a_run [o1; o2; o3] m = a_wop o3 (a_wop o2 (a_wop o1 m)).
Proof. done. Qed.

Section ops.
Context (m : amap) (cur s : Z) (l : list Z) (Hm : typed m) (Hv : view m cur s l).

Lemma view_cons : ∃ l', l = s :: l' ∧ Forall (in_width 32) (s :: l').
Proof using Hv.
  destruct (view_head _ _ _ _ Hv) as (l' & -> & _). exists l'. split; [done|]. by apply (view_chain_ok _ _ _ _ Hv).
Qed.

Lemma rename_implements op on np nn :
  in_width 64 op → in_width 64 np → (length on ≤ MAX_NAME_LEN)%nat → (length nn ≤ MAX_NAME_LEN)%nat →
  implements m cur s l (rename op on np nn) (eq (spec_rename op on np nn (view_of m l))).
Proof using All.
  intros Hop Hnp Hon Hnn. unfold spec_rename. cbn [names view_of].
  destruct (a_dirent m l op on) as [d|] eqn:Hd; [|by eapply refuses_implements; [|by eapply rename_missing|]].
  destruct (a_dirent m l np nn) as [d'|] eqn:Hd'; [by eapply refuses_implements; [|by eapply rename_exists|]|].
  eapply performs_implements; [done|by eapply rename_performs|cbn; lia| | |done].
  { repeat apply Forall_cons_2; [left; split; [right; by left|done]|apply local_dirent|constructor]. }
  destruct view_cons as (l' & -> & Hw). unfold rename_ops.
  by rewrite run_two, del_name_view, put_name_view by (done || by eapply a_dirent_wf).
Qed.

Lemma unlink_implements p n :
  in_width 64 p → (length n ≤ MAX_NAME_LEN)%nat → implements m cur s l (unlink p n) (eq (spec_unlink p n (view_of m l))).
Proof using All.
  intros Hp Hn. unfold spec_unlink. cbn [names inodes view_of].
  destruct (a_dirent m l p n) as [d|] eqn:Hd; [|by eapply refuses_implements; [|by eapply unlink_missing|]].
  destruct (a_inode m l (d_target_ino d)) as [i|] eqn:Hi; [|by eapply refuses_implements; [|by eapply unlink_dangling|]].
  pose proof (unlink_performs m cur s l Hm Hv p n Hn d i Hd Hi) as Hperf. pose proof (a_dirent_wf _ _ _ _ _ Hd) as (Ht & _).
  destruct view_cons as (l' & El & Hw).
  destruct (i_nlink i <=? 1) eqn:En; (eapply performs_implements; [done|exact Hperf|cbn; lia| | |done]).
  - repeat apply Forall_cons_2; [apply local_dirent|apply local_inode|by right|constructor].
  - rewrite El. unfold unlink_last_ops. by rewrite run_three, put_orphan_view, del_inode_view, del_name_view by done.
  - repeat apply Forall_cons_2; [apply local_dirent|left; split; [by left|done]|constructor].
  - rewrite El. unfold unlink_shared_ops. rewrite run_two, put_inode_view, del_name_view; [done..|].
    apply a_inode_wf in Hi. unfold inode_wf in *. cbn. apply Z.leb_gt in En. unfold in_width in *. intuition lia.
Qed.

(** The keys of the directory's range do not interleave. *)
Definition dir_plain (ino : Z) : Prop :=
  ino < U64_MAX ∧ nothing_between m (versioned (dirent_range ino).1 0) (versioned (dirent_range ino).2 0).

Lemma dir_empty_or_not fs n ino :
  fs_models fs m n → current_subvol fs = cur → in_width 64 ino → dir_plain ino →
  (∀ c, a_dirent m l ino c = None) ∨ ∃ c cd, a_dirent m l ino c = Some cd.
Proof using All.
  intros Hfs Hcur Hi [Hmax Hnb].
  destruct (list_dirents_exact m cur s l ino Hm Hv Hi Hmax Hnb fs n Hfs Hcur) as (es & _ & _ & Hes & _).
  destruct es as [|[c cd] es].
  - left. intros c. destruct (a_dirent m l ino c) as [cd|] eqn:E; [|done]. apply Hes in E. by apply elem_of_nil in E.
  - right. exists c, cd. apply Hes. by left.
Qed.

Lemma rmdir_implements p n :
  in_width 64 p → (length n ≤ MAX_NAME_LEN)%nat → (∀ d, a_dirent m l p n = Some d → dir_plain (d_target_ino d)) →
  implements m cur s l (rmdir p n) (spec_rmdir p n (view_of m l)).
Proof using All.
  intros Hp Hn Hnb. destruct (a_dirent m l p n) as [d|] eqn:Hd;
    [|by eapply refuses_implements; [|by eapply rmdir_missing|apply rmdir_no_entry]].
  destruct (decide (d_kind d = FILE_KIND_DIR)) as [Hk|Hk];
    [|by eapply refuses_implements; [|by eapply rmdir_not_dir|eapply rmdir_no_dir]].
  pose proof (Hnb d eq_refl) as Hpl. pose proof (a_dirent_wf _ _ _ _ _ Hd) as (Ht & _). pose proof Hpl as [Hmax Hnb'].
  intros fs k Hfs Hk0 Hcur. destruct (dir_empty_or_not fs _ _ Hfs Hcur Ht Hpl) as [Hno|(c & cd & Hc)]; revert fs k Hfs Hk0 Hcur.
  - eapply performs_implements; [done|by eapply rmdir_performs|cbn; lia| | |by eapply rmdir_done].
    { repeat apply Forall_cons_2; [apply local_dirent|apply local_inode|constructor]. }
    destruct view_cons as (l' & El & Hw). rewrite El. unfold rmdir_ops. by rewrite run_two, del_inode_view, del_name_view by done.
  - by eapply refuses_implements; [|by eapply rmdir_not_empty|by eapply rmdir_full].
Qed.

Lemma put_get_inode ino i :
  in_width 64 ino → inode_wf i →
  implements m cur s l (from_btree (put_inode ino i)) (eq (Ok (set_inode ino (Some i) (view_of m l)))).
Proof using All.
  intros Hino Hi. eapply performs_implements; [done|by eapply performs_from_btree, put_inode_performs|cbn; lia| | |done].
  { apply Forall_singleton. left. split; [by left|done]. }
  destruct view_cons as (l' & El & Hw). rewrite El. by apply put_inode_view.
Qed.
Lemma put_get_dirent p n d :
  in_width 64 p → (length n ≤ MAX_NAME_LEN)%nat → dirent_wf d →
  implements m cur s l (from_btree (put_dirent p n d)) (eq (Ok (set_name p n (Some d) (view_of m l)))).
Proof using All.
  intros Hp Hn Hd. eapply performs_implements; [done|eapply performs_from_btree, put_dirent_performs; try done; apply Hd|cbn; lia| | |done].
  { apply Forall_singleton. left. split; [right; by left|done]. }
  destruct view_cons as (l' & El & Hw). rewrite El. by apply put_name_view.
Qed.
End ops.

(** *** Traces *)
(** Run operations one after the other, going on after an error, and collect
    what they return. *)
Fixpoint run_all (ops : list fop) (fs : Fs D) : list (outcome FsError unit) * Fs D :=
  match ops with
  | [] => ([], fs)
  | o :: ops => let '(r, fs) := run_fop o fs in let '(rs, fs) := run_all ops fs in (r :: rs, fs)
  end.

Lemma fop_implements m cur s l o :
  typed m → view m cur s l → fop_wf o → implements m cur s l (run_fop o) (eq (spec_fop o (view_of m l))).
Proof using All.
  intros Hm Hv Ho. destruct o; cbn [run_fop spec_fop fop_wf] in *; try done.
  - destruct Ho. by apply put_get_inode.
  - destruct Ho as (? & ? & ?). by apply put_get_dirent.
  - destruct Ho. by apply unlink_implements.
  - destruct Ho as (? & ? & ? & ?). by apply rename_implements.
Qed.

Lemma run_all_refines ops fs m n s l :
  Forall fop_wf ops → 0 ≤ n → fs_models fs m (4 * Z.of_nat (length ops) + n) → view m (current_subvol fs) s l →
  ∃ fs' m' t, run_all ops fs = (fst (spec_all ops (view_of m l)), fs') ∧ snd (spec_all ops (view_of m l)) = t ∧
    fs_models fs' m' n ∧ view m' (current_subvol fs') s l ∧ view_of m' l ≡ t.
Proof using All.
  intros Hops Hn. revert fs m. induction Hops as [|o ops Ho Hops IH]; intros fs m Hfs Hv; cbn [run_all spec_all].
  { by exists fs, m, (view_of m l). }
  destruct (fop_implements m _ s l o (fm_typed _ _ _ Hfs) Hv Ho fs (4 * Z.of_nat (length ops) + n))
    as (r & fs1 & m1 & Er & Hfs1 & Hv1 & Hr); [|lia|done|].
  { eapply fs_models_weaken; [|exact Hfs]. cbn [length]. lia. }
  destruct (IH fs1 m1 Hfs1 Hv1) as (fs' & m' & t & E & Et & Hfs' & Hv' & Ht).
  assert (∃ t1, view_of m1 l ≡ t1 ∧ run_fop o fs = (fst (spec_fop_step o (view_of m l)), fs1) ∧ snd (spec_fop_step o (view_of m l)) = t1)
    as (t1 & Ht1 & Eo & Es).
  { unfold spec_fop_step. rewrite Er. destruct r as [t1|e| |]; [| |done..]; destruct Hr as [-> ?]; [by exists t1|].
    subst m1. by exists (view_of m l). }
  rewrite Eo, E. destruct (spec_all_proper ops (view_of m1 l) _ Hops ltac:(intros ? ? ? _; apply a_dirent_wf) Ht1) as [Er1 Et1].
  destruct (spec_fop_step o (view_of m l)) as [r1 t1']. cbn [fst snd] in *. subst t1'.
  rewrite Er1. destruct (spec_all ops t1) as [rs t2]. cbn [fst snd] in *.
  exists fs', m', t2. split_and!; [done|done|done|done|]. etransitivity; [exact Ht|]. by subst t.
Qed.
End implements.

Section claims.
Context {D : Type} `{!BlockDevice D} `{!BlockDeviceLaws D} `{!BlockDeviceTotal D} `{!Crc32} `{!Crc32Range}.
Implicit Types fs : Fs D.

(** C9: the namespace operations refine their specification. Any sequence of
    [put_inode], [put_dirent], [unlink] and [rename], run on the tree, returns
    exactly the results, errors included, that the specification computes on the
    abstract maps of names and inodes, and ends in a state whose view is the
    specification's: nothing else of the subvolume is touched, and a refused
    operation changes nothing. *)
Theorem namespace_refines_spec ops fs m n s l :
  Forall fop_wf ops → 0 ≤ n → fs_models fs m (4 * Z.of_nat (length ops) + n) → view m (current_subvol fs) s l →
  ∃ fs' m', run_all ops fs = (fst (spec_all ops (view_of m l)), fs') ∧
    fs_models fs' m' n ∧ view m' (current_subvol fs') s l ∧ view_of m' l ≡ snd (spec_all ops (view_of m l)).
Proof using All.
  intros Hops Hn Hfs Hv. destruct (run_all_refines ops fs m n s l Hops Hn Hfs Hv) as (fs' & m' & t & E & <- & H1). eauto.
Qed.

(** C21: [rmdir] refuses a missing name, a name that is not a directory and a
    directory with a visible entry, each with its error and without a write; an
    empty directory loses its entry and its inode. This holds for directories in
    which no name sorts between two versions of another ([dir_plain]: it is enough that
    no name has the byte 0xFF and all snapshot ids start with it); the scan mishandles
    the others ([Ghosts]). *)
Theorem rmdir_refines_spec fs m n s l p name :
  fs_models fs m (4 + n) → 0 ≤ n → view m (current_subvol fs) s l → in_width 64 p → (length name ≤ MAX_NAME_LEN)%nat →
  (∀ d, a_dirent m l p name = Some d → dir_plain m (d_target_ino d)) →
  ∃ r fs' m', spec_rmdir p name (view_of m l) r ∧ fs_models fs' m' n ∧ view m' (current_subvol fs') s l ∧
    match r with
    | Ok t => rmdir p name fs = (Ok tt, fs') ∧ view_of m' l ≡ t
    | Err e => rmdir p name fs = (Err e, fs') ∧ m' = m
    | _ => False
    end.
Proof using All.
  intros Hfs Hn Hv Hp Hname Hpl. exact (rmdir_implements m _ s l (fm_typed _ _ _ Hfs) Hv p name Hp Hname Hpl fs n Hfs Hn eq_refl).
Qed.

(** A directory with a visible entry is never removed, whatever other names it
    has ever held: [rmdir] refuses with [NotEmpty] and writes nothing. *)
Theorem rmdir_never_orphans fs m n s l p name d child cd :
  fs_models fs m n → view m (current_subvol fs) s l → (length name ≤ MAX_NAME_LEN)%nat →
  names (view_of m l) p name = Some d → d_kind d = FILE_KIND_DIR → d_target_ino d < U64_MAX →
  names (view_of m l) (d_target_ino d) child = Some cd →
  ∃ fs', rmdir p name fs = (Err NotEmpty, fs') ∧ fs_models fs' m n.
Proof using All.
  intros Hfs Hv Hname Hd Hk Hmax Hch.
  destruct (rmdir_not_empty m _ s l (fm_typed _ _ _ Hfs) Hv p name Hname d Hd Hk Hmax child cd Hch fs n Hfs eq_refl)
    as (fs' & E & Hfs' & _). eauto.
Qed.

(** C22: listing a directory in which no name sorts between two versions of another
    ([dir_plain]) returns exactly the names that lookups find, each with the entry a
    lookup returns. *)
Theorem readdir_agrees_with_lookup fs m n s l ino :
  fs_models fs m n → view m (current_subvol fs) s l → in_width 64 ino → dir_plain m ino →
  ∃ es fs', list_dirents ino fs = (Ok es, fs') ∧ fs_models fs' m n ∧
    ∀ name d, (length name ≤ MAX_NAME_LEN)%nat →
      ((name, d) ∈ es ↔ ∃ fs'', lookup_dirent ino name fs = (Ok (Some d), fs'')).
Proof using All.
  intros Hfs Hv Hino [Hmax Hnb].
  destruct (list_dirents_exact m _ s l ino (fm_typed _ _ _ Hfs) Hv Hino Hmax Hnb fs n Hfs eq_refl) as (es & fs' & E & Hes & Hfs' & _).
  exists es, fs'. split_and!; [done|done|]. intros name d Hname. rewrite (Hes name d).
  destruct (lookup_dirent_reads m _ s l ino name (fm_typed _ _ _ Hfs) Hv Hname fs n Hfs eq_refl) as (fs'' & E2 & _).
  split; [intros Hd; exists fs''; by rewrite E2, Hd|]. intros [fs3 E3]. rewrite E2 in E3. congruence.
Qed.
End claims.

(** ** Concrete runs *)
#[local] Existing Instance sum_crc.

Definition demo_put (p : Z) (n : list byte) (d : DirentV1) : wop := WPut (dirent_bytes p n) ROOT_SNAP Live (dirent_as_bytes d).

(** A state of the root subvolume that stands for [m]. *)
Definition demo_at (fs : Fs MemDevice) (m : amap) (n : Z) : Prop :=
  fs_models fs m n ∧ current_subvol fs = ROOT_SUBVOL ∧ view m ROOT_SUBVOL ROOT_SNAP [ROOT_SNAP].

Lemma demo_start : ∃ fs, fs_new = Ok fs ∧ demo_at fs seed_map 100.
Proof.
  destruct (fs_new_ok 100) as (fs & E & [Hfs _ _ _] & Ec & _); [lia|]. exists fs.
  split; [exact E|]. split; [exact Hfs|]. split; [exact Ec|apply seed_view].
Qed.

Lemma demo_put_ok fs m n p name d :
  demo_at fs m (1 + n) → 0 ≤ n → (length name ≤ MAX_NAME_LEN)%nat → length (d_pad d) = 7%nat →
  ∃ fs', put_dirent p name d fs = (Ok tt, fs') ∧ demo_at fs' (a_run [demo_put p name d] m) n.
Proof.
  intros (Hfs & Ec & Hv) Hn Hname Hpad.
  destruct (put_dirent_performs m ROOT_SUBVOL ROOT_SNAP [ROOT_SNAP] p name d (fm_typed _ _ _ Hfs) Hv Hname Hpad fs n)
    as (fs' & E & Hfs' & T & _); [exact Hfs|lia|exact Ec|].
  exists fs'. split; [exact E|]. split; [exact Hfs'|]. split; [rewrite T; exact Ec|].
  eapply (view_local ROOT_SNAP); [apply root_width| |exact Hv]. apply Forall_singleton. left. split; [right; by left|done].
Qed.

Definition demo_dir_name : list byte := [Byte.x64].
Definition demo_dir : DirentV1 := {| d_target_ino := 3; d_kind := FILE_KIND_DIR; d_pad := zeros 7 |}.
(** The root directory has an empty directory; then that one gets an entry. *)
Definition demo_empty_map : amap := a_run [demo_put ROOT_INO demo_dir_name demo_dir] seed_map.
Definition demo_full_map : amap := a_run [demo_put 3 demo_name demo_dirent] demo_empty_map.

Lemma demo_dirs :
  ∃ fs0 fs1 fs2, fs_new = Ok fs0 ∧ put_dirent ROOT_INO demo_dir_name demo_dir fs0 = (Ok tt, fs1) ∧ demo_at fs1 demo_empty_map 99 ∧
    put_dirent 3 demo_name demo_dirent fs1 = (Ok tt, fs2) ∧ demo_at fs2 demo_full_map 98.
Proof.
  destruct demo_start as (fs0 & E0 & H0).
  destruct (demo_put_ok fs0 seed_map 99 ROOT_INO demo_dir_name demo_dir H0) as (fs1 & E1 & H1); [lia|cbn; consts; lia|exact eq_refl|].
  destruct (demo_put_ok fs1 demo_empty_map 98 3 demo_name demo_dirent H1) as (fs2 & E2 & H2); [lia|cbn; consts; lia|exact eq_refl|].
  exists fs0, fs1, fs2. split; [exact E0|]. split; [exact E1|]. split; [exact H1|]. split; [exact E2|exact H2].
Qed.

(** The stored keys, by inspection. *)
Lemma demo_put_plain p name d m a b len :
  (∀ k s, in_width 32 s → scanned a b (versioned k s) → is_Some (m (versioned k s)) → length k = len) →
  length (dirent_bytes p name) = len ∨ ¬ scanned a b (versioned (dirent_bytes p name) ROOT_SNAP) →
  ∀ k s, in_width 32 s → scanned a b (versioned k s) → is_Some (a_run [demo_put p name d] m (versioned k s)) → length k = len.
Proof.
  intros Hm Hd k s Hs Hsc. unfold demo_put. cbn [a_run foldl a_wop]. unfold a_put.
  destruct (decide (versioned k s = versioned (dirent_bytes p name) ROOT_SNAP)) as [E|]; [|by apply Hm].
  intros _. destruct Hd as [Hd|Hd]; [|by rewrite E in Hsc]. by apply versioned_inj in E as [-> _].
Qed.

Lemma seed_plain ino len k s :
  in_width 32 s → scanned (versioned (dirent_range ino).1 0) (versioned (dirent_range ino).2 0) (versioned k s) →
  is_Some (seed_map (versioned k s)) → length k = len.
Proof.
  intros Hs Hsc. unfold seed_map, seed_ops. cbn [a_run foldl a_wop]. unfold a_put.
  destruct (decide (versioned k s = versioned (subvol_key ROOT_SUBVOL) ROOT_SNAP)) as [E|];
    [rewrite E in Hsc; by apply range_kind in Hsc|].
  destruct (decide (versioned k s = versioned (snapshot_key ROOT_SNAP) ROOT_SNAP)) as [E|];
    [rewrite E in Hsc; by apply range_kind in Hsc|]. by intros [? ?].
Qed.

Lemma demo_empty_plain : dir_plain demo_empty_map 3.
Proof.
  split; [lia|]. apply (uniform_nothing_between _ _ _ 10). apply demo_put_plain; [apply seed_plain|by left].
Qed.
Lemma demo_full_plain : dir_plain demo_full_map 3.
Proof.
  split; [lia|]. apply (uniform_nothing_between _ _ _ 10).
  apply demo_put_plain; [apply demo_put_plain; [apply seed_plain|by left]|by left].
Qed.
Lemma ino_widths : in_width 64 ROOT_INO ∧ in_width 64 3.
Proof. by unfold in_width, ROOT_INO. Qed.
Lemma demo_names_ok : (length demo_dir_name ≤ MAX_NAME_LEN ∧ length demo_name ≤ MAX_NAME_LEN)%nat.
Proof. cbn. consts. lia. Qed.
Lemma demo_entries :
  a_dirent demo_empty_map [ROOT_SNAP] ROOT_INO demo_dir_name = Some demo_dir ∧
  a_dirent demo_full_map [ROOT_SNAP] ROOT_INO demo_dir_name = Some demo_dir ∧
  a_dirent demo_full_map [ROOT_SNAP] 3 demo_name = Some demo_dirent.
Proof. vm_compute. done. Qed.

(** An empty directory goes. *)
Lemma rmdir_refines_spec_witness :
  ∃ fs r fs' m', demo_at fs demo_empty_map 99 ∧ spec_rmdir ROOT_INO demo_dir_name (view_of demo_empty_map [ROOT_SNAP]) r ∧
    fs_models fs' m' 95 ∧ (rmdir ROOT_INO demo_dir_name fs).2 = fs'.
Proof.
  destruct demo_dirs as (fs0 & fs & fs2 & _ & _ & Hat & _). pose proof Hat as (Hfs & Ec & Hv). rewrite <- Ec in Hv.
  destruct (rmdir_refines_spec fs demo_empty_map 95 ROOT_SNAP [ROOT_SNAP] ROOT_INO demo_dir_name Hfs ltac:(lia) Hv
    (proj1 ino_widths) (proj1 demo_names_ok)) as (r & fs' & m' & Hspec & Hfs' & _ & Hr).
  { intros d Hd. rewrite (proj1 demo_entries) in Hd. injection Hd as <-. exact demo_empty_plain. }
  exists fs, r, fs', m'. split; [exact Hat|]. split; [exact Hspec|]. split; [exact Hfs'|].
  destruct r as [t|e| |]; [destruct Hr as [-> _]; reflexivity|destruct Hr as [-> _]; reflexivity|destruct Hr|destruct Hr].
Defined.

Lemma readdir_agrees_with_lookup_witness :
  ∃ fs es fs', demo_at fs demo_full_map 98 ∧ list_dirents 3 fs = (Ok es, fs') ∧ (demo_name, demo_dirent) ∈ es.
Proof.
  destruct demo_dirs as (fs0 & fs1 & fs & _ & _ & _ & _ & Hat). pose proof Hat as (Hfs & Ec & Hv). rewrite <- Ec in Hv.
  destruct (readdir_agrees_with_lookup fs demo_full_map 98 ROOT_SNAP [ROOT_SNAP] 3 Hfs Hv (proj2 ino_widths) demo_full_plain)
    as (es & fs' & E & _ & Hes).
  exists fs, es, fs'. split; [exact Hat|]. split; [exact E|]. apply (Hes demo_name demo_dirent (proj2 demo_names_ok)).
  destruct (lookup_dirent_reads demo_full_map _ ROOT_SNAP [ROOT_SNAP] 3 demo_name (fm_typed _ _ _ Hfs) Hv (proj2 demo_names_ok) fs 98 Hfs eq_refl)
    as (fs'' & E2 & _). exists fs''. rewrite E2, (proj2 (proj2 demo_entries)). reflexivity.
Defined.

(** A name is moved, a missing one is refused, the moved one is unlinked. *)
Definition demo_trace : list fop :=
  [FPutInode 3 demo_inode; FRename ROOT_INO demo_dir_name ROOT_INO demo_name; FUnlink ROOT_INO demo_dir_name; FUnlink ROOT_INO demo_name].
Lemma demo_trace_wf : Forall fop_wf demo_trace.
Proof.
  pose proof ino_widths as []. pose proof demo_names_ok as [].
  repeat apply Forall_cons_2; [..|constructor]; cbn [fop_wf]; split_and!; try done; repeat split; try done.
Qed.
Lemma namespace_refines_spec_witness :
  ∃ fs fs', demo_at fs demo_empty_map 99 ∧ run_all demo_trace fs = ([Ok tt; Ok tt; Err NotFound; Ok tt], fs').
Proof.
  destruct demo_dirs as (fs0 & fs & fs2 & _ & _ & Hat & _). pose proof Hat as (Hfs & Ec & Hv). rewrite <- Ec in Hv.
  destruct (namespace_refines_spec demo_trace fs demo_empty_map 83 ROOT_SNAP [ROOT_SNAP] demo_trace_wf ltac:(lia) Hfs Hv)
    as (fs' & m' & E & _).
  exists fs, fs'. split; [exact Hat|]. rewrite E. f_equal. 
Defined.
