(* ===== verification/FsData.v ===== *)
(** * FsData: the bytes of files (src/fs.rs).

    A file's bytes live in data blocks named by its extents, one extent per
    block-aligned offset. [byte_at] is the byte a chain of snapshots sees at a
    position of a file: zero where there is no extent and past the extent's
    length. Reads return those bytes and writes change exactly the written range
    of one file in one snapshot, allocating a fresh block for every block they
    touch; a block an older snapshot refers to is never written again. *)
From Stdlib Require Import Strings.Byte.
From stdpp Require Import base list numbers gmap sorting.
From S2P Require Import Prelude Device BlockBtree NodeRep Storage Journal StoreSpec Heap Btree Tree TreeRead TreeWrite BtreeSpec ScanSpec FsTypes Fs FsSpec FsOps Snapshot Posix.
#[local] Open Scope rfs_scope.
#[local] Open Scope Z_scope.

(** ** Block-aligned positions *)
Lemma block_floor_eq x : block_floor x = x - x mod 4096.
Proof.
  unfold block_floor. change (BLOCK_BYTES - 1) with (Z.ones 12). rewrite Z.ldiff_ones_r by lia.
  rewrite Z.shiftl_mul_pow2, Z.shiftr_div_pow2 by lia. change (2 ^ 12) with 4096. rewrite (Z.mod_eq x 4096); lia.
Qed.
Lemma block_floor_bounds x : block_floor x ≤ x < block_floor x + 4096.
Proof. rewrite block_floor_eq. pose proof (Z.mod_pos_bound x 4096). lia. Qed.
Lemma block_floor_mod x : block_floor x mod 4096 = 0.
Proof. rewrite block_floor_eq, Zminus_mod_idemp_r, Z.sub_diag. done. Qed.
Lemma block_floor_nonneg x : 0 ≤ x → 0 ≤ block_floor x.
Proof. rewrite block_floor_eq. pose proof (Z.mod_le x 4096). lia. Qed.
Lemma block_floor_mono x y : x ≤ y → block_floor x ≤ block_floor y.
Proof.
  intros Hxy. rewrite !block_floor_eq, !Z.mod_eq by lia. pose proof (Z.div_le_mono x y 4096). lia.
Qed.
(** An aligned offset is the floor of the positions of its block. *)
Lemma block_floor_of o x : o mod 4096 = 0 → o ≤ x < o + 4096 → block_floor x = o.
Proof.
  intros Ho Hx. pose proof (block_floor_bounds x). pose proof (block_floor_mod x) as Hm.
  apply Z.mod_divide in Ho as [a ->]; [|done]. apply Z.mod_divide in Hm as [b Hb]; [|done]. lia.
Qed.

(** ** Extents on the map *)
Definition a_extent (m : amap) (l : list Z) (ino off : Z) : option ExtentV1 :=
  decoded extent_from_bytes (seen m (extent_key ino off) l).

(** The byte at a position of a file, given the contents [d] of data blocks. *)
Definition byte_at (d : gmap Z (list byte)) (m : amap) (l : list Z) (ino pos : Z) : byte :=
  match a_extent m l ino (block_floor pos) with
  | None => Byte.x00
  | Some x =>
      if pos - block_floor pos <? x_len x then
        default Byte.x00 (b ← d !! x_data_block x; b !! Z.to_nat (pos - block_floor pos))
      else Byte.x00
  end.

(** What [Fs::read_at] promises. *)
Definition expected_bytes (d : gmap Z (list byte)) (m : amap) (l : list Z) (ino offset size : Z) : list byte :=
  match a_inode m l ino with
  | None => []
  | Some inode => byte_at d m l ino <$> seqZ offset (Z.min (offset + size) (i_size inode) - offset)
  end.

(** The extent invariant: offsets are aligned, an extent stays in its block and
    below [2 ^ 64], and its data block is one of [d]. *)
Record extent_fits (d : gmap Z (list byte)) (off : Z) (x : ExtentV1) : Prop := {
  xf_aligned : off mod 4096 = 0;
  xf_len : 0 ≤ x_len x ≤ 4096;
  xf_end : off + x_len x < 2 ^ 64;
  xf_block : ∃ b, d !! x_data_block x = Some b ∧ length b = BLOCK_SIZE;
}.
Definition extents_ok (m : amap) (d : gmap Z (list byte)) : Prop := ∀ ino off snap v,
  in_width 64 ino → in_width 64 off → in_width 32 snap →
  m (versioned (extent_key ino off) snap) = Some (v, Live) →
  ∃ x, extent_from_bytes v = Ok x ∧ extent_fits d off x.

Lemma extent_parses b : length b = 16%nat → is_Some (decoded extent_from_bytes (Some b)).
Proof. unfold decoded, extent_from_bytes. parses. Qed.

Lemma a_extent_fits m d l ino off x :
  extents_ok m d → Forall (in_width 32) l → in_width 64 ino → in_width 64 off →
  a_extent m l ino off = Some x → extent_fits d off x.
Proof.
  intros Hx Hl Hi Ho (v & (s & Hv & Hs)%seen_Some & Hp)%decoded_Some. rewrite Forall_forall in Hl.
  destruct (Hx ino off s v Hi Ho (Hl _ Hs) Hv) as (x' & Hp' & Hf). congruence.
Qed.

(** ** Extent keys *)
Lemma length_extent_key ino off : length (extent_key ino off) = 17%nat.
Proof. unfold extent_key. cbn [length]. by rewrite length_app, !length_to_be. Qed.

Lemma extent_key_inj i o i' o' :
  in_width 64 i → in_width 64 i' → in_width 64 o → in_width 64 o' →
  extent_key i o = extent_key i' o' → i = i' ∧ o = o'.
Proof.
  intros Hi Hi' Ho Ho' E. apply (f_equal (drop 1)) in E. cbn [extent_key drop] in E.
  apply app_inj_1 in E as [E1 E2]; [|by rewrite !length_to_be]. by split; apply to_be_8_inj.
Qed.

Lemma extent_key_of k b : length k = 17%nat → head k = Some b → b2z b = KIND_EXTENT →
  ∃ ino off, k = extent_key ino off ∧ in_width 64 ino ∧ in_width 64 off.
Proof.
  intros Hl Hh Hb. destruct k as [|c k]; [done|]. injection Hh as ->. injection Hl as Hl.
  exists (from_be (take 8 k)), (from_be (drop 8 k)). split_and!.
  - unfold extent_key. rewrite <- Hb, z2b_b2z. f_equal.
    rewrite !to_from_be_len by (rewrite ?length_take, ?length_drop; lia). by rewrite take_drop.
  - pose proof (from_be_range (take 8 k)) as Hr. by rewrite length_take_le in Hr by lia.
  - pose proof (from_be_range (drop 8 k)) as Hr. by rewrite length_drop, Hl in Hr.
Qed.

Lemma extent_key_ltb i o s j p :
  in_width 64 i → in_width 64 o → in_width 64 j → in_width 64 p →
  bytes_ltb (versioned (extent_key i o) s) (versioned (extent_key j p) 0) = (i <? j) || ((i =? j) && (o <? p)).
Proof.
  intros Hi Ho Hj Hp. unfold versioned, extent_key. cbn [app]. rewrite <- !app_assoc, ltb_same_kind by done.
  destruct (Z.ltb_spec i j), (Z.eqb_spec i j); try lia; cbn [orb andb]; try done.
  unfold bytes_ltb. rewrite (bytes_cmp_to_be_app 8) by done. destruct (Z.compare_spec o p), (Z.ltb_spec o p); try lia; try done.
  apply bytes_ltb_zeros. by rewrite length_to_be.
Qed.

Lemma extent_scanned i a b j o s :
  in_width 64 i → in_width 64 a → in_width 64 b → in_width 64 j → in_width 64 o →
  scanned (versioned (extent_key i a) 0) (versioned (extent_key i b) 0) (versioned (extent_key j o) s) ↔
  j = i ∧ a ≤ o < b.
Proof.
  intros Hi Ha Hb Hj Ho. unfold scanned. rewrite <- bytes_ltb_false, <- bytes_ltb_true, !extent_key_ltb by done.
  destruct (Z.ltb_spec j i), (Z.eqb_spec j i), (Z.ltb_spec o a), (Z.ltb_spec o b); cbn; split; intros; try lia; destruct_and?; try done; lia.
Qed.

(** What lies in an extent range is an extent. *)
Lemma extent_range_keys m i a j b k s :
  typed m → is_Some (m (versioned k s)) →
  scanned (versioned (extent_key i a) 0) (versioned (extent_key j b) 0) (versioned k s) →
  length k = 17%nat ∧ ∃ ino off, k = extent_key ino off ∧ in_width 64 ino ∧ in_width 64 off.
Proof.
  intros Hm [r Hr] Hsc. pose proof (Hm _ _ Hr) as Ht. unfold row_typed in Ht.
  destruct (versioned k s) as [|c z] eqn:E; [done|]. unfold extent_key, versioned in Hsc. cbn [app] in Hsc.
  apply range_kind in Hsc as ->. change (layout (b2z (z2b KIND_EXTENT))) with (Some (17, 17, 16)%nat) in Ht. cbn beta iota in Ht.
  destruct Ht as [Ht _]. rewrite <- E in Ht. unfold versioned in Ht. rewrite length_app, length_to_be in Ht.
  destruct k as [|c k]; [cbn in Ht; lia|]. injection E as -> _. split; [lia|].
  eapply extent_key_of; [lia|done|done].
Qed.

(** ** Data blocks of the store *)
Section store_data.
Context {D : Type} `{!BlockDevice D} `{!BlockDeviceLaws D} `{!BlockDeviceTotal D} `{!Crc32} `{!Crc32Range}.
Implicit Types s : BlockStore D.

Lemma read_data_reads s nr b : data_at s nr b → ∃ s', read_data nr s = (Ok b, s') ∧ same_heap s s'.
Proof.
  intros [Hr Hc]. unfold read_data. rewrite gets_bind. destruct Hc as [Hc|Hc]; rewrite Hc; [|by exists s].
  unfold device_read, mbind, M_bind. rewrite Hr. cbn [map_err]. eexists. split; [done|].
  split; [done..| |done|done|by intros []|done]. intros k c. unfold data_at. cbn [set_data_cache data_cache device].
  destruct (decide (k = nr)) as [->|Hne]; [|by rewrite lookup_insert_ne].
  rewrite lookup_insert_eq, Hc, Hr. split; intros [[= <-] _]; auto.
Qed.

(** A block is allocated and filled: nothing held before changes. *)
Lemma alloc_data_ok s b n :
  room s (1 + n) → 0 ≤ n → length b = BLOCK_SIZE →
  ∃ nr s1 s2, alloc s = (Ok nr, s1) ∧ write_data nr b s1 = (Ok tt, s2) ∧ evolves nowhere s s2 ∧ room s2 n ∧
    ¬ held s nr ∧ held s2 nr ∧ data_at s2 nr b.
Proof using All.
  intros Hr Hn Hb. destruct (alloc_ev s n Hr Hn) as (nr & s1 & E1 & Hev & Hr1 & Hnh & Hh).
  destruct (write_total b (block_offset nr) (device s1)) as [d' Hd].
  exists nr, s1. eexists. split; [done|]. split.
  { unfold write_data, on_device, mapping_err, zoom, mbind, M_bind. rewrite Hd. cbn [map_err]. done. }
  pose proof (held_block_ok _ _ _ Hr1 Hh) as Hok.
  assert (∀ k, block_ok k → k ≠ nr → same_bytes k (device s1) d') as Hsame.
  { intros k Hk Hne. by apply (write_same_bytes k nr b). }
  assert (∀ k bs, block_ok k → k ≠ nr → read_at BLOCK_SIZE (block_offset k) (device s1) = Ok bs →
    read_at BLOCK_SIZE (block_offset k) d' = Ok bs) as Hdev.
  { intros k bs Hk Hne. by apply same_bytes_block, Hsame. }
  assert (∀ k, held s k → k ≠ nr) as Hne by (by intros k Hk ->).
  assert (∀ k, fixed s k → k ≠ nr) as Hnf by (intros k Hk ->; by apply (fresh_not_fixed s s1 nr (ev_chain _ _ _ _ Hev)) in Hk).
  destruct (alloc_same _ _ _ E1) as (Ec & _ & Ed & _). split_and!; [|destruct Hr1 as ([] & ? & ?); by split|done|done|].
  - destruct Hev. split; [done| | | |done|done| |done|done].
    + intros k x Hk _ Hl. apply ev_loads in Hl as [Hkh Hl]; [|done|by intros []]. split; [done|].
      cbn [set_data_cache set_device node_cache device]. destruct (node_cache s1 !! k); [done|].
      destruct Hl as (bs & Hrd & ? & ?). exists bs. split; [|done]. apply Hdev; [|by apply Hne|done].
      by eapply held_block_ok; [exact Hr1|apply ev_held].
    + intros k Hk Hv Hkb. etransitivity; [by apply ev_dev|]. apply Hsame; [done|by apply Hnf].
    + intros k c Hk Hv Hkb Hda. apply ev_data in Hda as [Hrd Hc]; [|done|done|done].
      split; [apply Hdev; [done|by apply Hne|done]|]. cbn [set_data_cache data_cache]. by rewrite lookup_insert_ne by (by apply not_eq_sym, Hne).
    + intros Hs. pose proof (ev_ok Hs) as [H1 H2]. split; [exact H1|]. intros k c. cbn [set_data_cache set_device node_cache].
      intros Hk Hc. destruct (H2 k c Hk Hc) as (bs & Hrd & ?). exists bs. split; [|done].
      assert (held s k) as Hks by (apply (so_held _ Hs); rewrite Ec in Hk; by exists c).
      apply Hdev; [eapply held_block_ok; [exact Hr1|by apply ev_held]|by apply Hne|done].
  - split; cbn [set_data_cache set_device data_cache device]; [|rewrite lookup_insert_eq; by right].
    rewrite <- Hb at 1. eapply read_write_same; [apply block_offset_nonneg|exact Hd].
Qed.

Lemma evolves_models s s' q root m : evolves nowhere s s' → models s q root m → models s' q root m.
Proof.
  intros Hev (h & t & Ht & Hm). exists h, t. split; [|done]. eapply tree_at_evolves; [exact Hev|by intros k _ []|reflexivity|done].
Qed.
End store_data.

(** ** States with file data *)
Section file_models.
Context {D : Type} `{!BlockDevice D} `{!BlockDeviceLaws D} `{!BlockDeviceTotal D} `{!Crc32} `{!Crc32Range}.
Implicit Types fs : Fs D.

Record file_models fs (m : amap) (d : gmap Z (list byte)) (n : Z) : Prop := {
  fl_fs : fs_models fs m n;
  fl_ext : extents_ok m d;
  fl_blocks nr b : d !! nr = Some b → stored (tree fs) nr b;
}.

Lemma file_kept fs fs' m m' d n n' :
  file_models fs m d n → fs_models fs' m' n' → extents_ok m' d → kept (tree fs) (tree fs') → file_models fs' m' d n'.
Proof.
  intros [Hfs _ Hb] Hfs' Hx Hk. split; [done|done|]. intros nr b Hnr.
  eapply kept_shelters; [apply Hfs|exact Hk|by apply Hb].
Qed.
Lemma file_quiet fs fs' m d n : file_models fs m d n → fs_models fs' m n → fs_quiet fs fs' → file_models fs' m d n.
Proof. intros Hf Hfs' [_ Hq]. eapply file_kept; [done|done|apply Hf|by apply same_log_kept]. Qed.

(** [dreads m d cur c a]: on any state with map [m] and data [d], [c] returns a
    value in [P] and changes nothing but caches. *)
Definition dreads {E A} (m : amap) (d : gmap Z (list byte)) (cur : Z) (c : M (Fs D) E A) (P : A → Prop) : Prop := ∀ fs n,
  file_models fs m d n → current_subvol fs = cur →
  ∃ a fs', c fs = (Ok a, fs') ∧ P a ∧ file_models fs' m d n ∧ fs_quiet fs fs'.

Lemma dreads_ret {E A} m d cur (a : A) (P : A → Prop) : P a → dreads (E := E) m d cur (mret a) P.
Proof. intros HP fs n Hf Hcur. exists a, fs. by split_and!; [|done|done|apply fs_quiet_refl]. Qed.
Lemma dreads_lift {E A} m d cur (c : outcome E A) a (P : A → Prop) : c = Ok a → P a → dreads m d cur (lift c) P.
Proof. intros ->. apply dreads_ret. Qed.
Lemma dreads_bind {E A B} m d cur (c : M (Fs D) E A) (k : A → M (Fs D) E B) P Q :
  dreads m d cur c P → (∀ a, P a → dreads m d cur (k a) Q) → dreads m d cur (c ≫= k) Q.
Proof.
  intros Hc Hk fs n Hf Hcur. destruct (Hc fs n Hf Hcur) as (a & fs1 & E1 & HP & Hf1 & Hq1).
  destruct (Hk a HP fs1 n Hf1) as (b & fs2 & E2 & HQ & Hf2 & Hq2); [by rewrite (fs_quiet_subvol _ _ Hq1)|].
  exists b, fs2. rewrite (M_bind_ok _ _ _ _ _ E1). split_and!; [done|done|done|by eapply fs_quiet_trans].
Qed.
Lemma reads_dreads {E A} m d cur (c : M (Fs D) E A) a (P : A → Prop) : reads m cur c a → P a → dreads m d cur c P.
Proof.
  intros Hc HP fs n Hf Hcur. destruct (Hc fs n (fl_fs _ _ _ _ Hf) Hcur) as (fs1 & E1 & Hfs1 & Hq1).
  exists a, fs1. split_and!; [done|done|by eapply file_quiet|done].
Qed.
Lemma reads_some_dreads {E A} m d cur (c : M (Fs D) E A) (P : A → Prop) : reads_some m cur c P → dreads m d cur c P.
Proof.
  intros Hc fs n Hf Hcur. destruct (Hc fs n (fl_fs _ _ _ _ Hf) Hcur) as (a & fs1 & E1 & HP & Hfs1 & Hq1).
  exists a, fs1. split_and!; [done|done|by eapply file_quiet|done].
Qed.
Lemma dreads_expecting {A} m d cur (c : M (Fs D) error A) P : dreads m d cur c P → dreads m d cur (expecting c) P.
Proof.
  intros Hc fs n Hf Hcur. destruct (Hc fs n Hf Hcur) as (a & fs1 & E1 & H1). exists a, fs1. unfold expecting. by rewrite E1.
Qed.

Lemma read_block_reads m d cur nr b : d !! nr = Some b → dreads m d cur (read_data_block nr) (eq b).
Proof.
  intros Hd fs n Hf Hcur. destruct (fl_blocks _ _ _ _ Hf nr b Hd) as (_ & Hda & _).
  destruct (read_data_reads _ _ _ Hda) as (s' & E & Hs).
  destruct (read_models _ _ _ _ Hs (fm_bt _ _ _ (fl_fs _ _ _ _ Hf))) as [Hbt Hl].
  exists b, (set_tree (set_store s' (tree fs)) fs).
  assert (fs_quiet fs (set_tree (set_store s' (tree fs)) fs)) as Hq by done.
  split_and!; [|done|eapply file_quiet; [done|split; [done|apply Hf]|done]|done].
  unfold read_data_block, on_fs_store, on_tree, in_store, zoom. by rewrite E.
Qed.
End file_models.

(** ** Reading *)
Definition parse_extent '((k, v) : list byte * list byte) : res (Z * ExtentV1) :=
  offset ← extent_offset_from_key k; x ← extent_from_bytes v; Ok (offset, x).

(** [exts] are the extents of [ino] in [a, b) that the chain sees. *)
Definition extents_exact (m : amap) (l : list Z) (ino a b : Z) (exts : list (Z * ExtentV1)) : Prop := ∀ off x,
  (off, x) ∈ exts ↔ in_width 64 off ∧ a ≤ off < b ∧ a_extent m l ino off = Some x.

Lemma a_extent_visible m l ino off x :
  a_extent m l ino off = Some x ↔
  ∃ v s, a_visible m (extent_key ino off) l = Some (v, s) ∧ extent_from_bytes v = Ok x.
Proof.
  unfold a_extent, seen, decoded. split.
  - destruct (a_visible m (extent_key ino off) l) as [[v s]|]; [|done]. cbn.
    destruct (extent_from_bytes v) eqn:E; try done. intros [= <-]. eauto.
  - intros (v & s & -> & E). cbn. by rewrite E.
Qed.

(** The rows of a scan of one file's extents, parsed. *)
Lemma parse_extents_ok m l ino a b out :
  typed m → in_width 64 ino → in_width 64 a → in_width 64 b → chain_ok l →
  visible_list m l (extent_key ino a) (extent_key ino b) out →
  ∃ exts, mapM parse_extent ((λ '(k, _, v), (k, v)) <$> out) = Ok exts ∧ extents_exact m l ino a b exts.
Proof.
  intros Hm Hi Ha Hb [_ Hw] [_ Hx]. rewrite Forall_forall in Hw.
  set (kvs := (λ '(k, _, v), (k, v)) <$> out).
  assert (∀ k v, (k, v) ∈ kvs → ∃ off x s, k = extent_key ino off ∧ in_width 64 off ∧ a ≤ off < b ∧
    a_visible m k l = Some (v, s) ∧ extent_from_bytes v = Ok x ∧ parse_extent (k, v) = Ok (off, x)) as Hkv.
  { intros k v ([[k' s] v'] & [= -> ->] & Hin)%list_elem_of_fmap. apply Hx in Hin as [Hvis Hsc].
    pose proof Hvis as [Hst Hin]%a_visible_Some.
    destruct (extent_range_keys m _ _ _ _ k' s Hm ltac:(by eexists) Hsc) as (_ & ino' & off & -> & Hi' & Ho).
    apply extent_scanned in Hsc as [-> [Hof1 Hof2]]; [|done..].
    assert (length v' = 16%nat) as Hlv by (eapply typed_size; [exact Hm|exact Hst|reflexivity|reflexivity]).
    destruct (extent_parses v' Hlv) as [x Hpx]. cbn in Hpx. destruct (extent_from_bytes v') as [x'| | |] eqn:Ex; try done.
    exists off, x', s. split_and!; [done..|]. unfold parse_extent. rewrite extent_offset_key by done. mred. by rewrite Ex. }
  destruct (mapM_ok parse_extent kvs) as (exts & E & HF).
  { intros [k v] Hin. destruct (Hkv k v Hin) as (off & x & s & _ & _ & _ & _ & _ & Ep). eauto. }
  exists exts. split; [done|]. intros off x. rewrite a_extent_visible. split.
  - intros [i Hi']%list_elem_of_lookup. destruct (Forall2_lookup_r _ _ _ _ _ HF Hi') as ([k v] & Hk & Ep).
    destruct (Hkv k v) as (off' & x' & s & -> & ? & ? & ? & Ex & Ep'); [by eapply list_elem_of_lookup_2|].
    assert (off' = off ∧ x' = x) as [-> ->] by (rewrite Ep in Ep'; by injection Ep'). split_and!; [done|lia|lia|]. eauto.
  - intros (Ho & Hr & v & s & Hvis & Ex).
    assert ((extent_key ino off, v) ∈ kvs) as [i Hk]%list_elem_of_lookup.
    { apply list_elem_of_fmap. exists (extent_key ino off, s, v). split; [done|]. apply Hx. split; [done|]. by apply extent_scanned. }
    destruct (Forall2_lookup_l _ _ _ _ _ HF Hk) as ([off' x'] & Hi' & Ep).
    unfold parse_extent in Ep. rewrite extent_offset_key in Ep by done. revert Ep. mred. rewrite Ex. mred. intros [= <- <-].
    by eapply list_elem_of_lookup_2.
Qed.

Section read.
Context {D : Type} `{!BlockDevice D} `{!BlockDeviceLaws D} `{!BlockDeviceTotal D} `{!Crc32} `{!Crc32Range}.
Context (m : amap) (d : gmap Z (list byte)) (cur s : Z) (l : list Z) (Hm : typed m) (Hx : extents_ok m d) (Hv : view m cur s l).
Abbreviation dreads := (dreads (D := D) m d cur).

Lemma chain_width : Forall (in_width 32) l.
Proof using Hv. by apply (view_chain_ok _ _ _ _ Hv). Qed.

Lemma extents_in_range_reads ino a b :
  in_width 64 ino → in_width 64 a → in_width 64 b → dreads (extents_in_range ino a b) (extents_exact m l ino a b).
Proof using All.
  intros Hi Ha Hb. unfold extents_in_range. destruct (Z.leb_spec b a).
  { apply dreads_ret. intros off x. split; [by intros ?%elem_of_nil|lia]. }
  eapply dreads_bind; [eapply (reads_dreads _ _ _ _ _ (eq l)); [by eapply current_chain_reads|done]|]. intros ? <-.
  pose proof (view_chain_ok _ _ _ _ Hv) as Hc. unfold collect_extents.
  eapply (dreads_bind _ _ _ _ _ (λ kvs, ∃ out, kvs = (λ '(k, _, v), (k, v)) <$> out ∧ visible_list m l (extent_key ino a) (extent_key ino b) out)).
  { apply reads_some_dreads, reads_some_on_tree. intros bt n Hbt.
    destruct (visible_scan_ok bt m n (extent_key ino a) (extent_key ino b) l Hbt) as (bt' & out & _ & ? & ? & ? & Hvl);
      [rewrite length_extent_key; consts; lia|rewrite length_extent_key; consts; lia|done| | |].
    - apply (uniform_nothing_between _ _ _ 17). intros k sn Hs Hsc Hk. by eapply extent_range_keys.
    - apply long_whole_keys. intros k sn Hs Hk Hsc. destruct (extent_range_keys _ _ _ _ _ _ _ Hm Hk Hsc) as [-> _].
      rewrite !length_extent_key. lia.
    - eexists bt', _. split_and!; [done|done|done|]. by exists out. }
  intros kvs (out & -> & Hvl). destruct (parse_extents_ok m l ino a b out) as (exts & E & Hex); [done..|].
  by apply dreads_lift with exts.
Qed.

(** Buffer [out] stands for positions from [offset] on; the blocks in [S] are
    filled in, the rest is zero. *)
Definition filled (ino offset : Z) (S : list Z) (out : list byte) : Prop := ∀ i, (i < length out)%nat →
  out !! i = Some (if decide (block_floor (offset + Z.of_nat i) ∈ S) then byte_at d m l ino (offset + Z.of_nat i) else Byte.x00).

(** A block that shows only zeros need not be filled in. *)
Lemma filled_skip (f o : Z) S (v : byte) :
  (f = o → v = Byte.x00) →
  (if decide (f ∈ S) then v else Byte.x00) = if decide (f ∈ o :: S) then v else Byte.x00.
Proof using Type.
  intros Hv'. destruct (decide (f ∈ S)) as [Hi|Hi], (decide (f ∈ o :: S)) as [Hj|Hj]; try done.
  - destruct Hj. by right.
  - apply elem_of_cons in Hj as [->|?]; [by rewrite Hv'|done].
Qed.

Lemma filled_zeros ino offset n : filled ino offset [] (replicate n Byte.x00).
Proof. intros i Hi. rewrite length_replicate in Hi. rewrite decide_False by (by intros ?%elem_of_nil). by apply lookup_replicate_2. Qed.

Lemma byte_at_extent ino o x b p :
  a_extent m l ino o = Some x → extent_fits d o x → d !! x_data_block x = Some b → o ≤ p < o + 4096 →
  byte_at d m l ino p = if p - o <? x_len x then default Byte.x00 (b !! Z.to_nat (p - o)) else Byte.x00.
Proof using Type.
  intros He Hf Hb Hp. unfold byte_at. rewrite (block_floor_of o p (xf_aligned _ _ _ Hf) Hp), He, Hb. done.
Qed.

Lemma copy_extent_reads ino offset stop S out o x :
  in_width 64 o → a_extent m l ino o = Some x → extent_fits d o x →
  0 ≤ offset ≤ stop → filled ino offset S out → length out = Z.to_nat (stop - offset) →
  dreads (copy_extent offset stop out (o, x)) (λ out', filled ino offset (o :: S) out' ∧ length out' = length out).
Proof using Type.
  intros Ho He Hf Hr Hout Hlen. pose proof (xf_len _ _ _ Hf) as Hxl. pose proof (xf_end _ _ _ Hf) as Hxe.
  destruct (xf_block _ _ _ Hf) as (b & Hb & Hbl). unfold in_width in Ho.
  assert (u64 (o + x_len x) = o + x_len x) as Eend by (apply wrap_small; unfold in_width; lia).
  assert (∀ i, block_floor (offset + Z.of_nat i) = o → ¬ (offset + Z.of_nat i - o < x_len x) →
    byte_at d m l ino (offset + Z.of_nat i) = Byte.x00) as Hpast.
  { intros i Hi Hge. pose proof (block_floor_bounds (offset + Z.of_nat i)).
    rewrite (byte_at_extent ino o x b) by (done || lia). by rewrite (proj2 (Z.ltb_nlt _ _)). }
  unfold copy_extent. rewrite Eend. destruct (Z.leb_spec (o + x_len x) offset), (Z.leb_spec stop o); cbn [orb].
  1-3: apply dreads_ret; split; [|done]; intros i Hi; rewrite (Hout i Hi); f_equal; apply filled_skip;
    intros E; pose proof (block_floor_bounds (offset + Z.of_nat i)); apply Hpast; [done|lia].
  change BLOCK_SIZE with 4096%nat in Hbl.
  eapply dreads_bind; [apply dreads_expecting; by apply read_block_reads|]. intros ? <-.
  eapply dreads_bind; [eapply (dreads_lift _ _ _ _ _ (eq _)); [apply slice_ok; lia|done]|]. intros ? <-.
  set (src := take _ _). assert (length src = Z.to_nat (Z.min stop (o + x_len x) - Z.max offset o)) as Hsl
    by (unfold src; rewrite length_take, length_drop; lia).
  eapply dreads_lift; [apply splice_ok; lia|]. split; [|apply length_overwrite; lia].
  intros i Hi. rewrite length_overwrite in Hi by lia. rewrite lookup_overwrite by lia. rewrite Hsl.
  pose proof (block_floor_bounds (offset + Z.of_nat i)). case_decide as Hc.
  - assert (block_floor (offset + Z.of_nat i) = o) as E by (apply block_floor_of; [apply Hf|lia]).
    rewrite decide_True by (rewrite E; by left). rewrite (byte_at_extent ino o x b) by (done || lia).
    rewrite (proj2 (Z.ltb_lt _ _)) by lia. unfold src. rewrite lookup_take_lt, lookup_drop by lia.
    assert (is_Some (b !! Z.to_nat (offset + Z.of_nat i - o))) as [y Hy] by (apply lookup_lt_is_Some; lia).
    rewrite Hy. cbn. rewrite <- Hy. f_equal. lia.
  - rewrite (Hout i Hi). f_equal. apply filled_skip. intros E. apply Hpast; [done|lia].
Qed.

Lemma copy_extents_reads ino offset stop exts S out :
  (∀ o x, (o, x) ∈ exts → in_width 64 o ∧ a_extent m l ino o = Some x ∧ extent_fits d o x) →
  0 ≤ offset ≤ stop → filled ino offset S out → length out = Z.to_nat (stop - offset) →
  dreads (foldM (copy_extent offset stop) out exts)
    (λ out', filled ino offset (reverse (fst <$> exts) ++ S) out' ∧ length out' = length out).
Proof using Type.
  intros Hex Hr. revert S out. induction exts as [|[o x] exts IH]; intros S out Hout Hlen; cbn [foldM].
  { by apply dreads_ret. }
  destruct (Hex o x ltac:(by left)) as (Ho & He & Hf).
  eapply dreads_bind; [by eapply copy_extent_reads|]. intros out1 [H1 L1]. rewrite <- L1, fmap_cons, reverse_cons, <- app_assoc.
  apply IH; [|done|congruence]. intros o' x' Hin. apply Hex. by right.
Qed.

Lemma filled_all ino offset stop S out :
  (∀ p, offset ≤ p < stop → block_floor p ∈ S ∨ a_extent m l ino (block_floor p) = None) →
  filled ino offset S out → length out = Z.to_nat (stop - offset) →
  out = byte_at d m l ino <$> seqZ offset (stop - offset).
Proof using Type.
  intros HS Hout Hlen. apply list_eq_same_length with (n := length out); [by rewrite length_fmap, length_seqZ, Hlen|done|].
  intros i a a' Hi Ha Ha'. rewrite (Hout i Hi) in Ha. injection Ha as <-. rewrite list_lookup_fmap, lookup_seqZ_lt in Ha' by lia.
  injection Ha' as <-. case_decide as Hd; [done|]. destruct (HS (offset + Z.of_nat i)) as [?|E]; [lia|done|].
  unfold byte_at. by rewrite E.
Qed.

Lemma read_at_reads ino offset size :
  in_width 64 ino → 0 ≤ offset → 0 ≤ size → offset + size < 2 ^ 64 →
  dreads (fs_read_at ino offset size) (eq (expected_bytes d m l ino offset size)).
Proof using All.
  intros Hi Ho Hs Hsum. unfold fs_read_at, expected_bytes.
  eapply dreads_bind; [eapply (reads_dreads _ _ _ _ _ (eq _)); [by eapply get_inode_reads|done]|]. intros ? <-.
  destruct (a_inode m l ino) as [inode|]; [|by apply dreads_ret].
  destruct (Z.leb_spec (i_size inode) offset).
  { apply dreads_ret. rewrite (seqZ_nil offset) by lia. done. }
  assert (u64 (offset + size) = offset + size) as -> by (apply wrap_small; unfold in_width; lia).
  set (stop := Z.min (offset + size) (i_size inode)).
  assert (u64 (stop - offset) = stop - offset) as -> by (apply wrap_small; unfold in_width; lia).
  pose proof (block_floor_bounds offset). pose proof (block_floor_nonneg offset Ho).
  eapply dreads_bind; [apply (extents_in_range_reads ino (block_floor offset) stop); unfold in_width in *; lia|].
  intros exts Hex. assert (∀ o x, (o, x) ∈ exts → in_width 64 o ∧ a_extent m l ino o = Some x ∧ extent_fits d o x) as Hall.
  { intros o x (Hw & _ & He)%Hex. split_and!; [done|done|]. by apply (a_extent_fits m d l ino o x Hx chain_width). }
  intros fs n Hf Hcur.
  destruct (copy_extents_reads ino offset stop exts [] _ Hall ltac:(lia) (filled_zeros ino offset (Z.to_nat (stop - offset)))
    (length_replicate _ _) fs n Hf Hcur) as (out & fs' & E & [Hout Hlen] & Hf' & Hq).
  exists out, fs'. split_and!; [exact E| |done|done]. symmetry. rewrite length_replicate in Hlen.
  eapply filled_all; [|exact Hout|done]. intros p Hp. destruct (a_extent m l ino (block_floor p)) as [x|] eqn:E'; [|by right]. left.
  rewrite app_nil_r, elem_of_reverse. apply list_elem_of_fmap. exists (block_floor p, x). split; [done|]. apply Hex.
  pose proof (block_floor_bounds p). pose proof (block_floor_mono offset p ltac:(lia)).
  unfold in_width in *. split_and!; [lia|lia|lia|lia|done].
Qed.
End read.

(** ** Computations that write *)
Section dwrites.
Context {D : Type} `{!BlockDevice D} `{!BlockDeviceLaws D} `{!BlockDeviceTotal D} `{!Crc32} `{!Crc32Range}.
Implicit Types fs : Fs D.

(** From map [m] and data [d], with budget [k], [c] returns a value after tree
    writes [ops] that leave data [d'], as [P] says, and changes nothing else. *)
Definition dwrites {E A} (m : amap) (d : gmap Z (list byte)) (cur k : Z) (c : M (Fs D) E A)
    (P : A → list wop → gmap Z (list byte) → Prop) : Prop := ∀ fs n,
  file_models fs m d (k + n) → 0 ≤ n → current_subvol fs = cur →
  ∃ a ops d' fs', c fs = (Ok a, fs') ∧ P a ops d' ∧ file_models fs' (a_run ops m) d' n ∧
    fs' = set_tree (tree fs') fs ∧ log (tree fs') = log_after (tree fs) ops m ∧ kept (tree fs) (tree fs').

Lemma log_after_nil (bt : Btree D) m : log_after bt [] m = log bt.
Proof. unfold log_after. cbn. destruct (logging bt); by rewrite app_nil_r. Qed.

Lemma dwrites_ret {E A} m d cur (a : A) (P : A → list wop → gmap Z (list byte) → Prop) :
  P a [] d → dwrites (E := E) m d cur 0 (mret a) P.
Proof.
  intros HP fs n Hf Hn Hcur. exists a, [], d, fs. rewrite log_after_nil. by split_and!; [|done|done|destruct fs|done|apply kept_refl].
Qed.

Lemma dreads_dwrites {E A B} m d cur k (c : M (Fs D) E A) (f : A → M (Fs D) E B) P Q :
  dreads m d cur c P → (∀ a, P a → dwrites m d cur k (f a) Q) → dwrites m d cur k (c ≫= f) Q.
Proof.
  intros Hc Hk fs n Hf Hn Hcur. destruct (Hc fs _ Hf Hcur) as (a & fs1 & E1 & HP & Hf1 & Hq1).
  destruct (Hk a HP fs1 n Hf1 Hn) as (b & ops & d' & fs2 & E2 & HQ & Hf2 & T2 & L2 & K2); [by rewrite (fs_quiet_subvol _ _ Hq1)|].
  destruct Hq1 as [T1 Hq1]. exists b, ops, d', fs2. rewrite (M_bind_ok _ _ _ _ _ E1). pose proof Hq1 as [L1 G1 _].
  split_and!; [done|done|done|by rewrite T2, T1 at 1| |by eapply kept_trans; [apply same_log_kept|]].
  rewrite L2. unfold log_after. by rewrite L1, G1.
Qed.

Lemma dwrites_bind {E A B} m d cur k1 k2 (c : M (Fs D) E A) (f : A → M (Fs D) E B) P Q :
  0 ≤ k2 → dwrites m d cur k1 c P →
  (∀ a ops d', P a ops d' → dwrites (a_run ops m) d' cur k2 (f a) (λ b ops', Q b (ops ++ ops'))) →
  dwrites m d cur (k1 + k2) (c ≫= f) Q.
Proof.
  intros Hk2 Hc Hk fs n Hf Hn Hcur. rewrite <- Z.add_assoc in Hf.
  destruct (Hc fs _ Hf ltac:(lia) Hcur) as (a & ops & d1 & fs1 & E1 & HP & Hf1 & T1 & L1 & K1).
  destruct (Hk a ops d1 HP fs1 n Hf1 Hn) as (b & ops' & d2 & fs2 & E2 & HQ & Hf2 & T2 & L2 & K2); [by rewrite T1|].
  exists b, (ops ++ ops'), d2, fs2. rewrite (M_bind_ok _ _ _ _ _ E1), a_run_app.
  split_and!; [done|done|done|by rewrite T2, T1 at 1| |by eapply kept_trans].
  rewrite L2. unfold log_after. rewrite L1, (kp_logging _ _ K1), log_of_app. unfold log_after.
  destruct (logging (tree fs)); by rewrite ?app_nil_r, <- ?app_assoc.
Qed.

Lemma dwrites_weaken {E A} m d cur k k' (c : M (Fs D) E A) (P Q : A → list wop → gmap Z (list byte) → Prop) :
  0 ≤ k ≤ k' → dwrites m d cur k c P → (∀ a ops d', P a ops d' → Q a ops d') → dwrites m d cur k' c Q.
Proof.
  intros Hk Hc HPQ fs n [Hfs Hx Hb] Hn Hcur. destruct (Hc fs n) as (a & ops & d' & fs' & E1 & HP & H1); [|done|done|].
  - split; [|done|done]. eapply fs_models_weaken; [|exact Hfs]. lia.
  - exists a, ops, d', fs'. auto.
Qed.
End dwrites.

(** ** Putting one extent *)
Definition extent_of (len nr : Z) : ExtentV1 := {| x_len := len; x_pad := zeros 4; x_data_block := nr |}.
Definition extent_put (ino off s len nr : Z) : wop := WPut (extent_key ino off) s Live (extent_as_bytes (extent_of len nr)).
(** A block image: the data, zero-padded. *)
Definition padded (data : list byte) : list byte := overwrite (replicate BLOCK_SIZE Byte.x00) 0 data.

Lemma length_extent_bytes x : length (x_pad x) = 4%nat → length (extent_as_bytes x) = 16%nat.
Proof. intros Hx. unfold extent_as_bytes. by rewrite !length_app, !length_to_le, Hx. Qed.
Lemma extent_put_ok ino off s len nr : wop_ok (extent_put ino off s len nr).
Proof. unfold extent_put. cbn [wop_ok]. rewrite length_extent_key. consts. lia. Qed.
Lemma extent_put_typed ino off s len nr : wop_typed (extent_put ino off s len nr).
Proof.
  split; [rewrite length_extent_bytes by done; consts; lia|].
  eapply row_typed_intro; [reflexivity|rewrite length_app, !length_to_be; lia|]. intros _. by apply length_extent_bytes.
Qed.
Lemma extent_put_local ino off s len nr : local_op s (extent_put ino off s len nr).
Proof. left. split; [right; by right|done]. Qed.

Lemma length_padded data : (length data ≤ BLOCK_SIZE)%nat → length (padded data) = BLOCK_SIZE.
Proof. intros Hl. unfold padded. by rewrite length_overwrite; rewrite length_replicate. Qed.
Lemma lookup_padded data i :
  (length data ≤ BLOCK_SIZE)%nat → (i < BLOCK_SIZE)%nat → padded data !! i = Some (default Byte.x00 (data !! i)).
Proof.
  intros Hl Hi. unfold padded. rewrite lookup_overwrite by (by rewrite length_replicate). case_decide as Hc.
  - rewrite Nat.sub_0_r. by destruct (lookup_lt_is_Some_2 data i) as [y ->]; [lia|].
  - rewrite lookup_replicate_2 by done. by rewrite lookup_ge_None_2 by lia.
Qed.

Lemma extents_ok_mono m d d' : extents_ok m d → d ⊆ d' → extents_ok m d'.
Proof.
  intros Hx Hd ino off sn v Hi Ho Hs Hm. destruct (Hx ino off sn v Hi Ho Hs Hm) as (x & E & []). exists x.
  split; [done|]. split; [done..|]. destruct xf_block0 as (b & Hb & ?). exists b. split; [|done]. by eapply lookup_weaken.
Qed.

Lemma extent_put_extents_ok m d ino off s len nr b :
  extents_ok m d → in_width 64 ino → in_width 64 off → in_width 32 s →
  off mod 4096 = 0 → 0 ≤ len ≤ 4096 → off + len < 2 ^ 64 → in_width 64 nr → d !! nr = None → length b = BLOCK_SIZE →
  extents_ok (a_run [extent_put ino off s len nr] m) (<[nr := b]> d).
Proof.
  intros Hx Hi Ho Hs Hmod Hlen Hend Hnr Hd Hb ino' off' sn v Hi' Ho' Hsn. cbn [a_run foldl extent_put a_wop]. unfold a_put.
  case_decide as Hk.
  - apply versioned_inj in Hk as [[<- <-]%extent_key_inj <-]; [|done..].
    rewrite take_ge by (rewrite length_extent_bytes by done; consts; lia). intros [= <-].
    exists (extent_of len nr). split.
    + apply extent_round_trip. split; [|by split]. unfold in_width. cbn [extent_of x_len]. lia.
    + split; [done|done|done|]. exists b. cbn. by rewrite lookup_insert_eq.
  - intros Hv. exact (extents_ok_mono m d _ Hx (insert_subseteq d nr b Hd) ino' off' sn v Hi' Ho' Hsn Hv).
Qed.

(** A block is allocated and written: the map is the same, the block holds the data,
    and every block that held data still does. *)
Lemma alloc_block_stored {D : Type} `{!BlockDevice D} `{!BlockDeviceLaws D} `{!BlockDeviceTotal D} `{!Crc32} `{!Crc32Range} (fs : Fs D) m n b :
  fs_models fs m (1 + n) → 0 ≤ n → length b = BLOCK_SIZE →
  ∃ nr fs1 fs2, alloc_data_block fs = (Ok nr, fs1) ∧ on_fs_store (write_data nr b) fs1 = (Ok tt, fs2) ∧
    fs_models fs2 m n ∧ stored (tree fs2) nr b ∧ ¬ held (store (tree fs)) nr ∧ in_width 64 nr ∧ fs2 = set_tree (tree fs2) fs ∧
    same_log (D := D) (tree fs) (tree fs2).
Proof.
  intros Hf Hn Hb. pose proof Hf as [[Hmo [Hr Hn0 Hq]] Hty]. unfold OP_BLOCKS in *.
  destruct (alloc_data_ok (store (tree fs)) b (216 * n)) as (nr & s1 & s2 & E1 & E2 & Hev & Hr2 & Hnh & Hh & Hda);
    [eapply room_weaken; [exact Hr|lia]|lia|done|].
  exists nr, (set_tree (set_store s1 (tree fs)) fs), (set_tree (set_store s2 (tree fs)) fs).
  assert (same_log (tree fs) (set_store s2 (tree fs))) as Hsl.
  { split; [done|done|by apply (evolves_frozen nowhere)|]. destruct Hmo as (h & t & Ht & _). eapply spread_still; [exact Ht|].
    eapply tree_at_evolves; [exact Hev|by intros k _ []|reflexivity|done]. }
  split_and!; [| | | |done|by eapply held_width|done|exact Hsl].
  - unfold alloc_data_block, on_fs_store, on_tree, in_store, zoom. by rewrite E1.
  - unfold on_fs_store, on_tree, in_store, zoom. cbn [set_tree set_store tree store]. by rewrite E2.
  - split; [split|done]; cbn [set_tree set_store tree store next_bset_seq root_block]; [by eapply evolves_models|]. split; [done|lia|lia].
  - split; [done|]. split; [done|]. intros Hnode. destruct Hmo as (h & t & Ht & _).
    apply (node_at_tree _ _ _ _ _ _ (tree_at_evolves _ _ _ _ _ _ _ _ _ Hev ltac:(by intros ? _ []) (Z.le_refl _) Ht)) in Hnode.
    destruct (ta_owned _ _ _ _ _ Ht) as [_ Hh0]. rewrite Forall_forall in Hh0. by apply Hnh, Hh0.
Qed.

Section put_extent.
Context {D : Type} `{!BlockDevice D} `{!BlockDeviceLaws D} `{!BlockDeviceTotal D} `{!Crc32} `{!Crc32Range}.
Context (m : amap) (d : gmap Z (list byte)) (cur s : Z) (l : list Z) (Hm : typed m) (Hx : extents_ok m d) (Hv : view m cur s l).
Context (ino off : Z) (Hi : in_width 64 ino) (Ho : in_width 64 off) (Hmod : off mod 4096 = 0).

Lemma alloc_block_writes fs n b :
  file_models fs m d (1 + n) → 0 ≤ n → length b = BLOCK_SIZE →
  ∃ nr fs1 fs2, alloc_data_block fs = (Ok nr, fs1) ∧ on_fs_store (write_data nr b) fs1 = (Ok tt, fs2) ∧
    file_models fs2 m (<[nr := b]> d) n ∧ d !! nr = None ∧ in_width 64 nr ∧ fs2 = set_tree (tree fs2) fs ∧
    same_log (D := D) (tree fs) (tree fs2).
Proof using All.
  intros Hf Hn Hb. pose proof Hf as [Hfs _ Hbl].
  destruct (alloc_block_stored fs m n b Hfs Hn Hb) as (nr & fs1 & fs2 & E1 & E2 & Hfs2 & Hst & Hnh & Hw & T & Hsl).
  assert (d !! nr = None) as Hd by (destruct (d !! nr) as [b'|] eqn:E; [by destruct (Hbl _ _ E)|done]).
  exists nr, fs1, fs2. do 2 (split; [done|]). split; [|done]. split; [done|by apply (extents_ok_mono m d), insert_subseteq|].
  intros k c [[<- <-]|[Hne Hk]]%lookup_insert_Some; [done|]. eapply kept_shelters; [apply Hf|by apply same_log_kept|by apply Hbl].
Qed.

Lemma put_extent_writes data :
  (length data ≤ BLOCK_SIZE)%nat → off + Z.of_nat (length data) < 2 ^ 64 →
  dwrites (D := D) m d cur 2 (put_extent ino off data) (λ _ ops d', ∃ nr,
    ops = [extent_put ino off s (Z.of_nat (length data)) nr] ∧ d' = <[nr := padded data]> d ∧ d !! nr = None ∧ in_width 64 nr).
Proof using All.
  intros Hl Hend. unfold put_extent. rewrite (proj2 (Nat.leb_le _ _)) by done. cbn [assert_that].
  eapply dreads_dwrites; [eapply (dreads_lift _ _ _ _ tt (λ _, True)); done|]. intros [] _.
  eapply dreads_dwrites; [eapply (reads_dreads _ _ _ _ _ (eq s)); [by eapply current_snap_reads|done]|]. intros ? <-.
  intros fs n Hf Hn Hcur.
  destruct (alloc_block_writes fs (1 + n) (padded data)) as (nr & fs1 & fs2 & E1 & E2 & Hf2 & Hd & Hw & T2 & Hq);
    [by replace (1 + (1 + n)) with (2 + n) by lia|lia|by apply length_padded|].
  rewrite (M_bind_ok _ _ _ _ _ E1). rewrite splice_ok by (by rewrite length_replicate). fold (padded data).
  unfold lift at 1. unfold mbind at 1, M_bind at 1. rewrite (M_bind_ok _ _ _ _ _ E2).
  assert (u32 (Z.of_nat (length data)) = Z.of_nat (length data)) as -> by (apply wrap_small; revert Hl; consts; unfold in_width; lia).
  fold (extent_of (Z.of_nat (length data)) nr).
  destruct (performs_insert m cur (extent_key ino off) s Live (extent_as_bytes (extent_of (Z.of_nat (length data)) nr))
    (extent_put_ok _ _ _ _ _) (extent_put_typed _ _ _ _ _) fs2 n (fl_fs _ _ _ _ Hf2) Hn) as (fs3 & E3 & Hf3 & T3 & L3 & K3 & _).
  { by rewrite T2. }
  exists tt, [extent_put ino off s (Z.of_nat (length data)) nr], (<[nr := padded data]> d), fs3.
  split_and!; [exact E3|by exists nr| |by rewrite T3, T2 at 1| |by eapply kept_trans; [apply same_log_kept|]].
  - eapply file_kept; [exact Hf2|exact Hf3| |exact K3].
    apply extent_put_extents_ok; [done..|by eapply view_width|done|revert Hl; consts; lia|done|done|done|by apply length_padded].
  - rewrite L3. unfold log_after. by rewrite (sl_log _ _ Hq), (sl_logging _ _ Hq).
Qed.
End put_extent.

(** ** Bytes after writes *)
Lemma block_floor_width p : in_width 64 p → in_width 64 (block_floor p).
Proof. unfold in_width. intros. pose proof (block_floor_bounds p). pose proof (block_floor_nonneg p). lia. Qed.

(** A put elsewhere is not noticed. *)
Lemma byte_at_put_other d m ino off s len nr b l i p :
  extents_ok m d → Forall (in_width 32) l → in_width 32 s → in_width 64 ino → in_width 64 off → in_width 64 i → in_width 64 p →
  d !! nr = None → i ≠ ino ∨ block_floor p ≠ off ∨ s ∉ l →
  byte_at (<[nr := b]> d) (a_run [extent_put ino off s len nr] m) l i p = byte_at d m l i p.
Proof.
  intros Hx Hl Hs Hi Ho Hi' Hp Hd Hne. pose proof (block_floor_width p Hp) as Hbp.
  assert (a_extent (a_run [extent_put ino off s len nr] m) l i (block_floor p) = a_extent m l i (block_floor p)) as E.
  { unfold a_extent. rewrite a_run_seen; [done|done|]. apply Forall_singleton. split; [done|]. cbn [extent_put wop_key wop_snap].
    destruct Hne as [Hne|[Hne|Hne]]; [left|left|by right]; by intros [? ?]%extent_key_inj. }
  unfold byte_at. rewrite E. destruct (a_extent m l i (block_floor p)) as [x|] eqn:Ex; [|done].
  destruct (xf_block _ _ _ (a_extent_fits m d l i (block_floor p) x Hx Hl Hi' Hbp Ex)) as (c & Hc & _).
  by rewrite lookup_insert_ne by congruence.
Qed.

Lemma byte_at_put d m ino off s data nr l p :
  in_width 32 s → in_width 64 ino → in_width 64 off → in_width 64 nr → off mod 4096 = 0 →
  (length data ≤ BLOCK_SIZE)%nat → off ≤ p < off + 4096 →
  byte_at (<[nr := padded data]> d) (a_run [extent_put ino off s (Z.of_nat (length data)) nr] m) (s :: l) ino p =
  default Byte.x00 (data !! Z.to_nat (p - off)).
Proof.
  intros Hs Hi Ho Hnr Hmod Hl Hp. unfold byte_at, a_extent. rewrite (block_floor_of off p) by done.
  cbn [a_run foldl extent_put a_wop]. rewrite a_put_seen; [|done|rewrite length_extent_bytes by done; consts; lia].
  unfold decoded. cbn [mbind option_bind].
  rewrite extent_round_trip by (split; [|by split]; unfold in_width; cbn [extent_of x_len]; revert Hl; consts; lia).
  cbn [extent_of x_len x_data_block]. rewrite lookup_insert_eq. cbn [mbind option_bind].
  rewrite lookup_padded by (revert Hl; consts; lia). cbn. destruct (Z.ltb_spec (p - off) (Z.of_nat (length data))); [done|].
  by rewrite lookup_ge_None_2 by lia.
Qed.

(** What a write of [data] at [a] into [ino], in the subvolume at snapshot [s]
    with chain [l], does. *)
Record range_written (s : Z) (l : list Z) (m : amap) (d : gmap Z (list byte)) (ino a : Z) (data : list byte)
    (ops : list wop) (d' : gmap Z (list byte)) : Prop := {
  rw_local : Forall (λ o, ∃ off len nr, o = extent_put ino off s len nr ∧ in_width 64 off) ops;
  rw_data : d ⊆ d';
  rw_bytes i p : in_width 64 i → in_width 64 p →
    byte_at d' (a_run ops m) l i p =
      if decide (i = ino ∧ a ≤ p < a + Z.of_nat (length data)) then default Byte.x00 (data !! Z.to_nat (p - a))
      else byte_at d m l i p;
  rw_other i p l' : in_width 64 i → in_width 64 p → Forall (in_width 32) l' → s ∉ l' →
    byte_at d' (a_run ops m) l' i p = byte_at d m l' i p;
}.

Lemma range_written_nil s l m d ino a : range_written s l m d ino a [] [] d.
Proof. split; [constructor|done| |done]. intros i p _ _. rewrite decide_False by (cbn; lia). done. Qed.

Lemma range_written_app s l m d ino a data1 data2 ops1 d1 ops2 d2 :
  range_written s l m d ino a data1 ops1 d1 →
  range_written s l (a_run ops1 m) d1 ino (a + Z.of_nat (length data1)) data2 ops2 d2 →
  range_written s l m d ino a (data1 ++ data2) (ops1 ++ ops2) d2.
Proof.
  intros [L1 S1 B1 O1] [L2 S2 B2 O2]. split; [by apply Forall_app|by etransitivity| |].
  - intros i p Hi Hp. rewrite a_run_app, B2, B1, length_app by done.
    destruct (decide (i = ino)) as [->|Hne]; [|by rewrite !decide_False by (by intros [? _])].
    destruct (Z.lt_ge_cases p a); [by rewrite !decide_False by lia|].
    destruct (Z.lt_ge_cases p (a + Z.of_nat (length data1))).
    { rewrite decide_False, !decide_True by lia. by rewrite lookup_app_l by lia. }
    destruct (Z.lt_ge_cases p (a + Z.of_nat (length data1) + Z.of_nat (length data2))); [|by rewrite !decide_False by lia].
    rewrite !decide_True by lia. rewrite lookup_app_r by lia. do 2 f_equal. lia.
  - intros i p l' Hi Hp Hl' Hs. by rewrite a_run_app, O2, O1.
Qed.

(** ** Writing *)
Section write.
Context {D : Type} `{!BlockDevice D} `{!BlockDeviceLaws D} `{!BlockDeviceTotal D} `{!Crc32} `{!Crc32Range}.

Lemma get_extent_reads m cur s l ino off :
  typed m → view m cur s l → reads (D := D) m cur (get_extent ino off) (a_extent m l ino off).
Proof using All.
  intros Hm Hv. unfold get_extent, a_extent. eapply reads_bind; [by eapply current_chain_reads|].
  eapply reads_bind; [apply seen_reads; [rewrite length_extent_key; consts; lia|by eapply view_chain_ok]|].
  apply reads_parsed. intros b Hb. apply extent_parses. by eapply seen_size.
Qed.

(** The block a chunk is merged into: what the file shows there now. *)
Record old_block (m : amap) (d : gmap Z (list byte)) (l : list Z) (ino off : Z) (p : list byte * nat) : Prop := {
  ob_length : length p.1 = BLOCK_SIZE;
  ob_bytes i : (i < BLOCK_SIZE)%nat → p.1 !! i = Some (byte_at d m l ino (off + Z.of_nat i));
  ob_len : (p.2 ≤ BLOCK_SIZE)%nat;
  ob_tail i : (p.2 ≤ i < BLOCK_SIZE)%nat → byte_at d m l ino (off + Z.of_nat i) = Byte.x00;
  ob_end : off + Z.of_nat p.2 < 2 ^ 64;
}.

Lemma fresh_block m d l ino off :
  in_width 64 off → off mod 4096 = 0 → a_extent m l ino off = None →
  old_block m d l ino off (replicate BLOCK_SIZE Byte.x00, 0%nat).
Proof.
  intros Ho Hmod He. assert (∀ i, (i < BLOCK_SIZE)%nat → byte_at d m l ino (off + Z.of_nat i) = Byte.x00) as Hz.
  { intros i Hi. unfold byte_at. rewrite (block_floor_of off), He by (done || (revert Hi; consts; lia)). done. }
  split; cbn [fst snd]; [apply length_replicate| |lia| |unfold in_width in *; lia].
  - intros i Hi. rewrite Hz by done. by apply lookup_replicate_2.
  - intros i Hi. apply Hz. lia.
Qed.

Lemma stored_block m d l ino off x b :
  in_width 64 off → a_extent m l ino off = Some x → extent_fits d off x → d !! x_data_block x = Some b → length b = BLOCK_SIZE →
  old_block m d l ino off (overwrite (replicate BLOCK_SIZE Byte.x00) 0 (take (Z.to_nat (x_len x)) b), Z.to_nat (x_len x)).
Proof.
  intros Ho He Hf Hb Hl. pose proof (xf_len _ _ _ Hf) as Hxl. pose proof (xf_end _ _ _ Hf) as Hxe.
  assert (length (take (Z.to_nat (x_len x)) b) = Z.to_nat (x_len x)) as Htl by (rewrite length_take, Hl; consts; lia).
  assert (∀ i, (i < BLOCK_SIZE)%nat → byte_at d m l ino (off + Z.of_nat i) =
    if Z.of_nat i <? x_len x then default Byte.x00 (b !! i) else Byte.x00) as Hby.
  { intros i Hi. rewrite (byte_at_extent m d l ino off x b) by (done || (revert Hi; consts; lia)).
    replace (off + Z.of_nat i - off) with (Z.of_nat i) by lia. by rewrite Nat2Z.id. }
  split; cbn [fst snd].
  - rewrite length_overwrite; rewrite length_replicate; [done|]. rewrite Htl. consts. lia.
  - intros i Hi. change (overwrite _ 0 ?t) with (padded t). rewrite lookup_padded by (rewrite ?Htl; revert Hi; consts; lia).
    rewrite Hby by done. f_equal. destruct (Z.ltb_spec (Z.of_nat i) (x_len x)).
    + by rewrite lookup_take_lt by lia.
    + by rewrite lookup_ge_None_2 by (rewrite Htl; lia).
  - consts. lia.
  - intros i Hi. rewrite Hby by lia. by rewrite (proj2 (Z.ltb_nlt _ _)) by lia.
  - lia.
Qed.

(** Merging a chunk into the old block. *)
Lemma merged_block m d l ino off p c0 chunk i :
  old_block m d l ino off p → (c0 + length chunk ≤ BLOCK_SIZE)%nat → (i < BLOCK_SIZE)%nat →
  default Byte.x00 (take (Nat.max (c0 + length chunk) p.2) (overwrite p.1 c0 chunk) !! i) =
    if decide (c0 ≤ i < c0 + length chunk)%nat then default Byte.x00 (chunk !! (i - c0)%nat)
    else byte_at d m l ino (off + Z.of_nat i).
Proof.
  intros [Hl Hb Hlen Ht _] Hc Hi. destruct (decide (i < Nat.max (c0 + length chunk) p.2)%nat) as [Hlt|Hge].
  - rewrite lookup_take_lt, lookup_overwrite by lia. case_decide; [done|]. by rewrite Hb.
  - rewrite lookup_take_ge by lia. rewrite decide_False by lia. cbn. symmetry. apply Ht. lia.
Qed.

Section chunks.
Context (m : amap) (d : gmap Z (list byte)) (cur s : Z) (l : list Z) (Hm : typed m) (Hx : extents_ok m d) (Hv : view m cur s l).
Context (ino : Z) (Hi : in_width 64 ino).

Lemma old_block_reads off e :
  in_width 64 off → off mod 4096 = 0 → e = a_extent m l ino off →
  dreads (D := D) m d cur (match e with
    | None => mret (replicate BLOCK_SIZE Byte.x00, 0%nat)
    | Some ext =>
        let existing_len := Z.to_nat (x_len ext) in
        src ← expecting (read_data_block (x_data_block ext));
        src ← lift (slice src 0 existing_len);
        buf ← lift (splice (replicate BLOCK_SIZE Byte.x00) 0 src);
        mret (buf, existing_len)
    end) (old_block m d l ino off).
Proof using All.
  intros Ho Hmod ->. destruct (a_extent m l ino off) as [x|] eqn:He; [|apply dreads_ret; by apply fresh_block].
  pose proof (a_extent_fits m d l ino off x Hx (chain_width m cur s l Hv) Hi Ho He) as Hf.
  destruct (xf_block _ _ _ Hf) as (b & Hb & Hl). pose proof (xf_len _ _ _ Hf) as Hxl. cbn zeta.
  eapply dreads_bind; [apply dreads_expecting; by apply read_block_reads|]. intros ? <-.
  eapply dreads_bind; [eapply (dreads_lift _ _ _ _ _ (eq _)); [apply slice_ok; rewrite Hl; consts; lia|done]|]. intros ? <-.
  rewrite drop_0, Nat.sub_0_r.
  eapply dreads_bind; [eapply (dreads_lift _ _ _ _ _ (eq _)); [apply splice_ok; rewrite length_replicate, length_take; consts; lia|done]|].
  intros ? <-. apply dreads_ret. by apply stored_block.
Qed.

Definition chunk_len (cursor : Z) (remaining : list byte) : nat :=
  Nat.min (BLOCK_SIZE - Z.to_nat (cursor - block_floor cursor)) (length remaining).

(** The put of a merged block writes the chunk's range and nothing else. *)
Lemma chunk_written cursor off p chunk nr :
  off = block_floor cursor → in_width 64 cursor → old_block m d l ino off p → d !! nr = None → in_width 64 nr →
  (Z.to_nat (cursor - off) + length chunk ≤ BLOCK_SIZE)%nat →
  let data := take (Nat.max (Z.to_nat (cursor - off) + length chunk) p.2) (overwrite p.1 (Z.to_nat (cursor - off)) chunk) in
  range_written s l m d ino cursor chunk [extent_put ino off s (Z.of_nat (length data)) nr] (<[nr := padded data]> d).
Proof using All.
  intros Hoff Hcu Hob Hd Hnr Hfit data. pose proof (view_width _ _ _ _ Hv) as Hs. pose proof (chain_width m cur s l Hv) as Hw.
  pose proof (block_floor_bounds cursor). pose proof (block_floor_width cursor Hcu) as Ho. rewrite <- Hoff in *.
  assert (length data ≤ BLOCK_SIZE)%nat as Hdl.
  { unfold data. rewrite length_take, length_overwrite by (by rewrite (ob_length _ _ _ _ _ _ Hob)). rewrite (ob_length _ _ _ _ _ _ Hob). lia. }
  split; [apply Forall_singleton; by eexists _, _, _|by apply insert_subseteq| |].
  - intros i p0 Hi' Hp. destruct (decide (i = ino ∧ block_floor p0 = off)) as [[-> Hb]|Hne].
    + pose proof (block_floor_bounds p0) as Hbp. rewrite Hb in Hbp. destruct (view_head _ _ _ _ Hv) as (l' & El & _). rewrite El at 1.
      rewrite byte_at_put by (done || (rewrite Hoff; apply block_floor_mod)). unfold data. rewrite (merged_block m d l ino off p) by (done || (consts; lia)).
      replace (off + Z.of_nat (Z.to_nat (p0 - off))) with p0 by lia. case_decide.
      * rewrite decide_True by lia. do 2 f_equal. lia.
      * by rewrite decide_False by lia.
    + rewrite byte_at_put_other; [|done..|by destruct (decide (i = ino)); [subst; right; left; by intros ?; apply Hne|left]].
      rewrite decide_False; [done|]. intros [-> Hr]. apply Hne. split; [done|]. apply block_floor_of; [rewrite Hoff; apply block_floor_mod|].
      revert Hfit. consts. lia.
  - intros i p0 l' Hi' Hp Hl' Hns. apply byte_at_put_other; try done. by right; right.
Qed.

Lemma write_chunk_writes cursor remaining :
  0 ≤ cursor → cursor + Z.of_nat (length remaining) < 2 ^ 64 →
  dwrites (D := D) m d cur 2 (write_chunk ino cursor remaining) (λ n ops d',
    n = chunk_len cursor remaining ∧ range_written s l m d ino cursor (take n remaining) ops d').
Proof using All.
  intros Hc Hend. assert (in_width 64 cursor) as Hcu by (unfold in_width; lia).
  pose proof (block_floor_bounds cursor). pose proof (block_floor_width cursor Hcu) as Ho. unfold write_chunk.
  fold (chunk_len cursor remaining). set (n := chunk_len cursor remaining). set (off := block_floor cursor) in *.
  assert (n ≤ length remaining ∧ Z.to_nat (cursor - off) + n ≤ BLOCK_SIZE)%nat as [Hn Hfit].
  { unfold n, chunk_len. fold off. consts. lia. }
  eapply dreads_dwrites; [eapply (reads_dreads _ _ _ _ _ (eq _)); [by eapply get_extent_reads|done]|]. intros e He.
  eapply dreads_dwrites; [apply (old_block_reads off e); [done|apply block_floor_mod|done]|]. intros [buf elen] Hob.
  pose proof (ob_length _ _ _ _ _ _ Hob) as Hbl. pose proof (ob_len _ _ _ _ _ _ Hob) as Hel. pose proof (ob_end _ _ _ _ _ _ Hob) as Hee.
  cbn [fst snd] in *.
  eapply dreads_dwrites; [eapply (dreads_lift _ _ _ _ _ (eq _)); [apply slice_ok; lia|done]|]. intros ? <-.
  rewrite drop_0, Nat.sub_0_r. assert (length (take n remaining) = n) as Hcl by (rewrite length_take; lia).
  eapply dreads_dwrites; [eapply (dreads_lift _ _ _ _ _ (eq _)); [apply splice_ok; lia|done]|]. intros ? <-.
  eapply dreads_dwrites; [eapply (dreads_lift _ _ _ _ _ (eq _)); [apply slice_ok; rewrite length_overwrite by lia; lia|done]|]. intros ? <-.
  rewrite drop_0, Nat.sub_0_r. set (data := take _ (overwrite _ _ _)).
  assert (length data = Nat.max (Z.to_nat (cursor - off) + n) elen) as Hdl.
  { unfold data. rewrite length_take, length_overwrite by lia. lia. }
  apply (dwrites_bind _ _ _ 2 0 _ _ (λ _ ops d', range_written s l m d ino cursor (take n remaining) ops d')); [done| |].
  - eapply dwrites_weaken; [|eapply (put_extent_writes m d cur s l Hm Hx Hv ino off Hi Ho (block_floor_mod cursor) data)|]; [done|lia|lia|].
    cbn beta. intros _ ops d' (nr & -> & -> & Hd & Hnr). 
    pose proof (chunk_written cursor off (buf, elen) (take n remaining) nr eq_refl Hcu Hob Hd Hnr) as Hcw. rewrite Hcl in Hcw.
    by apply Hcw.
  - intros _ ops d' Hrw. apply dwrites_ret. by rewrite app_nil_r.
Qed.
End chunks.

(** Writing keeps the metadata and hence the view. *)
Lemma range_written_local s l m d ino a data ops d' :
  range_written s l m d ino a data ops d' → Forall (local_op s) ops.
Proof. intros [Hl _ _ _]. eapply Forall_impl; [exact Hl|]. intros o (off & len & nr & -> & _). apply extent_put_local. Qed.
Lemma range_written_typed s l m d ino a data ops d' :
  range_written s l m d ino a data ops d' → typed m → typed (a_run ops m).
Proof.
  intros [Hl _ _ _] Hm. apply a_run_typed; [done|]. eapply Forall_impl; [exact Hl|].
  intros o (off & len & nr & -> & _). apply extent_put_typed.
Qed.

(** A state that is there satisfies the invariants. *)
Lemma dwrites_assume {E A} m d cur k (c : M (Fs D) E A) P :
  (typed m → extents_ok m d → dwrites m d cur k c P) → dwrites m d cur k c P.
Proof. intros Hc fs n Hf. apply Hc; [apply Hf|apply Hf|done]. Qed.

Lemma write_loop_writes fuel m d cur s l ino cursor remaining :
  view m cur s l → in_width 64 ino → (length remaining ≤ fuel)%nat →
  0 ≤ cursor → cursor + Z.of_nat (length remaining) < 2 ^ 64 →
  dwrites (D := D) m d cur (2 * Z.of_nat (length remaining)) (write_loop fuel ino cursor remaining)
    (λ _, range_written s l m d ino cursor remaining).
Proof using All.
  revert m d cursor remaining. induction fuel as [|fuel IH]; intros m d cursor remaining Hv Hi Hfuel Hc Hend;
    (destruct remaining as [|b rest]; [apply dwrites_ret, range_written_nil|]); [cbn in Hfuel; lia|].
  cbn [write_loop]. set (remaining := b :: rest) in *. apply dwrites_assume. intros Hm Hx.
  set (n := chunk_len cursor remaining). assert (0 < n ≤ length remaining)%nat as Hn.
  { unfold n, chunk_len, remaining. pose proof (block_floor_bounds cursor). cbn [length]. consts. lia. }
  assert (length (take n remaining) = n) as Htl by (rewrite length_take; lia).
  assert (length remaining = n + length (drop n remaining))%nat as Hlen by (rewrite length_drop; lia).
  eapply (dwrites_weaken _ _ _ (2 + 2 * Z.of_nat (length (drop n remaining)))); [lia| |intros a ops d' Hp; exact Hp].
  eapply dwrites_bind; [lia|by apply (write_chunk_writes m d cur s l)|]. intros n' ops d' [En Hrw]. fold n in En. rewrite En in Hrw |- *.
  assert (u64 (cursor + Z.of_nat n) = cursor + Z.of_nat n) as -> by (apply wrap_small; unfold in_width; lia).
  eapply dwrites_weaken; [|apply IH|]; [lia|eapply view_local; [by eapply view_width|by eapply range_written_local|done]|done|lia|lia|lia|].
  cbn beta. intros _ ops' d2 Hrw2. rewrite <- (take_drop n remaining) at 1.
  eapply range_written_app; [exact Hrw|by rewrite Htl].
Qed.

Lemma write_at_writes m d cur s l ino offset data :
  view m cur s l → in_width 64 ino → 0 ≤ offset → offset + Z.of_nat (length data) < 2 ^ 64 →
  dwrites (D := D) m d cur (2 * Z.of_nat (length data)) (fs_write_at ino offset data)
    (λ r ops d', r = Z.of_nat (length data) ∧ range_written s l m d ino offset data ops d').
Proof using All.
  intros Hv Hi Ho Hend. unfold fs_write_at. rewrite <- (Z.add_0_r (2 * _)).
  eapply dwrites_bind; [done|by eapply write_loop_writes|]. intros [] ops d' Hrw. apply dwrites_ret. by rewrite app_nil_r.
Qed.
End write.

(** ** One extent put, as chains see it *)
Lemma a_extent_put m s l ino off len nr :
  in_width 32 s → in_width 64 nr → 0 ≤ len ≤ 4096 → a_extent (a_run [extent_put ino off s len nr] m) (s :: l) ino off = Some (extent_of len nr).
Proof.
  intros Hs Hnr Hl. unfold a_extent. cbn [a_run foldl extent_put a_wop]. rewrite a_put_seen; [|done|rewrite length_extent_bytes by done; consts; lia].
  unfold decoded. cbn [mbind option_bind]. rewrite extent_round_trip; [done|]. split; [|by split]. unfold in_width. cbn [extent_of x_len]. lia.
Qed.
Lemma a_extent_put_other m s l ino off len nr i o :
  Forall (in_width 32) l → in_width 32 s → in_width 64 ino → in_width 64 off → in_width 64 i → in_width 64 o →
  (i, o) ≠ (ino, off) ∨ s ∉ l → a_extent (a_run [extent_put ino off s len nr] m) l i o = a_extent m l i o.
Proof.
  intros Hl Hs Hi Ho Hi' Ho' Hne. unfold a_extent. rewrite a_run_seen; [done|done|]. apply Forall_singleton. split; [done|].
  cbn [extent_put wop_key wop_snap]. destruct Hne as [Hne|Hne]; [left|by right]. intros E%extent_key_inj; [|done..]. apply Hne. by destruct E as [-> ->].
Qed.

(** ** Operations that leave extents alone *)
Lemma no_extent_ok ops m d : Forall no_extent ops → extents_ok m d → extents_ok (a_run ops m) d.
Proof. intros Hops Hx ino off sn v Hi Ho Hs. rewrite no_extent_row by done. by apply Hx. Qed.
Lemma no_extent_bytes ops m d l ino p : Forall no_extent ops → byte_at d (a_run ops m) l ino p = byte_at d m l ino p.
Proof.
  intros Hops. unfold byte_at, a_extent, seen. rewrite (a_visible_ext m); [done|]. intros sn _. by apply no_extent_row.
Qed.

Section performs_data.
Context {D : Type} `{!BlockDevice D} `{!BlockDeviceLaws D} `{!BlockDeviceTotal D} `{!Crc32} `{!Crc32Range}.
Lemma performs_dwrites {E A} m d cur (c : M (Fs D) E A) a ops :
  performs m cur c a ops → Forall no_extent ops →
  dwrites m d cur (Z.of_nat (length ops)) c (λ a' ops' d', a' = a ∧ ops' = ops ∧ d' = d).
Proof.
  intros Hc Hops fs n Hf Hn Hcur. destruct (Hc fs n (fl_fs _ _ _ _ Hf) Hn Hcur) as (fs' & E' & Hfs' & T & L & K & _).
  exists a, ops, d, fs'. split_and!; [done|done|done|done| |done|done|done].
  eapply file_kept; [done|done|apply no_extent_ok; [done|apply Hf]|exact K].
Qed.
End performs_data.

(** A write leaves names and inodes alone. *)
Lemma range_written_view s l m d ino a data ops d' :
  in_width 32 s → Forall (in_width 32) l → range_written s l m d ino a data ops d' → view_of (a_run ops m) l ≡ view_of m l.
Proof.
  intros Hs Hl [Hops _ _ _].
  assert (∀ k, kind_of k ≠ Some KIND_EXTENT → seen (a_run ops m) k l = seen m k l) as Hk.
  { intros k Hk. apply a_run_seen; [done|]. eapply Forall_impl; [exact Hops|]. intros o (off & len & nr & -> & _).
    split; [done|]. left. intros ->. by apply Hk. }
  split; cbn [view_of names inodes]; intros; unfold a_dirent, a_inode; by rewrite Hk.
Qed.

Lemma expected_bytes_whole d m l ino offset data inode :
  a_inode m l ino = Some inode → in_width 64 ino → 0 ≤ offset → offset + Z.of_nat (length data) ≤ i_size inode →
  offset + Z.of_nat (length data) < 2 ^ 64 →
  (∀ p, offset ≤ p < offset + Z.of_nat (length data) → byte_at d m l ino p = default Byte.x00 (data !! Z.to_nat (p - offset))) →
  expected_bytes d m l ino offset (Z.of_nat (length data)) = data.
Proof.
  intros Hi Hw Ho Hsz Hend Hb. unfold expected_bytes. rewrite Hi, Z.min_l by lia.
  replace (offset + Z.of_nat (length data) - offset) with (Z.of_nat (length data)) by lia.
  apply list_eq_same_length with (n := length data); [done|by rewrite length_fmap, length_seqZ, Nat2Z.id|].
  intros i x y Hil. rewrite list_lookup_fmap, lookup_seqZ_lt by lia. cbn. intros [= <-] Hy.
  rewrite Hb by lia. replace (Z.to_nat (offset + Z.of_nat i - offset)) with i by lia. by rewrite Hy.
Qed.

Section claims.
Context {D : Type} `{!BlockDevice D} `{!BlockDeviceLaws D} `{!BlockDeviceTotal D} `{!Crc32} `{!Crc32Range}.
Implicit Types fs : Fs D.

(** C11: reading returns the file's bytes: [read_at] answers with the bytes from
    [offset] up to the end of the request or of the file, whichever comes first,
    zero-filled where no extent covers them, nothing for a missing inode or past
    the end, and changes nothing but caches. *)
Theorem read_returns_file_bytes fs m d n s l ino offset size :
  file_models fs m d n → view m (current_subvol fs) s l →
  in_width 64 ino → 0 ≤ offset → 0 ≤ size → offset + size < 2 ^ 64 →
  ∃ fs', fs_read_at ino offset size fs = (Ok (expected_bytes d m l ino offset size), fs') ∧
    file_models fs' m d n ∧ fs_quiet fs fs'.
Proof using All.
  intros Hf Hv Hi Ho Hs Hsum.
  destruct (read_at_reads m d _ s l (fm_typed _ _ _ (fl_fs _ _ _ _ Hf)) (fl_ext _ _ _ _ Hf) Hv ino offset size Hi Ho Hs Hsum fs n Hf eq_refl)
    as (out & fs' & E & <- & Hf' & Hq).
  exists fs'. by split_and!.
Qed.

(** C10: a write changes exactly the bytes it covers. [write_at] returns the
    length of the data; the written range of that file shows the data, every
    other byte of it and of every other file is as it was, names and inodes are
    untouched, and chains of other snapshots see all files as before. *)
Theorem write_changes_only_its_range fs m d n s l ino offset data :
  file_models fs m d (2 * Z.of_nat (length data) + n) → 0 ≤ n → view m (current_subvol fs) s l →
  in_width 64 ino → 0 ≤ offset → offset + Z.of_nat (length data) < 2 ^ 64 →
  ∃ m' d' fs', fs_write_at ino offset data fs = (Ok (Z.of_nat (length data)), fs') ∧
    file_models fs' m' d' n ∧ view m' (current_subvol fs) s l ∧ view_of m' l ≡ view_of m l ∧
    (∀ i p, in_width 64 i → in_width 64 p →
       byte_at d' m' l i p =
         if decide (i = ino ∧ offset ≤ p < offset + Z.of_nat (length data)) then default Byte.x00 (data !! Z.to_nat (p - offset))
         else byte_at d m l i p) ∧
    (∀ i p l', in_width 64 i → in_width 64 p → Forall (in_width 32) l' → s ∉ l' → byte_at d' m' l' i p = byte_at d m l' i p).
Proof using All.
  intros Hf Hn Hv Hi Ho Hsum.
  destruct (write_at_writes m d _ s l ino offset data Hv Hi Ho Hsum fs n Hf Hn eq_refl)
    as (r & ops & d' & fs' & E & [-> Hrw] & Hf' & T & _). pose proof (view_width _ _ _ _ Hv) as Hs.
  exists (a_run ops m), d', fs'. split_and!; [done|done| | |apply Hrw|apply Hrw].
  - eapply view_local; [done|by eapply range_written_local|done].
  - eapply range_written_view; [done|by eapply chain_width|done].
Qed.

(** What was written is read back: after a write that ends inside the file,
    reading the same range returns the data. *)
Theorem write_then_read fs m d n s l ino inode offset data :
  file_models fs m d (2 * Z.of_nat (length data) + n) → 0 ≤ n → view m (current_subvol fs) s l →
  in_width 64 ino → 0 ≤ offset → offset + Z.of_nat (length data) ≤ i_size inode < 2 ^ 64 →
  a_inode m l ino = Some inode →
  ∃ fs1 fs2, fs_write_at ino offset data fs = (Ok (Z.of_nat (length data)), fs1) ∧
    fs_read_at ino offset (Z.of_nat (length data)) fs1 = (Ok data, fs2).
Proof using All.
  intros Hf Hn Hv Hi Ho Hsz Hino.
  destruct (write_at_writes m d _ s l ino offset data Hv Hi Ho ltac:(lia) fs n Hf Hn eq_refl)
    as (r & ops & d' & fs1 & E & [-> Hrw] & Hf1 & T & _). pose proof (view_width _ _ _ _ Hv) as Hs.
  assert (view (a_run ops m) (current_subvol fs) s l) as Hv1 by (eapply view_local; [done|by eapply range_written_local|done]).
  destruct (range_written_view s l m d ino offset data ops d' Hs (chain_width _ _ _ _ Hv) Hrw) as [_ Hvi].
  destruct (read_at_reads _ d' _ s l (fm_typed _ _ _ (fl_fs _ _ _ _ Hf1)) (fl_ext _ _ _ _ Hf1) Hv1 ino offset (Z.of_nat (length data))
    Hi Ho ltac:(lia) ltac:(lia) fs1 n Hf1 ltac:(by rewrite T)) as (out & fs2 & E2 & <- & _).
  exists fs1, fs2. split; [done|]. rewrite E2. do 2 f_equal.
  eapply expected_bytes_whole; [|done|done|exact (proj1 Hsz)|lia|].
  - specialize (Hvi ino Hi). cbn in Hvi. by rewrite Hvi.
  - intros p Hp. rewrite (rw_bytes _ _ _ _ _ _ _ _ _ Hrw) by (unfold in_width in *; done || lia). by rewrite decide_True by lia.
Qed.
End claims.

(** ** A concrete file *)
#[local] Existing Instance sum_crc.

Lemma seed_extents : extents_ok seed_map ∅.
Proof. apply no_extent_ok; [by repeat constructor|]. done. Qed.

Definition demo_sized : InodeV1 :=
  {| i_mode := 33188; i_uid := 0; i_gid := 0; i_nlink := 1; i_size := 10; i_atime := 0; i_mtime := 0; i_ctime := 0; i_parent_ino := 1 |}.
Definition demo_sized_ops : list wop := [WPut (inode_key 2) ROOT_SNAP Live (inode_as_bytes demo_sized)].
Definition demo_sized_map : amap := a_run demo_sized_ops seed_map.
Definition demo_data : list byte := [Byte.x72; Byte.x66; Byte.x73].

Lemma demo_ino_width : in_width 64 2.
Proof. unfold in_width. lia. Qed.
Lemma demo_sized_view : view demo_sized_map ROOT_SUBVOL ROOT_SNAP [ROOT_SNAP].
Proof. apply (view_local ROOT_SNAP); [apply root_width| |apply seed_view]. apply Forall_singleton. left. split; [by left|done]. Qed.
Lemma demo_sized_inode : a_inode demo_sized_map [ROOT_SNAP] 2 = Some demo_sized.
Proof. reflexivity. Qed.

(** A new file system with an inode of ten bytes and no extents. *)
Lemma demo_sized_fs :
  ∃ fs0 fs, fs_new = Ok fs0 ∧ put_inode 2 demo_sized fs0 = (Ok tt, fs) ∧ file_models fs demo_sized_map ∅ 100 ∧
    current_subvol fs = ROOT_SUBVOL.
Proof.
  destruct (fs_new_ok 101) as (fs0 & E0 & [Hfs Hids Hw Hcur] & Ec & Es & Ev & _); [lia|].
  assert (file_models fs0 seed_map ∅ 101) as Hf0.
  { split; [exact Hfs|exact seed_extents|]. intros nr b Hb. rewrite lookup_empty in Hb. discriminate Hb. }
  destruct (performs_dwrites seed_map ∅ ROOT_SUBVOL (put_inode 2 demo_sized) tt demo_sized_ops
    (put_inode_performs seed_map ROOT_SUBVOL ROOT_SNAP [ROOT_SNAP] 2 demo_sized (fm_typed _ _ _ Hfs) seed_view)
    ltac:(by apply Forall_singleton) fs0 100 Hf0 ltac:(lia) Ec) as ([] & ops & d & fs & E & (_ & -> & ->) & Hf & T & _).
  exists fs0, fs. split; [exact E0|]. split; [exact E|]. split; [exact Hf|]. rewrite T. exact Ec.
Qed.

Lemma read_returns_file_bytes_witness :
  ∃ fs0 fs fs1, fs_new = Ok fs0 ∧ put_inode 2 demo_sized fs0 = (Ok tt, fs) ∧ fs_read_at 2 7 100 fs = (Ok (zeros 3), fs1).
Proof.
  destruct demo_sized_fs as (fs0 & fs & E0 & E & Hf & Ec).
  destruct (read_returns_file_bytes fs demo_sized_map ∅ 100 ROOT_SNAP [ROOT_SNAP] 2 7 100 Hf) as (fs1 & E1 & _);
    [rewrite Ec; exact demo_sized_view|exact demo_ino_width|lia|lia|lia|].
  exists fs0, fs, fs1. split; [exact E0|]. split; [exact E|]. rewrite E1. f_equal.
Defined.

Lemma write_changes_only_its_range_witness :
  ∃ fs0 fs m' d' fs1, fs_new = Ok fs0 ∧ put_inode 2 demo_sized fs0 = (Ok tt, fs) ∧ fs_write_at 2 4095 demo_data fs = (Ok 3, fs1) ∧
    byte_at d' m' [ROOT_SNAP] 2 4096 = Byte.x66 ∧ byte_at d' m' [ROOT_SNAP] 2 4098 = Byte.x00.
Proof.
  destruct demo_sized_fs as (fs0 & fs & E0 & E & Hf & Ec).
  destruct (write_changes_only_its_range fs demo_sized_map ∅ 94 ROOT_SNAP [ROOT_SNAP] 2 4095 demo_data Hf)
    as (m' & d' & fs1 & E1 & _ & _ & _ & Hb & _);
    [lia|rewrite Ec; exact demo_sized_view|exact demo_ino_width|lia|cbn [demo_data length]; lia|].
  exists fs0, fs, m', d', fs1. split; [exact E0|]. split; [exact E|]. split; [exact E1|]. split; (rewrite Hb; [reflexivity|exact demo_ino_width|unfold in_width; lia]).
Defined.
