(* ===== verification/Serving.v ===== *)
(** * Serving: a mounted file system that serves files (src/fs.rs).

    [served] joins the invariant of names, inodes, snapshots and subvolumes with the
    data blocks the extents name. Every operation of [sop] (names and inodes,
    snapshots, switches, inode numbers, writes) keeps it and returns; snapshots read
    the same, bytes included, whatever the source does next with these; and the
    trees of such a file system pass the code's own checker. Truncates are not
    among the operations: they free blocks that snapshots may still name. *)
From Stdlib Require Import Strings.Byte.
From stdpp Require Import base list numbers gmap sorting relations.
From S2P Require Import Prelude Device BlockBtree NodeRep Storage Journal StoreSpec Heap Btree TreeRead TreeWrite BtreeSpec Verify FsTypes Fs FsSpec FsOps Snapshot FsData.
#[local] Open Scope rfs_scope.
#[local] Open Scope Z_scope.

Section serving.
Context {D : Type} `{!BlockDevice D} `{!BlockDeviceLaws D} `{!BlockDeviceTotal D} `{!Crc32} `{!Crc32Range}.
Implicit Types fs : Fs D.

(** A mounted file system: its invariant, and the data of its files. *)
Definition served fs (m : amap) (d : gmap Z (list byte)) (n : Z) : Prop := fs_inv fs m n ∧ file_models fs m d n.

Lemma served_wrote fs fs' m d n : served fs m d n → wrote fs m [] fs' → fs_inv fs' m n → served fs' m d n.
Proof using All.
  intros [Hinv [_ Hx Hb]] (_ & K & _) Hinv'. split; [done|]. split; [apply Hinv'|done|].
  intros nr b Hnr. eapply kept_shelters; [apply Hinv|exact K|by apply Hb].
Qed.
Lemma served_quiet fs fs' m d n : served fs m d n → fs_models fs' m n → fs_quiet fs fs' → served fs' m d n.
Proof using All.
  intros Hs Hf Hq. eapply served_wrote; [exact Hs|by apply wrote_nil|]. eapply fs_inv_quiet; [by apply Hs|done|done].
Qed.
Lemma served_switch fs m d n id :
  served fs m d n → in_width 32 id → is_Some (a_subvol m id) →
  ∃ fs', switch_subvol id fs = (Ok tt, fs') ∧ served fs' m d n ∧ current_subvol fs' = id ∧ log (tree fs') = log (tree fs).
Proof using All.
  intros Hs Hid [sv Hsv]. destruct (switch_inv fs m n id (proj1 Hs) Hid) as (fs' & E & Hinv & Ec & Hst & W).
  rewrite Hsv in E, Ec. exists fs'. split; [done|]. split; [by eapply served_wrote|]. split; [done|]. destruct W as (-> & _). apply log_after_nil.
Qed.

(** Reading a file of a subvolume, after a switch to it. *)
Definition reads_in fs (id ino offset size : Z) (bytes : list byte) : Prop := ∃ fs1 fs2,
  switch_subvol id fs = (Ok tt, fs1) ∧ fs_read_at ino offset size fs1 = (Ok bytes, fs2).

Lemma read_in_served fs m d n id s l ino offset size :
  served fs m d n → in_width 32 id → view m id s l → in_width 64 ino → 0 ≤ offset → 0 ≤ size → offset + size < 2 ^ 64 →
  reads_in fs id ino offset size (expected_bytes d m l ino offset size).
Proof using All.
  intros Hs Hid Hv Hi Ho Hz Hend. pose proof Hv as [Hv1 _]. apply fmap_Some in Hv1 as (sv & Hsv & _).
  destruct (served_switch fs m d n id Hs Hid (mk_is_Some _ _ Hsv)) as (fs1 & E1 & [_ Hf1] & C1 & _). rewrite <- C1 in Hv.
  destruct (read_at_reads m d _ s l (fm_typed _ _ _ (fl_fs _ _ _ _ Hf1)) (fl_ext _ _ _ _ Hf1) Hv ino offset size Hi Ho Hz Hend fs1 n Hf1 eq_refl)
    as (out & fs2 & E2 & <- & _). by exists fs1, fs2.
Qed.

(** ** What a chain reads *)
(** Bytes are decided by the extents a chain sees. *)
Lemma byte_at_same d d' m m' l l' ino p :
  (∀ k, file_key k → seen m' k l' = seen m k l) → d ⊆ d' → extents_ok m d → Forall (in_width 32) l →
  in_width 64 ino → in_width 64 p → byte_at d' m' l' ino p = byte_at d m l ino p.
Proof using Type.
  intros Hseen Hd Hx Hl Hi Hp. unfold byte_at. assert (a_extent m' l' ino (block_floor p) = a_extent m l ino (block_floor p)) as ->.
  { unfold a_extent. rewrite Hseen; [done|]. right. by right. }
  destruct (a_extent m l ino (block_floor p)) as [x|] eqn:E; [|done]. destruct (_ <? _); [|done].
  destruct (a_extent_fits m d l ino _ x Hx Hl Hi (block_floor_width p Hp) E) as [_ _ _ (b & Hb & _)].
  by rewrite Hb, (lookup_weaken _ _ _ _ Hb Hd).
Qed.
Lemma expected_bytes_same d d' m m' l l' ino offset size :
  (∀ k, file_key k → seen m' k l' = seen m k l) → d ⊆ d' → extents_ok m d → Forall (in_width 32) l →
  in_width 64 ino → 0 ≤ offset → offset + size < 2 ^ 64 → expected_bytes d' m' l' ino offset size = expected_bytes d m l ino offset size.
Proof using Type.
  intros Hseen Hd Hx Hl Hi Ho Hend. unfold expected_bytes. assert (a_inode m' l' ino = a_inode m l ino) as ->.
  { unfold a_inode. rewrite Hseen; [done|]. by left. }
  destruct (a_inode m l ino) as [i|]; [|done]. apply list_fmap_ext. intros j p Hp. apply byte_at_same; try done.
  apply list_elem_of_lookup_2, elem_of_seqZ in Hp. unfold in_width. lia.
Qed.

(** ** Operations *)
Inductive sop : Type :=
  | SOp (o : fop)
  | SWrite (ino offset : Z) (data : list byte)
  | SAlloc.
Definition run_sop (o : sop) : M (Fs D) FsError unit :=
  match o with
  | SOp o => run_fop o
  | SWrite ino offset data => _ ← from_btree (fs_write_at ino offset data); mret tt
  | SAlloc => _ ← from_btree alloc_ino; mret tt
  end.
Definition sop_ok (o : sop) : Prop :=
  match o with
  | SOp o => fop_ok o
  | SWrite ino offset data => in_width 64 ino ∧ 0 ≤ offset ∧ offset + Z.of_nat (length data) < 2 ^ 64
  | SAlloc => True
  end.
(** Operations on files, as opposed to subvolumes. *)
Definition file_sop (o : sop) : Prop := match o with SOp o => file_op o | _ => True end.
(** The writes of the tree an operation makes at most. *)
Definition cost (o : sop) : Z := match o with SWrite _ _ data => 2 * Z.of_nat (length data) | _ => 4 end.
Definition costs (os : list sop) : Z := foldr (λ o n, cost o + n) 0 os.

Lemma cost_nonneg o : 0 ≤ cost o.
Proof using Type. destruct o; cbn; lia. Qed.
Lemma costs_nonneg os : 0 ≤ costs os.
Proof using Type. induction os as [|o os IH]; cbn [costs foldr]; [done|]. pose proof (cost_nonneg o). unfold costs in IH. lia. Qed.

Lemma served_weaken n' n fs m d : 0 ≤ n' ≤ n → served fs m d n → served fs m d n'.
Proof using Type.
  intros Hn [Hinv [_ Hx Hb]]. pose proof (fs_inv_weaken _ _ _ _ Hn Hinv) as Hinv'. split; [done|]. by split; [apply Hinv'| |].
Qed.

(** What a file operation does from the subvolume whose snapshot is [s]. *)
Definition served_locally s fs m d n (c : M (Fs D) FsError unit) : Prop :=
  ∃ r fs' ops d', c fs = (r, fs') ∧ (r = Ok tt ∨ ∃ e, r = Err e) ∧ Forall (local_op s) ops ∧ d ⊆ d' ∧
    served fs' (a_run ops m) d' n ∧ current_subvol fs' = current_subvol fs.

Lemma write_at_served s l fs m d n ino offset data :
  served fs m d (2 * Z.of_nat (length data) + n) → 0 ≤ n → view m (current_subvol fs) s l → in_width 64 ino → 0 ≤ offset →
  offset + Z.of_nat (length data) < 2 ^ 64 →
  ∃ ops d' fs', fs_write_at ino offset data fs = (Ok (Z.of_nat (length data)), fs') ∧ range_written s l m d ino offset data ops d' ∧
    served fs' (a_run ops m) d' n ∧ fs' = set_tree (tree fs') fs.
Proof using All.
  intros [Hinv Hf] Hn Hv Hi Ho Hend.
  destruct (write_at_writes m d _ s l ino offset data Hv Hi Ho Hend fs n Hf Hn eq_refl) as (r & ops & d' & fs' & E & [-> Hrw] & Hf' & T & _).
  exists ops, d', fs'. split; [done|]. split; [done|]. split; [|done]. split; [|done].
  pose proof (range_written_local _ _ _ _ _ _ _ _ _ Hrw) as Hloc. pose proof Hinv as [_ Hids Hw Hcur].
  pose proof (view_width _ _ _ _ Hv) as Ws. destruct (view_above _ _ _ _ _ _ Hv Hw Hids) as [Hlt _].
  split; [apply Hf'|..]; rewrite T; cbn [set_tree next_snap_id next_subvol_id current_subvol];
    [by eapply ids_ok_local|done|by rewrite (local_subvol s)].
Qed.

Lemma write_served s l fs m d n ino offset data :
  served fs m d (2 * Z.of_nat (length data) + n) → 0 ≤ n → view m (current_subvol fs) s l → in_width 64 ino → 0 ≤ offset →
  offset + Z.of_nat (length data) < 2 ^ 64 → served_locally s fs m d n (_ ← from_btree (fs_write_at ino offset data); mret tt).
Proof using All.
  intros Hs Hn Hv Hi Ho Hend. destruct (write_at_served s l fs m d n ino offset data Hs Hn Hv Hi Ho Hend) as (ops & d' & fs' & E & Hrw & Hs' & T).
  exists (Ok tt), fs', ops, d'. split; [unfold from_btree, mapping_err, mbind, M_bind; by rewrite E|]. split; [by left|].
  split; [by eapply range_written_local|]. split; [apply Hrw|]. split; [done|by rewrite T].
Qed.

(** What is written inside a file is what its chain then reads. *)
Lemma written_bytes s l m d ino offset data ops d' inode :
  range_written s l m d ino offset data ops d' → in_width 32 s → Forall (in_width 32) l → a_inode m l ino = Some inode →
  in_width 64 ino → 0 ≤ offset → offset + Z.of_nat (length data) ≤ i_size inode < 2 ^ 64 →
  expected_bytes d' (a_run ops m) l ino offset (Z.of_nat (length data)) = data.
Proof using Type.
  intros Hrw Hs Hl Hi Hw Ho Hsz. destruct (range_written_view s l m d ino offset data ops d' Hs Hl Hrw) as [_ Hvi].
  eapply expected_bytes_whole; [|done|done|exact (proj1 Hsz)|lia|].
  - specialize (Hvi ino Hw). cbn in Hvi. by rewrite Hvi.
  - intros p Hp. rewrite (rw_bytes _ _ _ _ _ _ _ _ _ Hrw) by (unfold in_width in *; done || lia). by rewrite decide_True by lia.
Qed.

Lemma file_sop_served s l fs m d n o :
  served fs m d (cost o + n) → 0 ≤ n → view m (current_subvol fs) s l → file_sop o → sop_ok o → served_locally s fs m d n (run_sop o).
Proof using All.
  intros Hs Hn Hv Hfo Ho. destruct o as [o|ino offset data|]; cbn [cost sop_ok file_sop run_sop] in *.
  - destruct Hs as [Hinv [_ Hx Hb]]. destruct (file_op_inv fs m n s l o Hinv Hn Hv Hfo Ho) as (r & fs' & ops & E & Hr & Hloc & Hinv' & T & W & Hno).
    exists r, fs', ops, d. do 4 (split; [done|]). split; [|by rewrite T]. split; [done|]. split; [apply Hinv'|by apply no_extent_ok|].
    intros nr b Hnr. eapply kept_shelters; [apply Hinv|apply W|by apply Hb].
  - destruct Ho as (? & ? & ?). by eapply write_served.
  - eexists (Ok tt), (set_next_ino _ fs), [], d. split; [reflexivity|]. split; [by left|]. split; [constructor|]. split; [done|].
    apply (served_weaken n) in Hs; [|lia]. destruct Hs as [[Hfs Hids Hw Hc] [_ Hx Hb]]. split; [|done].
    assert (fs_models (set_next_ino (u64 (next_ino fs + 1)) fs) m n) as Hfs' by (by destruct Hfs). by split; split.
Qed.

(** Any operation keeps the file system served, and returns. *)
Lemma sop_served o fs m d n :
  served fs m d (cost o + n) → 0 ≤ n → sop_ok o →
  ∃ r fs' m' d', run_sop o fs = (r, fs') ∧ (r = Ok tt ∨ ∃ e, r = Err e) ∧ served fs' m' d' n.
Proof using All.
  intros Hs Hn Ho. assert ((∃ o', o = SOp o') ∨ file_sop o) as [[o' ->]|Hno] by (destruct o; eauto; by right).
  - cbn [cost sop_ok run_sop] in *. destruct Hs as [Hinv [_ Hx Hb]].
    destruct (step_inv fs m n o' Hinv Hn Ho) as (r & fs' & ops & E & Hr & Hinv' & [W Hxo _]).
    exists r, fs', (a_run ops m), d. do 2 (split; [done|]). split; [done|]. split; [apply Hinv'|by apply no_extent_ok|].
    intros nr b Hnr. eapply kept_shelters; [apply Hinv|apply W|by apply Hb].
  - destruct (view_exists m (current_subvol fs) (fi_current _ _ _ (proj1 Hs))) as (s & l & Hv).
    destruct (file_sop_served s l fs m d n o Hs Hn Hv) as (r & fs' & ops & d' & E & Hr & _ & _ & Hs' & _); [done|done|].
    by exists r, fs', (a_run ops m), d'.
Qed.

(** Run operations one after the other, going on after an error. *)
Inductive runs_sops : list sop → Fs D → Fs D → Prop :=
  | runs_sops_nil fs : runs_sops [] fs fs
  | runs_sops_cons o os fs r fs1 fs' : run_sop o fs = (r, fs1) → runs_sops os fs1 fs' → runs_sops (o :: os) fs fs'.

Lemma runs_sops_served os fs m d n :
  Forall sop_ok os → 0 ≤ n → served fs m d (costs os + n) →
  (∃ fs', runs_sops os fs fs') ∧ ∀ fs', runs_sops os fs fs' → ∃ m' d', served fs' m' d' n.
Proof using All.
  intros Hos Hn. revert fs m d. induction Hos as [|o os Ho _ IH]; intros fs m d Hs.
  { split; [eexists; constructor|]. intros fs' Hr. inversion Hr; subst. by exists m, d. }
  cbn [costs foldr] in Hs. fold (costs os) in Hs. pose proof (costs_nonneg os) as Hc.
  destruct (sop_served o fs m d (costs os + n)) as (r & fs1 & m1 & d1 & E & _ & Hs1); [by rewrite Z.add_assoc|lia|done|].
  destruct (IH fs1 m1 d1 Hs1) as [[fs' Hr] Hall]. split; [exists fs'; by econstructor|].
  intros fs2 Hr2. inversion Hr2 as [|? ? ? r' fs1' ? E' Hr' Ea Eb Ec]; subst. rewrite E in E'. injection E' as <- <-. by apply Hall.
Qed.

(** File operations of one subvolume leave what another one sees, bytes included. *)
Lemma file_sops_isolated os fs fs' m d n s l other so lo :
  runs_sops os fs fs' → Forall (λ o, file_sop o ∧ sop_ok o) os → 0 ≤ n →
  served fs m d (costs os + n) → view m (current_subvol fs) s l → view m other so lo → s ∉ lo →
  ∃ m' d', served fs' m' d' n ∧ view m' other so lo ∧ (∀ id, a_subvol m' id = a_subvol m id) ∧ d ⊆ d' ∧
    ∀ k, file_key k → seen m' k lo = seen m k lo.
Proof using All.
  intros Hruns Hos Hn. revert m d. induction Hruns as [fs|o os fs r fs1 fs' E _ IH]; intros m d Hs Hv Hvo Hnot; [by exists m, d|].
  apply Forall_cons in Hos as [[Hf Ho] Hos]. cbn [costs foldr] in Hs. fold (costs os) in Hs. pose proof (costs_nonneg os) as Hc.
  destruct (file_sop_served s l fs m d (costs os + n) o) as (r' & fs1' & ops & d1 & E' & _ & Hloc & Hd1 & Hs1 & C1); [by rewrite Z.add_assoc|lia|done..|].
  rewrite E in E'. injection E' as <- <-. pose proof (view_width _ _ _ _ Hv) as Ws.
  destruct (IH Hos (a_run ops m) d1) as (m' & d' & Hs' & Hv' & Hsub & Hd' & Hseen); [done|rewrite C1; by eapply view_local|by eapply view_local|done|].
  exists m', d'. split; [done|]. split; [done|]. split; [intros id; by rewrite Hsub, (local_subvol s)|]. split; [by etransitivity|].
  intros k Hk. rewrite Hseen by done. eapply local_seen; [done|by apply (view_chain_ok _ _ _ _ Hvo)|done|done|done].
Qed.

(** A snapshot is served, and its chain and the source's new one see what the source
    saw; neither writes where the other reads. *)
Lemma snapshot_served fs m d n s l :
  0 ≤ n → served fs m d (4 + n) → view m (current_subvol fs) s l → 2 ≤ next_snap_id fs → next_subvol_id fs < U32_MAX →
  let w := next_snap_id fs in
  ∃ fs1 m1 sv, snapshot_subvol (current_subvol fs) fs = (Ok (next_subvol_id fs), fs1) ∧ served fs1 m1 d n ∧ current_subvol fs1 = current_subvol fs ∧
    view m1 (current_subvol fs1) w (w :: l) ∧ view m1 (next_subvol_id fs) (w - 1) (w - 1 :: l) ∧ (w ∉ w - 1 :: l) ∧
    a_subvol m1 (next_subvol_id fs) = Some sv ∧ v_flags sv = SUBVOL_FLAG_READONLY ∧
    ∀ k x, file_key k → x = w ∨ x = w - 1 → seen m1 k (x :: l) = seen m k l.
Proof using All.
  intros Hn Hs Hv Hsnap Hvol. pose proof Hs as [Hinv [_ Hx Hb]]. pose proof Hinv as [Hfs Hids Hw [sv Hsv]].
  assert (s = v_snap_id sv) as -> by (pose proof (vw_subvol _ _ _ _ Hv) as E; rewrite Hsv in E; by injection E).
  destruct (snapshot_taken fs m n _ sv Hinv Hn Hw Hsv Hsnap Hvol) as (fs1 & E1 & Hinv1 & [W Hxo _] & Ec).
  set (m1 := a_run (snapshot_ops (current_subvol fs) (next_snap_id fs) (next_subvol_id fs) sv) m) in *.
  destruct (snapshot_views m _ _ _ sv l Hsv Hids Hsnap Hw (vw_chain _ _ _ _ Hv)) as [Hvsrc Hvnew]. fold m1 in Hvsrc, Hvnew.
  exists fs1, m1, (snap_subvol (current_subvol fs) (next_snap_id fs - 1) sv). split; [done|]. split.
  { split; [done|]. split; [apply Hinv1|by apply no_extent_ok|]. intros nr b Hnr. eapply kept_shelters; [apply Hinv|apply W|by apply Hb]. }
  rewrite Ec. do 3 (split; [done|]). split.
  { destruct (view_above _ _ _ _ _ _ Hv Hw Hids) as [_ Hab]. rewrite Forall_forall in Hab. intros [?|Hin]%elem_of_cons; [lia|]. apply Hab in Hin. lia. }
  split; [|split; [done|]].
  - unfold m1. rewrite (snapshot_a_subvol _ _ _ _ _ Hsv Hids Hsnap Hw) by apply (io_subvol_width _ _ _ Hids). by rewrite decide_True.
  - intros k x Hk Hxw. eapply snapshot_seen; [done..|apply Hv|done|done].
Qed.

(** After a snapshot and file operations in the source, the snapshot's chain sees
    what the source saw. *)
Lemma snapshot_then_ops os fs m d n s l :
  Forall (λ o, file_sop o ∧ sop_ok o) os → 0 ≤ n →
  served fs m d (4 + (costs os + n)) → view m (current_subvol fs) s l → 2 ≤ next_snap_id fs → next_subvol_id fs < U32_MAX →
  ∃ fs1, snapshot_subvol (current_subvol fs) fs = (Ok (next_subvol_id fs), fs1) ∧ (∃ fs2, runs_sops os fs1 fs2) ∧
    ∀ fs2, runs_sops os fs1 fs2 → ∃ m2 d2 s2 sv, served fs2 m2 d2 n ∧ view m2 (next_subvol_id fs) s2 (s2 :: l) ∧ d ⊆ d2 ∧
      a_subvol m2 (next_subvol_id fs) = Some sv ∧ v_flags sv = SUBVOL_FLAG_READONLY ∧ ∀ k, file_key k → seen m2 k (s2 :: l) = seen m k l.
Proof using All.
  intros Hos Hn Hs Hv Hsnap Hvol. pose proof (costs_nonneg os) as Hc.
  destruct (snapshot_served fs m d (costs os + n) s l ltac:(lia) Hs Hv Hsnap Hvol) as (fs1 & m1 & sv & E1 & Hs1 & _ & Hvsrc & Hvnew & Hnot & Hsv & Hfl & Hseen1).
  exists fs1. split; [done|]. split.
  { eapply runs_sops_served; [|exact Hn|exact Hs1]. eapply Forall_impl; [exact Hos|]. by intros o []. }
  intros fs2 Hruns.
  destruct (file_sops_isolated os fs1 fs2 m1 d n _ _ _ _ _ Hruns Hos Hn Hs1 Hvsrc Hvnew Hnot) as (m2 & d2 & Hs2 & Hv2 & Hsub & Hd & Hseen).
  exists m2, d2, (next_snap_id fs - 1), sv. do 3 (split; [done|]). split; [by rewrite Hsub|]. split; [done|].
  intros k Hk. rewrite Hseen by done. apply Hseen1; [done|by right].
Qed.
End serving.

(** What the checker and the depth walk of the tests find in order: [verify]
    returns, and all leaves are at the same depth. *)
Definition well_shaped {D} `{!BlockDevice D} `{!Crc32} (bt : Btree D) : Prop :=
  (∃ bt', verify bt = (Ok tt, bt')) ∧
  ∃ j depth s, collect_leaf_depths TREE_FUEL (root_block bt) 0 [] (store bt) = (Ok (replicate (S j) depth), s).

(** ** Claims *)
Section claims.
Context {D : Type} `{!BlockDevice D} `{!BlockDeviceLaws D} `{!BlockDeviceTotal D} `{!Crc32} `{!Crc32Range}.
Implicit Types fs : Fs D.

(** C13: operations return and keep the file system well formed. The operations are
    [put_inode], [put_dirent], [unlink], [rename], [rmdir], [snapshot_subvol],
    [switch_subvol], [alloc_ino] and [write_at]. From a state with the invariant (the
    tree stands for a map whose keys and values have the on-disk formats, no id is
    handed out twice, the active subvolume exists, extents are aligned and name data
    blocks that are neither free nor nodes) and room for the writes, any sequence of
    these runs, refused ones included, and ends in a state with the invariant, where
    any of them returns [Ok] or an error. *)
Theorem reachable_states_are_well_formed os o fs m d n :
  Forall sop_ok os → sop_ok o → 0 ≤ n → served fs m d (costs os + (cost o + n)) →
  (∃ fs', runs_sops os fs fs') ∧
  ∀ fs', runs_sops os fs fs' →
    (∃ m' d', served fs' m' d' (cost o + n)) ∧
    ∃ r fs'' m'' d'', run_sop o fs' = (r, fs'') ∧ (r = Ok tt ∨ ∃ e, r = Err e) ∧ served fs'' m'' d'' n.
Proof using All.
  intros Hos Ho Hn Hs. pose proof (cost_nonneg o) as Hc. destruct (runs_sops_served os fs m d (cost o + n) Hos ltac:(lia) Hs) as [Hrun Hall].
  split; [done|]. intros fs' Hr. destruct (Hall fs' Hr) as (m' & d' & Hs'). split; [by exists m', d'|].
  destruct (sop_served o fs' m' d' n Hs' Hn Ho) as (r & fs'' & m'' & d'' & ? & ? & ?). eauto 10.
Qed.

(** C14: the trees of such file systems pass the code's own checker. After any
    sequence of the operations of [sop] (names and inodes, snapshots, switches, inode
    numbers, writes; not truncates) from a state with the invariant, [verify] returns:
    node occupancy, the order of keys and separators, the bounds each separator puts on
    its subtrees, the levels of children and the whiteout flags of leaf runs are as they
    must be; and all leaves are at the same depth. *)
Theorem reachable_trees_verify os fs fs' m d n :
  runs_sops os fs fs' → Forall sop_ok os → 0 ≤ n → served fs m d (costs os + n) → well_shaped (tree fs').
Proof using All.
  intros Hr Hos Hn Hs. destruct (proj2 (runs_sops_served os fs m d n Hos Hn Hs) fs' Hr) as (m' & d' & [[[Hbt _] _ _ _] _]).
  destruct (verify_ok _ _ _ Hbt) as (bt & E & _). split; [by exists bt|by eapply balanced_ok].
Qed.

(** C7: snapshots are isolated, file data included. After [snapshot_subvol] of the
    active subvolume, any sequence of [put_inode], [put_dirent], [unlink], [rename],
    [rmdir], [alloc_ino] and [write_at] in it runs, and leaves the snapshot as it was:
    reading any range of any file in the snapshot returns the bytes that the source
    returned at the time of the snapshot, and so do its inodes and directory entries.
    The snapshot itself is marked read-only. Truncates are not among the operations. *)
Theorem snapshot_is_isolated os fs m d n s l :
  Forall (λ o, file_sop o ∧ sop_ok o) os → 0 ≤ n →
  served fs m d (4 + (costs os + n)) → view m (current_subvol fs) s l → 2 ≤ next_snap_id fs → next_subvol_id fs < U32_MAX →
  ∃ fs1, snapshot_subvol (current_subvol fs) fs = (Ok (next_subvol_id fs), fs1) ∧
    (∃ fs2, runs_sops os fs1 fs2) ∧
    ∀ fs2, runs_sops os fs1 fs2 →
      (∀ ino offset size, in_width 64 ino → 0 ≤ offset → 0 ≤ size → offset + size < 2 ^ 64 →
         ∃ bytes, reads_in fs (current_subvol fs) ino offset size bytes ∧ reads_in fs2 (next_subvol_id fs) ino offset size bytes) ∧
      ∃ fs3, switch_subvol (next_subvol_id fs) fs2 = (Ok tt, fs3) ∧
        (∀ ino, ∃ fs4, get_inode ino fs3 = (Ok (a_inode m l ino), fs4)) ∧
        (∀ parent name, (length name ≤ MAX_NAME_LEN)%nat → ∃ fs4, lookup_dirent parent name fs3 = (Ok (a_dirent m l parent name), fs4)) ∧
        ∃ fs4 sv, get_subvol (next_subvol_id fs) fs3 = (Ok (Some sv), fs4) ∧ v_flags sv = SUBVOL_FLAG_READONLY.
Proof using All.
  intros Hos Hn Hs Hv Hsnap Hvol. pose proof Hs as [Hinv [_ Hx _]]. pose proof Hinv as [_ Hids Hw _].
  destruct (snapshot_then_ops os fs m d n s l Hos Hn Hs Hv Hsnap Hvol) as (fs1 & E1 & Hrun & Hall). exists fs1. do 2 (split; [done|]).
  intros fs2 Hr. destruct (Hall fs2 Hr) as (m2 & d2 & s2 & sv & Hs2 & Hv2 & Hd & Hsv & Hflag & Hseen).
  pose proof (io_subvol_width _ _ _ Hids) as Wv. split.
  { intros ino offset size Hi Ho Hz Hend. exists (expected_bytes d m l ino offset size).
    split; [by apply (read_in_served fs m d _ _ s l ino offset size Hs)|].
    rewrite <- (expected_bytes_same d d2 m m2 l (s2 :: l)); [by eapply read_in_served|done|done|done|by apply (view_chain_ok _ _ _ _ Hv)|done|done|lia]. }
  destruct (served_switch fs2 m2 d2 n _ Hs2 Wv (mk_is_Some _ _ Hsv)) as (fs3 & E3 & [[Hfs3 _ _ _] _] & Ec3 & _). exists fs3. split; [done|].
  pose proof (fm_typed _ _ _ Hfs3) as Hm2. split; [|split].
  - intros ino. destruct (get_inode_reads m2 _ _ _ ino Hm2 Hv2 fs3 n Hfs3 Ec3) as (fs4 & E4 & _).
    exists fs4. rewrite E4. unfold a_inode. rewrite Hseen; [done|by left].
  - intros parent name Hname. destruct (lookup_dirent_reads m2 _ _ _ parent name Hm2 Hv2 Hname fs3 n Hfs3 Ec3) as (fs4 & E4 & _).
    exists fs4. rewrite E4. unfold a_dirent. rewrite Hseen; [done|right; by left].
  - destruct (get_subvol_reads m2 _ (next_subvol_id fs) Hm2 fs3 n Hfs3 Ec3) as (fs4 & E4 & _). rewrite Hsv in E4. by exists fs4, sv.
Qed.
End claims.

(** ** A concrete file system *)
#[local] Existing Instance sum_crc.

Lemma demo_sized_local : Forall (local_op ROOT_SNAP) demo_sized_ops.
Proof. apply Forall_singleton. left. split; [by left|done]. Qed.

(** A new file system with an empty file of ten bytes. *)
Lemma demo_sized_served :
  ∃ fs0 fs, fs_new = Ok fs0 ∧ run_sop (SOp (FPutInode 2 demo_sized)) fs0 = (Ok tt, fs) ∧ served fs demo_sized_map ∅ 200 ∧
    current_subvol fs = ROOT_SUBVOL ∧ next_snap_id fs = ROOT_SNAP - 1 ∧ next_subvol_id fs = ROOT_SUBVOL + 1.
Proof.
  destruct (fs_new_ok 201) as (fs0 & E0 & [Hfs Hids Hw Hcur] & Ec & Es & Ev & _); [lia|].
  destruct (put_inode_performs seed_map ROOT_SUBVOL ROOT_SNAP [ROOT_SNAP] 2 demo_sized (fm_typed _ _ _ Hfs) seed_view fs0 200)
    as (fs & E & Hfs1 & T & _); [exact Hfs|lia|exact Ec|].
  assert (current_subvol fs = ROOT_SUBVOL ∧ next_snap_id fs = ROOT_SNAP - 1 ∧ next_subvol_id fs = ROOT_SUBVOL + 1) as (Ec1 & Es1 & Ev1).
  { rewrite T. cbn [set_tree current_subvol next_snap_id next_subvol_id]. split_and!; [exact Ec|exact Es|exact Ev]. }
  exists fs0, fs. split; [exact E0|]. split; [cbn [run_sop run_fop]; unfold from_btree, mapping_err; rewrite E; reflexivity|].
  split; [|split; [exact Ec1|split; [exact Es1|exact Ev1]]].
  split; [split; [exact Hfs1|rewrite Es1, Ev1|rewrite Ec1, <- Ec; exact Hw|rewrite Ec1]|split; [exact Hfs1| |]].
  - apply (ids_ok_local ROOT_SNAP); [rewrite <- Es, <- Ev; exact Hids|apply root_width|lia|exact demo_sized_local].
  - unfold demo_sized_map. rewrite (local_subvol ROOT_SNAP); [rewrite <- Ec; exact Hcur|apply root_width|exact demo_sized_local].
  - apply no_extent_ok; [by apply Forall_singleton|exact seed_extents].
  - intros nr b Hb. rewrite lookup_empty in Hb. discriminate Hb.
Qed.

Lemma root_subvol_width : in_width 32 ROOT_SUBVOL.
Proof. by unfold in_width, ROOT_SUBVOL. Qed.

Definition demo_sops : list sop := [SWrite 2 0 demo_data; SOp (FSnapshot ROOT_SUBVOL); SWrite 2 1 demo_data].
Lemma demo_sops_ok : Forall sop_ok demo_sops.
Proof.
  unfold demo_sops. repeat apply Forall_cons_2; [..|constructor]; cbn [sop_ok fop_ok demo_data length];
    [split; [exact demo_ino_width|lia]|by unfold in_width, ROOT_SUBVOL|split; [exact demo_ino_width|lia]].
Qed.

(** A write, a snapshot and a write over it run, and an unlink of a name that is not
    there returns. *)
Lemma reachable_states_are_well_formed_witness :
  ∃ fs0 fs fs1 r fs2, fs_new = Ok fs0 ∧ run_sop (SOp (FPutInode 2 demo_sized)) fs0 = (Ok tt, fs) ∧ runs_sops demo_sops fs fs1 ∧
    run_sop (SOp (FUnlink ROOT_INO demo_name)) fs1 = (r, fs2) ∧ (r = Ok tt ∨ ∃ e, r = Err e).
Proof.
  destruct demo_sized_served as (fs0 & fs & E0 & E & Hs & _).
  destruct (reachable_states_are_well_formed demo_sops (SOp (FUnlink ROOT_INO demo_name)) fs demo_sized_map ∅ 0 demo_sops_ok)
    as [[fs1 Hr] Hall]; [cbn; consts; lia|lia|apply (served_weaken _ 200); [cbn; lia|exact Hs]|].
  destruct (Hall fs1 Hr) as (_ & r & fs2 & _ & _ & E2 & H2 & _).
  exists fs0, fs, fs1, r, fs2. split; [exact E0|]. split; [exact E|]. split; [exact Hr|]. split; [exact E2|exact H2].
Defined.

Lemma reachable_trees_verify_witness :
  ∃ fs0 fs fs1, fs_new = Ok fs0 ∧ run_sop (SOp (FPutInode 2 demo_sized)) fs0 = (Ok tt, fs) ∧ runs_sops demo_sops fs fs1 ∧ well_shaped (tree fs1).
Proof.
  destruct demo_sized_served as (fs0 & fs & E0 & E & Hs & _).
  assert (served fs demo_sized_map ∅ (costs demo_sops + 0)) as Hs' by (apply (served_weaken _ 200); [cbn; lia|exact Hs]).
  destruct (runs_sops_served demo_sops fs demo_sized_map ∅ 0 demo_sops_ok ltac:(lia) Hs') as [[fs1 Hr] _].
  exists fs0, fs, fs1. split; [exact E0|]. split; [exact E|]. split; [exact Hr|].
  exact (reachable_trees_verify demo_sops fs fs1 demo_sized_map ∅ 0 Hr demo_sops_ok ltac:(lia) Hs').
Defined.

(** A file is written, a snapshot taken, and the file written over in the source. *)
Definition demo_over : list sop := [SWrite 2 0 (zeros 3); SOp (FUnlink ROOT_INO demo_name)].
Lemma demo_over_ok : Forall (λ o, file_sop o ∧ sop_ok o) demo_over.
Proof.
  unfold demo_over. repeat apply Forall_cons_2; [..|constructor]; (split; [exact I|]); cbn [sop_ok fop_ok];
    [split; [exact demo_ino_width|cbn [zeros replicate length]; lia]|cbn; consts; lia].
Qed.
Lemma snapshot_is_isolated_witness :
  ∃ fs0 fs fs1 fs2 fs3, fs_new = Ok fs0 ∧ runs_sops [SOp (FPutInode 2 demo_sized); SWrite 2 0 demo_data] fs0 fs ∧
    snapshot_subvol ROOT_SUBVOL fs = (Ok 2, fs1) ∧ runs_sops demo_over fs1 fs2 ∧ switch_subvol 2 fs2 = (Ok tt, fs3) ∧
    reads_in fs2 2 2 0 3 demo_data.
Proof.
  destruct demo_sized_served as (fs0 & fsi & E0 & E & Hs & Ec & Es & Ev).
  assert (view demo_sized_map (current_subvol fsi) ROOT_SNAP [ROOT_SNAP]) as Hv by (rewrite Ec; exact demo_sized_view).
  destruct (write_at_served ROOT_SNAP [ROOT_SNAP] fsi demo_sized_map ∅ 194 2 0 demo_data) as (ops & d & fs & E1 & Hrw & Hs1 & T);
    [exact Hs|lia|exact Hv|exact demo_ino_width|lia|cbn [demo_data length]; lia|].
  pose proof (written_bytes _ _ _ _ _ _ _ _ _ _ Hrw root_width (chain_width _ _ _ _ Hv) demo_sized_inode demo_ino_width ltac:(lia) ltac:(cbn; lia)) as Hdata.
  pose proof (view_local _ _ _ _ _ _ root_width (range_written_local _ _ _ _ _ _ _ _ _ Hrw) Hv) as Hv1.
  set (m := a_run ops demo_sized_map) in *.
  assert (current_subvol fs = ROOT_SUBVOL ∧ next_snap_id fs = ROOT_SNAP - 1 ∧ next_subvol_id fs = 2) as (Ec1 & Es1 & Ev1)
    by (rewrite T; cbn [set_tree current_subvol next_snap_id next_subvol_id]; split; [exact Ec|split; [exact Es|exact Ev]]).
  rewrite Ec, <- Ec1 in Hv1.
  destruct (snapshot_is_isolated demo_over fs m d 0 ROOT_SNAP [ROOT_SNAP] demo_over_ok) as (fs1 & E2 & [fs2 Hr] & Hiso);
    [lia|apply (served_weaken _ 194); [cbn; lia|exact Hs1]|exact Hv1|rewrite Es1; unfold ROOT_SNAP; lia|rewrite Ev1; lia|].
  destruct (Hiso fs2 Hr) as (Hread & fs3 & E3 & _). rewrite Ec1, Ev1 in *.
  destruct (Hread 2 0 3) as (bytes & Hb1 & Hb2); [exact demo_ino_width|lia|lia|lia|].
  assert (bytes = demo_data) as ->.
  { destruct (read_in_served fs m d 194 ROOT_SUBVOL ROOT_SNAP [ROOT_SNAP] 2 0 3 Hs1 root_subvol_width Hv1 demo_ino_width) as (fa & fb & Ea & Eb); [lia|lia|lia|].
    change 3 with (Z.of_nat (length demo_data)) in Eb at 2. rewrite Hdata in Eb. destruct Hb1 as (fa' & fb' & Ea' & Eb').
    rewrite Ea in Ea'. injection Ea' as <-. change (Z.of_nat (length demo_data)) with 3 in Eb. rewrite Eb in Eb'. injection Eb' as <- _. reflexivity. }
  exists fs0, fs, fs1, fs2, fs3. split; [exact E0|]. split.
  { eapply runs_sops_cons; [exact E|]. eapply runs_sops_cons; [|apply runs_sops_nil].
    cbn [run_sop]. unfold from_btree, mapping_err, mbind, M_bind. rewrite E1. reflexivity. }
  split; [exact E2|]. split; [exact Hr|]. split; [exact E3|exact Hb2].
Defined.
