(* ===== verification/Fuse.v ===== *)
(** * Fuse: the request handlers (src/fuse.rs).

    [FuseFs] is the file system behind a mutex; a handler that panics poisons it.
    A handler is a computation on [Fs] whose outcome is the reply: [Ok a] for
    [reply.entry(..)] and the like, [Err e] for [reply.error(e)]. The clock, the
    ids of the caller and the directory buffer of the kernel are arguments. *)
From Stdlib Require Import Strings.Byte.
From stdpp Require Import base list numbers.
From S2P Require Import Prelude Device BlockBtree Storage Journal Btree FsTypes Fs.
#[local] Open Scope Z_scope.

(** ** Constants of libc and of the module *)
Definition S_IFMT : Z := 61440.
Definition S_IFDIR : Z := 16384.
Definition S_IFREG : Z := 32768.
Definition S_IFLNK : Z := 40960.
(** [0o7777], [0o777] and [0o755]. *)
Definition PERM_MASK : Z := 4095.
Definition PERM_ALL : Z := 511.
Definition PERM_DIR : Z := 493.
Definition FUSE_BLOCK_SIZE : Z := 4096.

Inductive Errno : Type :=
  | ENOENT | EIO | EINVAL | ENAMETOOLONG | ENOTDIR | ENOTEMPTY | EEXIST | ENOSPC | EBUSY | EPERM.
Inductive FileType : Type := Directory | Symlink | RegularFile.
#[export] Instance errno_eq_dec : EqDecision Errno.
Proof. solve_decision. Defined.
#[export] Instance file_type_eq_dec : EqDecision FileType.
Proof. solve_decision. Defined.

(** A [SystemTime] is its whole seconds since the epoch. *)
Record FileAttr : Type := {
  a_ino : Z; a_size : Z; a_blocks : Z; a_atime : Z; a_mtime : Z; a_ctime : Z; a_crtime : Z;
  a_kind : FileType; a_perm : Z; a_nlink : Z; a_uid : Z; a_gid : Z; a_rdev : Z; a_blksize : Z; a_flags : Z;
}.
Record Request : Type := { req_uid : Z; req_gid : Z }.
Inductive TimeOrNow : Type := SpecificTime (t : Z) | Now.

(** ** Pure helpers *)

(** [UNIX_EPOCH + Duration::from_secs(s)]: seconds are an [i64]; the addition
    panics past it. *)
Definition to_st (s : Z) : outcome Errno Z := if s <? 2 ^ 63 then Ok s else Panic.

Definition mode_kind (m : Z) : FileType :=
  if Z.land m S_IFMT =? S_IFDIR then Directory
  else if Z.land m S_IFMT =? S_IFLNK then Symlink
  else RegularFile.

Definition to_attr (ino : Z) (inode : InodeV1) : outcome Errno FileAttr :=
  atime ← to_st (i_atime inode);
  mtime ← to_st (i_mtime inode);
  ctime ← to_st (i_ctime inode);
  Ok {| a_ino := ino; a_size := i_size inode;
        a_blocks := (i_size inode + (FUSE_BLOCK_SIZE - 1)) / FUSE_BLOCK_SIZE;
        a_atime := atime; a_mtime := mtime; a_ctime := ctime; a_crtime := 0;
        a_kind := mode_kind (i_mode inode); a_perm := u16 (Z.land (i_mode inode) PERM_MASK);
        a_nlink := i_nlink inode; a_uid := i_uid inode; a_gid := i_gid inode; a_rdev := 0;
        a_blksize := FUSE_BLOCK_SIZE; a_flags := 0 |}.

Definition DOT : list byte := [Byte.x2e].
Definition DOTDOT : list byte := [Byte.x2e; Byte.x2e].

Definition validate_name (name : list byte) : outcome Errno (list byte) :=
  if bool_decide (name = []) || bool_decide (name = DOT) || bool_decide (name = DOTDOT) then Err EINVAL
  else if bool_decide (Byte.x2f ∈ name) || bool_decide (Byte.x00 ∈ name) then Err EINVAL
  else if (MAX_NAME_LEN <? length name)%nat then Err ENAMETOOLONG
  else Ok name.

Definition errno_for_fs_error (e : FsError) : Errno :=
  match e with
  | NotFound => ENOENT
  | NotADirectory => ENOTDIR
  | NotEmpty => ENOTEMPTY
  | AlreadyExists => EEXIST
  | Exhausted => ENOSPC
  | Invalid => EINVAL
  | Busy => EBUSY
  | BtreeErr _ => EIO
  end.

(** ** The mutex *)
Record FuseFs (D : Type) : Type := { fuse_fs : Fs D; poisoned : bool }.
Arguments fuse_fs {D}. Arguments poisoned {D}.

(** [let fs = self.fs.lock().unwrap(); ..]: a panic while the lock is held
    poisons it, and locking a poisoned mutex panics. *)
Definition locked {D A} (c : M (Fs D) Errno A) : M (FuseFs D) Errno A := λ f,
  if poisoned f then (Panic, f) else
  let '(r, fs) := c (fuse_fs f) in
  (r, {| fuse_fs := fs; poisoned := match r with Panic => true | _ => false end |}).

Section handlers.
Context {D : Type} `{!BlockDevice D} `{!Crc32}.
Abbreviation HM := (M (Fs D) Errno).
Abbreviation FM := (M (Fs D) error).
Abbreviation FsM := (M (Fs D) FsError).

(** [Err(_) => reply.error(Errno::EIO)] *)
Definition or_eio {A} (c : FM A) : HM A := mapping_err (λ _, EIO) c.
(** [Err(e) => reply.error(errno_for_fs_error(e))] *)
Definition or_errno {A} (c : FsM A) : HM A := mapping_err errno_for_fs_error c.
(** [Ok(None) => reply.error(e)] *)
Definition some_or {A} (e : Errno) (o : option A) : HM A :=
  match o with Some a => mret a | None => throw e end.
(** [if let Ok(Some(_)) = c { .. }]: errors are ignored. *)
Definition if_ok {A} (c : FM (option A)) : HM bool := λ s,
  match c s with
  | (Ok o, s) => (Ok (bool_decide (is_Some o)), s)
  | (Err _, s) => (Ok false, s)
  | (Panic, s) => (Panic, s)
  | (OutOfFuel, s) => (OutOfFuel, s)
  end.

(** *** Lookup and attributes *)
Definition lookup (parent : Z) (name : list byte) : HM FileAttr :=
  if bool_decide (name = DOT) || bool_decide (name = DOTDOT) then
    oi ← or_eio (get_inode parent);
    parent_inode ← some_or ENOENT oi;
    '(target_ino, target_inode) ←
      (if bool_decide (name = DOT) then mret (parent, parent_inode)
       else
         let pp := i_parent_ino parent_inode in
         oi ← or_eio (get_inode pp);
         i ← some_or ENOENT oi;
         mret (pp, i));
    lift (to_attr target_ino target_inode)
  else
    bytes ← lift (validate_name name);
    od ← or_eio (lookup_dirent parent bytes);
    match od with
    | None => throw ENOENT
    | Some d =>
        oi ← or_eio (get_inode (d_target_ino d));
        inode ← some_or EIO oi;
        lift (to_attr (d_target_ino d) inode)
    end.

Definition getattr (ino : Z) : HM FileAttr :=
  oi ← or_eio (get_inode ino);
  inode ← some_or ENOENT oi;
  lift (to_attr ino inode).

(** *** Directories *)
Definition dirent_file_type (d : DirentV1) : FileType :=
  if d_kind d =? FILE_KIND_DIR then Directory
  else if d_kind d =? FILE_KIND_SYMLINK then Symlink
  else RegularFile.

(** The entries [readdir] offers: the two dots, then the names. *)
Definition dir_entries (ino parent_ino : Z) (dirents : list (list byte * DirentV1)) : list (Z * FileType * list byte) :=
  (ino, Directory, DOT) :: (parent_ino, Directory, DOTDOT)
  :: ((λ '(name, d), (d_target_ino d, dirent_file_type d, name)) <$> dirents).

Section readdir.
(** The kernel's buffer: [add] returns [true] when the entry does not fit. *)
Context {B : Type} (add : Z → Z → FileType → list byte → B → bool * B).

(** [for (i, (child_ino, kind, name)) in entries.skip(offset) { if reply.add(..) { break } }] *)
Fixpoint add_entries (i : nat) (entries : list (Z * FileType * list byte)) (buf : B) : B :=
  match entries with
  | [] => buf
  | (child_ino, kind, name) :: entries =>
      let '(full, buf) := add child_ino (Z.of_nat i + 1) kind name buf in
      if full : bool then buf else add_entries (S i) entries buf
  end.

Definition readdir (ino : Z) (offset : nat) (buf : B) : HM B :=
  oi ← or_eio (get_inode ino);
  inode ← some_or ENOENT oi;
  if negb (Z.land (i_mode inode) S_IFMT =? S_IFDIR) then throw ENOTDIR else
  dirents ← or_eio (list_dirents ino);
  let entries := dir_entries ino (i_parent_ino inode) dirents in
  mret (add_entries offset (drop offset entries) buf).
End readdir.

(** *** File data *)
Definition fuse_read (ino offset size : Z) : HM (list byte) := or_eio (fs_read_at ino offset size).

Definition set_size_times (size mtime ctime : Z) (i : InodeV1) : InodeV1 :=
  {| i_mode := i_mode i; i_uid := i_uid i; i_gid := i_gid i; i_nlink := i_nlink i; i_size := size;
     i_atime := i_atime i; i_mtime := mtime; i_ctime := ctime; i_parent_ino := i_parent_ino i |}.

Definition fuse_write (now : Z) (ino offset : Z) (data : list byte) : HM Z :=
  written ← or_eio (fs_write_at ino offset data);
  oi ← or_eio (get_inode ino);
  inode ← some_or ENOENT oi;
  let size := Z.max (i_size inode) (u64 (offset + Z.of_nat (length data))) in
  _ ← or_eio (put_inode ino (set_size_times size now now inode));
  _ ← or_eio journal_commit;
  mret (u32 written).

(** *** Making names *)
Definition new_inode (req : Request) (now mode nlink size parent : Z) : InodeV1 :=
  {| i_mode := mode; i_uid := req_uid req; i_gid := req_gid req; i_nlink := nlink; i_size := size;
     i_atime := now; i_mtime := now; i_ctime := now; i_parent_ino := parent |}.

(** [create] and [mkdir] share their shape: type bits, link count and kind
    differ. *)
Definition make_node (ifmt nlink kind : Z) (req : Request) (now parent : Z) (name : list byte) (mode : Z) : HM FileAttr :=
  name_bytes ← lift (validate_name name);
  od ← or_eio (lookup_dirent parent name_bytes);
  if bool_decide (is_Some od) then throw EEXIST else
  new_ino ← or_eio alloc_ino;
  let inode := new_inode req now (Z.lor ifmt (Z.land mode PERM_MASK)) nlink 0 parent in
  _ ← or_eio (put_inode new_ino inode);
  _ ← or_eio (put_dirent parent name_bytes (dirent_new new_ino kind));
  _ ← or_eio journal_commit;
  lift (to_attr new_ino inode).
Definition fuse_create : Request → Z → Z → list byte → Z → HM FileAttr := make_node S_IFREG 1 FILE_KIND_REGULAR.
Definition fuse_mkdir : Request → Z → Z → list byte → Z → HM FileAttr := make_node S_IFDIR 2 FILE_KIND_DIR.

Definition fuse_symlink (req : Request) (now parent : Z) (link_name target : list byte) : HM FileAttr :=
  name_bytes ← lift (validate_name link_name);
  exists_ ← if_ok (lookup_dirent parent name_bytes);
  if exists_ : bool then throw EEXIST else
  if (Z.to_nat FUSE_BLOCK_SIZE <? length target)%nat then throw ENAMETOOLONG else
  new_ino ← or_eio alloc_ino;
  let inode := new_inode req now (Z.lor S_IFLNK PERM_ALL) 1 (Z.of_nat (length target)) parent in
  _ ← or_eio (put_inode new_ino inode);
  _ ← or_eio (put_extent new_ino 0 target);
  _ ← or_eio (put_dirent parent name_bytes (dirent_new new_ino FILE_KIND_SYMLINK));
  _ ← or_eio journal_commit;
  lift (to_attr new_ino inode).

Definition readlink (ino : Z) : HM (list byte) :=
  oi ← or_eio (get_inode ino);
  inode ← some_or ENOENT oi;
  if negb (Z.land (i_mode inode) S_IFMT =? S_IFLNK) then throw EINVAL else
  or_eio (fs_read_at ino 0 (u32 (i_size inode))).

Definition set_nlink_ctime (nlink ctime : Z) (i : InodeV1) : InodeV1 :=
  {| i_mode := i_mode i; i_uid := i_uid i; i_gid := i_gid i; i_nlink := nlink; i_size := i_size i;
     i_atime := i_atime i; i_mtime := i_mtime i; i_ctime := ctime; i_parent_ino := i_parent_ino i |}.

Definition fuse_link (now ino newparent : Z) (newname : list byte) : HM FileAttr :=
  name_bytes ← lift (validate_name newname);
  oi ← or_eio (get_inode ino);
  inode ← some_or ENOENT oi;
  if Z.land (i_mode inode) S_IFMT =? S_IFDIR then throw EPERM else
  exists_ ← if_ok (lookup_dirent newparent name_bytes);
  if exists_ : bool then throw EEXIST else
  let inode := set_nlink_ctime (u32 (i_nlink inode + 1)) now inode in
  _ ← or_eio (put_inode ino inode);
  let kind := if Z.land (i_mode inode) S_IFMT =? S_IFLNK then FILE_KIND_SYMLINK else FILE_KIND_REGULAR in
  _ ← or_eio (put_dirent newparent name_bytes (dirent_new ino kind));
  _ ← or_eio journal_commit;
  lift (to_attr ino inode).

(** *** Removing and moving names *)
Definition fuse_unlink (parent : Z) (name : list byte) : HM unit :=
  name_bytes ← lift (validate_name name);
  _ ← or_errno (unlink parent name_bytes);
  or_eio journal_commit.
Definition fuse_rmdir (parent : Z) (name : list byte) : HM unit :=
  name_bytes ← lift (validate_name name);
  _ ← or_errno (rmdir parent name_bytes);
  or_eio journal_commit.
Definition fuse_rename (parent : Z) (name : list byte) (newparent : Z) (newname : list byte) : HM unit :=
  name_bytes ← lift (validate_name name);
  newname_bytes ← lift (validate_name newname);
  _ ← or_errno (rename parent name_bytes newparent newname_bytes);
  or_eio journal_commit.

(** *** Attributes *)

(** [t.duration_since(UNIX_EPOCH).map(|d| d.as_secs()).unwrap_or(0)], the
    present, or the old value. *)
Definition new_time (now : Z) (t : option TimeOrNow) (old : Z) : Z :=
  match t with
  | Some (SpecificTime t) => Z.max 0 t
  | Some Now => now
  | None => old
  end.

Definition fuse_setattr (now ino : Z) (mode uid gid size : option Z) (atime mtime : option TimeOrNow) : HM FileAttr :=
  oi ← or_eio (get_inode ino);
  inode ← some_or ENOENT oi;
  let new_mode := match mode with Some m => Z.lor (Z.land (i_mode inode) S_IFMT) (Z.land m PERM_MASK) | None => i_mode inode end in
  _ ← match size with
      | Some new_size => if new_size <? i_size inode then or_eio (truncate_extents ino new_size) else mret tt
      | None => mret tt
      end;
  let inode := {| i_mode := new_mode; i_uid := default (i_uid inode) uid; i_gid := default (i_gid inode) gid;
                  i_nlink := i_nlink inode; i_size := default (i_size inode) size;
                  i_atime := new_time now atime (i_atime inode); i_mtime := new_time now mtime (i_mtime inode);
                  i_ctime := now; i_parent_ino := i_parent_ino inode |} in
  _ ← or_eio (put_inode ino inode);
  _ ← or_eio journal_commit;
  lift (to_attr ino inode).

(** *** Statistics and durability *)
Definition store_next_block_nr (fs : Fs D) : Z := next_block_nr (store (tree fs)).
Definition free_block_count (fs : Fs D) : Z := free_count (store (tree fs)).

Record StatFs : Type := {
  st_blocks : Z; st_bfree : Z; st_bavail : Z; st_files : Z; st_ffree : Z; st_bsize : Z; st_namelen : Z; st_frsize : Z;
}.
Definition statfs : HM StatFs :=
  total_blocks ← gets store_next_block_nr;
  free_blocks ← gets free_block_count;
  mret {| st_blocks := total_blocks; st_bfree := free_blocks; st_bavail := free_blocks; st_files := 0; st_ffree := 0;
          st_bsize := FUSE_BLOCK_SIZE; st_namelen := Z.of_nat MAX_NAME_LEN; st_frsize := FUSE_BLOCK_SIZE |}.

Definition fuse_fsync : HM unit := or_eio journal_commit.

(** [if let Ok(mut fs) = self.fs.lock() && let Err(e) = fs.sync() { eprintln!(..) }] *)
Definition destroy (f : FuseFs D) : outcome Errno unit * FuseFs D :=
  if poisoned f then (Ok tt, f) else
  let '(r, fs) := fs_sync (fuse_fs f) in
  (match r with Panic => Panic | OutOfFuel => OutOfFuel | _ => Ok tt end,
   {| fuse_fs := fs; poisoned := match r with Panic => true | _ => false end |}).

(** *** Handles: the code keeps none *)
Definition fuse_open : outcome Errno (Z * Z) := Ok (0, 0).
Definition fuse_opendir : outcome Errno (Z * Z) := Ok (0, 0).
Definition fuse_release : outcome Errno unit := Ok tt.
Definition fuse_releasedir : outcome Errno unit := Ok tt.
Definition fuse_flush : outcome Errno unit := Ok tt.

(** *** Requests *)
Inductive request : Type :=
  | RLookup (parent : Z) (name : list byte)
  | RGetattr (ino : Z)
  | RRead (ino offset size : Z)
  | RWrite (ino offset : Z) (data : list byte)
  | RCreate (parent : Z) (name : list byte) (mode : Z)
  | RMkdir (parent : Z) (name : list byte) (mode : Z)
  | RUnlink (parent : Z) (name : list byte)
  | RRmdir (parent : Z) (name : list byte)
  | RRename (parent : Z) (name : list byte) (newparent : Z) (newname : list byte)
  | RSetattr (ino : Z) (mode uid gid size : option Z) (atime mtime : option TimeOrNow)
  | RSymlink (parent : Z) (name target : list byte)
  | RReadlink (ino : Z)
  | RLink (ino newparent : Z) (newname : list byte)
  | RStatfs
  | RFsync
  | ROpen | ROpendir | RRelease | RReleasedir | RFlush.
Inductive reply : Type :=
  | PAttr (a : FileAttr) | PData (d : list byte) | PWritten (n : Z) | PStat (st : StatFs) | POpened (fh flags : Z) | POk.

(** Serve one request other than [readdir]: every handler that touches the file
    system holds the lock while it runs. *)
Definition serve (req : Request) (now : Z) (q : request) : M (FuseFs D) Errno reply :=
  match q with
  | RLookup p n => a ← locked (lookup p n); mret (PAttr a)
  | RGetattr i => a ← locked (getattr i); mret (PAttr a)
  | RRead i o n => d ← locked (fuse_read i o n); mret (PData d)
  | RWrite i o d => n ← locked (fuse_write now i o d); mret (PWritten n)
  | RCreate p n mode => a ← locked (fuse_create req now p n mode); mret (PAttr a)
  | RMkdir p n mode => a ← locked (fuse_mkdir req now p n mode); mret (PAttr a)
  | RUnlink p n => _ ← locked (fuse_unlink p n); mret POk
  | RRmdir p n => _ ← locked (fuse_rmdir p n); mret POk
  | RRename p n p' n' => _ ← locked (fuse_rename p n p' n'); mret POk
  | RSetattr i mode uid gid size at_ mt => a ← locked (fuse_setattr now i mode uid gid size at_ mt); mret (PAttr a)
  | RSymlink p n t => a ← locked (fuse_symlink req now p n t); mret (PAttr a)
  | RReadlink i => d ← locked (readlink i); mret (PData d)
  | RLink i p n => a ← locked (fuse_link now i p n); mret (PAttr a)
  | RStatfs => st ← locked statfs; mret (PStat st)
  | RFsync => _ ← locked fuse_fsync; mret POk
  | ROpen => '(fh, fl) ← lift fuse_open; mret (POpened fh fl)
  | ROpendir => '(fh, fl) ← lift fuse_opendir; mret (POpened fh fl)
  | RRelease => _ ← lift fuse_release; mret POk
  | RReleasedir => _ ← lift fuse_releasedir; mret POk
  | RFlush => _ ← lift fuse_flush; mret POk
  end.

(** *** Mounting *)
Definition root_inode (req : Request) (now : Z) : InodeV1 := new_inode req now (Z.lor S_IFDIR PERM_DIR) 2 0 ROOT_INO.

Definition bootstrap_root (req : Request) (now : Z) (fs : Fs D) : res (FuseFs D) :=
  '(root_ino, fs) ← exec alloc_ino fs;
  _ ← assert_that (root_ino =? ROOT_INO);
  '(_, fs) ← exec (expecting (put_inode ROOT_INO (root_inode req now))) fs;
  Ok {| fuse_fs := fs; poisoned := false |}.
End handlers.

(** [FuseFs::new], [FuseFs::create_image] and [FuseFs::open_image]; [req] stands
    for [getuid] and [getgid]. *)
Definition fuse_new `{!Crc32} (req : Request) (now : Z) : res (FuseFs MemDevice) :=
  fs ← fs_new; bootstrap_root req now fs.
Definition fuse_create_image `{!Crc32} (req : Request) (now : Z) : res (FuseFs FileDevice) :=
  fs ← fs_create; bootstrap_root req now fs.
Definition fuse_open_image `{!Crc32} (fuel : nat) (image : FileDevice) : res (FuseFs FileDevice) :=
  fs ← fs_open fuel image; Ok {| fuse_fs := fs; poisoned := false |}.
