(* ===== verification/FuseSpec.v ===== *)
(** * FuseSpec: what the handlers reply (src/fuse.rs).

    The read handlers answer from the view of the active subvolume, and the
    handlers that make names turn it into the one their specification says. *)
From Stdlib Require Import Strings.Byte.
From stdpp Require Import base list numbers sorting.
From S2P Require Import Prelude Device BlockBtree NodeRep Storage Journal StoreSpec Heap Btree TreeRead TreeWrite BtreeSpec ScanSpec FsTypes Fs FsSpec FsOps Snapshot Posix Fuse.
#[local] Open Scope rfs_scope.
#[local] Open Scope Z_scope.

(** ** Names *)
(** What a directory entry may be called. *)
Definition good_name (name : list byte) : Prop :=
  name ≠ [] ∧ name ≠ DOT ∧ name ≠ DOTDOT ∧ (Byte.x2f ∉ name) ∧ (Byte.x00 ∉ name) ∧ (length name ≤ MAX_NAME_LEN)%nat.

Lemma validate_name_Ok name b : validate_name name = Ok b ↔ b = name ∧ good_name name.
Proof.
  unfold validate_name, good_name.
  destruct (bool_decide (name = []) || bool_decide (name = DOT) || bool_decide (name = DOTDOT)) eqn:E1.
  { split; [done|]. rewrite !orb_true_iff, !bool_decide_eq_true in E1. tauto. }
  rewrite !orb_false_iff, !bool_decide_eq_false in E1.
  destruct (bool_decide (Byte.x2f ∈ name) || bool_decide (Byte.x00 ∈ name)) eqn:E2.
  { split; [done|]. rewrite orb_true_iff, !bool_decide_eq_true in E2. tauto. }
  rewrite orb_false_iff, !bool_decide_eq_false in E2.
  destruct (Nat.ltb_spec MAX_NAME_LEN (length name)); [split; [done|lia]|].
  split; [intros [= <-]; tauto|by intros [-> _]].
Qed.

Lemma validate_name_cases name :
  validate_name name = Ok name ∨ ∃ e, validate_name name = Err e ∧ (e = EINVAL ∨ e = ENAMETOOLONG).
Proof. unfold validate_name. destruct (_ || _ || _); [eauto|]. destruct (_ || _); [eauto|]. destruct (_ <? _)%nat; eauto. Qed.

(** ** Answers *)
Section answers.
Context {D : Type} `{!BlockDevice D} `{!BlockDeviceLaws D} `{!BlockDeviceTotal D} `{!Crc32} `{!Crc32Range}.
Implicit Types fs : Fs D.

(** A computation with a known outcome that changes nothing. *)
Definition answers {E A} (m : amap) (cur : Z) (c : M (Fs D) E A) (o : outcome E A) : Prop := ∀ fs n,
  fs_models fs m n → current_subvol fs = cur → ∃ fs', c fs = (o, fs') ∧ fs_models fs' m n ∧ fs_quiet fs fs'.

Lemma answers_lift {E A} m cur (o : outcome E A) : answers m cur (lift o) o.
Proof. intros fs n Hfs Hcur. exists fs. split_and!; [done|done|apply fs_quiet_refl]. Qed.

Lemma reads_answers {E A B} m cur (c : M (Fs D) E A) (k : A → M (Fs D) E B) a o :
  reads m cur c a → answers m cur (k a) o → answers m cur (c ≫= k) o.
Proof.
  intros Hc Hk fs n Hfs Hcur. destruct (Hc fs n Hfs Hcur) as (fs1 & E1 & Hfs1 & Hq1).
  destruct (Hk fs1 n Hfs1) as (fs2 & E2 & Hfs2 & Hq2); [by rewrite (fs_quiet_subvol _ _ Hq1)|].
  exists fs2. rewrite (M_bind_ok _ _ _ _ _ E1). split_and!; [done|done|by eapply fs_quiet_trans].
Qed.

Lemma answers_err {E A B} m cur (c : M (Fs D) E A) (k : A → M (Fs D) E B) e :
  answers m cur c (Err e) → answers m cur (c ≫= k) (Err e).
Proof.
  intros Hc fs n Hfs Hcur. destruct (Hc fs n Hfs Hcur) as (fs1 & E1 & H1). exists fs1.
  unfold mbind, M_bind. by rewrite E1.
Qed.
Lemma answers_ok {E A B} m cur (c : M (Fs D) E A) (k : A → M (Fs D) E B) a o :
  answers m cur c (Ok a) → answers m cur (k a) o → answers m cur (c ≫= k) o.
Proof. intros Hc. by apply reads_answers. Qed.

Lemma reads_or_eio {A} m cur (c : M (Fs D) error A) a : reads m cur c a → reads m cur (or_eio c) a.
Proof.
  intros Hc fs n Hfs Hcur. destruct (Hc fs n Hfs Hcur) as (fs1 & E1 & H1). exists fs1.
  unfold or_eio, mapping_err. by rewrite E1.
Qed.

Lemma bind_lift_ok {E A B} (o : outcome E A) (k : A → M (Fs D) E B) a : o = Ok a → (lift o ≫= k) = k a.
Proof. by intros ->. Qed.
Lemma bind_lift_err {E A B} (o : outcome E A) (k : A → M (Fs D) E B) e fs : o = Err e → (lift o ≫= k) fs = (Err e, fs).
Proof. by intros ->. Qed.

(** *** Lookup and attributes *)
Definition spec_getattr (t : tview) (ino : Z) : outcome Errno FileAttr :=
  match inodes t ino with None => Err ENOENT | Some i => to_attr ino i end.

(** [.] is the directory, [..] its recorded parent; any other name is looked up,
    and an entry without an inode is damage. *)
Definition spec_lookup (t : tview) (parent : Z) (name : list byte) : outcome Errno FileAttr :=
  if decide (name = DOT) then spec_getattr t parent
  else if decide (name = DOTDOT) then
    match inodes t parent with None => Err ENOENT | Some i => spec_getattr t (i_parent_ino i) end
  else
    match validate_name name with
    | Ok _ =>
        match names t parent name with
        | None => Err ENOENT
        | Some d => match inodes t (d_target_ino d) with None => Err EIO | Some i => to_attr (d_target_ino d) i end
        end
    | Err e => Err e
    | _ => Panic
    end.

Section view.
Context (m : amap) (cur s : Z) (l : list Z) (Hm : typed m) (Hv : view m cur s l).

Lemma get_inode_some {A} ino e (k : InodeV1 → M (Fs D) Errno A) o :
  answers m cur (match a_inode m l ino with Some i => k i | None => throw e end) o →
  answers m cur (oi ← or_eio (get_inode ino); i ← some_or e oi; k i) o.
Proof using All.
  intros Hk. eapply reads_answers; [by eapply reads_or_eio, get_inode_reads|]. by destruct (a_inode m l ino).
Qed.

Lemma getattr_answers ino : answers m cur (getattr ino) (spec_getattr (view_of m l) ino).
Proof using All.
  unfold getattr, spec_getattr. cbn [inodes view_of]. apply get_inode_some.
  destruct (a_inode m l ino); apply answers_lift.
Qed.

Lemma lookup_answers parent name : answers m cur (lookup parent name) (spec_lookup (view_of m l) parent name).
Proof using All.
  unfold lookup, spec_lookup. destruct (decide (name = DOT)) as [->|H1].
  { rewrite !bool_decide_eq_true_2 by done. cbn [orb]. unfold spec_getattr. cbn [inodes view_of]. apply get_inode_some.
    destruct (a_inode m l parent); apply answers_lift. }
  rewrite (bool_decide_eq_false_2 _ H1). cbn [orb]. destruct (decide (name = DOTDOT)) as [->|H2].
  { rewrite bool_decide_eq_true_2 by done. cbn [inodes view_of]. apply get_inode_some.
    destruct (a_inode m l parent) as [i|]; [|apply answers_lift]. unfold spec_getattr. cbn [inodes view_of].
    destruct (a_inode m l (i_parent_ino i)) as [i'|] eqn:E.
    - eapply (answers_ok _ _ _ _ (i_parent_ino i, i')); [|apply answers_lift]. apply get_inode_some. rewrite E. apply (answers_lift _ _ (Ok _)).
    - apply answers_err, get_inode_some. rewrite E. apply (answers_lift _ _ (Err _)). }
  rewrite (bool_decide_eq_false_2 _ H2). destruct (validate_name_cases name) as [Ev|(e & Ev & _)]; rewrite Ev.
  2: { apply answers_err. apply (answers_lift _ _ (Err e)). }
  cbn [names inodes view_of]. apply validate_name_Ok in Ev as [_ (_ & _ & _ & _ & _ & Hn)].
  eapply (reads_answers _ _ _ _ name); [apply reads_ret|].
  eapply reads_answers; [by eapply reads_or_eio, lookup_dirent_reads|].
  destruct (a_dirent m l parent name) as [d|]; [|apply (answers_lift _ _ (Err ENOENT))].
  apply get_inode_some. destruct (a_inode m l (d_target_ino d)); apply answers_lift.
Qed.
End view.

(** *** Commits of an in-memory mount *)
(** No deleted inode waits for its blocks to be reclaimed. *)
Definition no_orphans (m : amap) : Prop := ∀ k, kind_of k = Some KIND_DELETED_INODES → a_visible m k [ROOT_SNAP] = None.

Lemma scanned_head b x b' y c z : scanned (b :: x) (b' :: y) (c :: z) → b2z b ≤ b2z c ≤ b2z b'.
Proof.
  unfold scanned, bytes_lt. cbn [bytes_cmp]. intros [H1 H2].
  destruct (Z.compare_spec (b2z c) (b2z b)), (Z.compare_spec (b2z c) (b2z b')); try lia; try done.
Qed.

Lemma orphan_range_keys m k s :
  typed m → is_Some (m (versioned k s)) →
  scanned (versioned deleted_inode_range.1 0) (versioned deleted_inode_range.2 0) (versioned k s) →
  kind_of k = Some KIND_DELETED_INODES ∧ length k = 13%nat.
Proof.
  intros Hm [r Hr] Hsc. pose proof (Hm _ _ Hr) as Ht. unfold row_typed in Ht.
  destruct (versioned k s) as [|c z] eqn:E; [done|].
  assert (KIND_DELETED_INODES ≤ b2z c ≤ KIND_DELETED_INODES + 1) as Hc by exact (scanned_head _ _ _ _ _ _ Hsc).
  assert (b2z c = KIND_DELETED_INODES) as Ec.
  { unfold KIND_DELETED_INODES in *. destruct (Z.eq_dec (b2z c) 242); [done|]. assert (b2z c = 243) as Ec by lia. by rewrite Ec in Ht. }
  rewrite Ec in Ht. change (layout KIND_DELETED_INODES) with (Some (13, 13, 16)%nat) in Ht. cbn beta iota in Ht.
  rewrite <- E in Ht. unfold versioned in Ht. rewrite length_app, length_to_be in Ht.
  destruct k as [|c' k]; [cbn in Ht; lia|]. injection E as -> _. cbn. rewrite Ec. split; [done|]. cbn in Ht. lia.
Qed.

Lemma list_orphans_reads m cur : typed m → no_orphans m → reads m cur list_deleted_inodes [].
Proof using All.
  intros Hm Hno. unfold list_deleted_inodes.
  rewrite (surjective_pairing deleted_inode_range). eapply (reads_bind _ _ _ _ []); [|by apply reads_lift].
  intros fs n Hfs Hcur. destruct Hfs as [Hbt Ht].
  assert (∀ k s, in_width 32 s → is_Some (m (versioned k s)) →
    scanned (versioned deleted_inode_range.1 0) (versioned deleted_inode_range.2 0) (versioned k s) → length k = 13%nat) as Hlen
    by (intros k s _ H1 H2; by apply (orphan_range_keys m k s)).
  destruct (visible_scan_ok (tree fs) m n deleted_inode_range.1 deleted_inode_range.2 [ROOT_SNAP] Hbt) as (bt' & out & _ & E & Hbt' & Hlog & [_ Hx]).
  - cbn. consts. lia.
  - cbn. consts. lia.
  - split; repeat constructor; done.
  - apply (uniform_nothing_between _ _ _ 13). intros k s Hs H1 H2. by apply (Hlen k s).
  - apply long_whole_keys. intros k s Hs H1 H2. rewrite (Hlen k s Hs H1 H2). cbn. lia.
  - assert (out = []) as ->.
    { destruct out as [|[[k s] v] out]; [done|]. destruct (proj1 (Hx k s v) ltac:(by left)) as [Hvis Hsc].
      pose proof (a_visible_Some _ _ _ _ _ Hvis) as [Hst _].
      destruct (orphan_range_keys m k s Hm ltac:(by eexists) Hsc) as [Hk _]. by rewrite Hno in Hvis. }
    exists (set_tree bt' fs). unfold on_tree, zoom. rewrite E. by split_and!.
Qed.

(** With nothing to reclaim, committing an in-memory mount changes nothing. *)
Lemma commit_in_memory fs m n :
  fs_models fs m n → journal fs = false → no_orphans m →
  ∃ fs', journal_commit fs = (Ok tt, fs') ∧ fs_models fs' m n ∧ fs_quiet fs fs'.
Proof using All.
  intros Hfs Hj Hno. destruct (list_orphans_reads m (current_subvol fs) (fm_typed _ _ _ Hfs) Hno fs n Hfs eq_refl) as (fs' & E & H1).
  exists fs'. split; [|exact H1]. unfold journal_commit. rewrite gets_bind, Hj. cbn [negb].
  unfold reclaim_deleted_inodes. unfold mbind at 1, M_bind at 1. rewrite (M_bind_ok _ _ _ _ _ E). done.
Qed.

(** *** Making names *)
Record mounted fs (m : amap) (s : Z) (l : list Z) (n : Z) : Prop := {
  mo_models : fs_models fs m n;
  mo_view : view m (current_subvol fs) s l;
  mo_memory : journal fs = false;
  mo_orphans : no_orphans m;
}.

Lemma no_orphans_local m s ops :
  in_width 32 s → Forall (λ o, file_key (wop_key o) ∧ wop_snap o = s) ops → no_orphans m → no_orphans (a_run ops m).
Proof.
  intros Hs Hops Hno k Hk. rewrite a_run_visible; [by apply Hno|by repeat constructor|].
  eapply Forall_impl; [exact Hops|]. intros o [Hf Hso]. split; [by rewrite Hso|left]. intros ->. destruct Hf as [E|[E|E]]; rewrite E in Hk; done.
Qed.

Lemma set_next_ino_models fs m n k : fs_models fs m n → fs_models (set_next_ino k fs) m n.
Proof. by intros []. Qed.

Definition make_ops (s parent : Z) (name : list byte) (ino kind : Z) (i : InodeV1) : list wop :=
  [WPut (inode_key ino) s Live (inode_as_bytes i); WPut (dirent_bytes parent name) s Live (dirent_as_bytes (dirent_new ino kind))].

Lemma make_ops_local s parent name ino kind i :
  Forall (λ o, file_key (wop_key o) ∧ wop_snap o = s) (make_ops s parent name ino kind i).
Proof. repeat apply Forall_cons_2; [split; [by left|done]|split; [right; by left|done]|constructor]. Qed.

Lemma make_node_runs fs m s l n ifmt nlink kind req now parent name mode :
  mounted fs m s l (2 + n) → 0 ≤ n → good_name name → names (view_of m l) parent name = None →
  let ino := next_ino fs in
  let i := new_inode req now (Z.lor ifmt (Z.land mode PERM_MASK)) nlink 0 parent in
  ∃ fs', make_node ifmt nlink kind req now parent name mode fs = (to_attr ino i, fs') ∧
    mounted fs' (a_run (make_ops s parent name ino kind i) m) s l n ∧ next_ino fs' = u64 (ino + 1).
Proof using All.
  intros [Hfs Hv Hj Hno] Hn Hgood Hfree ino i. pose proof (proj2 (validate_name_Ok name name) (conj eq_refl Hgood)) as Ev.
  destruct Hgood as (_ & _ & _ & _ & _ & Hlen). cbn [names view_of] in Hfree.
  destruct (lookup_dirent_reads m _ s l parent name (fm_typed _ _ _ Hfs) Hv Hlen fs _ Hfs eq_refl) as (fs1 & E1 & Hfs1 & [T1 _]).
  rewrite Hfree in E1.
  set (fs2 := set_next_ino (u64 (ino + 1)) fs1).
  assert (next_ino fs1 = ino ∧ journal fs1 = false ∧ current_subvol fs1 = current_subvol fs) as (Ei & Ej & Ec) by (rewrite T1; done).
  destruct (put_inode_performs m _ s l ino i (fm_typed _ _ _ Hfs) Hv fs2 (1 + n)) as (fs3 & E3 & Hfs3 & T3 & _);
    [cbn [length]; replace (Z.of_nat 1 + (1 + n)) with (2 + n) by lia; by apply set_next_ino_models|lia|exact Ec|].
  set (m1 := a_run [WPut (inode_key ino) s Live (inode_as_bytes i)] m).
  assert (view m1 (current_subvol fs) s l) as Hv1.
  { eapply view_local; [by eapply view_width| |exact Hv]. apply Forall_singleton. left. split; [by left|done]. }
  destruct (put_dirent_performs m1 _ s l parent name (dirent_new ino kind) (fm_typed _ _ _ Hfs3) Hv1 Hlen eq_refl fs3 n)
    as (fs4 & E4 & Hfs4 & T4 & _); [exact Hfs3|lia|by rewrite T3|].
  pose proof (make_ops_local s parent name ino kind i) as Hloc. unfold m1 in Hfs4. rewrite <- a_run_app in Hfs4.
  change (fs_models fs4 (a_run (make_ops s parent name ino kind i) m) n) in Hfs4.
  assert (no_orphans (a_run (make_ops s parent name ino kind i) m)) as Hno' by (eapply no_orphans_local; [by eapply view_width|done|done]).
  destruct (commit_in_memory fs4 _ n Hfs4) as (fs5 & E5 & Hfs5 & [T5 _]); [by rewrite T4, T3|done|].
  exists fs5. split; [|split; [split|]].
  - unfold make_node. rewrite (bind_lift_ok _ _ _ Ev).
    assert (∀ {A} (c : M (Fs D) error A) fs a fs', c fs = (Ok a, fs') → or_eio c fs = (Ok a, fs')) as Heio
      by (intros A c ? a ? E; unfold or_eio, mapping_err; by rewrite E).
    rewrite (M_bind_ok _ _ _ _ _ (Heio _ _ _ _ _ E1)). rewrite bool_decide_eq_false_2 by (by intros [? ?]).
    rewrite (M_bind_ok (or_eio alloc_ino) _ fs1 ino fs2) by (unfold fs2; by rewrite <- Ei).
    cbn zeta. fold i.
    rewrite (M_bind_ok _ _ _ _ _ (Heio _ _ _ _ _ E3)). rewrite (M_bind_ok _ _ _ _ _ (Heio _ _ _ _ _ E4)).
    by rewrite (M_bind_ok _ _ _ _ _ (Heio _ _ _ _ _ E5)).
  - exact Hfs5.
  - rewrite T5, T4, T3. cbn [set_tree current_subvol]. unfold fs2. cbn [set_next_ino current_subvol]. rewrite Ec.
    eapply view_local; [by eapply view_width| |exact Hv]. eapply Forall_impl; [exact Hloc|]. intros o [? ?]. by left.
  - by rewrite T5, T4, T3.
  - exact Hno'.
  - by rewrite T5, T4, T3.
Qed.
End answers.

Lemma make_ops_view m s l parent name ino kind i :
  Forall (in_width 32) (s :: l) → in_width 64 parent → in_width 64 ino → in_width 8 kind → inode_wf i →
  view_of (a_run (make_ops s parent name ino kind i) m) (s :: l)
    ≡ set_name parent name (Some (dirent_new ino kind)) (set_inode ino (Some i) (view_of m (s :: l))).
Proof. intros Hc Hp Hi Hk Hw. unfold make_ops. rewrite run_two. by rewrite put_name_view, put_inode_view by (done || by split_and!). Qed.

(** ** Mode bits *)
Lemma lor_width w a b : 0 ≤ w → in_width w a → in_width w b → in_width w (Z.lor a b).
Proof.
  intros Hw Ha Hb. unfold in_width in *. split; [apply Z.lor_nonneg; lia|].
  destruct (Z.eq_dec (Z.lor a b) 0) as [->|Hne]; [lia|]. pose proof (Z.lor_nonneg a b) as [_ Hn]. specialize (Hn ltac:(lia)).
  apply Z.log2_lt_pow2; [lia|]. rewrite Z.log2_lor by lia. apply Z.max_lub_lt.
  - destruct (Z.eq_dec a 0) as [->|]; [change (Z.log2 0) with 0; destruct (Z.eq_dec w 0); [subst w; change (2 ^ 0) with 1 in *|lia]|apply Z.log2_lt_pow2; lia].
    exfalso. apply Hne. replace b with 0 by lia. done.
  - destruct (Z.eq_dec b 0) as [->|]; [change (Z.log2 0) with 0; destruct (Z.eq_dec w 0); [subst w; change (2 ^ 0) with 1 in *|lia]|apply Z.log2_lt_pow2; lia].
    exfalso. apply Hne. replace a with 0 by lia. done.
Qed.

(** Type bits that survive [& S_IFMT] and leave the permissions alone. *)
Definition type_bits (ifmt : Z) : Prop := in_width 16 ifmt ∧ Z.land ifmt S_IFMT = ifmt ∧ Z.land ifmt PERM_MASK = 0.

Lemma mode_type ifmt mode : type_bits ifmt → Z.land (Z.lor ifmt (Z.land mode PERM_MASK)) S_IFMT = ifmt.
Proof.
  intros (_ & H1 & _). rewrite Z.land_lor_distr_l, H1, <- Z.land_assoc. change (Z.land PERM_MASK S_IFMT) with 0.
  by rewrite Z.land_0_r, Z.lor_0_r.
Qed.
Lemma mode_perm ifmt mode : type_bits ifmt → Z.land (Z.lor ifmt (Z.land mode PERM_MASK)) PERM_MASK = Z.land mode PERM_MASK.
Proof. intros (_ & _ & H1). by rewrite Z.land_lor_distr_l, H1, Z.lor_0_l, <- Z.land_assoc, Z.land_diag. Qed.
Lemma perm_width mode : in_width 12 (Z.land mode PERM_MASK).
Proof. change PERM_MASK with (Z.ones 12). rewrite Z.land_ones by lia. apply Z.mod_pos_bound. lia. Qed.
Lemma width_le w w' z : w ≤ w' → in_width w z → in_width w' z.
Proof. intros Hw [? ?]. split; [done|]. eapply Z.lt_le_trans; [done|]. apply Z.pow_le_mono_r; lia. Qed.
Lemma mode_width ifmt mode : type_bits ifmt → in_width 32 (Z.lor ifmt (Z.land mode PERM_MASK)).
Proof.
  intros (H1 & _). apply lor_width; [done|by eapply width_le; [|exact H1]|]. eapply width_le; [|apply perm_width]. lia.
Qed.

(** ** The claims *)
Section claims.
Context {D : Type} `{!BlockDevice D} `{!BlockDeviceLaws D} `{!BlockDeviceTotal D} `{!Crc32} `{!Crc32Range}.
Implicit Types fs : Fs D.

(** [lookup] and [getattr] answer from the names and inodes the active
    subvolume shows, on every branch: the dots, names that cannot be, names that
    are not there, entries without an inode; and change nothing. *)
Lemma lookup_answers_from_view fs m n s l parent name :
  fs_models fs m n → view m (current_subvol fs) s l →
  (∃ fs', lookup parent name fs = (spec_lookup (view_of m l) parent name, fs') ∧ fs_models fs' m n) ∧
  (∃ fs', getattr parent fs = (spec_getattr (view_of m l) parent, fs') ∧ fs_models fs' m n).
Proof using All.
  intros Hfs Hv. destruct (lookup_answers m _ s l (fm_typed _ _ _ Hfs) Hv parent name fs n Hfs eq_refl) as (fs1 & E1 & Hfs1 & _).
  destruct (getattr_answers m _ s l (fm_typed _ _ _ Hfs) Hv parent fs n Hfs eq_refl) as (fs2 & E2 & Hfs2 & _). eauto 10.
Qed.

(** The two handlers that make a node. *)
Inductive new_node : Type := NewFile | NewDir.
Definition make (k : new_node) : Request → Z → Z → list byte → Z → M (Fs D) Errno FileAttr :=
  match k with NewFile => fuse_create | NewDir => fuse_mkdir end.
Definition node_type (k : new_node) : FileType := match k with NewFile => RegularFile | NewDir => Directory end.
Definition node_bits (k : new_node) : Z := match k with NewFile => S_IFREG | NewDir => S_IFDIR end.
Definition node_kind (k : new_node) : Z := match k with NewFile => FILE_KIND_REGULAR | NewDir => FILE_KIND_DIR end.
Definition node_links (k : new_node) : Z := match k with NewFile => 1 | NewDir => 2 end.
Definition node_inode (k : new_node) (req : Request) (now parent mode : Z) : InodeV1 :=
  new_inode req now (Z.lor (node_bits k) (Z.land mode PERM_MASK)) (node_links k) 0 parent.

Lemma node_bits_ok k : type_bits (node_bits k) ∧ in_width 8 (node_kind k) ∧ in_width 32 (node_links k).
Proof using Type. destruct k; vm_compute; repeat split; done. Qed.

Lemma make_unfold k req now parent name mode :
  make k req now parent name mode = make_node (node_bits k) (node_links k) (node_kind k) req now parent name mode.
Proof using Type. by destruct k. Qed.

Lemma node_attr k req now parent mode ino :
  0 ≤ now < 2 ^ 63 → ∃ attr, to_attr ino (node_inode k req now parent mode) = Ok attr ∧
    a_ino attr = ino ∧ a_kind attr = node_type k ∧ a_perm attr = Z.land mode PERM_MASK ∧ a_size attr = 0.
Proof using Type.
  intros Hnow. destruct (node_bits_ok k) as (Hb & _). unfold to_attr, node_inode, new_inode, to_st.
  cbn [i_atime i_mtime i_ctime i_mode i_size]. rewrite (proj2 (Z.ltb_lt now (2 ^ 63))) by lia. mred.
  eexists. split; [done|]. cbn [a_ino a_kind a_perm a_size]. split_and!; [done| | |done].
  - unfold mode_kind. rewrite mode_type by done. by destruct k.
  - rewrite mode_perm by done. unfold u16. apply wrap_small. eapply width_le; [|apply perm_width]. lia.
Qed.

(** Inode numbers from [next] on are unused: no inode has one, no entry names one. *)
Record unused_from (t : tview) (next : Z) : Prop := {
  uf_inode ino : in_width 64 ino → next ≤ ino → inodes t ino = None;
  uf_entry p name d : in_width 64 p → names t p name = Some d → d_target_ino d < next;
}.
Lemma unused_from_make t t' p name ino kind i :
  unused_from t ino → t' ≡ set_name p name (Some (dirent_new ino kind)) (set_inode ino (Some i) t) → unused_from t' (ino + 1).
Proof using Type.
  intros [Hi He] [Hn Hin]. split.
  - intros j Hj Hle. rewrite Hin by done. cbn [inodes set_name set_inode]. rewrite decide_False by lia. apply Hi; [done|lia].
  - intros q nm d Hq. rewrite Hn by done. cbn [names set_name set_inode]. case_decide as Hc; [by intros [= <-]; cbn; lia|].
    intros Hd. specialize (He q nm d Hq Hd). lia.
Qed.

(** C32: [create] and [mkdir] on a mount in memory with no inode waiting to be
    reclaimed, of a free and permissible name, when the inode numbers from the counter
    on are unused, reply with an inode of that number, which nothing used, of the
    right type and permissions; the view gains exactly that inode and that entry, the
    numbers from the new counter on are unused again, and the next lookup of the name
    replies with the same attributes. *)
Theorem make_adds_the_name k fs m s l n req now parent name mode :
  mounted fs m s l (2 + n) → 0 ≤ n → good_name name → names (view_of m l) parent name = None →
  in_width 64 parent → 0 ≤ next_ino fs < 2 ^ 64 - 1 → in_width 32 (req_uid req) → in_width 32 (req_gid req) → 0 ≤ now < 2 ^ 63 →
  unused_from (view_of m l) (next_ino fs) →
  ∃ attr fs' m' fs'', make k req now parent name mode fs = (Ok attr, fs') ∧
    a_ino attr = next_ino fs ∧ a_kind attr = node_type k ∧ a_perm attr = Z.land mode PERM_MASK ∧
    inodes (view_of m l) (a_ino attr) = None ∧ (∀ p nm d, in_width 64 p → names (view_of m l) p nm = Some d → d_target_ino d ≠ a_ino attr) ∧
    mounted fs' m' s l n ∧ next_ino fs' = next_ino fs + 1 ∧ unused_from (view_of m' l) (next_ino fs') ∧
    view_of m' l ≡ set_name parent name (Some (dirent_new (next_ino fs) (node_kind k)))
                     (set_inode (next_ino fs) (Some (node_inode k req now parent mode)) (view_of m l)) ∧
    lookup parent name fs' = (Ok attr, fs'').
Proof using All.
  intros Hmo Hn Hgood Hfree Hp Hi Hu Hg Hnow Hunused. destruct (node_bits_ok k) as (Hb & Hk & Hl).
  assert (in_width 64 (next_ino fs)) as Hiw by (unfold in_width; lia).
  destruct (node_attr k req now parent mode (next_ino fs) Hnow) as (attr & Ea & A1 & A2 & A3 & _).
  destruct (make_node_runs fs m s l n (node_bits k) (node_links k) (node_kind k) req now parent name mode Hmo Hn Hgood Hfree)
    as (fs' & E & Hmo' & Hnext). fold (node_inode k req now parent mode) in E, Hmo'. rewrite Ea in E.
  unfold u64 in Hnext. rewrite wrap_small in Hnext by (unfold in_width; lia).
  pose proof Hmo' as [Hfs' Hv' _ _].
  assert (view_of (a_run (make_ops s parent name (next_ino fs) (node_kind k) (node_inode k req now parent mode)) m) l
    ≡ set_name parent name (Some (dirent_new (next_ino fs) (node_kind k)))
        (set_inode (next_ino fs) (Some (node_inode k req now parent mode)) (view_of m l))) as Hview.
  { destruct (view_cons m _ s l (mo_view _ _ _ _ _ Hmo)) as (l' & -> & Hc). apply make_ops_view; [done|done|done|done|].
    unfold node_inode, new_inode, inode_wf. cbn. assert (in_width 64 now) by (unfold in_width; lia).
    split_and!; try done. by apply mode_width. }
  destruct (lookup_answers _ _ s l (fm_typed _ _ _ Hfs') Hv' parent name fs' n Hfs' eq_refl) as (fs'' & E2 & _).
  exists attr, fs'. eexists _, fs''. rewrite make_unfold. do 4 (split; [done|]). rewrite A1.
  split; [by apply Hunused; [|lia]|]. split; [intros p nm d Hpw Hd; pose proof (uf_entry _ _ Hunused p nm d Hpw Hd); lia|].
  split; [exact Hmo'|]. split; [exact Hnext|]. split; [rewrite Hnext; by eapply unused_from_make|]. split; [exact Hview|].
  rewrite E2. f_equal. destruct Hview as [Hnames Hinodes]. pose proof Hgood as (_ & H1 & H2 & _).
  unfold spec_lookup. rewrite !decide_False by done. rewrite (proj2 (validate_name_Ok name name)) by done.
  rewrite Hnames by done. cbn [names set_name]. rewrite decide_True by done. cbn [d_target_ino dirent_new].
  rewrite Hinodes by done. cbn [inodes set_name set_inode]. by rewrite decide_True by done.
Qed.
End claims.

(** ** A new mount *)
Definition mount_map (req : Request) (now : Z) : amap :=
  a_run [WPut (inode_key ROOT_INO) ROOT_SNAP Live (inode_as_bytes (root_inode req now))] seed_map.

Lemma bootstrap_steps {D} `{!BlockDevice D} `{!Crc32} req now (fs fs1 fs2 : Fs D) ino :
  alloc_ino fs = (Ok ino, fs1) → ino = ROOT_INO → put_inode ROOT_INO (root_inode req now) fs1 = (Ok tt, fs2) →
  bootstrap_root req now fs = Ok {| fuse_fs := fs2; poisoned := false |}.
Proof.
  intros E1 -> E2. unfold bootstrap_root. rewrite (outcome_bind_ok _ _ _ (exec_ok _ _ _ _ E1)). cbn beta iota.
  assert (expecting (put_inode ROOT_INO (root_inode req now)) fs1 = (Ok tt, fs2)) as E3 by (unfold expecting; by rewrite E2).
  change (assert_that (ROOT_INO =? ROOT_INO)) with (Ok (E := error) tt). rewrite (outcome_bind_ok _ _ tt eq_refl).
  by rewrite (outcome_bind_ok _ _ _ (exec_ok _ _ _ _ E3)).
Qed.

#[local] Strategy 100 [initialize_with seed].
Lemma fuse_new_steps `{!Crc32} req now fs f : fs_new = Ok fs → bootstrap_root req now fs = Ok f → fuse_new req now = Ok f.
Proof. intros E1 E2. unfold fuse_new. rewrite (outcome_bind_ok _ _ _ E1). exact E2. Qed.

Lemma seed_no_orphans : no_orphans seed_map.
Proof.
  intros k Hk. unfold seed_map, seed_ops. rewrite a_run_visible; [done|by repeat constructor|].
  repeat apply Forall_cons_2; [..|constructor]; (split; [done|left; by intros ->]).
Qed.

(** A new mount in memory has its root directory and nothing to reclaim. *)
Lemma fuse_new_mounted `{!Crc32} `{!Crc32Range} req now n :
  0 ≤ n < 1000000 →
  ∃ f, fuse_new req now = Ok f ∧ poisoned f = false ∧ next_ino (fuse_fs f) = 2 ∧
    mounted (fuse_fs f) (mount_map req now) ROOT_SNAP [ROOT_SNAP] n.
Proof.
  intros Hn. destruct (fs_new_ok (1 + n)) as (fs & E & [Hfs _ _ _] & Ec & _ & _ & Ei & Ej); [lia|].
  set (fs1 := set_next_ino (u64 (ROOT_INO + 1)) fs).
  assert (alloc_ino fs = (Ok (next_ino fs), set_next_ino (u64 (next_ino fs + 1)) fs)) as E1 by reflexivity. rewrite Ei in E1.
  destruct (put_inode_performs seed_map ROOT_SUBVOL ROOT_SNAP [ROOT_SNAP] ROOT_INO (root_inode req now) (fm_typed _ _ _ Hfs) seed_view fs1 n)
    as (fs2 & E2 & Hfs2 & T2 & _); [cbn [length]; exact (set_next_ino_models _ _ _ _ Hfs)|lia|exact Ec|].
  exists {| fuse_fs := fs2; poisoned := false |}.
  split; [exact (fuse_new_steps _ _ _ _ E (bootstrap_steps _ _ _ _ _ _ E1 eq_refl E2))|]. cbn [fuse_fs poisoned].
  assert (current_subvol fs2 = ROOT_SUBVOL ∧ journal fs2 = false ∧ next_ino fs2 = 2) as (Ec2 & Ej2 & Ei2).
  { rewrite T2. cbn [set_tree current_subvol journal next_ino]. split; [exact Ec|]. split; [exact Ej|reflexivity]. }
  split; [reflexivity|]. split; [exact Ei2|]. split; [exact Hfs2| |exact Ej2|].
  - rewrite Ec2. eapply (view_local ROOT_SNAP); [apply root_width| |apply seed_view]. apply Forall_singleton. left. split; [by left|done].
  - apply (no_orphans_local _ ROOT_SNAP); [apply root_width|apply Forall_singleton; split; [by left|done]|].
    apply seed_no_orphans.
Qed.

(** ** Concrete runs *)
#[local] Existing Instance sum_crc.

Definition demo_req : Request := {| req_uid := 1000; req_gid := 100 |}.
Definition demo_mount_map : amap := mount_map demo_req 7.
Lemma demo_good_name : good_name demo_name.
Proof. apply (validate_name_Ok demo_name demo_name). vm_compute. done. Qed.
Lemma demo_req_ok : in_width 32 (req_uid demo_req) ∧ in_width 32 (req_gid demo_req).
Proof. by vm_compute. Qed.
Lemma demo_name_free : names (view_of demo_mount_map [ROOT_SNAP]) ROOT_INO demo_name = None.
Proof. by vm_compute. Qed.
Lemma two_width : in_width 64 2.
Proof. by unfold in_width. Qed.

(** On a new mount only the root's inode number is used. *)
Lemma mount_map_visible req now k :
  k ≠ inode_key ROOT_INO → kind_of k = Some KIND_INODE ∨ kind_of k = Some KIND_DIRENT → a_visible (mount_map req now) k [ROOT_SNAP] = None.
Proof.
  intros Hne Hk. unfold mount_map, seed_map, seed_ops. rewrite <- a_run_app. rewrite a_run_visible; [done|by repeat constructor|].
  repeat apply Forall_cons_2; [..|constructor]; (split; [done|left]); [intros ->; by destruct Hk..|done].
Qed.
Lemma mount_map_unused req now : unused_from (view_of (mount_map req now) [ROOT_SNAP]) 2.
Proof.
  split.
  - intros ino Hw Hle. cbn [inodes view_of]. unfold a_inode, seen. rewrite mount_map_visible; [done| |by left].
    intros E%inode_key_inj; [unfold ROOT_INO in E; lia|done|done].
  - intros p name d _. cbn [names view_of]. unfold a_dirent, seen. by rewrite mount_map_visible; [|done|right].
Qed.

Lemma make_adds_the_name_witness :
  ∃ f attr fs' fs'', fuse_new demo_req 7 = Ok f ∧ make NewDir demo_req 8 ROOT_INO demo_name 511 (fuse_fs f) = (Ok attr, fs') ∧
    a_ino attr = 2 ∧ a_kind attr = Directory ∧ next_ino fs' = 3 ∧ lookup ROOT_INO demo_name fs' = (Ok attr, fs'').
Proof.
  destruct (fuse_new_mounted demo_req 7 99) as (f & E & _ & Ei & Hmo); [lia|].
  destruct (make_adds_the_name NewDir (fuse_fs f) demo_mount_map ROOT_SNAP [ROOT_SNAP] 97 demo_req 8 ROOT_INO demo_name 511 Hmo
    ltac:(lia) demo_good_name demo_name_free (proj1 ino_widths)) as (attr & fs' & m' & fs'' & E1 & A1 & A2 & _ & _ & _ & _ & A3 & _ & _ & E2);
    [rewrite Ei; lia|exact (proj1 demo_req_ok)|exact (proj2 demo_req_ok)|lia|rewrite Ei; exact (mount_map_unused demo_req 7)|].
  exists f, attr, fs', fs''. rewrite Ei in A1, A3. split; [exact E|]. split; [exact E1|]. split; [exact A1|]. split; [exact A2|]. split; [exact A3|exact E2].
Defined.
