(* ===== verification/Pages.v ===== *)
(** * Pages: reading a directory through [readdir] (src/fuse.rs).

    The kernel reads a directory in pages: it calls [readdir] with an empty buffer
    of bounded size, at the offset of the last entry it got, until a page is empty.
    [read_directory] is that reader, and it runs the handler; the buffer is fuser's
    and is a parameter with the contract [dir_buffer]. Listing a directory is a
    function of the map ([list_dirents_fixed]), so the pages of one reader fit
    together. *)
From Stdlib Require Import Strings.Byte.
From stdpp Require Import base list numbers sorting.
From S2P Require Import Prelude Device BlockBtree NodeRep Storage Journal StoreSpec Heap Btree TreeRead TreeWrite BtreeSpec ScanSpec FsTypes Fs FsSpec FsOps Snapshot Posix Fuse FuseSpec.
#[local] Open Scope rfs_scope.
#[local] Open Scope Z_scope.

(** ** A scan is a function of the map *)
Lemma sorted_by {A} (f : A → list byte) (l : list A) :
  StronglySorted bytes_lt (f <$> l) → StronglySorted (λ x y, bytes_lt (f x) (f y)) l ∧ NoDup (f <$> l).
Proof.
  induction l as [|x l IH]; [by repeat constructor|]. rewrite fmap_cons. intros [Hl Hx]%StronglySorted_inv.
  destruct (IH Hl) as [H1 H2]. split; constructor; [done|rewrite Forall_fmap in Hx; exact Hx| |done].
  intros Hin. rewrite Forall_forall in Hx. by apply Hx, bytes_lt_irrefl in Hin.
Qed.

Lemma row_list_unique m a b rows rows' : row_list m a b rows → row_list m a b rows' → rows = rows'.
Proof.
  intros [Hs Hw Hx] [Hs' Hw' Hx']. destruct (sorted_by _ _ Hs) as [H1 H2%NoDup_fmap_1]. destruct (sorted_by _ _ Hs') as [H3 H4%NoDup_fmap_1].
  assert (∀ xs ys : list AllSnapRow, (∀ k s kind v, (k, s, kind, v) ∈ xs → in_width 32 s) → (∀ k s kind v, (k, s, kind, v) ∈ ys → in_width 32 s) →
    (∀ k r, (∃ x, x ∈ xs ∧ row_key x = k ∧ row_val x = r) → ∃ x, x ∈ ys ∧ row_key x = k ∧ row_val x = r) → ∀ x, x ∈ xs → x ∈ ys) as Hsub.
  { intros xs ys W1 W2 Hxy [[[k s] kind] v] Hin. destruct (Hxy (versioned k s) (v, kind)) as ([[[k' s'] kind'] v'] & Hin' & Ek & Ev); [by eexists|].
    cbn in Ek, Ev. apply versioned_inj in Ek as [-> ->]; [by injection Ev as -> ->|by eapply W2|by eapply W1]. }
  apply (StronglySorted_unique_strong (λ x y, bytes_lt (row_key x) (row_key y))); [|done|done|].
  - intros x y _ _ Hxy Hyx. exfalso. eapply bytes_lt_irrefl, bytes_lt_trans; [exact Hxy|exact Hyx].
  - apply NoDup_Permutation; [done|done|]. intros x. split; apply Hsub; try done; intros k r; rewrite Hx, Hx'; done.
Qed.

(** A chain sees a key once. *)
Lemma visible_keys_NoDup m l (out : list VisibleSnapRow) :
  StronglySorted bytes_lt (visible_key <$> out) → (∀ k s v, (k, s, v) ∈ out → a_visible m k l = Some (v, s)) →
  NoDup ((λ '(k, _, v), (k, v)) <$> out).*1.
Proof.
  intros Hsort Hx. rewrite <- list_fmap_compose. apply NoDup_fmap_2_strong; [|by apply sorted_by in Hsort as [_ ?%NoDup_fmap_1]].
  intros [[k1 s1] v1] [[k2 s2] v2] H1%Hx H2%Hx Hk. cbn in Hk. subst k2. rewrite H1 in H2. by injection H2 as -> ->.
Qed.

Section listing.
Context {D : Type} `{!BlockDevice D} `{!BlockDeviceLaws D} `{!BlockDeviceTotal D} `{!Crc32} `{!Crc32Range}.
Implicit Types fs : Fs D.
Context (m : amap) (cur s : Z) (l : list Z) (parent : Z).
Context (Hm : typed m) (Hv : view m cur s l) (Hp : in_width 64 parent) (Hmax : parent < U64_MAX).

(** The rows of a directory's range, whichever tree stands for the map. *)
Lemma dirent_rows fs n :
  fs_models fs m n → ∃ rows, row_list m (versioned (dirent_range parent).1 0) (versioned (dirent_range parent).2 0) rows ∧
    reads (D := D) m cur (on_tree (range_scan_visible (dirent_range parent).1 (dirent_range parent).2 l))
      ((λ '(k, _, v), (k, v)) <$> visible_rows (list_to_set l) rows).
Proof using All.
  intros [Hbt _]. destruct (dirent_range_bounds parent) as [Hl1 Hl2].
  destruct (range_scan_all_ok (tree fs) m n _ _ Hbt Hl1 Hl2) as (_ & rows & _ & _ & _ & Hrows). exists rows. split; [done|].
  apply reads_on_tree. intros bt k Hbt'. destruct (range_scan_all_ok bt m k _ _ Hbt' Hl1 Hl2) as (bt' & rows' & E & H1 & H2 & Hrows').
  rewrite (row_list_unique _ _ _ _ _ Hrows' Hrows) in E. exists bt'. unfold range_scan_visible. by rewrite (M_bind_ok _ _ _ _ _ E).
Qed.

(** What a list of entries of the directory is: names that can be, every visible
    entry, and when the names do not interleave nothing else and nothing twice. *)
Record listing_of (es : list (list byte * DirentV1)) : Prop := {
  lo_names : Forall (λ e, (length e.1 ≤ MAX_NAME_LEN)%nat) es;
  lo_cover : dirents_cover m l parent es;
  lo_exact : dir_plain m parent → dirents_exact m l parent es ∧ NoDup es.*1;
}.

Lemma entries_keys out es : Forall2 (dirent_of parent) out es → dirent_bytes parent <$> es.*1 = out.*1.
Proof using Type. induction 1 as [|kv e out es [Hk _] _ IH]; [done|]. cbn. by rewrite Hk, IH. Qed.

(** Listing a directory is a function of the map. *)
Lemma list_dirents_fixed fs n :
  fs_models fs m n → current_subvol fs = cur → ∃ es, reads (D := D) m cur (list_dirents parent) es ∧ listing_of es.
Proof using All.
  intros Hfs Hcur. destruct (dirent_rows fs n Hfs) as (rows & Hrows & Hread). set (out := visible_rows (list_to_set l) rows) in Hread.
  pose proof (view_chain_ok _ _ _ _ Hv) as Hc. pose proof Hc as [_ Hw]. rewrite Forall_forall in Hw.
  destruct (visible_rows_any m _ _ rows Hrows l (dirent_whole_keys m parent Hm) Hc) as [Hsound Hcomplete]. fold out in Hsound, Hcomplete.
  assert (∀ k v, (k, v) ∈ (λ '(k, _, v), (k, v)) <$> out → ∃ s, in_width 32 s ∧ m (versioned k s) = Some (v, Live) ∧
    scanned (versioned (dirent_range parent).1 0) (versioned (dirent_range parent).2 0) (versioned k s)) as Hst.
  { intros k v ([[k' s'] v'] & [= -> ->] & Hin)%list_elem_of_fmap. destruct (Hsound _ _ _ Hin) as (? & ? & Hs'). exists s'. by split; [apply Hw|]. }
  destruct (parse_dirents_ok m parent _ Hm Hp Hmax Hst) as (es & Ees & Hes). exists es.
  assert (reads (D := D) m cur (list_dirents parent) es) as Hlist.
  { unfold list_dirents. eapply reads_bind; [by eapply current_chain_reads|]. rewrite (surjective_pairing (dirent_range parent)).
    eapply reads_bind; [exact Hread|]. by apply reads_lift. }
  split; [done|]. split.
  - apply Forall_forall. intros [name d] [i Hi]%list_elem_of_lookup. destruct (Forall2_lookup_r _ _ _ _ _ Hes Hi) as ([k v] & Hkv & Hk & _).
    cbn in Hk |- *. destruct (Hst k v) as (s' & Hs' & Hms & Hsc); [by eapply list_elem_of_lookup_2|].
    destruct (dirent_range_keys m parent k s' Hm Hs' ltac:(by eexists) Hsc) as (_ & _ & Hlen & _).
    rewrite Hk in Hlen. unfold dirent_bytes in Hlen. cbn [length] in Hlen. rewrite length_app, length_to_be in Hlen. consts. lia.
  - intros name d (v & s' & Hvis & Hd)%a_dirent_visible. eapply listed_row; [exact Hes| |done].
    apply list_elem_of_fmap. exists (dirent_bytes parent name, s', v). split; [done|]. by apply Hcomplete, dirent_scanned.
  - intros [_ Hnb]. destruct (visible_rows_ok m _ _ rows Hrows l Hnb (dirent_whole_keys m parent Hm) Hc) as [Hsort Hx]. fold out in Hsort, Hx. split.
    + destruct (list_dirents_exact m cur s l parent Hm Hv Hp Hmax Hnb fs n Hfs) as (es' & fs' & E & Hex & _); [done|].
      destruct (Hlist fs n Hfs Hcur) as (fs2 & E2 & _). rewrite E in E2. by injection E2 as -> _.
    + apply (NoDup_fmap_1 (dirent_bytes parent)). rewrite (entries_keys _ _ Hes). apply (visible_keys_NoDup m l); [done|].
      intros k s' v Hin. by apply Hx in Hin as [? _].
Qed.
End listing.

(** ** The reader *)
Section pages.
Context {D : Type} `{!BlockDevice D} `{!BlockDeviceLaws D} `{!BlockDeviceTotal D} `{!Crc32} `{!Crc32Range}.
Implicit Types fs : Fs D.
Abbreviation entry := (Z * FileType * list byte)%type.
Context {B : Type} (add : Z → Z → FileType → list byte → B → bool * B).
(** What the kernel's buffer holds: offset and entry of each [add]. *)
Context (contents : B → list (Z * entry)) (empty : B).

(** The contract of fuser's [ReplyDirectory]: [add] returns [true] and keeps the
    buffer when the entry does not fit, and appends it otherwise; an empty buffer
    is large enough for one entry with a name the file system allows. *)
Record dir_buffer : Prop := {
  db_empty : contents empty = [];
  db_add ino off kind name b :
    (add ino off kind name b).1 = false → contents (add ino off kind name b).2 = contents b ++ [(off, (ino, kind, name))];
  db_full ino off kind name b : (add ino off kind name b).1 = true → contents (add ino off kind name b).2 = contents b;
  db_first ino off kind name : (length name ≤ MAX_NAME_LEN)%nat → (add ino off kind name empty).1 = false;
}.

(** A reader that calls [readdir] for the next page at the offset of the last entry
    it got, until a page is empty. *)
Fixpoint read_directory (fuel : nat) (ino : Z) (offset : nat) : M (Fs D) Errno (list (Z * entry)) :=
  match fuel with
  | O => lift OutOfFuel
  | S fuel =>
      buf ← readdir add ino offset empty;
      match last (contents buf) with
      | None => mret []
      | Some (off, _) =>
          rest ← read_directory fuel ino (Z.to_nat off);
          mret (contents buf ++ rest)
      end
  end.

(** Entries with the offset each is offered at: where to go on after it. *)
Definition numbered (i : nat) (es : list entry) : list (Z * entry) :=
  zip_with (λ off e, (Z.of_nat off + 1, e)) (seq i (length es)) es.

Lemma numbered_cons i e es : numbered i (e :: es) = (Z.of_nat i + 1, e) :: numbered (S i) es.
Proof using Type. done. Qed.
Lemma numbered_app i es es' : numbered i (es ++ es') = numbered i es ++ numbered (i + length es) es'.
Proof using Type.
  revert i. induction es as [|e es IH]; intros i; cbn [app length]; [by rewrite Nat.add_0_r|].
  rewrite !numbered_cons, IH. by rewrite Nat.add_succ_r.
Qed.
Lemma last_numbered i e es : ∃ e', last (numbered i (e :: es)) = Some (Z.of_nat (i + length (e :: es)), e').
Proof using Type.
  revert i e. induction es as [|e2 es IH]; intros i e; [exists e; cbn; do 2 f_equal; lia|].
  destruct (IH (S i) e2) as (e' & E). exists e'. rewrite numbered_cons, last_cons, E. do 2 f_equal. cbn [length]. lia.
Qed.

Section reader.
Context (Hb : dir_buffer).

(** A page is a run of entries from its offset on. *)
Lemma add_entries_prefix i es b :
  ∃ k, (k ≤ length es)%nat ∧ contents (add_entries add i es b) = contents b ++ numbered i (take k es).
Proof using Hb.
  revert i b. induction es as [|[[ino kind] name] es IH]; intros i b; cbn [add_entries].
  { exists 0%nat. split; [done|]. cbn. by rewrite app_nil_r. }
  pose proof (db_add Hb ino (Z.of_nat i + 1) kind name b) as Ha. pose proof (db_full Hb ino (Z.of_nat i + 1) kind name b) as Hf.
  destruct (add ino (Z.of_nat i + 1) kind name b) as [[|] b1]; cbn [fst snd] in *.
  { exists 0%nat. split; [lia|]. rewrite Hf by done. cbn. by rewrite app_nil_r. }
  destruct (IH (S i) b1) as (k & Hk & E). exists (S k). split; [cbn [length]; lia|]. cbn [take]. rewrite E, Ha, numbered_cons by done.
  by rewrite <- app_assoc.
Qed.

(** A page that starts at an entry holds it. *)
Lemma page_of i e es :
  (length e.2 ≤ MAX_NAME_LEN)%nat →
  ∃ k, (1 ≤ k ≤ length (e :: es))%nat ∧ contents (add_entries add i (e :: es) empty) = numbered i (take k (e :: es)).
Proof using Hb.
  destruct e as [[ino kind] name]. cbn [add_entries snd]. intros Hn. pose proof (db_add Hb ino (Z.of_nat i + 1) kind name empty) as Ha.
  pose proof (db_first Hb ino (Z.of_nat i + 1) kind name Hn) as H1.
  destruct (add ino (Z.of_nat i + 1) kind name empty) as [full b1]. cbn [fst snd] in *. subst full.
  destruct (add_entries_prefix (S i) es b1) as (k & Hk & E). exists (S k). split; [cbn [length]; lia|].
  rewrite E, Ha, (db_empty Hb) by done. done.
Qed.

(** The reader gets every entry from its offset on, when the handler offers the
    same entries each time. *)
Lemma read_directory_reads m cur ino es fuel offset :
  (∀ offset, reads (D := D) m cur (readdir add ino offset empty) (add_entries add offset (drop offset es) empty)) →
  Forall (λ e, (length e.2 ≤ MAX_NAME_LEN)%nat) es → (length es < offset + fuel)%nat → (0 < fuel)%nat →
  reads (D := D) m cur (read_directory fuel ino offset) (numbered offset (drop offset es)).
Proof using Hb.
  intros Hr Hn. revert offset. induction fuel as [|fuel IH]; intros offset Hf Hf0; [lia|]. cbn [read_directory].
  eapply reads_bind; [apply Hr|]. destruct (drop offset es) as [|e rest] eqn:Ed.
  { cbn [add_entries]. rewrite (db_empty Hb). cbn [last]. apply reads_ret. }
  assert (offset < length es)%nat as Hlt by (destruct (decide (offset < length es)%nat); [done|by rewrite drop_ge in Ed by lia]).
  destruct (page_of offset e rest) as (k & Hk & ->).
  { rewrite Forall_forall in Hn. apply Hn. eapply (list_elem_of_lookup_2 _ offset). rewrite <- (Nat.add_0_r offset), <- lookup_drop, Ed. done. }
  destruct k as [|k]; [lia|]. cbn [take]. destruct (last_numbered offset e (take k rest)) as (e' & ->).
  rewrite Nat2Z.id. set (page := e :: take k rest).
  assert (length page = S k) as Elen by (unfold page; cbn [length] in *; rewrite length_take; lia).
  eapply reads_bind; [apply IH; cbn [length]; rewrite ?length_take; cbn [length] in *; lia|].
  replace (numbered offset (e :: rest)) with (numbered offset page ++ numbered (offset + length page) (drop (offset + length page) es)); [apply reads_ret|].
  rewrite <- drop_drop, Ed, <- numbered_app. f_equal. rewrite Elen. unfold page. cbn. by rewrite take_drop.
Qed.

(** *** The handler on every branch *)
Section handler.
Context (m : amap) (cur s : Z) (l : list Z) (Hm : typed m) (Hv : view m cur s l).

Definition is_dir (i : InodeV1) : bool := Z.land (i_mode i) S_IFMT =? S_IFDIR.

Lemma readdir_refuses ino offset b :
  match a_inode m l ino with
  | None => answers (D := D) m cur (readdir add ino offset b) (Err ENOENT)
  | Some i => is_dir i = false → answers (D := D) m cur (readdir add ino offset b) (Err ENOTDIR)
  end.
Proof using BlockDeviceLaws0 BlockDeviceTotal0 H0 Hm Hv.
  assert (∀ o, answers m cur (match a_inode m l ino with
    | Some inode => if negb (is_dir inode) then throw ENOTDIR else
        (dirents ← or_eio (list_dirents ino); mret (add_entries add offset (drop offset (dir_entries ino (i_parent_ino inode) dirents)) b))
    | None => throw ENOENT end) o → answers (D := D) m cur (readdir add ino offset b) o) as Hrun.
  { intros o Ho. by eapply get_inode_some. }
  destruct (a_inode m l ino) as [i|]; [intros Hd; apply Hrun; rewrite Hd|apply Hrun]; apply (answers_lift _ _ (Err _)).
Qed.

Lemma readdir_reads ino offset b i es :
  a_inode m l ino = Some i → is_dir i = true → reads (D := D) m cur (list_dirents ino) es →
  reads (D := D) m cur (readdir add ino offset b) (add_entries add offset (drop offset (dir_entries ino (i_parent_ino i) es)) b).
Proof using BlockDeviceLaws0 BlockDeviceTotal0 H0 Hm Hv.
  intros Hi Hd Hes. unfold readdir. eapply reads_bind; [by eapply reads_or_eio, get_inode_reads|]. rewrite Hi.
  eapply reads_bind; [by apply reads_ret|]. unfold is_dir in Hd. rewrite Hd. cbn [negb].
  eapply reads_bind; [by apply reads_or_eio|]. apply reads_ret.
Qed.
End handler.
End reader.

(** ** The claim *)

(** C34: reading a directory page by page through [readdir] returns its entries. The
    reader calls the handler with an empty buffer, of whatever size holds one entry,
    at the offset of the last entry it got, until a page is empty; it ends, after
    which the map is unchanged. A missing inode and one that is not a directory are
    refused with [ENOENT] and [ENOTDIR]; otherwise it gets the two dots and the
    entries, in order, each once with its offset, and among them every visible
    entry of the directory; when the names of the directory do not interleave with
    snapshot suffixes, exactly those, and no name twice. *)
Theorem readdir_pages_cover_directory fs m n s l ino :
  dir_buffer → fs_models fs m n → view m (current_subvol fs) s l → in_width 64 ino → ino < U64_MAX →
  ∃ N, ∀ fuel, (N ≤ fuel)%nat → ∃ r fs', read_directory fuel ino 0 fs = (r, fs') ∧ fs_models fs' m n ∧
    match a_inode m l ino with
    | None => r = Err ENOENT
    | Some i =>
        if is_dir i then
          ∃ es, r = Ok (numbered 0 (dir_entries ino (i_parent_ino i) es)) ∧ dirents_cover m l ino es ∧
            (dir_plain m ino → dirents_exact m l ino es ∧ NoDup es.*1)
        else r = Err ENOTDIR
    end.
Proof using All.
  intros Hb Hfs Hv Hino Hmax. pose proof (fm_typed _ _ _ Hfs) as Hm.
  destruct (list_dirents_fixed m _ s l ino Hm Hv Hino Hmax fs n Hfs eq_refl) as (es & Hes & [Hn Hco Hex]).
  exists (length es + 4)%nat. intros fuel Hf. pose proof (readdir_refuses m _ s l Hm Hv ino 0 empty) as Href.
  assert (∀ e, answers (D := D) m (current_subvol fs) (readdir add ino 0 empty) (Err e) →
    ∃ fs', read_directory fuel ino 0 fs = (Err e, fs') ∧ fs_models fs' m n) as Herr.
  { intros e He. destruct fuel as [|fuel]; [lia|]. cbn [read_directory].
    destruct (answers_err _ _ _ (λ buf, match last (contents buf) with None => mret [] | Some (off, _) => rest ← read_directory fuel ino (Z.to_nat off); mret (contents buf ++ rest) end) e He fs n Hfs eq_refl) as (fs' & E & Hfs' & _). eauto. }
  destruct (a_inode m l ino) as [i|] eqn:Hi; [|destruct (Herr _ Href) as (fs' & ? & ?); by exists (Err ENOENT), fs'].
  destruct (is_dir i) eqn:Hd; [|destruct (Herr _ (Href eq_refl)) as (fs' & ? & ?); by exists (Err ENOTDIR), fs'].
  assert (reads (D := D) m (current_subvol fs) (read_directory fuel ino 0) (numbered 0 (drop 0 (dir_entries ino (i_parent_ino i) es)))) as Hread.
  { apply (read_directory_reads Hb).
    - intros offset. by eapply readdir_reads.
    - unfold dir_entries. repeat apply Forall_cons_2; [cbn; consts; lia..|]. apply Forall_fmap. eapply Forall_impl; [exact Hn|]. by intros [].
    - unfold dir_entries. cbn [length]. rewrite length_fmap. lia.
    - lia. }
  destruct (Hread fs n Hfs eq_refl) as (fs' & E & Hfs' & _). eexists _, fs'. split; [exact E|]. split; [done|]. exists es. by rewrite drop_0.
Qed.
End pages.

(** ** A buffer of bytes *)
(** What an entry takes in the reply: a header of 24 bytes and the name, rounded up
    to eight. *)
Definition entry_bytes (name : list byte) : nat := (24 + length name + 7) / 8 * 8.
Definition used (b : list (Z * (Z * FileType * list byte))) : nat := sum_list ((λ '(_, (_, _, name)), entry_bytes name) <$> b).
Definition bytes_add (limit : nat) (ino off : Z) (kind : FileType) (name : list byte) (b : list (Z * (Z * FileType * list byte))) :=
  if (limit <? used b + entry_bytes name)%nat then (true, b) else (false, b ++ [(off, (ino, kind, name))]).

Lemma bytes_buffer limit : (48 ≤ limit)%nat → dir_buffer (bytes_add limit) id [].
Proof.
  intros Hl. split; [done| | |].
  1, 2: intros ino off kind name b; unfold bytes_add; by destruct (_ <? _)%nat.
  intros ino off kind name Hn. unfold bytes_add. destruct (Nat.ltb_spec limit (used [] + entry_bytes name)) as [Hlt|]; [exfalso|done].
  change (used []) with 0%nat in Hlt. unfold entry_bytes in Hlt. change MAX_NAME_LEN with 19%nat in Hn.
  assert ((24 + length name + 7) / 8 < 7)%nat; [|lia]. apply Nat.Div0.div_lt_upper_bound. lia.
Qed.

(** *** A concrete directory *)
#[local] Existing Instance sum_crc.

Definition demo_file : InodeV1 := new_inode demo_req 8 (Z.lor S_IFREG (Z.land 420 PERM_MASK)) 1 0 ROOT_INO.
Definition demo_root_map : amap := a_run (make_ops ROOT_SNAP ROOT_INO demo_name 2 FILE_KIND_REGULAR demo_file) demo_mount_map.
Lemma demo_root_view :
  a_inode demo_root_map [ROOT_SNAP] ROOT_INO = Some (root_inode demo_req 7) ∧ is_dir (root_inode demo_req 7) = true ∧
  a_dirent demo_root_map [ROOT_SNAP] ROOT_INO demo_name = Some (dirent_new 2 FILE_KIND_REGULAR).
Proof. vm_compute. done. Qed.

(** A file is created on a new mount and the root directory read 64 bytes at a
    time, two entries to a page at most. *)
Lemma readdir_pages_cover_directory_witness :
  ∃ f attr fs fuel r fs', fuse_new demo_req 7 = Ok f ∧ fuse_create demo_req 8 ROOT_INO demo_name 420 (fuse_fs f) = (attr, fs) ∧
    read_directory (bytes_add 64) id [] fuel ROOT_INO 0 fs = (Ok r, fs') ∧ (2, RegularFile, demo_name) ∈ r.*2.
Proof.
  destruct (fuse_new_mounted demo_req 7 99) as (f & E & _ & Ei & Hmo); [lia|].
  destruct (make_node_runs (fuse_fs f) demo_mount_map ROOT_SNAP [ROOT_SNAP] 97 S_IFREG 1 FILE_KIND_REGULAR demo_req 8 ROOT_INO demo_name 420 Hmo
    ltac:(lia) demo_good_name demo_name_free) as (fs & E1 & Hmo' & _). rewrite Ei in Hmo'. destruct Hmo' as [Hfs Hv _ _].
  destruct (readdir_pages_cover_directory (bytes_add 64) id [] fs demo_root_map 97 ROOT_SNAP [ROOT_SNAP] ROOT_INO (bytes_buffer 64 ltac:(lia)) Hfs Hv
    (proj1 ino_widths)) as (N & HN); [reflexivity|].
  destruct (HN N (le_n _)) as (r & fs' & E2 & _ & Hr). rewrite (proj1 demo_root_view), (proj1 (proj2 demo_root_view)) in Hr.
  destruct Hr as (es & -> & Hco & _). specialize (Hco _ _ (proj2 (proj2 demo_root_view))).
  eexists f, _, fs, N, _, fs'. split; [exact E|]. split; [exact E1|]. split; [exact E2|].
  assert (∀ i es, (numbered i es).*2 = es) as Hn.
  { intros i es'. revert i. induction es' as [|e es' IH]; intros i; [reflexivity|]. rewrite numbered_cons. cbn [fmap list_fmap snd]. f_equal. apply IH. }
  rewrite Hn. unfold dir_entries. do 2 right. apply list_elem_of_fmap. eexists. split; [|exact Hco]. reflexivity.
Defined.
