(* ===== verification/Recovery.v ===== *)
(** * Recovery: what a mount finds after a crash (src/fs.rs, open and sync).

    [fs_sync] leaves an image that holds the whole map; [journal_commit] appends
    the writes since then to the ring as one group. [journaled] ties a running
    file system to its image: the map of the last checkpoint, the writes
    committed since, and those that are only in memory. A mount of the image, at
    any moment, finds the committed map. *)
From Stdlib Require Import Strings.Byte.
From stdpp Require Import base list numbers gmap sorting.
From S2P Require Import Prelude Device BlockBtree NodeRep Merge Storage Journal StoreSpec Heap Btree Leaf Internal Tree TreeRead TreeWrite BtreeSpec Checkpoint FsTypes Fs FsSpec FsOps Snapshot FuseSpec.
#[local] Open Scope rfs_scope.
#[local] Open Scope Z_scope.

Section sync.
Context {D : Type} `{!BlockDevice D} `{!BlockDeviceLaws D} `{!BlockDeviceTotal D} `{!Crc32} `{!Crc32Range}.
Implicit Types fs : Fs D.

(** The counters of a file system, at the widths the image stores them with. *)
Record counters_ok fs : Prop := {
  co_ino : in_width 64 (next_ino fs);
  co_snap : in_width 32 (next_snap_id fs);
  co_subvol : in_width 32 (next_subvol_id fs);
  co_current : in_width 32 (current_subvol fs);
}.

Lemma on_fs_store_ok {A} (c : M (BlockStore D) error A) fs s' a :
  c (store (tree fs)) = (Ok a, s') → on_fs_store c fs = (Ok a, set_tree (set_store s' (tree fs)) fs).
Proof. intros E. unfold on_fs_store, on_tree, zoom. by rewrite (in_store_ok _ _ _ _ E). Qed.

Lemma unheld_length (s : BlockStore D) : alloc_ok s → Z.of_nat (length (unheld s)) ≤ next_block_nr s.
Proof.
  intros []. assert (0 < FIRST_DATA_BLOCK_NR) by done. apply NoDup_range_length; [lia|done|]. apply Forall_forall.
  intros k Hk%ao_range. lia.
Qed.

(** The chain that was just written lists the blocks that are not in use. *)
Lemma persisted_listed (s s' : BlockStore D) head cs : persisted s s' head cs → listed cs ≡ₚ unheld s'.
Proof.
  intros Hp. unfold listed, unheld. rewrite <- (pe_listed _ _ _ _ Hp), (pe_blocks _ _ _ _ Hp).
  by rewrite concat_reverse_Permutation, reverse_Permutation.
Qed.
(** The blocks of a clean tree and of the chain that was just written. *)
Lemma persisted_apart (s s' : BlockStore D) head cs (l : list Z) :
  persisted s s' head cs → alloc_ok s' → NoDup l → Forall (held s') l →
  NoDup (l ++ listed cs) ∧ Forall (λ k, FIRST_DATA_BLOCK_NR ≤ k < next_block_nr s') (l ++ listed cs).
Proof.
  intros Hp [] Hd Hh. pose proof (persisted_listed _ _ _ _ Hp) as HL.
  rewrite Forall_forall in Hh. rewrite HL. split.
  - apply NoDup_app. split_and!; [done| |done]. intros k Hk Hu. by destruct (Hh k Hk).
  - apply Forall_app. split; apply Forall_forall; [intros k Hk; by apply Hh|done].
Qed.

(** [persist_free_list], the superblock and the two barriers, on a clean tree. *)
Lemma write_image_ok (s : BlockStore D) q root h t r start frames js (mk : Z → Z → Superblock) :
  tree_at s q root h t → Forall (calm s) (blocks t) → room s (next_block_nr s + r + 1) → 0 ≤ r →
  ring_state (device s) start frames → js + 1 = start + Z.of_nat (length frames) → js + 1 + 2 * JOURNAL_CAPACITY < 2 ^ 64 →
  (∀ head nb, in_width 64 head → in_width 64 nb →
     superblock_wf (mk head nb) ∧ sb_magic (mk head nb) = SUPERBLOCK_MAGIC ∧ sb_version (mk head nb) = SUPERBLOCK_VERSION) →
  (∀ head nb, sb_root_block (mk head nb) = root ∧ sb_next_bset_seq (mk head nb) = q ∧ sb_next_block_nr (mk head nb) = nb ∧
     sb_free_head (mk head nb) = head ∧ sb_journal_seq (mk head nb) = js) →
  ∃ head s2 s3 s4 s5 cs, persist_free_list s = (Ok head, s2) ∧ fsync s2 = (Ok tt, s3) ∧
    write_superblock (mk head (next_block_nr s3)) s3 = (Ok tt, s4) ∧ fsync s4 = (Ok tt, s5) ∧
    next_block_nr s5 = next_block_nr s3 ∧
    tree_at s5 q root h t ∧ room s5 r ∧ (∀ nr b, held s nr → data_at s nr b → held s5 nr ∧ data_at s5 nr b) ∧
    durable s5 (mk head (next_block_nr s3)) h t cs [] ∧ Forall (λ k, k ∈ last_chain_blocks s5) (fst <$> cs) ∧
    (∀ k, k ∈ listed cs → k ∈ unheld s5).
Proof using All.
  intros Ht Hc Hr Hr0 Hring Hjs Hw Hwf Hmk. pose proof Hr as (Ha & _ & Hmax). assert (0 < FIRST_DATA_BLOCK_NR) as Hpos by done.
  pose proof (unheld_length s Ha) as Hul. pose proof (ao_next _ Ha) as Hnx.
  destruct (persist_free_list_total s) as (head & s2 & E2).
  destruct (persist_free_list_ok s s2 head) as (cs & Hp); [lia|lia| |done|].
  { apply Forall_forall. intros k Hk%(ao_range _ Ha). unfold in_width. lia. }
  pose proof (pe_next _ _ _ _ Hp) as Hn2. pose proof (pe_length _ _ _ _ Hp) as Hlen. rewrite (pe_free _ _ _ _ Hp) in Hlen.
  assert (room s2 r) as Hr2 by (split; [apply (persisted_alloc Hp); [done|lia]|lia]).
  destruct (persisted_tree_at Hp _ _ _ _ _ Hr Ht) as [Ht2 Hcalm].
  destruct (fsync_ev s2 r Hr2) as (s3 & E3 & Hev3 & Hr3 & Hrd3 & Es3).
  assert (next_block_nr s3 = next_block_nr s2) as Hn3 by (by rewrite Es3).
  assert (in_width 64 head) as Hhead.
  { eapply chain_at_head; [|apply Hp]. eapply Forall_impl; [apply Hp|]. intros c. cbn. unfold in_width. lia. }
  assert (in_width 64 (next_block_nr s3)) as Hnb by (unfold in_width; lia).
  destruct (Hwf head _ Hhead Hnb) as (Hwf' & Hmag & Hver). destruct (Hmk head (next_block_nr s3)) as (K1 & K2 & K3 & K4 & K5).
  set (sb := mk head (next_block_nr s3)) in *.
  destruct (write_superblock_ev s3 sb r Hwf' Hr3) as (s4 & E4 & Hev4 & Hr4 & Es4 & Hsb).
  destruct (fsync_ev s4 r Hr4) as (s5 & E5 & Hev5 & Hr5 & Hrd5 & Es5).
  assert (evolves2 nowhere (eq SUPERBLOCK_BLOCK_NR) s2 s5) as Hev.
  { eapply evolves_nowhere; [exact Hev3|]. by eapply evolves_nowhere_r. }
  pose proof Hr2 as (Ha2 & _ & _).
  assert (tree_at s5 q root h t) as Ht5 by (eapply tree_at_evolves; [exact Hev|by intros k _ []|reflexivity|done]).
  assert (∀ k, 0 < k → fixed s2 k → same_bytes k (device s2) (device s5)) as Hsame.
  { intros k Hk Hfx. apply Hev; [done|by intros <-|exact (fixed_block_ok s2 r k Hr2 Hfx)]. }
  assert (Forall (λ k, k ∈ last_chain_blocks s2) (fst <$> cs)) as Hlast.
  { apply Forall_forall. intros k Hk. by rewrite (pe_blocks _ _ _ _ Hp), elem_of_reverse. }
  assert (Forall (fixed s2) (fst <$> cs)) as Hfx by (eapply Forall_impl; [exact Hlast|]; intros k Hk; right; by left).
  destruct (persisted_apart _ _ _ _ (blocks t) Hp Ha2) as [Hnd Hrg]; [apply Ht2|apply Ht2|].
  exists head, s2, s3, s4, s5, cs. fold sb. do 4 (split; [done|]). split; [by rewrite Es5, Es4|]. do 2 (split; [done|]). split.
  { intros nr b Hh [Hrd Hca]. pose proof (held_block_ok _ _ _ Hr Hh) as Hok. pose proof (persisted_held Hp nr Hh) as Hh2.
    split; [by apply Hev|]. apply Hev; [done| |done|].
    - intros <-. by apply SUPERBLOCK_not_held in Hh.
    - split; [eapply same_bytes_block; [|exact Hrd]; apply (pe_dev _ _ _ _ Hp); [done|apply Hh]|].
      by rewrite (pe_data _ _ _ _ Hp) by apply Hh. }
  split; [|split; [by rewrite (ev_chain _ _ _ _ Hev)|]].
  2: { intros k. rewrite (persisted_listed _ _ _ _ Hp). by rewrite Es5, Es4, Es3. }
  split.
  - done.
  - by rewrite Hrd5.
  - rewrite K1. apply Ht5.
  - rewrite K2. apply cold_tree; [apply Ht5| |apply Ht5]. rewrite Forall_forall in Hc |- *. intros k Hk.
    apply Hev; [|by intros []|by apply Hcalm, Hc]. destruct (ta_owned _ _ _ _ _ Ht2) as [_ Hh]. rewrite Forall_forall in Hh. by apply Hh.
  - apply Ht5.
  - done.
  - by rewrite K3, Hn3.
  - rewrite K3. by rewrite Es5, Es4.
  - rewrite K4. eapply chain_at_same; [|apply Hp]. rewrite Forall_fmap in Hfx. apply Forall_forall. intros c Hin.
    rewrite Forall_forall in Hfx. apply Hsame; [|by apply Hfx]. pose proof (pe_new _ _ _ _ Hp) as Hnew. rewrite Forall_forall in Hnew.
    specialize (Hnew c Hin). lia.
  - eapply Forall_impl; [exact Hfx|]. intros k. unfold fixed. rewrite (ev_chain _ _ _ _ Hev). intros [?|?]; [left; by apply Hev|by right].
  - rewrite K5, Hjs. apply ring_checkpoint; [|lia]. eapply ring_same; [|exact Hring]. intros k Hk.
    assert (block_ok k) by (apply low_block_ok; lia). etransitivity; [apply (pe_dev _ _ _ _ Hp); [done|lia]|].
    apply Hsame; [lia|]. right. right. lia.
Qed.

(** The state after [fs_sync]: same map, same log, same counters, and an image
    that holds all of it. *)
Record synced_to fs (m : amap) (n : Z) fs' (sb : Superblock) (h : nat) (t : Tree.tree) (cs : list (Z * list Z)) : Prop := {
  sy_models : bt_models (tree fs') m n;
  sy_tree : tree_at (store (tree fs')) (next_bset_seq (tree fs')) (root_block (tree fs')) h t;
  sy_durable : durable (store (tree fs')) sb h t cs [];
  sy_chain : Forall (λ k, k ∈ last_chain_blocks (store (tree fs'))) (fst <$> cs);
  sy_listed k : k ∈ listed cs → k ∈ unheld (store (tree fs'));
  sy_growth : next_block_nr (store (tree fs')) ≤ 4 * next_block_nr (store (tree fs)) + 1;
  sy_content k : m k = row_of <$> content t k;
  sy_log : log (tree fs') = log (tree fs) ∧ logging (tree fs') = logging (tree fs);
  sy_rest : fs' = set_checkpoint_seq (next_journal_seq fs - 1) (set_tree (tree fs') fs);
  sy_sb : sb_next_ino sb = next_ino fs ∧ sb_next_snap_id sb = next_snap_id fs ∧
    sb_next_subvol_id sb = next_subvol_id fs ∧ sb_current_subvol sb = current_subvol fs ∧
    sb_next_bset_seq sb = next_bset_seq (tree fs) ∧ sb_journal_seq sb = next_journal_seq fs - 1 ∧
    sb_next_block_nr sb = next_block_nr (store (tree fs'));
  sy_shelters : shelters (tree fs) (tree fs');
}.

Lemma fs_sync_ok fs m n start frames :
  bt_models (tree fs) m n → 4 * next_block_nr (store (tree fs)) + OP_BLOCKS * n < 2 ^ 52 - 1 → counters_ok fs →
  ring_state (device (store (tree fs))) start frames → next_journal_seq fs = start + Z.of_nat (length frames) →
  1 ≤ start → next_journal_seq fs + 2 * JOURNAL_CAPACITY < 2 ^ 64 →
  ∃ fs' sb h t cs, fs_sync fs = (Ok tt, fs') ∧ synced_to fs m n fs' sb h t cs.
Proof using All.
  intros [Hm [Hr Hn0 Hq]] Hbig [Hc1 Hc2 Hc3 Hc4] Hring Hseq Hst Hw. unfold fs_sync.
  set (nx := next_block_nr (store (tree fs))) in *. assert (0 < FIRST_DATA_BLOCK_NR) as Hpos by done.
  assert (0 < JOURNAL_CAPACITY) as Hcap by done.
  assert (FIRST_DATA_BLOCK_NR ≤ nx) as Hnx by (destruct Hr as ([] & _); lia).
  destruct (btree_checkpoint_ok (tree fs) m (2 ^ 52 - 2 * nx) Hm) as (s1 & h & t & E1 & Ht1 & Hcon & Hcl1 & Hr1 & Hlow & _ & Hsh);
    [destruct Hr as (? & _ & _); split; [done|]; unfold OP_BLOCKS in *; lia|unfold OP_BLOCKS in *; lia|].
  set (fs1 := set_tree (set_store s1 (set_root (t_nr t) (tree fs))) fs).
  assert (on_tree btree_checkpoint fs = (Ok tt, fs1)) as Et by (unfold on_tree, zoom; by rewrite E1). mstep Et.
  pose proof Hr1 as (Ha1 & _ & Hn1).
  set (mk := λ head nb, {|
    sb_magic := SUPERBLOCK_MAGIC; sb_version := SUPERBLOCK_VERSION; sb_root_block := t_nr t; sb_next_block_nr := nb;
    sb_next_bset_seq := next_bset_seq (tree fs); sb_next_ino := next_ino fs; sb_journal_seq := next_journal_seq fs - 1;
    sb_next_snap_id := next_snap_id fs; sb_next_subvol_id := next_subvol_id fs; sb_current_subvol := current_subvol fs;
    sb_checksum := 0; sb_free_head := head; sb_reserved := zeros RESERVED_BYTES |}).
  destruct (write_image_ok s1 (next_bset_seq (tree fs)) (t_nr t) h t (2 ^ 52 - 4 * nx - 1) start frames (next_journal_seq fs - 1) mk)
    as (head & s2 & s3 & s4 & s5 & cs & E2 & E3 & E4 & E5 & Hn5 & Ht5 & Hr5 & Hda & Hdu & Hch & Hli); [done|done| | | |lia|lia| |done|].
  { pose proof (ao_next _ Ha1). unfold OP_BLOCKS in *. split; [done|]. lia. }
  { unfold OP_BLOCKS in *. lia. }
  { eapply ring_same; [|exact Hring]. intros k Hk. apply Hlow. right. right. lia. }
  { intros hd nb Hhd Hnb. split_and!; [|done|done]. split; cbn; try done.
    - destruct (ta_owned _ _ _ _ _ Ht1) as [_ Hh]. rewrite Forall_forall in Hh. eapply held_width; [exact Hr1|apply Hh, t_nr_blocks].
    - unfold in_width. lia.
    - unfold in_width. lia. }
  set (fs5 := set_checkpoint_seq (next_journal_seq fs - 1) (set_tree (set_store s5 (set_root (t_nr t) (tree fs))) fs)).
  exists fs5, (mk head (next_block_nr s3)), h, t, cs. split.
  - mstep (on_fs_store_ok _ fs1 _ _ E2). mstep (on_fs_store_ok _ (set_tree (set_store s2 (tree fs1)) fs1) _ _ E3).
    rewrite gets_bind. set (fs3 := set_tree (set_store s3 (tree (set_tree (set_store s2 (tree fs1)) fs1))) (set_tree (set_store s2 (tree fs1)) fs1)).
    assert (sat_sub (next_journal_seq (id fs3)) 1 = next_journal_seq fs - 1) as Esat by (cbn; unfold sat_sub; lia).
    cbn zeta. rewrite Esat. mstep (on_fs_store_ok (write_superblock (mk head (next_block_nr s3))) fs3 _ _ E4).
    mstep (on_fs_store_ok _ (set_tree (set_store s4 (tree fs3)) fs3) _ _ E5). done.
  - split; [|done|done|done|done| |done|done|done|split_and!; done|].
    + split; [by exists h, t|]. split; [|done|done]. eapply room_weaken; [exact Hr5|unfold OP_BLOCKS in *; lia].
    + destruct Hr5 as (_ & _ & Hmax). cbn. lia.
    + etransitivity; [exact Hsh|]. intros nr b (H1 & H2 & H3). destruct (Hda nr b H1 H2) as [H4 H5]. split; [done|]. split; [done|].
      cbn [set_store set_root store root_block] in H3. rewrite (node_at_tree _ _ _ _ _ _ Ht1) in H3.
      by intros ?%(node_at_tree _ _ _ _ _ nr Ht5).
Qed.
End sync.

(** ** Mounting an image *)
Section mount.
Context {D : Type} `{!BlockDevice D} `{!BlockDeviceLaws D} `{!BlockDeviceTotal D} `{!Crc32} `{!Crc32Range}.
Implicit Types fs : Fs D.

Definition decode_op '((op_kind, payload) : Z * list byte) : res LogRecord := decode_log_record op_kind payload.
(** The records of the groups a ring holds. *)
Definition records_of (frames : list JournalFrame) : res (list LogRecord) :=
  mapM decode_op (concat (cg_ops <$> groups_of frames)).

(** The scalars a mount adopts: those of the last commit, or the superblock's. *)
Definition last_next_block (sb : Superblock) (frames : list JournalFrame) : Z :=
  match last (groups_of frames) with Some g => jf_next_block_nr (cg_end g) | None => sb_next_block_nr sb end.
Definition last_counters (sb : Superblock) (frames : list JournalFrame) : Z * Z * Z * Z :=
  match last (groups_of frames) with
  | Some g => let e := cg_end g in (jf_next_ino e, jf_next_snap_id e, jf_next_subvol_id e, jf_current_subvol e)
  | None => (sb_next_ino sb, sb_next_snap_id sb, sb_next_subvol_id sb, sb_current_subvol sb)
  end.
Definition counters_of fs : Z * Z * Z * Z := (next_ino fs, next_snap_id fs, next_subvol_id fs, current_subvol fs).

Lemma forM_app {S E A} (l1 l2 : list A) (f : A → M S E unit) s :
  forM_ (l1 ++ l2) f s = (_ ← forM_ l1 f; forM_ l2 f) s.
Proof.
  revert s. induction l1 as [|x l1 IH]; intros s; [done|]. cbn [app forM_]. unfold mbind, M_bind in *.
  destruct (f x s) as [[[]|e| |] s1]; [|done..]. apply IH.
Qed.

Lemma replay_ops_ok ops recs (bt : Btree D) r :
  mapM decode_op ops = Ok recs → forM_ recs replay_record bt = r → forM_ ops replay_op bt = r.
Proof.
  revert recs bt. induction ops as [|[k p] ops IH]; intros recs bt; cbn [mapM].
  { by intros [= <-]. }
  intros (rec & E1 & (recs' & E2 & [= <-])%outcome_bind_Ok_inv)%outcome_bind_Ok_inv. cbn [forM_]. intros Hr.
  assert (replay_op (k, p) bt = replay_record rec bt) as Ek.
  { unfold replay_op. change (decode_log_record k p = Ok rec) in E1. by mstep E1. }
  unfold mbind at 1, M_bind at 1. rewrite Ek.
  unfold mbind at 1, M_bind at 1 in Hr. destruct (replay_record rec bt) as [[[]|e| |] bt1]; [|done..]. by apply (IH recs').
Qed.

Lemma replay_groups_ok groups recs (bt bt' : Btree D) :
  mapM decode_op (concat (cg_ops <$> groups)) = Ok recs → forM_ recs replay_record bt = (Ok tt, bt') →
  replay_groups groups bt = (Ok tt, bt').
Proof.
  intros Hd Hr. apply (replay_ops_ok _ _ _ _ Hd) in Hr. clear Hd. revert bt Hr. unfold replay_groups.
  induction groups as [|g groups IH]; intros bt; cbn [fmap list_fmap concat forM_]; [done|].
  rewrite forM_app. unfold mbind, M_bind. destruct (forM_ (cg_ops g) replay_op bt) as [[[]|e| |] bt1]; [|done..]. apply IH.
Qed.

(** The store of a mount once the free list is loaded. *)
Lemma mount_store_ok fuel (d : D) p next head cs :
  chain_at d head cs → (length cs < fuel)%nat →
  ∃ s, (if head =? 0 then mret tt else load_free_list fuel head) (set_next_block_nr next (with_device d p)) = (Ok tt, s) ∧
    free_list s = listed cs ∧ next_block_nr s = next ∧ last_chain_blocks s = [] ∧ node_cache s = ∅ ∧ device s = d ∧ data_coherent s.
Proof.
  intros Hch Hf. destruct (Z.eqb_spec head 0) as [->|Hne].
  { destruct cs as [|[nr chunk] cs]; [|destruct Hch as (<- & ? & _); lia]. eexists. split_and!; [done..|].
    intros k b Hk. cbn in Hk. by rewrite lookup_empty in Hk. }
  destruct (load_chain_ok fuel (set_next_block_nr next (with_device d p)) head cs [] []) as (s & E & Hc & Es); [|done|done|].
  { intros k b Hk. cbn in Hk. by rewrite lookup_empty in Hk. }
  unfold load_free_list. rewrite (M_bind_ok _ _ _ _ _ E). eexists. split; [done|]. split_and!; [done|by rewrite Es..|exact Hc].
Qed.

Lemma mount_tree_ok (s s' : BlockStore D) sb h t cs frames :
  durable s sb h t cs frames → free_list s' = listed cs → last_chain_blocks s' = [] → node_cache s' = ∅ →
  device s' = device s → sb_next_block_nr sb ≤ next_block_nr s' →
  tree_at s' (sb_next_bset_seq sb) (sb_root_block sb) h t.
Proof.
  intros [] Hfl Hch Hca Hdev Hnx. assert (∀ k, k ∈ blocks t → held s' k) as Hheld.
  { intros k Hk. rewrite Forall_app in du_range. destruct du_range as [Hr _]. rewrite Forall_forall in Hr.
    specialize (Hr k Hk). cbn in Hr. split; [lia|]. unfold unheld. rewrite Hfl, Hch, app_nil_r.
    apply NoDup_app in du_nodup as (_ & Hd & _). by apply Hd. }
  split; [|done| | |by apply empty_cache_ok].
  - eapply tree_ok_frame; [|reflexivity|done]. intros k n Hk [_ Hl]. split; [by apply Hheld|].
    cbn [cold set_data_cache set_node_cache node_cache] in Hl. rewrite lookup_empty in Hl. rewrite Hca, lookup_empty.
    unfold on_disk. by rewrite Hdev.
  - apply NoDup_app in du_nodup as (? & _). split; [done|]. by apply Forall_forall.
  - intros x k _ _ _ c. by rewrite Hca, lookup_empty.
Qed.

Lemma mount_alloc_ok (s s' : BlockStore D) sb h t cs frames :
  durable s sb h t cs frames → free_list s' = listed cs → last_chain_blocks s' = [] →
  sb_next_block_nr sb ≤ next_block_nr s' < 2 ^ 64 - 1 → alloc_ok s'.
Proof.
  intros [] Hfl Hch Hnx. apply NoDup_app in du_nodup as (_ & _ & Hd). rewrite Forall_app in du_range. destruct du_range as [Hb Hr].
  rewrite Forall_forall in Hb, Hr. specialize (Hb _ (t_nr_blocks t)). cbn in Hb.
  split; unfold unheld; rewrite ?Hfl, ?Hch, ?app_nil_r; [lia|done|]. intros k Hk%Hr. cbn in Hk. lia.
Qed.

(** What a mount restores: the map with the committed records replayed, the
    counters of the last commit, and a journal that goes on after the last
    committed group. *)
Record remounted (sb : Superblock) (frames : list JournalFrame) (m : amap) (n : Z) fs : Prop := {
  mt_models : bt_models (tree fs) m n;
  mt_counters : counters_of fs = last_counters sb frames;
  mt_journal : journal fs = true ∧ next_journal_seq fs = sb_journal_seq sb + 1 + Z.of_nat (committed frames) ∧
    last_checkpoint_seq fs = sb_journal_seq sb;
  mt_log : log (tree fs) = [] ∧ logging (tree fs) = true;
  mt_ring : ring_state (device (store (tree fs))) (sb_journal_seq sb + 1) frames;
}.

Lemma read_superblock_image (s s0 : BlockStore D) sb h t cs frames :
  durable s sb h t cs frames → device s0 = device s → read_superblock s0 = (Ok (sb_stamp_checksum sb), s0).
Proof using All.
  intros [(Hw & Hm & Hv) Hsb _ _ _ _ _ _ _ _ _] Hd. unfold read_superblock, device_read, mbind, M_bind, lift.
  rewrite Hd, Hsb. cbn [map_err]. by rewrite parse_stamped.
Qed.

Lemma open_on_ok fuel (s : BlockStore D) p sb h t cs frames m l n :
  durable s sb h t cs frames → (∀ k, m k = row_of <$> content t k) →
  records_of frames = Ok l → Forall (λ r, sortable_wf (lr_sortable_key r)) l → 0 ≤ n →
  sb_next_block_nr sb ≤ last_next_block sb frames →
  last_next_block sb frames + OP_BLOCKS * (Z.of_nat (length l) + n) ≤ 2 ^ 52 →
  sb_next_bset_seq sb + 2 * (Z.of_nat (length l) + n) < 2 ^ 64 - 1 → (length cs < fuel)%nat →
  ∃ fs, open_on fuel (with_device (device s) p) = Ok fs ∧ remounted sb frames (a_replays l m) n fs ∧
    (∀ nr b, FIRST_DATA_BLOCK_NR ≤ nr < sb_next_block_nr sb → nr ∉ blocks t ++ listed cs →
      read_at BLOCK_SIZE (block_offset nr) (device s) = Ok b → stored (tree fs) nr b).
Proof using All.
  intros Hdu Hm Hrec Hops Hn Hnx Hroom Hseq Hf. unfold open_on, exec. set (s0 := with_device (device s) p).
  rewrite (read_superblock_image s s0 _ _ _ _ _ Hdu eq_refl). mred. cbn [fst snd].
  pose proof (du_ring _ _ _ _ _ _ Hdu) as Hring. destruct (scan_ring _ _ _ Hring) as [Es En].
  assert (u64 (sb_journal_seq sb + 1) = sb_journal_seq sb + 1) as Eu.
  { apply wrap_small. destruct (rs_start _ _ _ Hring). unfold in_width.
    assert (0 < JOURNAL_CAPACITY) by done. lia. }
  change (sb_journal_seq (sb_stamp_checksum sb)) with (sb_journal_seq sb). rewrite Eu.
  change (device s0) with (device s). rewrite Es. mred. rewrite En. mred.
  change (match last (groups_of frames) with
    | Some g => jf_next_block_nr (cg_end g) | None => sb_next_block_nr (sb_stamp_checksum sb) end) with (last_next_block sb frames).
  set (fin := last_next_block sb frames) in *.
  change (sb_free_head (sb_stamp_checksum sb)) with (sb_free_head sb).
  destruct (mount_store_ok fuel (device s) p fin (sb_free_head sb) cs (du_chain _ _ _ _ _ _ Hdu) Hf)
    as (s1 & E1 & Hfl & Hnb & Hlc & Hnc & Hdev & Hco).
  fold s0 in E1. rewrite E1. mred.
  change (sb_root_block (sb_stamp_checksum sb)) with (sb_root_block sb).
  change (sb_next_bset_seq (sb_stamp_checksum sb)) with (sb_next_bset_seq sb).
  set (bt := reopen s1 (sb_root_block sb) (sb_next_bset_seq sb)).
  assert (0 ≤ sb_next_bset_seq sb) as Hq0 by (destruct (du_wf _ _ _ _ _ _ Hdu) as [Hw _]; apply (swf_nseq _ Hw)).
  assert (bt_models bt m (Z.of_nat (length l) + n)) as Hbt.
  { split; cbn [bt reopen store next_bset_seq root_block].
    - exists h, t. split; [|done]. eapply mount_tree_ok; [exact Hdu|done|done|done|done|by rewrite Hnb].
    - split; [|lia|lia]. split; [|unfold OP_BLOCKS in *; lia].
      eapply mount_alloc_ok; [exact Hdu|done|done|]. unfold OP_BLOCKS in *. lia. }
  destruct (replays_ok l bt m n Hbt Hn Hops) as (bt' & E2 & Hbt' & Hlog). pose proof Hlog as [Hl1 Hl2 Hfz _].
  rewrite (replay_groups_ok _ _ _ _ Hrec E2). mred.
  match goal with |- context [match ?c with (a, b) => _ end] => change c with (last_counters sb frames) end.
  destruct (last_counters sb frames) as [[[ino snap] subvol] cur] eqn:Ec. eexists. split; [done|]. split.
  2: { cbn [tree]. intros nr b Hrg Hap Hrd. apply (kept_shelters _ _ _ _ Hbt (same_log_kept _ _ Hlog)). apply not_elem_of_app in Hap as [Hnb' Hnl].
       split; [|split]; cbn [bt reopen store root_block].
       - split; [lia|]. unfold unheld. by rewrite Hfl, Hlc, app_nil_r.
       - split; [by rewrite Hdev|]. destruct (data_cache s1 !! nr) as [c|] eqn:Ecache; [|by left]. right. apply Hco in Ecache. congruence.
       - rewrite (node_at_tree s1 (sb_next_bset_seq sb) _ h t); [done|].
         eapply mount_tree_ok; [exact Hdu|done|done|done|done|by rewrite Hnb]. }
  split; cbn [tree next_ino next_snap_id next_subvol_id current_subvol journal next_journal_seq last_checkpoint_seq].
  - done.
  - done.
  - done.
  - done.
  - eapply ring_frozen; [exact Hfz|]. cbn [bt reopen store]. by rewrite Hdev.
Qed.
End mount.
