(* ===== verification/Reclaim.v ===== *)
(** * Reclaim: the deferred work of a commit, when no file has data (src/fs.rs).

    A commit first reclaims inodes whose last name is gone. Without extents there
    are no blocks to give back, and reclaiming an inode deletes its work item:
    one write, hence one journal record, for each unit of the budget. *)
From Stdlib Require Import Strings.Byte.
From stdpp Require Import base list numbers gmap sorting.
From S2P Require Import Prelude Device BlockBtree NodeRep Storage Journal StoreSpec Heap Btree TreeRead TreeWrite BtreeSpec ScanSpec FsTypes Fs FsSpec FsOps Snapshot FuseSpec.
#[local] Open Scope rfs_scope.
#[local] Open Scope Z_scope.

(** ** Maps without extents *)
Definition no_extents (m : amap) : Prop := ∀ k s, kind_of k = Some KIND_EXTENT → m (versioned k s) = None.

Lemma no_extents_run ops m : Forall no_extent ops → no_extents m → no_extents (a_run ops m).
Proof. intros Hops Hm k s Hk. rewrite no_extent_row by done. by apply Hm. Qed.

(** The write that retires a work item. *)
Definition orphan_op (o : wop) : Prop := ∃ ino snap, o = WDel (deleted_inode_key ino snap) ROOT_SNAP [ROOT_SNAP].

Lemma orphan_op_local s o : orphan_op o → local_op s o.
Proof. intros (ino & snap & ->). by right. Qed.
Lemma orphan_op_plain o : orphan_op o → no_extent o.
Proof. by intros (ino & snap & ->). Qed.
Lemma root_chain_ok : chain_ok [ROOT_SNAP].
Proof. split; repeat constructor; done. Qed.
Lemma orphan_op_good ino snap : wop_good (WDel (deleted_inode_key ino snap) ROOT_SNAP [ROOT_SNAP]).
Proof.
  split; [split; [|apply root_chain_ok]|]; cbn [wop_typed].
  - cbn [deleted_inode_key length]. rewrite length_app, !length_to_be. consts. lia.
  - unfold row_typed. cbn [versioned deleted_inode_key app length].
    change (layout (b2z (z2b KIND_DELETED_INODES))) with (Some (13, 13, 16)%nat). cbn beta iota.
    rewrite !length_app, !length_to_be. split; [lia|done].
Qed.

Section reclaim.
Context {D : Type} `{!BlockDevice D} `{!BlockDeviceLaws D} `{!BlockDeviceTotal D} `{!Crc32} `{!Crc32Range}.
Implicit Types fs : Fs D.
Abbreviation reads := (reads (D := D)).

(** *** The list of work items *)
Definition parse_orphan '((key, value) : list byte * list byte) : res (Z * Z * Z) :=
  '(ino, snap) ← deleted_inode_from_key key;
  progress ← deleted_from_bytes value;
  Ok (ino, snap, o_next_offset progress).
Definition orphan_ok '((_, snap, _) : Z * Z * Z) : Prop := in_width 32 snap.

Lemma parse_orphan_ok m k v s :
  typed m → m (versioned k s) = Some (v, Live) → kind_of k = Some KIND_DELETED_INODES → length k = 13%nat →
  ∃ x, parse_orphan (k, v) = Ok x ∧ orphan_ok x.
Proof.
  intros Hm Hst Hk Hl. destruct k as [|b k]; [done|]. injection Hk as Eb.
  assert (length v = 16%nat) as Hlv.
  { eapply (typed_size m _ v b); [done|exact Hst|done|]. rewrite Eb. done. }
  unfold parse_orphan, deleted_inode_from_key.
  assert (b = z2b KIND_DELETED_INODES) as -> by (rewrite <- Eb; by rewrite z2b_b2z).
  rewrite checked_tail_ok by (cbn in Hl; congruence || done). mred.
  unfold deleted_from_bytes. rewrite (sized_Ok _ _ Hlv). mred. eexists. split; [done|].
  pose proof (from_be_range (drop 8 k)) as Hr. cbn [length] in Hl. rewrite length_drop in Hr.
  replace (length k - 8)%nat with 4%nat in Hr by lia. exact Hr.
Qed.

Lemma list_orphans_total m cur : typed m → reads_some m cur (list_deleted_inodes (D := D)) (Forall orphan_ok).
Proof using All.
  intros Hm. unfold list_deleted_inodes. rewrite (surjective_pairing deleted_inode_range).
  eapply (reads_some_bind _ _ _ _ (Forall (λ kv, ∃ x, parse_orphan kv = Ok x ∧ orphan_ok x))).
  - apply reads_some_on_tree. intros bt n Hbt.
    destruct (visible_scan_ok bt m n deleted_inode_range.1 deleted_inode_range.2 [ROOT_SNAP] Hbt)
      as (bt' & out & _ & E & Hbt' & Hlog & [_ Hx]).
    + cbn. consts. lia.
    + cbn. consts. lia.
    + apply root_chain_ok.
    + apply (uniform_nothing_between _ _ _ 13). intros k s Hs H1 H2. by apply (orphan_range_keys m k s).
    + apply long_whole_keys. intros k s Hs H1 H2. destruct (orphan_range_keys m k s Hm H1 H2) as [_ ->]. cbn. lia.
    + eexists bt', _. split; [exact E|]. split; [done|]. split; [done|]. apply Forall_fmap, Forall_forall. intros [[k s] v] Hin. cbn.
      apply Hx in Hin as [Hvis Hsc]. pose proof (a_visible_Some _ _ _ _ _ Hvis) as [Hst _].
      destruct (orphan_range_keys m k s Hm ltac:(by eexists) Hsc) as [Hk Hl]. by eapply parse_orphan_ok.
  - intros rows Hrows. destruct (mapM_ok parse_orphan rows) as (os & E & Hos).
    { intros x Hx. rewrite Forall_forall in Hrows. destruct (Hrows x Hx) as (y & ? & _); eauto. }
    eapply reads_some_weaken; [apply reads_lift; exact E|]. apply Forall_forall. intros x Hx.
    apply list_elem_of_lookup in Hx as [i Hi]. destruct (Forall2_lookup_r _ _ _ _ _ Hos Hi) as (kv & Hkv & E2).
    rewrite Forall_forall in Hrows. destruct (Hrows kv) as (y & E3 & Hy); [by eapply list_elem_of_lookup_2|]. congruence.
Qed.

(** *** The extents of an inode *)
Lemma no_extents_scan m cur ino off chain :
  no_extents m → typed m → chain_ok chain →
  reads m cur (on_tree (range_scan_visible_with_snap (extent_key ino off) (extent_range ino).2 chain)) [].
Proof using All.
  intros Hno Hm Hc. apply reads_on_tree. intros bt n Hbt.
  assert (∀ k s, is_Some (m (versioned k s)) →
    scanned (versioned (extent_key ino off) 0) (versioned (extent_range ino).2 0) (versioned k s) → False) as Hnone.
  { intros k s [r Hr] Hsc. destruct k as [|b k].
    { specialize (Hm _ _ Hr). unfold row_typed in Hm. cbn [versioned app] in Hm. destruct (to_be 4 s) as [|c z] eqn:E; [done|].
      cbn [versioned app] in Hsc. rewrite E in Hsc. apply range_kind in Hsc as ->.
      change (layout (b2z (z2b KIND_EXTENT))) with (Some (17, 17, 16)%nat) in Hm. cbn beta iota in Hm.
      apply (f_equal length) in E. rewrite length_to_be in E. cbn in E, Hm. lia. }
    apply range_kind in Hsc as ->. by rewrite Hno in Hr. }
  destruct (visible_scan_ok bt m n (extent_key ino off) (extent_range ino).2 chain Hbt) as (bt' & out & E & _ & Hbt' & Hlog & [_ Hx]).
  - unfold extent_key. cbn [length]. rewrite length_app, !length_to_be. consts. lia.
  - unfold extent_range, extent_key. cbn [snd length]. rewrite length_app, !length_to_be. consts. lia.
  - done.
  - apply (uniform_nothing_between _ _ _ 0). intros k s _ H1 H2. by destruct (Hnone k s).
  - intros k s s' _ _ H1 H2. by destruct (Hnone k s).
  - assert (out = []) as ->.
    { destruct out as [|[[k s] v] out]; [done|]. destruct (proj1 (Hx k s v) ltac:(by left)) as [Hvis Hsc].
      pose proof (a_visible_Some _ _ _ _ _ Hvis) as [Hst _]. destruct (Hnone k s); [by eexists|done]. }
    by exists bt'.
Qed.

(** *** Reclaiming *)
Definition reclaims (b : Z) fs (m : amap) (n : Z) (ops : list wop) fs' : Prop :=
  fs_models fs' (a_run ops m) n ∧ fs' = set_tree (tree fs') fs ∧ wrote fs m ops fs' ∧ Forall orphan_op ops ∧ Z.of_nat (length ops) ≤ b.

Lemma reclaims_nil b fs m n : 0 ≤ b → 0 ≤ n → fs_models fs m (b + n) → reclaims b fs m n [] fs.
Proof.
  intros Hb Hn Hfs. split; [eapply fs_models_weaken; [|exact Hfs]; lia|]. split; [by destruct fs|].
  split; [apply wrote_nil, fs_quiet_refl|]. split; [done|exact Hb].
Qed.
Lemma reclaims_quiet b fs fs1 m n ops fs' : fs_quiet fs fs1 → reclaims b fs1 m n ops fs' → reclaims b fs m n ops fs'.
Proof.
  intros Hq (H1 & T & W & H2). split; [done|]. split; [rewrite T at 1; by rewrite (fq_tree _ _ Hq)|]. split; [by eapply wrote_quiet|done].
Qed.

Lemma reclaim_orphans_ok os b i fs m n :
  Forall orphan_ok os → 0 ≤ b → 0 ≤ n → fs_models fs m (b + n) → no_extents m →
  ∃ k ops fs', reclaim_orphans os b i fs = (Ok k, fs') ∧ reclaims b fs m n ops fs' ∧ (os = [] → ops = []).
Proof using All.
  intros Hos. revert b i fs m. induction Hos as [|[[ino snap] off] os Ho _ IH]; intros b i fs m Hb Hn Hfs Hno.
  { exists i, [], fs. split; [done|]. split; [by apply reclaims_nil|done]. }
  cut (∃ k ops fs', reclaim_orphans ((ino, snap, off) :: os) b i fs = (Ok k, fs') ∧ reclaims b fs m n ops fs').
  { intros (k & ops & fs' & E & Hr). exists k, ops, fs'. by split_and!. }
  cbn [reclaim_orphans]. destruct (Z.eqb_spec b 0) as [->|Hb0]; [exists i, [], fs; split; [done|by apply reclaims_nil]|].
  pose proof (fm_typed _ _ _ Hfs) as Hm.
  assert (∀ fs1, fs_models fs1 m (b + n) → fs_quiet fs fs1 → ∃ k ops fs',
    (_ ← delete_deleted_inode ino snap; reclaim_orphans os (b - 1) (i + 1)) fs1 = (Ok k, fs') ∧ reclaims b fs m n ops fs') as Hnext.
  { intros fs1 Hfs1 Hq. destruct (orphan_op_good ino snap) as [Hok Hty].
    set (o := WDel (deleted_inode_key ino snap) ROOT_SNAP [ROOT_SNAP]) in *.
    destruct (performs_delete m (current_subvol fs1) _ _ _ Hok Hty fs1 (b - 1 + n)) as (fs2 & E2 & Hfs2 & T2 & W2);
      [cbn [length]; by replace (Z.of_nat 1 + (b - 1 + n)) with (b + n) by lia|lia|done|].
    destruct (IH (b - 1) (i + 1) fs2 (a_run [o] m)) as (k & ops & fs' & E & (Hfs' & T & W & Hops & Hl) & _); [lia|done|exact Hfs2| |].
    { apply no_extents_run; [|done]. apply Forall_singleton, orphan_op_plain. by eexists _, _. }
    exists k, (o :: ops), fs'. unfold delete_deleted_inode. rewrite (M_bind_ok _ _ _ _ _ E2). split; [exact E|].
    eapply reclaims_quiet; [exact Hq|]. split; [exact Hfs'|]. split; [rewrite T at 1; by rewrite T2|].
    split; [exact (wrote_app _ _ _ _ [o] _ W2 W)|]. split; [constructor; [by eexists _, _|done]|cbn [length]; lia]. }
  destruct (get_snapshot_reads m _ snap Hm fs _ Hfs eq_refl) as (fs1 & E1 & Hfs1 & Hq1). rewrite (M_bind_ok _ _ _ _ _ E1).
  destruct (a_snapshot m snap) as [meta|]; [|by apply Hnext]. destruct (chain_exists m snap Ho) as [l Hl].
  destruct (ancestor_chain_reads m _ snap l Hm Hl Ho fs1 _ Hfs1 eq_refl) as (fs2 & E2 & Hfs2 & Hq2). rewrite (M_bind_ok _ _ _ _ _ E2).
  destruct (chain_from_ok _ _ _ Hl Ho) as (Hc & _). cbn zeta.
  destruct (no_extents_scan m (current_subvol fs2) ino off l Hno Hm Hc fs2 _ Hfs2 eq_refl) as (fs3 & E3 & Hfs3 & Hq3).
  rewrite (M_bind_ok _ _ _ _ _ E3). cbn [reclaim_extents]. rewrite (M_bind_ok (mret (true, off, b, i)) _ fs3 _ fs3 eq_refl). cbn beta iota.
  rewrite (proj2 (Z.eqb_neq _ _) Hb0). apply Hnext; [done|]. eapply fs_quiet_trans; [|exact Hq3]. by eapply fs_quiet_trans.
Qed.

(** What is left of the blocks is read by the scans, so there are either no extents
    or no work items; with no work items, nothing is written. *)
Definition reclaimable (m : amap) : Prop := no_extents m ∨ no_orphans m.
Lemma reclaim_deleted_ok b fs m n :
  0 ≤ b → 0 ≤ n → fs_models fs m (b + n) → no_extents m →
  ∃ k ops fs', reclaim_deleted_inodes b fs = (Ok k, fs') ∧ reclaims b fs m n ops fs' ∧ (no_orphans m → ops = []).
Proof using All.
  intros Hb Hn Hfs Hno. unfold reclaim_deleted_inodes.
  destruct (list_orphans_total m _ (fm_typed _ _ _ Hfs) fs _ Hfs eq_refl) as (os & fs1 & E1 & Hos & Hfs1 & Hq1).
  destruct (reclaim_orphans_ok os b 0 fs1 m n Hos Hb Hn Hfs1 Hno) as (k & ops & fs' & E & Hr & Hidle).
  exists k, ops, fs'. rewrite (M_bind_ok _ _ _ _ _ E1). split; [done|]. split; [by eapply reclaims_quiet|].
  intros Horph. apply Hidle. destruct (list_orphans_reads m _ (fm_typed _ _ _ Hfs) Horph fs _ Hfs eq_refl) as (fs2 & E2 & _).
  rewrite E1 in E2. by injection E2.
Qed.
Lemma reclaimable_ok b fs m n :
  0 ≤ b → 0 ≤ n → fs_models fs m (b + n) → reclaimable m →
  ∃ k ops fs', reclaim_deleted_inodes b fs = (Ok k, fs') ∧ reclaims b fs m n ops fs' ∧ (no_orphans m → ops = []).
Proof using All.
  intros Hb Hn Hfs [Hno|Hno]; [by apply reclaim_deleted_ok|].
  destruct (list_orphans_reads m _ (fm_typed _ _ _ Hfs) Hno fs _ Hfs eq_refl) as (fs1 & E1 & Hfs1 & Hq1).
  exists 0, [], fs1. unfold reclaim_deleted_inodes. rewrite (M_bind_ok _ _ _ _ _ E1). split; [done|]. split; [|done].
  eapply reclaims_quiet; [exact Hq1|by apply reclaims_nil].
Qed.
End reclaim.
