(* ===== verification/SnapDelete.v ===== *)
(** * SnapDelete: deleting a snapshot (src/fs.rs, delete_snapshot).

    The method refuses a target that is missing, writable, active or in use by
    another snapshot or subvolume. Otherwise the records of the subvolume and of
    its snapshot go, with every row at that snapshot, and a sweep removes the
    snapshots that nothing refers to any more. On the map both are one relation,
    [removed]; what the other subvolumes see is not touched by it, because no id
    it removes is on one of their chains. *)
From Stdlib Require Import Strings.Byte.
From stdpp Require Import base list numbers gmap sorting.
From S2P Require Import Prelude Device BlockBtree NodeRep Storage Journal StoreSpec Heap Btree TreeRead TreeWrite BtreeSpec Compact ScanSpec FsTypes Fs FsSpec FsOps Snapshot FuseSpec Reclaim.
#[local] Open Scope rfs_scope.
#[local] Open Scope Z_scope.

(** ** Listing the records of a kind *)
(** [l] lists the ids [f] is defined on, each once. *)
Record listed {T} (f : Z → option T) (l : list (Z * T)) : Prop := {
  ls_ids : NoDup l.*1;
  ls_elem id x : (id, x) ∈ l ↔ in_width 32 id ∧ f id = Some x;
}.

Lemma kind_range_keys m kind size k s :
  typed m → in_width 8 kind → in_width 8 (kind + 1) → layout kind = Some (5, 5, size)%nat → is_Some (m (versioned k s)) →
  scanned (versioned (z2b kind :: to_be 4 0) 0) (versioned [z2b (kind + 1)] 0) (versioned k s) →
  ∃ t, k = z2b kind :: t ∧ length t = 4%nat.
Proof.
  intros Hm Hk1 Hk2 Hlay [r Hr] Hsc. pose proof (Hm _ _ Hr) as Ht. destruct k as [|c t].
  { unfold row_typed, versioned in Ht. cbn [app] in Ht. pose proof (length_to_be 4 s) as Hl.
    destruct (to_be 4 s) as [|c z]; [done|]. cbn [length] in *. destruct (layout (b2z c)) as [[[lo hi] sz]|] eqn:E; [|done].
    assert (5 ≤ lo)%nat; [|lia]. revert E. unfold layout. repeat destruct (_ =? _); intros; simplify_eq; lia. }
  assert (b2z c = kind) as Ec.
  { pose proof (scanned_head _ _ _ _ _ _ Hsc) as [Hge _]. destruct Hsc as [_ Hlt].
    apply (proj1 (cmp_bound (c :: t) s [z2b (kind + 1)] ltac:(cbn; lia))) in Hlt. cbn [length take bytes_cmp] in Hlt.
    rewrite b2z_z2b in Hge, Hlt. unfold u8 in *. rewrite wrap_small in Hge, Hlt by done.
    destruct (Z.compare_spec (b2z c) (kind + 1)); try done; lia. }
  unfold row_typed in Ht. cbn [versioned app] in Ht. rewrite Ec, Hlay in Ht. cbn [length] in Ht. rewrite length_app, length_to_be in Ht.
  exists t. rewrite <- Ec, z2b_b2z. split; [done|lia].
Qed.

Lemma a_visible_root m k v s : a_visible m k [ROOT_SNAP] = Some (v, s) ↔ s = ROOT_SNAP ∧ a_find m (versioned k ROOT_SNAP) = Some v.
Proof.
  unfold a_find. cbn [a_visible]. destruct (m (versioned k ROOT_SNAP)) as [[v' []]|]; split; (intros [= <- <-] || intros [-> [= <-]] || intros [? ?] || idtac); done.
Qed.

Section listing.
Context {D : Type} `{!BlockDevice D} `{!BlockDeviceLaws D} `{!BlockDeviceTotal D} `{!Crc32} `{!Crc32Range}.
Implicit Types fs : Fs D.
Context {T : Type} (kind : Z) (size : nat) (parse : list byte → res T) (id_of : list byte → res Z).
Context (Hk1 : in_width 8 kind) (Hk2 : in_width 8 (kind + 1)) (Hlay : layout kind = Some (5, 5, size)%nat).
Context (Hparse : ∀ b, length b = size → is_Some (decoded parse (Some b))).
Context (Hid : ∀ t, length t = 4%nat → id_of (z2b kind :: t) = Ok (from_be t)).

Abbreviation key := (λ id, z2b kind :: to_be 4 id).
Abbreviation stored_at := (λ m id, decoded parse (a_find m (versioned (key id) ROOT_SNAP))).

Lemma kind_rows m out :
  typed m → visible_list m [ROOT_SNAP] (key 0) [z2b (kind + 1)] out →
  ∃ l, mapM (λ '(k, v), id ← id_of k; x ← parse v; Ok (id, x)) ((λ '(k, _, v), (k, v)) <$> out) = Ok l ∧ listed (stored_at m) l.
Proof using All.
  intros Hm [Hsort Hx].
  assert (∀ k s v, (k, s, v) ∈ out → ∃ id x, in_width 32 id ∧ s = ROOT_SNAP ∧ k = key id ∧ id_of k = Ok id ∧ parse v = Ok x ∧ stored_at m id = Some x) as Hrow.
  { intros k s v [[-> Hf]%a_visible_root Hsc]%Hx. pose proof (a_find_Some _ _ _ Hf) as Hst.
    destruct (kind_range_keys m kind size k ROOT_SNAP Hm Hk1 Hk2 Hlay) as (t & -> & Ht); [by eexists|done|].
    assert (length v = size) as Hl.
    { eapply (typed_size m _ v (z2b kind)); [done|exact Hst|done|]. rewrite b2z_z2b. unfold u8. rewrite wrap_small by done. exact Hlay. }
    destruct (Hparse v Hl) as [x Ex]. exists (from_be t), x. rewrite (to_from_be_len 4 t Ht).
    split_and!; [rewrite <- (to_from_be_len 4 t Ht); pose proof (from_be_range t) as Hr; rewrite Ht in Hr; by rewrite from_to_be_small|done|done|by apply Hid| |by rewrite Hf].
    cbn in Ex. by destruct (parse v); simplify_eq. }
  destruct (mapM_ok (λ '(k, v), id ← id_of k; x ← parse v; Ok (id, x)) ((λ '(k, _, v), (k, v)) <$> out)) as (l & E & Hl).
  { intros [k v] ([[k' s] v'] & [= -> ->] & Hin)%list_elem_of_fmap. destruct (Hrow _ _ _ Hin) as (id & x & _ & _ & _ & E1 & E2 & _).
    exists (id, x). rewrite E1. mred. by rewrite E2. }
  exists l. split; [exact E|]. apply Forall2_fmap_l in Hl.
  assert (Forall2 (λ '(k, s, v) '(id, x), in_width 32 id ∧ s = ROOT_SNAP ∧ k = key id ∧ stored_at m id = Some x) out l) as Hol.
  { apply Forall2_same_length_lookup. split; [by eapply Forall2_length|]. intros i [[k s] v] [id x] Hi Hj.
    pose proof (Forall2_lookup_lr _ _ _ _ _ _ Hl Hi Hj) as E1. apply list_elem_of_lookup_2 in Hi. destruct (Hrow _ _ _ Hi) as (id' & x' & H1 & -> & -> & E2 & E3 & E4).
    unfold compose in E1. rewrite E2 in E1. cbn in E1. rewrite E3 in E1. cbn in E1. by simplify_eq. }
  split.
  - assert (visible_key <$> out = (λ id, versioned (key id) ROOT_SNAP) <$> l.*1) as Ek.
    { clear -Hol. induction Hol as [|[[k s] v] [id x] out l (_ & -> & -> & _) _ IH]; [done|]. cbn. by rewrite IH. }
    eapply NoDup_fmap_1. rewrite <- Ek. clear -Hsort. induction Hsort as [|k ks _ IH Hk]; constructor; [|done].
    intros Hin. rewrite Forall_forall in Hk. by apply (bytes_lt_irrefl k), Hk.
  - intros id x. split.
    + intros [i Hi]%list_elem_of_lookup. destruct (Forall2_lookup_r _ _ _ _ _ Hol Hi) as ([[k s] v] & _ & ? & _ & _ & ?). done.
    + intros [Hw Hf]. pose proof Hf as (v & Hv & Ev)%decoded_Some.
      assert ((key id, ROOT_SNAP, v) ∈ out) as Hin.
      { apply Hx. split; [by apply a_visible_root|]. split.
        - unfold bytes_lt, versioned. cbn [app bytes_cmp]. rewrite Z.compare_refl. change (to_be 4 0 ++ to_be 4 0) with (replicate 8 Byte.x00).
          apply bytes_cmp_zeros. rewrite length_app, !length_to_be. lia.
        - unfold bytes_lt. apply cmp_bound; [cbn; lia|]. cbn [length take bytes_cmp]. rewrite !b2z_z2b. unfold u8. rewrite !wrap_small by done.
          by rewrite (proj2 (Z.compare_lt_iff _ _)) by lia. }
      apply list_elem_of_lookup in Hin as [i Hi]. destruct (Forall2_lookup_l _ _ _ _ _ Hol Hi) as ([id' x'] & Hi' & Hw' & _ & Ek & Hf').
      assert (id' = id) as ->.
      { assert (to_be 4 id = to_be 4 id') as Et by exact (f_equal (drop 1) Ek). apply (f_equal from_be) in Et. rewrite !from_to_be_small in Et by done. done. }
      assert (x' = x) as -> by congruence. by eapply list_elem_of_lookup_2.
Qed.

Lemma kind_list_reads m cur :
  typed m → reads_some (D := D) m cur
    (rows ← on_tree (range_scan_visible (key 0) [z2b (kind + 1)] [ROOT_SNAP]);
     lift (mapM (λ '(k, v), id ← id_of k; x ← parse v; Ok (id, x)) rows)) (listed (stored_at m)).
Proof using All.
  intros Hm. eapply (reads_some_bind _ _ _ _ (λ rows, ∃ out, rows = (λ '(k, _, v), (k, v)) <$> out ∧ visible_list m [ROOT_SNAP] (key 0) [z2b (kind + 1)] out)).
  - apply reads_some_on_tree. intros bt n Hbt.
    destruct (visible_scan_ok bt m n (key 0) [z2b (kind + 1)] [ROOT_SNAP] Hbt) as (bt' & out & _ & E & Hbt' & Hlog & Hvl).
    + cbn. consts. lia.
    + cbn. consts. lia.
    + apply root_chain_ok.
    + apply (uniform_nothing_between _ _ _ 5). intros k s Hs H1 H2.
      destruct (kind_range_keys m kind size k s Hm Hk1 Hk2 Hlay H2 H1) as (t & -> & Ht). cbn. lia.
    + apply long_whole_keys. intros k s Hs H1 H2. destruct (kind_range_keys m kind size k s Hm Hk1 Hk2 Hlay H1 H2) as (t & -> & Ht). cbn. lia.
    + eexists bt', _. split; [exact E|]. split; [done|]. split; [done|]. by exists out.
  - intros rows (out & -> & Hvl). destruct (kind_rows m out Hm Hvl) as (l & E & Hl).
    eapply reads_some_weaken; [apply reads_lift; exact E|exact Hl].
Qed.
End listing.

(** ** Code that hands out no run number *)
Section keeps.
Context {S E : Type} (p : S → Z).
Definition keeps {A} (c : M S E A) : Prop := ∀ s, p (c s).2 = p s.

Lemma keeps_ret {A} (a : A) : keeps (mret a).
Proof. done. Qed.
Lemma keeps_lift {A} (a : outcome E A) : keeps (lift a).
Proof. done. Qed.
Lemma keeps_gets {A} (f : S → A) : keeps (gets f).
Proof. done. Qed.
Lemma keeps_bind {A B} (c : M S E A) (k : A → M S E B) : keeps c → (∀ a, keeps (k a)) → keeps (c ≫= k).
Proof.
  intros Hc Hk s. specialize (Hc s). unfold mbind, M_bind. destruct (c s) as [[a|e| |] s1]; cbn [snd] in *; [|done..].
  by rewrite (Hk a s1).
Qed.
Lemma keeps_loop {A B} (body : A → M S E (A + B)) n a : (∀ a, keeps (body a)) → keeps (whileM n body a).
Proof.
  intros Hb. unfold whileM. apply keeps_bind; [|by intros []].
  revert a. induction n as [|n IH]; intros a; cbn [loopM]; [done|]. apply keeps_bind; [done|]. intros [a'|b]; [done|apply keeps_ret].
Qed.
Lemma keeps_each {A} (l : list A) (f : A → M S E unit) : (∀ x, keeps (f x)) → keeps (forM_ l f).
Proof. intros Hf. induction l as [|x l IH]; cbn [forM_]; [apply keeps_ret|by apply keeps_bind]. Qed.
Lemma keeps_eq {A} (c : M S E A) s r s' : keeps c → c s = (r, s') → p s' = p s.
Proof. intros Hc E'. specialize (Hc s). by rewrite E' in Hc. Qed.
End keeps.

Lemma keeps_modify {S E} (p : S → Z) (f : S → S) : (∀ s, p (f s) = p s) → keeps (E := E) p (modify f).
Proof. intros Hf s. apply Hf. Qed.
Lemma keeps_zoom {S T E A} (p : T → Z) (q : S → Z) (get : T → S) (set : S → T → T) (c : M S E A) :
  (∀ t, q (get t) = p t) → (∀ s t, p (set s t) = q s) → keeps q c → keeps p (zoom get set c).
Proof.
  intros Hg Hs Hc t. specialize (Hc (get t)). unfold zoom. destruct (c (get t)) as [r s']. cbn [snd] in *. by rewrite Hs, Hc.
Qed.
Lemma keeps_zoom_off {S T E A} (p : T → Z) (get : T → S) (set : S → T → T) (c : M S E A) :
  (∀ s t, p (set s t) = p t) → keeps p (zoom get set c).
Proof. intros Hs t. unfold zoom. destruct (c (get t)) as [r s']. apply Hs. Qed.
Lemma keeps_mapping {S E F A} (p : S → Z) (f : E → F) (c : M S E A) : keeps p c → keeps p (mapping_err f c).
Proof. intros Hc s. specialize (Hc s). unfold mapping_err. by destruct (c s). Qed.

(** A result that code can return. *)
Definition returns {S E A} (P : A → Prop) (c : M S E A) : Prop := ∀ s a s', c s = (Ok a, s') → P a.
Lemma returns_bind {S E A B} (P : B → Prop) (c : M S E A) (k : A → M S E B) : (∀ a, returns P (k a)) → returns P (c ≫= k).
Proof. intros Hk s b s'. unfold mbind, M_bind. destruct (c s) as [[a|e| |] s1]; try done. apply Hk. Qed.

Lemma first_on_chain_in k C rows v s : first_on_chain k C rows = Some (v, s) → s ∈ C.
Proof.
  induction rows as [|[[[k' s'] kind] v'] rows IH]; cbn [first_on_chain]; [done|].
  destruct (negb _ || negb _) eqn:E; [done|]. apply orb_false_iff in E as [_ Hin%negb_false_iff%bool_decide_eq_true].
  destruct kind; [|done|done]. by intros [= _ <-].
Qed.

Section seq.
Context {D : Type} `{!BlockDevice D} `{!BlockDeviceLaws D} `{!BlockDeviceTotal D} `{!Crc32} `{!Crc32Range}.
Implicit Types fs : Fs D.
Definition fs_seq fs : Z := next_bset_seq (tree fs).
Definition tx_seq (tx : Tx D) : Z := next_bset_seq (tx_btree tx).

Lemma on_tree_keeps {A} (c : M (Btree D) error A) : keeps next_bset_seq c → keeps fs_seq (on_tree c).
Proof using Type. by apply keeps_zoom. Qed.
Lemma in_store_keeps {A} (c : M (BlockStore D) error A) : keeps next_bset_seq (in_store c).
Proof using Type. by apply keeps_zoom_off. Qed.
Lemma in_tx_keeps {A} (c : M (Btree D) error A) : keeps next_bset_seq c → keeps tx_seq (in_tx c).
Proof using Type. by apply keeps_zoom. Qed.
Lemma parsed_keeps {T} (parse : list byte → res T) b : keeps fs_seq (parsed parse b).
Proof using Type. destruct b; cbn [parsed]; [|apply keeps_ret]. apply keeps_bind; [apply keeps_lift|intros; apply keeps_ret]. Qed.

Lemma find_at_keeps k s : keeps next_bset_seq (find_at (D := D) k s).
Proof using Type. unfold find_at. repeat (apply keeps_bind; [done|intros ?]). apply in_store_keeps. Qed.
Lemma scan_keeps a b chain : keeps next_bset_seq (range_scan_visible (D := D) a b chain).
Proof using Type.
  unfold range_scan_visible. apply keeps_bind; [|intros; apply keeps_ret]. unfold btree_range_scan_all.
  repeat (apply keeps_bind; [done|intros ?]). apply in_store_keeps.
Qed.
Lemma get_subvol_keeps id : keeps fs_seq (get_subvol (D := D) id).
Proof using Type. apply keeps_bind; [apply on_tree_keeps, find_at_keeps|intros; apply parsed_keeps]. Qed.
Lemma get_snapshot_keeps s : keeps fs_seq (get_snapshot (D := D) s).
Proof using Type. apply keeps_bind; [apply on_tree_keeps, find_at_keeps|intros; apply parsed_keeps]. Qed.
Lemma list_snapshots_keeps : keeps fs_seq (list_snapshots (D := D)).
Proof using Type. apply keeps_bind; [apply on_tree_keeps, scan_keeps|intros; apply keeps_lift]. Qed.
Lemma list_subvols_keeps : keeps fs_seq (list_subvols (D := D)).
Proof using Type. apply keeps_bind; [apply on_tree_keeps, scan_keeps|intros; apply keeps_lift]. Qed.
Lemma is_ancestor_keeps a s : keeps fs_seq (is_ancestor (D := D) a s).
Proof using Type.
  unfold is_ancestor. destruct (a <? s); [apply keeps_ret|]. apply keeps_loop. intros x. unfold is_ancestor_round.
  destruct (x =? a); [apply keeps_ret|]. apply keeps_bind; [apply get_snapshot_keeps|intros; apply keeps_ret].
Qed.
Lemma subvol_in_use_keeps v dead l : keeps fs_seq (subvol_in_use (D := D) v dead l).
Proof using Type.
  induction l as [|[id meta] l IH]; cbn [subvol_in_use]; [apply keeps_ret|]. destruct (id =? v); [done|].
  destruct (v_parent_subvol meta =? v); [apply keeps_ret|]. apply keeps_bind; [apply is_ancestor_keeps|]. by intros [|].
Qed.

(** A deletion at the snapshot of its whole chain flips a row and starts no run. *)
Lemma tx_delete_keeps key s : keeps tx_seq (tx_delete_at (D := D) key s [s]).
Proof using Type.
  unfold tx_delete_at. apply keeps_bind; [done|]. intros root tx.
  assert (returns (λ r, ∀ v s', r = Some (v, s') → s' = s) (in_tx (in_store (find_visible_with_snap (D := D) root key [s])))) as Hret.
  { intros tx0 r tx1. unfold in_tx, in_store, zoom. destruct (find_visible_with_snap root key [s] (store (tx_btree tx0))) as [r0 s0] eqn:E.
    intros [= -> _]. revert E. assert (returns (λ r, ∀ v s', r = Some (v, s') → s' = s) (find_visible_with_snap (D := D) root key [s])) as Hr; [|apply Hr].
    unfold find_visible_with_snap. cbn zeta. do 4 (apply returns_bind; intros ?). intros st r' st' [= <- _] v s' Hf.
    apply first_on_chain_in in Hf. by apply (proj1 (elem_of_list_to_set (C := gset Z) s' [s])), list_elem_of_singleton in Hf. }
  pose proof (in_tx_keeps _ (in_store_keeps (find_visible_with_snap (D := D) root key [s])) tx) as Hk.
  unfold mbind, M_bind at 1. destruct (in_tx (in_store (find_visible_with_snap root key [s])) tx) as [[[[v s']|]|e| |] tx1] eqn:E; cbn [snd] in Hk; [|done..].
  rewrite <- Hk. rewrite (Hret _ _ _ E v s' eq_refl), Z.eqb_refl.
  revert tx1 E Hk. intros tx1 _ _. revert tx1. apply (keeps_bind tx_seq); [|intros; apply keeps_ret].
  apply keeps_bind; [apply keeps_lift|intros k]. apply keeps_bind; [apply in_tx_keeps, in_store_keeps|intros r].
  apply keeps_bind; [by apply keeps_modify|intros _]. apply in_tx_keeps, keeps_modify. intros bt. unfold log_push. by destruct (logging bt).
Qed.

Lemma in_transaction_keeps {A} (f : M (Tx D) error A) : keeps tx_seq f → keeps fs_seq (in_transaction f).
Proof using Type.
  intros Hf. apply on_tree_keeps. intros bt. unfold transaction.
  specialize (Hf {| tx_btree := bt; pending_root := root_block bt |}). destruct (f _) as [[a|e| |] tx]; exact Hf.
Qed.
End seq.

(** ** What is removed from the map *)
(** [m'] is [m] without the records of the snapshots [S] and the subvolumes [V],
    and without the rows of files at the snapshots [R]. *)
Record removed (m : amap) (S V R : list Z) (m' : amap) : Prop := {
  rm_snapshot x : in_width 32 x → a_snapshot m' x = if decide (x ∈ S) then None else a_snapshot m x;
  rm_subvol id : in_width 32 id → a_subvol m' id = if decide (id ∈ V) then None else a_subvol m id;
  rm_rows k s : ¬ meta_key k → in_width 32 s → m' (versioned k s) = if decide (s ∈ R) then None else m (versioned k s);
  rm_none k : m k = None → m' k = None;
}.

Lemma removed_refl m : removed m [] [] [] m.
Proof. split; intros; rewrite ?decide_False by apply not_elem_of_nil; done. Qed.
Lemma decide_app {A} (x : Z) l1 l2 (a b : A) :
  (if decide (x ∈ l2) then a else if decide (x ∈ l1) then a else b) = if decide (x ∈ l1 ++ l2) then a else b.
Proof. repeat case_decide; try done; rewrite elem_of_app in *; tauto. Qed.
Lemma removed_trans m S V R m1 S' V' R' m2 :
  removed m S V R m1 → removed m1 S' V' R' m2 → removed m (S ++ S') (V ++ V') (R ++ R') m2.
Proof.
  intros [A1 A2 A3 A4] [B1 B2 B3 B4]. split.
  - intros x Hx. by rewrite B1, A1, decide_app by done.
  - intros x Hx. by rewrite B2, A2, decide_app by done.
  - intros k s Hk Hs. by rewrite B3, A3, decide_app by done.
  - auto.
Qed.

(** Deleting a record, which is at the root snapshot. *)
Abbreviation wdel := (λ k, WDel k ROOT_SNAP [ROOT_SNAP]).
Lemma del_row k m r : r ≠ versioned k ROOT_SNAP → a_wop (wdel k) m r = m r.
Proof. apply (a_wop_other (wdel k)). Qed.
Lemma del_none k m r : m r = None → a_wop (wdel k) m r = None.
Proof.
  intros Hr. cbn [a_wop]. unfold a_delete. cbn [a_visible].
  destruct (m (versioned k ROOT_SNAP)) as [[v []]|] eqn:E; cbn [snd]; try done. rewrite decide_True by done. cbn [snd]. unfold a_flip.
  case_decide; [|done]. subst r. congruence.
Qed.
Lemma del_find k k' m :
  a_find (a_wop (wdel k) m) (versioned k' ROOT_SNAP) = if decide (k' = k) then None else a_find m (versioned k' ROOT_SNAP).
Proof.
  destruct (decide (k' = k)) as [->|Hne].
  - pose proof (a_delete_seen m k ROOT_SNAP []) as Hs. unfold seen in Hs. cbn [a_wop].
    destruct (a_find (a_delete k ROOT_SNAP [ROOT_SNAP] m).2 (versioned k ROOT_SNAP)) as [v|] eqn:E; [|done].
    assert (a_visible (a_delete k ROOT_SNAP [ROOT_SNAP] m).2 k [ROOT_SNAP] = Some (v, ROOT_SNAP)) as Ev by (by apply a_visible_root).
    by rewrite Ev in Hs.
  - unfold a_find. rewrite del_row; [done|]. by intros [-> _]%versioned_inj.
Qed.

Lemma removed_snapshot m x : in_width 32 x → removed m [x] [] [] (a_wop (wdel (snapshot_key x)) m).
Proof.
  intros Hx. split; intros; rewrite ?(decide_False (P := _ ∈ [])) by apply not_elem_of_nil.
  - unfold a_snapshot. rewrite del_find. destruct (decide (x0 = x)) as [->|Hne]; [by rewrite !decide_True by (done || by left)|].
    by rewrite !decide_False by ((by intros ->%list_elem_of_singleton) || (by intros ?%snapshot_key_inj)).
  - unfold a_subvol. by rewrite del_find, decide_False by done.
  - apply del_row. intros [-> _]%versioned_inj; [|done|done]. apply H, snapshot_key_meta.
  - by apply del_none.
Qed.
Lemma removed_subvol m v : in_width 32 v → removed m [] [v] [] (a_wop (wdel (subvol_key v)) m).
Proof.
  intros Hx. split; intros; rewrite ?(decide_False (P := _ ∈ [])) by apply not_elem_of_nil.
  - unfold a_snapshot. by rewrite del_find, decide_False by done.
  - unfold a_subvol. rewrite del_find. destruct (decide (id = v)) as [->|Hne]; [by rewrite !decide_True by (done || by left)|].
    by rewrite !decide_False by ((by intros ->%list_elem_of_singleton) || (by intros ?%subvol_key_inj)).
  - apply del_row. intros [-> _]%versioned_inj; [|done|done]. apply H, subvol_key_meta.
  - by apply del_none.
Qed.

(** Dropping the rows of a snapshot. *)
Lemma snap_at_versioned k s : in_width 32 s → snap_at (versioned k s) = s.
Proof.
  intros Hs. unfold snap_at, versioned. rewrite length_app, length_to_be. replace (length k + 4 - 4)%nat with (length k) by lia.
  rewrite drop_app_length. by apply from_to_be_small.
Qed.
Lemma prune_row x m k s :
  in_width 32 s → a_prune (in_snap x) m (versioned k s) = if decide (s = x) then None else m (versioned k s).
Proof.
  intros Hs. unfold a_prune, in_snap. rewrite snap_at_versioned by done.
  destruct (m (versioned k s)) as [[v kind]|], (Z.eqb_spec s x); by repeat case_decide.
Qed.
Lemma removed_rows m x : x ≠ ROOT_SNAP → removed m [] [] [x] (a_prune (in_snap x) m).
Proof.
  intros Hx. assert (∀ k, a_find (a_prune (in_snap x) m) (versioned k ROOT_SNAP) = a_find m (versioned k ROOT_SNAP)) as Hf
    by (intros k; unfold a_find; by rewrite prune_row, decide_False by (done || apply root_width)).
  split; intros; rewrite ?(decide_False (P := _ ∈ [])) by apply not_elem_of_nil.
  - unfold a_snapshot. by rewrite Hf.
  - unfold a_subvol. by rewrite Hf.
  - rewrite prune_row by done. destruct (decide (s = x)) as [->|Hne]; [by rewrite decide_True by (by left)|].
    by rewrite decide_False by (by intros ->%list_elem_of_singleton).
  - unfold a_prune. by rewrite H.
Qed.

Definition prune_all (xs : list Z) (m : amap) : amap := foldl (λ m x, a_prune (in_snap x) m) m xs.
Lemma removed_all_rows xs : ∀ m, ROOT_SNAP ∉ xs → removed m [] [] xs (prune_all xs m).
Proof.
  induction xs as [|x xs IH]; intros m Hx; [apply removed_refl|]. apply not_elem_of_cons in Hx as [H1 H2].
  apply (removed_trans m [] [] [x] _ [] [] xs _ (removed_rows m x (not_eq_sym H1)) (IH _ H2)).
Qed.
Definition snapshot_dels (xs : list Z) : list wop := (λ x, wdel (snapshot_key x)) <$> xs.
Lemma removed_all_snapshots xs : ∀ m, Forall (in_width 32) xs → removed m xs [] [] (a_run (snapshot_dels xs) m).
Proof.
  induction xs as [|x xs IH]; intros m Hw; [apply removed_refl|]. apply Forall_cons in Hw as [H1 H2].
  apply (removed_trans m [x] [] [] _ xs [] [] _ (removed_snapshot m x H1) (IH _ H2)).
Qed.

(** A subvolume with none of the snapshots on its chain sees what it saw. *)
Lemma removed_view m S V R m' cur s l :
  removed m S V R m' → view m cur s l → in_width 32 cur → cur ∉ V → (∀ x, x ∈ l → (x ∉ S) ∧ x ∉ R) →
  view m' cur s l ∧ ∀ k, (¬ meta_key k) → seen m' k l = seen m k l.
Proof.
  intros [A1 A2 A3 A4] Hv Hc HV Hl. pose proof (view_chain_ok _ _ _ _ Hv) as [_ Hw]. rewrite Forall_forall in Hw. split.
  - eapply view_ext; [exact Hv|by rewrite A2, decide_False by done|]. intros x Hx. rewrite A1, decide_False; [done|by apply Hl|by apply Hw].
  - intros k Hk. unfold seen. rewrite (a_visible_ext m m'); [done|]. intros x Hx. rewrite A3, decide_False; [done|by apply Hl|done|by apply Hw].
Qed.
Lemma removed_ids m S V R m' ns nv : removed m S V R m' → ids_ok m ns nv → ids_ok m' ns nv.
Proof.
  intros [A1 A2 A3 A4] [B1 B2 B3 B4 B5]. split; [done|done|by intros; apply A4, B3| |].
  - intros id sv Hid. rewrite A2 by done. case_decide; [done|]. by apply B4.
  - intros id Hle Hid. rewrite A2 by done. case_decide; [done|]. by apply B5.
Qed.
Lemma typed_prune sel m : typed m → typed (a_prune sel m).
Proof.
  intros Hm k r. unfold a_prune. destruct (m k) as [[v kind]|] eqn:E; [|done]. destruct (sel k kind); [done|]. intros [= <-]. by apply Hm.
Qed.
Lemma typed_prune_all xs : ∀ m, typed m → typed (prune_all xs m).
Proof. induction xs as [|x xs IH]; intros m Hm; [done|]. apply IH. by apply typed_prune. Qed.

(** ** Snapshots nothing refers to *)
Record loose (m : amap) (x : Z) : Prop := {
  lo_width : in_width 32 x;
  lo_snapshot : is_Some (a_snapshot m x);
  lo_root : x ≠ ROOT_SNAP;
  lo_subvol id sv : in_width 32 id → a_subvol m id = Some sv → v_snap_id sv ≠ x;
  lo_child y meta : in_width 32 y → a_snapshot m y = Some meta → s_parent_id meta ≠ NO_PARENT_SNAP → s_parent_id meta ≠ x;
}.

(** They are on no chain that starts at a subvolume. *)
Lemma a_parent_meta m s p : a_parent m s = Some p → ∃ meta, a_snapshot m s = Some meta ∧ s_parent_id meta = p ∧ p ≠ NO_PARENT_SNAP.
Proof.
  unfold a_parent. destruct (a_snapshot m s) as [meta|]; [|done]. cbn. destruct (Z.eqb_spec (s_parent_id meta) NO_PARENT_SNAP); [done|].
  destruct (_ <=? s); [done|]. intros [= <-]. eauto.
Qed.
Lemma loose_off_chain m x s l : loose m x → chain_from m s l → in_width 32 s → s ≠ x → x ∉ l.
Proof.
  intros [_ _ _ _ Hx]. induction 1 as [s E|s p l E _ IH]; intros Hs Hne; [by intros ?%list_elem_of_singleton|].
  destruct (a_parent_up _ _ _ E) as [_ Hp]. destruct (a_parent_meta _ _ _ E) as (meta & Em & <- & Hno).
  apply not_elem_of_cons. split; [done|]. apply IH; [done|]. exact (Hx s meta Hs Em Hno).
Qed.
Lemma loose_off_view m x cur s l : loose m x → view m cur s l → in_width 32 cur → x ∉ l.
Proof.
  intros Hx Hv Hc. eapply loose_off_chain; [done|apply Hv|by eapply view_width|]. destruct Hv as [Hs _].
  destruct (a_subvol m cur) as [sv|] eqn:E; [|done]. injection Hs as <-. exact (lo_subvol _ _ Hx cur sv Hc E).
Qed.

(** At most [N] snapshots. *)
Definition snapshots_within (m : amap) (N : nat) : Prop := ∀ ids,
  NoDup ids → Forall (λ x, in_width 32 x ∧ is_Some (a_snapshot m x)) ids → (length ids ≤ N)%nat.
Lemma removed_within m xs V R m' N :
  removed m xs V R m' → snapshots_within m N → NoDup xs → Forall (λ x, in_width 32 x ∧ is_Some (a_snapshot m x)) xs →
  (length xs ≤ N)%nat ∧ snapshots_within m' (N - length xs).
Proof.
  intros Hrm Hw Hd Hx. split; [by apply Hw|]. intros ids Hdi Hi.
  assert (length (xs ++ ids) ≤ N)%nat as Hle; [|rewrite length_app in Hle; lia]. rewrite Forall_forall in Hi. apply Hw.
  - apply NoDup_app. split_and!; [done| |done]. intros x H1 [Hwx [meta E]]%Hi. rewrite (rm_snapshot _ _ _ _ _ Hrm), decide_True in E by done. done.
  - apply Forall_app. split; [done|]. apply Forall_forall. intros x [Hwx [meta E]]%Hi. rewrite (rm_snapshot _ _ _ _ _ Hrm) in E by done.
    case_decide; [done|]. by split; [|eexists].
Qed.

(** *** The candidates of a round *)
Definition candidates (subvols : list (Z * SubvolV1)) (snapshots : list (Z * SnapshotV1)) : list Z :=
  filter (λ snap, snap ≠ ROOT_SNAP ∧ (snap ∉ (list_to_set ((λ '(_, meta), v_snap_id meta) <$> subvols) : gset Z)) ∧
    (snap ∉ (list_to_set (filter (λ p, p ≠ NO_PARENT_SNAP) ((λ '(_, meta), s_parent_id meta) <$> snapshots)) : gset Z))) snapshots.*1.

Lemma candidates_ok m subvols snapshots :
  listed (a_subvol m) subvols → listed (a_snapshot m) snapshots →
  NoDup (candidates subvols snapshots) ∧ ∀ x, x ∈ candidates subvols snapshots ↔ loose m x.
Proof.
  intros [_ Hv] [Hd Hs]. split; [by apply NoDup_filter|]. intros x. unfold candidates. rewrite list_elem_of_filter, !elem_of_list_to_set. split.
  - intros ((Hr & H1 & H2) & ([x' meta] & -> & Hin)%list_elem_of_fmap). pose proof Hin as [Hw Em]%Hs. split; [done|by eexists|done| |].
    + intros id sv Hid Ev E. apply H1, list_elem_of_fmap. exists (id, sv). split; [done|]. by apply Hv.
    + intros y my Hy Ey Hno E. apply H2, list_elem_of_filter. rewrite <- E. split; [exact Hno|]. apply list_elem_of_fmap. exists (y, my). split; [done|]. by apply Hs.
  - intros [Hw [meta Em] Hr H1 H2]. split_and!; [done| | |].
    + intros ([id sv] & -> & [Hid Ev]%Hv)%list_elem_of_fmap. by apply (H1 id sv).
    + intros [Hno ([y my] & -> & [Hy Ey]%Hs)%list_elem_of_fmap]%list_elem_of_filter. by apply (H2 y my).
    + apply list_elem_of_fmap. exists (x, meta). split; [done|]. by apply Hs.
Qed.

Section delete.
Context {D : Type} `{!BlockDevice D} `{!BlockDeviceLaws D} `{!BlockDeviceTotal D} `{!Crc32} `{!Crc32Range}.
Implicit Types fs : Fs D.

Lemma list_snapshots_reads m cur : typed m → reads_some (D := D) m cur list_snapshots (listed (a_snapshot m)).
Proof using All.
  refine (kind_list_reads KIND_SNAPSHOT 24 snapshot_from_bytes snapshot_id_from_key _ _ _ _ _ m cur); [done|done|done|apply snapshot_parses|].
  intros t Ht. unfold snapshot_id_from_key. rewrite checked_tail_ok; [done|done|by rewrite Ht].
Qed.
Lemma list_subvols_reads m cur : typed m → reads_some (D := D) m cur list_subvols (listed (a_subvol m)).
Proof using All.
  refine (kind_list_reads KIND_SUBVOL 32 subvol_from_bytes subvol_id_from_key _ _ _ _ _ m cur); [done|done|done|apply subvol_parses|].
  intros t Ht. unfold subvol_id_from_key. rewrite checked_tail_ok; [done|done|by rewrite Ht].
Qed.

Lemma del_good k : meta_key k → length k = 5%nat → wop_good (wdel k).
Proof using Type.
  intros Hk Hl. destruct k as [|b k]; [done|]. split; [split; [cbn in *; consts; lia|apply root_chain_ok]|].
  cbn [wop_typed]. destruct Hk as [E|E]; injection E as E; (eapply row_typed_intro; [rewrite E; reflexivity|cbn in Hl; lia|done]).
Qed.
Lemma snapshot_del_good x : wop_good (wdel (snapshot_key x)).
Proof using Type. apply del_good; [apply snapshot_key_meta|]. cbn. done. Qed.
Lemma subvol_del_good x : wop_good (wdel (subvol_key x)).
Proof using Type. apply del_good; [apply subvol_key_meta|]. cbn. done. Qed.

Lemma tx_del_does m k : wop_ok (wdel k) → tx_does (D := D) m (_ ← tx_delete_at k ROOT_SNAP [ROOT_SNAP]; mret tt) tt [wdel k].
Proof using All. intros Hk. eapply (tx_does_bind _ _ _ _ _ [_] []); [by apply tx_delete_does|apply tx_does_ret]. Qed.
Lemma tx_dels_do xs : ∀ m, tx_does (D := D) m
  (forM_ xs (λ snap, _ ← tx_delete_at (snapshot_key snap) ROOT_SNAP [ROOT_SNAP]; mret tt)) tt (snapshot_dels xs).
Proof using All.
  induction xs as [|x xs IH]; intros m; [apply tx_does_ret|]. cbn [forM_]. eapply (tx_does_bind _ _ _ _ _ [_] (snapshot_dels xs)); [|apply IH].
  apply tx_del_does, snapshot_del_good.
Qed.

Lemma drop_rows fs m n x :
  fs_models fs m n → fs_seq fs + 2 ^ 52 + 2 * n < 2 ^ 64 - 1 →
  ∃ fs', (_ ← on_tree (drop_snapshot_keys x); mret tt) fs = (Ok tt, fs') ∧ fs_models fs' (a_prune (in_snap x) m) n ∧
    fs_quiet fs fs' ∧ fs_seq fs' ≤ fs_seq fs + 2 ^ 52.
Proof using All.
  intros [Hbt Hty] Hq. destruct (drop_snapshot_keys_ok (tree fs) m n x Hbt Hq) as (d & bt' & E & Hbt' & Hlog & _ & Hq').
  exists (set_tree bt' fs). split; [|split; [split; [exact Hbt'|by apply typed_prune]|split; [by split|exact Hq']]].
  assert (on_tree (drop_snapshot_keys x) fs = (Ok d, set_tree bt' fs)) as E' by (unfold on_tree, zoom; by rewrite E).
  by rewrite (M_bind_ok _ _ _ _ _ E').
Qed.
Lemma drop_all_rows xs : ∀ fs m n,
  fs_models fs m n → fs_seq fs + Z.of_nat (length xs) * 2 ^ 52 + 2 * n < 2 ^ 64 - 1 →
  ∃ fs', forM_ xs (λ x, _ ← on_tree (drop_snapshot_keys x); mret tt) fs = (Ok tt, fs') ∧ fs_models fs' (prune_all xs m) n ∧
    fs_quiet fs fs' ∧ fs_seq fs' ≤ fs_seq fs + Z.of_nat (length xs) * 2 ^ 52.
Proof using All.
  induction xs as [|x xs IH]; intros fs m n Hfs Hq; [exists fs; split_and!; [done|done|apply fs_quiet_refl|lia]|].
  cbn [length] in *. rewrite Nat2Z.inj_succ in *. destruct (drop_rows fs m n x Hfs) as (fs1 & E1 & Hfs1 & Hq1 & Hs1); [lia|].
  destruct (IH fs1 _ n Hfs1) as (fs2 & E2 & Hfs2 & Hq2 & Hs2); [lia|]. exists fs2. cbn [forM_].
  rewrite (M_bind_ok _ _ _ _ _ E1). split_and!; [done|done|by eapply fs_quiet_trans|lia].
Qed.

(** What a step of the deletion does: only the tree changes, run numbers are used
    for the rows dropped. *)
Record removes fs (m : amap) (xs V : list Z) fs' (m' : amap) : Prop := {
  rs_removed : removed m xs V xs m';
  rs_tree : fs' = set_tree (tree fs') fs;
  rs_seq : fs_seq fs' ≤ fs_seq fs + Z.of_nat (length xs) * 2 ^ 52;
}.
Lemma removes_trans fs m xs V fs1 m1 ys V' fs2 m2 :
  removes fs m xs V fs1 m1 → removes fs1 m1 ys V' fs2 m2 → removes fs m (xs ++ ys) (V ++ V') fs2 m2.
Proof using Type.
  intros [A1 A2 A3] [B1 B2 B3]. split; [by eapply removed_trans|by rewrite B2, A2|rewrite length_app; lia].
Qed.

(** *** One round of the sweep *)
Lemma sweep_round_ok fs m n N :
  fs_models fs m (Z.of_nat N + n) → 0 ≤ n → snapshots_within m N → fs_seq fs + Z.of_nat N * 2 ^ 52 + 2 * (Z.of_nat N + n) < 2 ^ 64 - 1 →
  (∃ fs', sweep_round tt fs = (Ok (inr tt), fs') ∧ fs_models fs' m (Z.of_nat N + n) ∧ removes fs m [] [] fs' m ∧ ∀ x, ¬ loose m x) ∨
  (∃ fs' m' xs, sweep_round tt fs = (Ok (inl tt), fs') ∧ xs ≠ [] ∧ NoDup xs ∧ Forall (loose m) xs ∧ (length xs ≤ N)%nat ∧
    fs_models fs' m' (Z.of_nat (N - length xs) + n) ∧ removes fs m xs [] fs' m').
Proof using All.
  intros Hfs Hn HN Hq. pose proof (fm_typed _ _ _ Hfs) as Hm.
  destruct (list_subvols_reads m (current_subvol fs) Hm fs _ Hfs eq_refl) as (subvols & fs1 & E1 & Hv & Hfs1 & Hq1).
  destruct (list_snapshots_reads m (current_subvol fs1) Hm fs1 _ Hfs1 eq_refl) as (snapshots & fs2 & E2 & Hs & Hfs2 & Hq2).
  pose proof (keeps_eq _ _ _ _ _ list_subvols_keeps E1) as S1. pose proof (keeps_eq _ _ _ _ _ list_snapshots_keeps E2) as S2.
  destruct (candidates_ok m subvols snapshots Hv Hs) as [Hd Hc]. unfold sweep_round. rewrite (M_bind_ok _ _ _ _ _ E1). cbn zeta.
  rewrite (M_bind_ok _ _ _ _ _ E2). fold (candidates subvols snapshots). set (xs := candidates subvols snapshots) in *.
  pose proof (fs_quiet_trans _ _ _ Hq1 Hq2) as Hq12. destruct (Nat.eqb_spec (length xs) 0) as [Hx0|Hx0].
  { left. exists fs2. apply length_zero_iff_nil in Hx0. split_and!; [done|done| |].
    - split; [apply removed_refl|apply Hq12|cbn; lia].
    - intros x Hx%Hc. rewrite Hx0 in Hx. by apply not_elem_of_nil in Hx. }
  right. assert (Forall (loose m) xs) as Hl by (apply Forall_forall; intros x; apply Hc).
  assert (length xs ≤ N)%nat as Hlen by (apply HN; [done|]; eapply Forall_impl; [exact Hl|]; by intros x []).
  destruct (performs_transaction m (current_subvol fs2) _ _ _ (tx_dels_do xs m)) with (fs := fs2) (n := Z.of_nat (N - length xs) + n)
    as (fs3 & E3 & Hfs3 & T3 & W3); [| |lia|done|].
  { apply Forall_fmap, Forall_forall. intros x _. apply snapshot_del_good. }
  { unfold snapshot_dels. rewrite length_fmap. by replace (Z.of_nat (length xs) + (Z.of_nat (N - length xs) + n)) with (Z.of_nat N + n) by lia. }
  rewrite (M_bind_ok _ _ _ _ _ E3).
  pose proof (keeps_eq _ _ _ _ _ (in_transaction_keeps _ (keeps_each _ xs _ (λ x, keeps_bind _ _ _ (tx_delete_keeps (snapshot_key x) ROOT_SNAP) (λ _, keeps_ret _ tt)))) E3) as S3.
  destruct (drop_all_rows xs fs3 _ _ Hfs3) as (fs4 & E4 & Hfs4 & Hq4 & S4).
  { rewrite S3, S2, S1. nia. }
  rewrite (M_bind_ok _ _ _ _ _ E4). exists fs4, (prune_all xs (a_run (snapshot_dels xs) m)), xs.
  assert (ROOT_SNAP ∉ xs) as Hroot by (intros []%Hc; done).
  split_and!; [done|by intros ->|done|done|done|done|]. split.
  - pose proof (removed_trans m xs [] [] _ [] [] xs _ (removed_all_snapshots xs m ltac:(eapply Forall_impl; [exact Hl|]; by intros x [])) (removed_all_rows xs _ Hroot)) as Hrm.
    by rewrite app_nil_r in Hrm.
  - rewrite (fq_tree _ _ Hq4), T3, (fq_tree _ _ Hq12). done.
  - rewrite S3, S2, S1 in S4. lia.
Qed.

(** *** The sweep *)
(** What the whole removal keeps: a subvolume outside of [V] sees what it saw. *)
Definition others_keep (m : amap) (V : list Z) (m' : amap) : Prop := ∀ cur s l,
  in_width 32 cur → cur ∉ V → view m cur s l → view m' cur s l ∧ ∀ k, (¬ meta_key k) → seen m' k l = seen m k l.
Lemma others_keep_trans m V m1 m2 : others_keep m V m1 → others_keep m1 [] m2 → others_keep m V m2.
Proof using Type.
  intros H1 H2 cur s l Hc HV Hv. destruct (H1 cur s l Hc HV Hv) as [Hv1 K1]. destruct (H2 cur s l Hc (not_elem_of_nil cur) Hv1) as [Hv2 K2].
  split; [done|]. intros k Hk. by rewrite K2, K1.
Qed.
Lemma loose_others_keep m xs m' : Forall (loose m) xs → removed m xs [] xs m' → others_keep m [] m'.
Proof using Type.
  intros Hl Hrm cur s l Hc HV Hv. rewrite Forall_forall in Hl. eapply removed_view; [exact Hrm|done|done|done|]. intros x Hx.
  assert (x ∉ xs) as Hn; [|done]. intros Hin%Hl. by apply (loose_off_view m x cur s l).
Qed.

Lemma sweep_rounds N : ∀ fs m n,
  fs_models fs m (Z.of_nat N + n) → 0 ≤ n → snapshots_within m N → fs_seq fs + Z.of_nat N * 2 ^ 52 + 2 * (Z.of_nat N + n) < 2 ^ 64 - 1 →
  ∃ k fs' m' xs, rounds sweep_round k tt fs tt fs' ∧ (k ≤ S N)%nat ∧ fs_models fs' m' n ∧ removes fs m xs [] fs' m' ∧
    others_keep m [] m' ∧ ∀ x, ¬ loose m' x.
Proof using All.
  induction N as [N IH] using lt_wf_ind. intros fs m n Hfs Hn HN Hq.
  destruct (sweep_round_ok fs m n N Hfs Hn HN Hq) as [(fs' & E & Hfs' & Hr & Hl)|(fs1 & m1 & xs & E & Hxs & Hd & Hl & Hlen & Hfs1 & Hr)].
  - exists 1%nat, fs', m, []. split_and!; [by constructor|lia|eapply fs_models_weaken; [|exact Hfs']; lia|done| |done].
    eapply loose_others_keep; [|apply Hr]. constructor.
  - assert (0 < length xs)%nat by (destruct xs; [done|cbn; lia]). pose proof (rs_seq _ _ _ _ _ _ Hr) as Hs.
    destruct (removed_within m xs [] xs m1 N (rs_removed _ _ _ _ _ _ Hr) HN Hd) as [_ HN1]; [eapply Forall_impl; [exact Hl|]; by intros x []|].
    destruct (IH (N - length xs)%nat ltac:(lia) fs1 m1 n Hfs1 Hn HN1) as (k & fs' & m' & ys & Hk & Hle & Hfs' & Hr' & Ho & Hl'); [nia|].
    exists (S k), fs', m', (xs ++ ys). split_and!; [by econstructor|lia|done|by eapply (removes_trans _ _ _ [])| |done].
    eapply others_keep_trans; [|exact Ho]. by eapply loose_others_keep; [|apply Hr].
Qed.

Lemma sweep_ok fs m n N :
  fs_models fs m (Z.of_nat N + n) → 0 ≤ n → snapshots_within m N → fs_seq fs + Z.of_nat N * 2 ^ 52 + 2 * (Z.of_nat N + n) < 2 ^ 64 - 1 →
  ∃ fs' m' xs, sweep_unreferenced_snapshots fs = (Ok tt, fs') ∧ fs_models fs' m' n ∧ removes fs m xs [] fs' m' ∧
    others_keep m [] m' ∧ ∀ x, ¬ loose m' x.
Proof using All.
  intros Hfs Hn HN Hq. destruct (sweep_rounds N fs m n Hfs Hn HN Hq) as (k & fs' & m' & xs & Hk & Hle & H1 & H2 & H3 & H4).
  exists fs', m', xs. split_and!; [|done..]. unfold sweep_unreferenced_snapshots, from_btree, mapping_err.
  rewrite (whileM_rounds _ _ _ _ _ _ _ Hk); [done|]. pose proof (bu_q _ _ _ (bm_budget _ _ _ (fm_bt _ _ _ Hfs))) as [Hq0 _].
  assert (Z.of_nat N < 2 ^ 12) by (unfold fs_seq in Hq; lia). change (2 ^ Z.of_nat SNAP_LOOP) with 8589934592. lia.
Qed.

(** *** The guards *)
(** A snapshot that another one descends from, or that another subvolume needs. *)
Definition needs (m : amap) (v dead : Z) (id : Z) (sv : SubvolV1) : Prop :=
  id ≠ v ∧ (v_parent_subvol sv = v ∨ ∃ l, chain_from m (v_snap_id sv) l ∧ dead ∈ l).
Definition in_use (m : amap) (v dead : Z) : Prop :=
  (∃ y meta, in_width 32 y ∧ a_snapshot m y = Some meta ∧ s_parent_id meta = dead) ∨
  (∃ id sv, in_width 32 id ∧ a_subvol m id = Some sv ∧ needs m v dead id sv).
Definition read_only (sv : SubvolV1) : Prop := Z.land (v_flags sv) SUBVOL_FLAG_READONLY ≠ 0.

(** The error [delete_snapshot] of [v] returns when [cur] is the active subvolume. *)
Inductive delete_refused (m : amap) (cur v : Z) : FsError → Prop :=
  | refused_root : v = ROOT_SUBVOL → delete_refused m cur v Invalid
  | refused_missing : v ≠ ROOT_SUBVOL → a_subvol m v = None → delete_refused m cur v NotFound
  | refused_writable sv : v ≠ ROOT_SUBVOL → a_subvol m v = Some sv → (¬ read_only sv) → delete_refused m cur v Invalid
  | refused_active sv : v ≠ ROOT_SUBVOL → a_subvol m v = Some sv → read_only sv → cur = v → delete_refused m cur v Busy
  | refused_root_snap sv : v ≠ ROOT_SUBVOL → a_subvol m v = Some sv → read_only sv → cur ≠ v → v_snap_id sv = ROOT_SNAP →
      delete_refused m cur v Invalid
  | refused_in_use sv : v ≠ ROOT_SUBVOL → a_subvol m v = Some sv → read_only sv → cur ≠ v → v_snap_id sv ≠ ROOT_SNAP →
      in_use m v (v_snap_id sv) → delete_refused m cur v Busy.

Lemma subvol_in_use_reads m cur v dead l :
  typed m → Forall (λ x, in_width 32 (v_snap_id x.2)) l →
  reads_some (D := D) m cur (subvol_in_use v dead l) (λ b, b = true ↔ ∃ id sv, (id, sv) ∈ l ∧ needs m v dead id sv).
Proof using All.
  intros Hm. induction 1 as [|[id sv] l Hw _ IH]; cbn [subvol_in_use].
  { eapply reads_some_weaken; [apply reads_ret|]. split; [done|]. by intros (id & sv & ?%not_elem_of_nil & _). }
  assert ((¬ needs m v dead id sv) → reads_some (D := D) m cur (subvol_in_use v dead l)
    (λ b, b = true ↔ ∃ id0 sv0, (id0, sv0) ∈ (id, sv) :: l ∧ needs m v dead id0 sv0)) as Hnext.
  { intros Hno fs n Hfs Hcur. destruct (IH fs n Hfs Hcur) as (b & fs' & E & Hb & H3). exists b, fs'. split_and!; [done| |apply H3..].
    rewrite Hb. split; intros (id0 & sv0 & Hin & Hx); exists id0, sv0; (split; [|done]); [by right|].
    apply elem_of_cons in Hin as [[= -> ->]|Hin]; [done|exact Hin]. }
  assert (needs m v dead id sv → reads_some (E := error) (D := D) m cur (mret true)
    (λ b, b = true ↔ ∃ id0 sv0, (id0, sv0) ∈ (id, sv) :: l ∧ needs m v dead id0 sv0)) as Hfound.
  { intros Hx. eapply reads_some_weaken; [apply reads_ret|]. split; [|done]. intros _. exists id, sv. split; [by left|done]. }
  destruct (Z.eqb_spec id v) as [->|Hne]; [apply Hnext; by intros [? _]|].
  destruct (Z.eqb_spec (v_parent_subvol sv) v) as [Hp|Hp]; [apply Hfound; by split; [|left]|].
  cbn [snd] in Hw. destruct (chain_exists m (v_snap_id sv) Hw) as [ch Hch].
  eapply reads_reads_some; [by apply (is_ancestor_reads m cur dead (v_snap_id sv) ch)|]. destruct (bool_decide_reflect (dead ∈ ch)) as [Hin|Hin].
  - apply Hfound. split; [done|]. right. by exists ch.
  - apply Hnext. intros [_ [?|(ch' & Hch' & Hin')]]; [done|]. by rewrite (chain_from_inj _ _ _ _ Hch' Hch) in Hin'.
Qed.

(** The part of [delete_snapshot] behind its guards. *)
Definition delete_records (v dead : Z) : M (Fs D) FsError unit :=
  from_btree (in_transaction (
    _ ← tx_delete_at (snapshot_key dead) ROOT_SNAP [ROOT_SNAP];
    _ ← tx_delete_at (subvol_key v) ROOT_SNAP [ROOT_SNAP];
    mret tt)).

Record deletable (m : amap) (cur v : Z) (sv : SubvolV1) : Prop := {
  db_subvol : a_subvol m v = Some sv;
  db_root : v ≠ ROOT_SUBVOL;
  db_read_only : read_only sv;
  db_active : cur ≠ v;
  db_root_snap : v_snap_id sv ≠ ROOT_SNAP;
  db_free : ¬ in_use m v (v_snap_id sv);
}.
Lemma deletable_not_refused m cur v sv e : deletable m cur v sv → ¬ delete_refused m cur v e.
Proof using Type. intros [] []; simplify_eq; done. Qed.

Definition refusal fs m n v : Prop := ∃ e fs',
  delete_refused m (current_subvol fs) v e ∧ delete_snapshot v fs = (Err e, fs') ∧ fs_models fs' m n ∧ fs_quiet fs fs'.

Lemma delete_guards fs m n v :
  fs_models fs m n →
  refusal fs m n v ∨
  (∃ sv fs1, deletable m (current_subvol fs) v sv ∧
    delete_snapshot v fs = (_ ← delete_records v (v_snap_id sv); _ ← from_btree (on_tree (drop_snapshot_keys (v_snap_id sv)));
      sweep_unreferenced_snapshots) fs1 ∧ fs_models fs1 m n ∧ fs_quiet fs fs1 ∧ fs_seq fs1 = fs_seq fs).
Proof using All.
  intros Hfs. pose proof (fm_typed _ _ _ Hfs) as Hm. unfold refusal, delete_snapshot.
  destruct (Z.eqb_spec v ROOT_SUBVOL) as [Hroot|Hroot].
  { left. exists Invalid, fs. split; [by apply refused_root|]. split; [done|]. split; [done|apply fs_quiet_refl]. }
  destruct (reads_from_btree _ _ _ _ (get_subvol_reads m (current_subvol fs) v Hm) fs _ Hfs eq_refl) as (fs1 & E1 & Hfs1 & Q1).
  pose proof (keeps_eq _ _ _ _ _ (keeps_mapping fs_seq BtreeErr _ (get_subvol_keeps v)) E1) as S1. pose proof (fs_quiet_subvol _ _ Q1) as C1.
  rewrite (M_bind_ok _ _ _ _ _ E1). destruct (a_subvol m v) as [sv|] eqn:Ev.
  2: { left. exists NotFound, fs1. by split; [apply refused_missing|]. }
  rewrite ok_or_Some. destruct (Z.eqb_spec (Z.land (v_flags sv) SUBVOL_FLAG_READONLY) 0) as [Hro|Hro].
  { left. exists Invalid, fs1. split; [|done]. apply (refused_writable _ _ _ sv); [done|done|by intros ?]. }
  rewrite gets_bind, C1. destruct (Z.eqb_spec (current_subvol fs) v) as [Hcur|Hcur].
  { left. exists Busy, fs1. by split; [apply (refused_active _ _ _ sv)|]. }
  cbn zeta. destruct (Z.eqb_spec (v_snap_id sv) ROOT_SNAP) as [Hrs|Hrs].
  { left. exists Invalid, fs1. by split; [apply (refused_root_snap _ _ _ sv)|]. }
  destruct (reads_some_from_btree _ _ _ _ (list_snapshots_reads m (current_subvol fs1) Hm) fs1 _ Hfs1 eq_refl) as (snapshots & fs2 & E2 & Hs & Hfs2 & Q2).
  pose proof (keeps_eq _ _ _ _ _ (keeps_mapping fs_seq BtreeErr _ list_snapshots_keeps) E2) as S2.
  rewrite (M_bind_ok _ _ _ _ _ E2). destruct (existsb (λ '(_, meta), s_parent_id meta =? v_snap_id sv) snapshots) eqn:Ex.
  { left. exists Busy, fs2. split; [|split; [done|split; [done|by eapply fs_quiet_trans]]]. apply (refused_in_use _ _ _ sv); [done..|]. left.
    apply existsb_exists in Ex as ([y meta] & Hin & Hp%Z.eqb_eq). apply list_elem_of_In, Hs in Hin as [Hy Ey]. eauto. }
  destruct (reads_some_from_btree _ _ _ _ (list_subvols_reads m (current_subvol fs2) Hm) fs2 _ Hfs2 eq_refl) as (subvols & fs3 & E3 & Hv & Hfs3 & Q3).
  pose proof (keeps_eq _ _ _ _ _ (keeps_mapping fs_seq BtreeErr _ list_subvols_keeps) E3) as S3.
  rewrite (M_bind_ok _ _ _ _ _ E3).
  destruct (reads_some_from_btree _ _ _ _ (subvol_in_use_reads m (current_subvol fs3) v (v_snap_id sv) subvols Hm
    ltac:(apply Forall_forall; intros [id x] [_ [? _]%a_subvol_wf]%Hv; done)) fs3 _ Hfs3 eq_refl) as (b & fs4 & E4 & Hb & Hfs4 & Q4).
  pose proof (keeps_eq _ _ _ _ _ (keeps_mapping fs_seq BtreeErr _ (subvol_in_use_keeps v (v_snap_id sv) subvols)) E4) as S4.
  rewrite (M_bind_ok _ _ _ _ _ E4). assert (fs_quiet fs fs4) as Q by (do 3 (eapply fs_quiet_trans; [eassumption|]); done).
  destruct b.
  { left. exists Busy, fs4. split; [|done]. apply (refused_in_use _ _ _ sv); [done..|]. right.
    destruct (proj1 Hb eq_refl) as (id & x & [Hid Hx]%Hv & Hn). eauto. }
  right. exists sv, fs4. split_and!; [|done|done|done|congruence]. split; [done..|]. intros [(y & meta & Hy & Ey & Hp)|(id & x & Hid & Hx & Hn)].
  - assert (existsb (λ '(_, meta), s_parent_id meta =? v_snap_id sv) snapshots = true) as Ht; [|by rewrite Ht in Ex].
    apply existsb_exists. exists (y, meta). split; [by apply list_elem_of_In, Hs|]. by apply Z.eqb_eq.
  - assert (false = true) by (apply Hb; exists id, x; split; [by apply Hv|done]). done.
Qed.

(** *** The removal *)
Lemma within_mono m S V R m' N : removed m S V R m' → snapshots_within m N → snapshots_within m' N.
Proof using Type.
  intros Hrm HN ids Hd Hi. apply HN; [done|]. eapply Forall_impl; [exact Hi|]. intros x [Hw [meta E]]. split; [done|].
  rewrite (rm_snapshot _ _ _ _ _ Hrm) in E by done. case_decide; [done|by eexists].
Qed.

Lemma delete_records_ok fs m n v dead :
  fs_models fs m (2 + n) → 0 ≤ n → in_width 32 v → in_width 32 dead →
  ∃ fs' m', delete_records v dead fs = (Ok tt, fs') ∧ fs_models fs' m' n ∧ removed m [dead] [v] [] m' ∧
    fs' = set_tree (tree fs') fs ∧ fs_seq fs' = fs_seq fs.
Proof using All.
  intros Hfs Hn Hv Hd.
  destruct (performs_from_btree m (current_subvol fs) _ tt [wdel (snapshot_key dead); wdel (subvol_key v)]
    (performs_transaction m (current_subvol fs)
      (_ ← tx_delete_at (snapshot_key dead) ROOT_SNAP [ROOT_SNAP]; _ ← tx_delete_at (subvol_key v) ROOT_SNAP [ROOT_SNAP]; mret tt) tt _
      (tx_does_bind m _ _ _ tt [wdel (snapshot_key dead)] [wdel (subvol_key v)] (tx_delete_does m _ _ _ (proj1 (snapshot_del_good dead)))
        (tx_del_does _ _ (proj1 (subvol_del_good v))))
      ltac:(repeat apply Forall_cons_2; [apply snapshot_del_good|apply subvol_del_good|constructor])) fs n Hfs Hn eq_refl)
    as (fs' & E & Hfs' & T & _).
  exists fs', (a_run [wdel (snapshot_key dead); wdel (subvol_key v)] m). split_and!; [exact E|exact Hfs'| |exact T|].
  - exact (removed_trans _ _ _ _ _ _ _ _ _ (removed_snapshot m dead Hd) (removed_subvol _ v Hv)).
  - refine (keeps_eq _ _ _ _ _ (keeps_mapping fs_seq BtreeErr _ (in_transaction_keeps _ _)) E).
    apply keeps_bind; [apply tx_delete_keeps|intros _]. apply keeps_bind; [apply tx_delete_keeps|intros _]. apply keeps_ret.
Qed.

Lemma target_others_keep m cur v sv m' :
  deletable m cur v sv → removed m [v_snap_id sv] [v] [v_snap_id sv] m' → others_keep m [v] m'.
Proof using Type.
  intros Hdb Hrm c s l Hc HV Hv. eapply removed_view; [exact Hrm|done|done|done|]. intros x Hx.
  assert (x ∉ [v_snap_id sv]) as Hn; [|done]. intros ->%list_elem_of_singleton. apply (db_free _ _ _ _ Hdb). right.
  destruct Hv as [Hs Hch]. destruct (a_subvol m c) as [x|] eqn:E; [|done]. injection Hs as <-. exists c, x. split_and!; [done|done|].
  split; [by intros ->; apply HV; left|]. right. by exists l.
Qed.

Lemma delete_target_ok fs m n v sv :
  deletable m (current_subvol fs) v sv → fs_models fs m (2 + n) → 0 ≤ n → in_width 32 v → fs_seq fs + 2 ^ 52 + 2 * n < 2 ^ 64 - 1 →
  ∃ fs1 d fs2 m', delete_records v (v_snap_id sv) fs = (Ok tt, fs1) ∧
    from_btree (on_tree (drop_snapshot_keys (v_snap_id sv))) fs1 = (Ok d, fs2) ∧
    fs_models fs2 m' n ∧ removes fs m [v_snap_id sv] [v] fs2 m'.
Proof using All.
  intros Hdb Hfs Hn Hv Hq. destruct (a_subvol_wf _ _ _ (db_subvol _ _ _ _ Hdb)) as [Hw _].
  destruct (delete_records_ok fs m n v (v_snap_id sv) Hfs Hn Hv Hw) as (fs1 & m1 & E1 & [Hbt1 Hty1] & Hrm & T1 & S1).
  destruct (drop_snapshot_keys_ok (tree fs1) m1 n (v_snap_id sv) Hbt1) as (d & bt2 & E2 & Hbt2 & _ & _ & S2).
  { unfold fs_seq in S1, Hq. by rewrite S1. }
  exists fs1, d, (set_tree bt2 fs1), (a_prune (in_snap (v_snap_id sv)) m1). split; [exact E1|].
  split; [unfold from_btree, mapping_err, on_tree, zoom; by rewrite E2|]. split; [split; [exact Hbt2|by apply typed_prune]|]. split.
  - exact (removed_trans _ _ _ _ _ _ _ _ _ Hrm (removed_rows m1 _ (db_root_snap _ _ _ _ Hdb))).
  - rewrite T1. done.
  - unfold fs_seq in *. cbn [set_tree tree length]. lia.
Qed.

(** C8: [delete_snapshot] removes a snapshot that is not in use and nothing that
    another subvolume sees. With room in the allocator it returns: either with the
    error of the first guard that holds, changing nothing, or with [Ok]. Then the
    records of the subvolume and its snapshot are gone with all rows at the
    snapshot, and so are the snapshots nothing refers to any more; every other
    subvolume keeps its chain and the value it sees at every file key, the
    invariant of the file system holds, and no unreferenced snapshot is left. *)
Theorem delete_snapshot_spares_the_others fs m n N v :
  fs_inv fs m (2 + (Z.of_nat N + n)) → 0 ≤ n → in_width 32 v → snapshots_within m N →
  fs_seq fs + (1 + Z.of_nat N) * 2 ^ 52 + 2 * (Z.of_nat N + n) < 2 ^ 64 - 1 →
  refusal fs m (2 + (Z.of_nat N + n)) v ∨
  (∀ e, ¬ delete_refused m (current_subvol fs) v e) ∧
  ∃ sv fs' m' gone, a_subvol m v = Some sv ∧ delete_snapshot v fs = (Ok tt, fs') ∧ fs_inv fs' m' n ∧ fs' = set_tree (tree fs') fs ∧
    v_snap_id sv ∈ gone ∧ removed m gone [v] gone m' ∧ others_keep m [v] m' ∧ ∀ x, ¬ loose m' x.
Proof using All.
  intros [Hfs Hids Hcw Hcur] Hn Hv HN Hq. destruct (delete_guards fs m _ v Hfs) as [Hr|(sv & fs1 & Hdb & E & Hfs1 & Q1 & S1)]; [by left|].
  right. split; [intros e; by eapply deletable_not_refused|]. pose proof (fs_quiet_subvol _ _ Q1) as C1. pose proof Hdb as Hdb'. rewrite <- C1 in Hdb'.
  destruct (delete_target_ok fs1 m (Z.of_nat N + n) v sv Hdb' Hfs1 ltac:(lia) Hv ltac:(lia)) as (fs2 & d & fs3 & m3 & E2 & E3 & Hfs3 & R3).
  pose proof (rs_seq _ _ _ _ _ _ R3) as S3. cbn [length] in S3.
  destruct (sweep_ok fs3 m3 n N Hfs3 Hn (within_mono _ _ _ _ _ _ (rs_removed _ _ _ _ _ _ R3) HN) ltac:(lia)) as (fs4 & m4 & xs & E4 & Hfs4 & R4 & O4 & L4).
  pose proof (removes_trans _ _ _ _ _ _ _ _ _ _ R3 R4) as [R T _]. cbn [app] in R.
  assert (fs4 = set_tree (tree fs4) fs) as T4 by (rewrite T at 1; by rewrite (fq_tree _ _ Q1)).
  exists sv, fs4, m4, (v_snap_id sv :: xs). split; [apply Hdb|]. split; [rewrite E, (M_bind_ok _ _ _ _ _ E2), (M_bind_ok _ _ _ _ _ E3); exact E4|].
  split; [|split; [exact T4|split; [by left|split; [exact R|split; [|exact L4]]]]].
  - assert (current_subvol fs4 = current_subvol fs ∧ next_snap_id fs4 = next_snap_id fs ∧ next_subvol_id fs4 = next_subvol_id fs)
      as (C4 & I4 & J4) by (rewrite T4; done).
    split; rewrite ?C4, ?I4, ?J4; [exact Hfs4|by eapply removed_ids|done|].
    rewrite (rm_subvol _ _ _ _ _ R), decide_False; [done| |done]. intros E'%list_elem_of_singleton. by apply (db_active _ _ _ _ Hdb).
  - eapply others_keep_trans; [|exact O4]. eapply target_others_keep; [exact Hdb|apply R3].
Qed.
End delete.

(** ** Concrete runs *)
#[local] Existing Instance sum_crc.
(** A file system with one name, its root subvolume snapshotted as subvolume 2. *)
Lemma demo_deleted_run : match fs_new with
  | Ok fs0 =>
      let fs1 := (snapshot_subvol ROOT_SUBVOL (put_dirent ROOT_INO demo_name demo_dirent fs0).2).2 in
      match (delete_snapshot 2 fs1).1 with Ok tt => fs_seq fs1 <? 100 | _ => false end
  | _ => false end = true.
Proof. vm_compute. reflexivity. Qed.

Lemma demo_snapshot x : in_width 32 x → a_snapshot demo_file_map x = if decide (x = ROOT_SNAP) then Some root_snapshot else None.
Proof.
  intros Hx. unfold demo_file_map. rewrite (local_snapshot ROOT_SNAP) by (apply root_width || apply demo_file_local).
  unfold a_snapshot, seed_map, a_run, seed_ops. cbn [foldl a_wop]. rewrite !find_put.
  rewrite (decide_False (P := snapshot_key x = subvol_key _)) by done.
  destruct (decide (x = ROOT_SNAP)) as [->|Hne]; [rewrite decide_True by done; by apply snap_meta_decoded|].
  by rewrite decide_False by (intros ?%snapshot_key_inj; [done|done|apply root_width]).
Qed.
Lemma demo_subvol : a_subvol demo_file_map ROOT_SUBVOL = Some root_subvol.
Proof.
  unfold demo_file_map. rewrite (local_subvol ROOT_SNAP) by (apply root_width || apply demo_file_local). by rewrite seed_subvol.
Qed.
Lemma demo_within : ids_ok demo_file_map (ROOT_SNAP - 1) (ROOT_SUBVOL + 1) →
  snapshots_within (a_run (snapshot_ops ROOT_SUBVOL (ROOT_SNAP - 1) (ROOT_SUBVOL + 1) root_subvol) demo_file_map) 3.
Proof.
  intros Hids ids Hd Hi. apply (submseteq_length _ [ROOT_SNAP - 1; ROOT_SNAP - 2; ROOT_SNAP]), NoDup_submseteq; [done|].
  intros x Hx. rewrite Forall_forall in Hi. apply Hi in Hx as [Hw [meta E]].
  rewrite (snapshot_a_snapshot _ _ _ _ _ demo_subvol Hids) in E by done. rewrite !elem_of_cons.
  destruct (decide (x = ROOT_SNAP - 1)); [by left|]. destruct (decide (x = ROOT_SNAP - 1 - 1)); [right; left; lia|].
  rewrite demo_snapshot in E by done. case_decide; [by right; right; left|done].
Qed.

Lemma demo_id_widths : in_width 32 ROOT_SUBVOL ∧ 2 ≤ ROOT_SNAP - 1 ∧ ROOT_SUBVOL + 1 < U32_MAX ∧ in_width 32 2.
Proof. by repeat split. Qed.
Lemma demo_run_ok (r : outcome FsError unit) (b : bool) : match r with Ok tt => b | _ => false end = true → r = Ok tt ∧ b = true.
Proof. by destruct r as [[]| | |]. Qed.

Lemma delete_snapshot_spares_the_others_witness :
  ∃ fs0 fs fs1 fs2 m m', fs_new = Ok fs0 ∧ put_dirent ROOT_INO demo_name demo_dirent fs0 = (Ok tt, fs) ∧
    snapshot_subvol ROOT_SUBVOL fs = (Ok 2, fs1) ∧ delete_snapshot 2 fs1 = (Ok tt, fs2) ∧ fs_inv fs1 m 96 ∧ fs_inv fs2 m' 91 ∧
    others_keep m [2] m'.
Proof.
  destruct demo_fs as (fs0 & fs & E0 & E & Hinv & Ec & Es & Ev & _). pose proof (fi_ids _ _ _ Hinv) as Hids. rewrite Es, Ev in Hids.
  destruct demo_id_widths as (W1 & W2 & W3 & W4).
  destruct (snapshot_taken fs demo_file_map 96 ROOT_SUBVOL root_subvol) as (fs1 & E1 & Hinv1 & _);
    [exact Hinv|lia|exact W1|exact demo_subvol|rewrite Es; exact W2|rewrite Ev; exact W3|].
  rewrite Es, Ev in Hinv1. rewrite Ev in E1. pose proof demo_deleted_run as Hrun. rewrite E0, E in Hrun. cbn [snd] in Hrun. rewrite E1 in Hrun. cbn [snd] in Hrun.
  apply demo_run_ok in Hrun as [Hok Hq%Z.ltb_lt].
  destruct (delete_snapshot_spares_the_others fs1 (a_run (snapshot_ops ROOT_SUBVOL (ROOT_SNAP - 1) (ROOT_SUBVOL + 1) root_subvol) demo_file_map) 91 3 2 Hinv1)
    as [(e & fs' & _ & E2 & _)|(_ & sv & fs2 & m' & gone & _ & E2 & Hinv2 & _ & _ & _ & Hk & _)];
    [lia|exact W4|exact (demo_within Hids)|lia|rewrite E2 in Hok; discriminate Hok|].
  exists fs0, fs, fs1, fs2. eexists _, m'. split; [exact E0|]. split; [exact E|]. split; [exact E1|]. split; [exact E2|].
  split; [exact Hinv1|]. split; [exact Hinv2|exact Hk].
Defined.
