(* ===== verification/Commit.v ===== *)
(** * Commit: how far reclaim and commit fill the journal (src/fs.rs).

    [journal_commit] spends the frames between the last checkpoint and the soft
    limit: first on the records that are pending, then on the deletions of
    reclaimed inodes. [spends k c] bounds the records a computation logs, whatever
    its outcome, and [appends k c] counts the frames it appends. The budget of
    [reclaim_budget_for_commit] leaves room for what reclaim logs; the pending
    records themselves are not checked against the ring, so a commit stays within
    it exactly when [group_fits] holds. *)
From Stdlib Require Import Strings.Byte.
From stdpp Require Import base list numbers gmap.
From S2P Require Import Prelude Device BlockBtree Storage Journal StoreSpec Heap Btree TreeWrite BtreeSpec FsTypes Fs.
#[local] Open Scope Z_scope.

Section spends.
Context {D : Type} `{!BlockDevice D} `{!Crc32}.
Implicit Types (bt : Btree D) (fs : Fs D).

(** *** Records logged by a tree operation *)
Definition logs {A} (k : Z) (c : M (Btree D) error A) : Prop := ∀ bt r bt',
  c bt = (r, bt') → Z.of_nat (length (log bt)) ≤ Z.of_nat (length (log bt')) ≤ Z.of_nat (length (log bt)) + k.

Lemma logs_bind {A B} k1 k2 (c : M (Btree D) error A) (f : A → M (Btree D) error B) :
  0 ≤ k2 → logs k1 c → (∀ a, logs k2 (f a)) → logs (k1 + k2) (c ≫= f).
Proof.
  intros Hk Hc Hf bt r bt'. unfold mbind, M_bind. destruct (c bt) as [[a|e| |] bt1] eqn:E; specialize (Hc _ _ _ E);
    intros E2; [specialize (Hf _ _ _ _ E2); lia|injection E2 as <- <-; lia..].
Qed.
Lemma logs_0_bind {A B} k (c : M (Btree D) error A) (f : A → M (Btree D) error B) :
  0 ≤ k → logs 0 c → (∀ a, logs k (f a)) → logs k (c ≫= f).
Proof. intros Hk Hc Hf. replace k with (0 + k) by lia. by apply logs_bind. Qed.
Lemma logs_lift {A} (o : res A) : logs 0 (lift o).
Proof. intros bt r bt' [= <- <-]. lia. Qed.
Lemma logs_gets {A} (f : Btree D → A) : logs 0 (gets f).
Proof. intros bt r bt' [= <- <-]. lia. Qed.
Lemma logs_in_store {A} (c : M (BlockStore D) error A) : logs 0 (in_store c).
Proof. intros bt r bt'. unfold in_store, zoom. destruct (c (store bt)). intros [= <- <-]. cbn. lia. Qed.
Lemma logs_in_store_seq {A} (c : M (BlockStore D * Z) error A) : logs 0 (in_store_seq c).
Proof. intros bt r bt'. unfold in_store_seq, zoom. destruct (c _) as [? [? ?]]. intros [= <- <-]. cbn. lia. Qed.
Lemma logs_set_root x : logs 0 (modify (set_root x)).
Proof. intros bt r bt' [= <- <-]. cbn. lia. Qed.
Lemma logs_push rec : logs 1 (modify (log_push rec)).
Proof.
  intros bt r bt' [= <- <-]. unfold log_push. destruct (logging bt); cbn; [rewrite length_app; cbn|]; lia.
Qed.

Lemma logs_scan start stop chain : logs 0 (range_scan_visible_with_snap start stop chain) ∧ logs 0 (range_scan_visible start stop chain).
Proof.
  assert (logs 0 (btree_range_scan_all start stop)).
  { unfold btree_range_scan_all. do 3 (apply logs_0_bind; [done|first [apply logs_lift|apply logs_gets]|intros ?]). apply logs_in_store. }
  split; (apply logs_0_bind; [done|done|intros ?; apply (logs_lift (Ok _))]).
Qed.
Lemma logs_find_at key snap : logs 0 (find_at key snap).
Proof. unfold find_at. do 2 (apply logs_0_bind; [done|first [apply logs_lift|apply logs_gets]|intros ?]). apply logs_in_store. Qed.
Lemma logs_insert key snap kind value : logs 1 (insert_with_kind key snap kind value).
Proof.
  unfold insert_with_kind. do 4 (apply logs_0_bind; [done|first [apply logs_lift|apply logs_gets|apply logs_in_store_seq|apply logs_set_root]|intros ?]).
  apply logs_push.
Qed.
Lemma logs_delete key snap chain : logs 1 (delete_at key snap chain).
Proof.
  unfold delete_at. apply logs_0_bind; [done| |intros r].
  { unfold btree_find_visible_with_snap. apply logs_0_bind; [done|apply logs_gets|intros ?; apply logs_in_store]. }
  destruct r as [[v s]|]; [|intros bt r bt' [= <- <-]; lia].
  apply (logs_bind 1 0); [done| |intros ?; apply (logs_lift (Ok _))]. destruct (s =? snap); [|apply logs_insert].
  do 4 (apply logs_0_bind; [done|first [apply logs_lift|apply logs_gets|apply logs_in_store|apply logs_set_root]|intros ?]).
  apply logs_push.
Qed.

(** *** Records logged by a file-system operation *)
Definition pending fs : Z := Z.of_nat (pending_log_len (tree fs)).
Definition counters fs : bool * Z * Z := (journal fs, next_journal_seq fs, last_checkpoint_seq fs).

Definition spends {E A} (k : Z) (c : M (Fs D) E A) : Prop := ∀ fs r fs',
  c fs = (r, fs') → pending fs ≤ pending fs' ≤ pending fs + k ∧ counters fs' = counters fs.

Lemma spends_bind {E A B} k1 k2 (c : M (Fs D) E A) (f : A → M (Fs D) E B) :
  0 ≤ k2 → spends k1 c → (∀ a, spends k2 (f a)) → spends (k1 + k2) (c ≫= f).
Proof.
  intros Hk Hc Hf fs r fs'. unfold mbind, M_bind. destruct (c fs) as [[a|e| |] fs1] eqn:E1; destruct (Hc _ _ _ E1) as [H1 H2];
    intros E2; [destruct (Hf _ _ _ _ E2) as [H3 H4]; split; [lia|congruence]|injection E2 as <- <-; split; [lia|done]..].
Qed.
Lemma spends_0_bind {E A B} k (c : M (Fs D) E A) (f : A → M (Fs D) E B) :
  0 ≤ k → spends 0 c → (∀ a, spends k (f a)) → spends k (c ≫= f).
Proof. intros Hk Hc Hf. replace k with (0 + k) by lia. by apply spends_bind. Qed.
Lemma spends_lift {E A} (o : outcome E A) : spends 0 (lift (S := Fs D) o).
Proof. intros fs r fs' [= <- <-]. split; [lia|done]. Qed.
Lemma spends_on_tree {A} k (c : M (Btree D) error A) : logs k c → spends k (on_tree c).
Proof.
  intros Hc fs r fs'. unfold on_tree, zoom. destruct (c (tree fs)) as [r1 bt1] eqn:E. intros [= <- <-].
  specialize (Hc _ _ _ E). split; [exact Hc|done].
Qed.
Lemma spends_store {A} (c : M (BlockStore D) error A) : spends 0 (on_fs_store c).
Proof. apply spends_on_tree, logs_in_store. Qed.

Lemma spends_loop {E A B} n (body : A → M (Fs D) E (A + B)) a : (∀ a, spends 0 (body a)) → spends 0 (loopM n body a).
Proof.
  intros Hb. revert a. induction n as [|n IH]; intros a; cbn [loopM]; [apply Hb|].
  apply spends_0_bind; [done|apply IH|]. intros [a'|b]; [apply IH|apply (spends_lift (Ok _))].
Qed.
Lemma spends_while {E A B} n (body : A → M (Fs D) E (A + B)) a : (∀ a, spends 0 (body a)) → spends 0 (whileM n body a).
Proof.
  intros Hb. unfold whileM. apply spends_0_bind; [done|by apply spends_loop|]. intros [a'|b]; [apply (spends_lift OutOfFuel)|apply (spends_lift (Ok _))].
Qed.

Lemma spends_get_snapshot x : spends 0 (get_snapshot (D := D) x).
Proof.
  unfold get_snapshot. apply spends_0_bind; [done|apply spends_on_tree, logs_find_at|]. intros [b|]; [|apply (spends_lift (Ok _))].
  apply spends_0_bind; [done|apply spends_lift|intros ?; apply (spends_lift (Ok _))].
Qed.
Lemma spends_chain x : spends 0 (ancestor_chain (D := D) x).
Proof.
  apply spends_while. intros [chain cur]. unfold ancestor_round.
  apply spends_0_bind; [done|apply spends_get_snapshot|intros ?; apply (spends_lift (Ok _))].
Qed.
Lemma spends_orphans : spends 0 (list_deleted_inodes (D := D)).
Proof.
  unfold list_deleted_inodes. destruct deleted_inode_range. apply spends_0_bind; [done|apply spends_on_tree, logs_scan|intros ?; apply spends_lift].
Qed.

(** *** Reclaim *)

(** A sequence either gets through its first part or ends there. *)
Lemma bind_cases {E A B} k (c : M (Fs D) E A) (f : A → M (Fs D) E B) fs r fs' :
  spends k c → (c ≫= f) fs = (r, fs') →
  (∃ a fs1, f a fs1 = (r, fs') ∧ pending fs ≤ pending fs1 ≤ pending fs + k ∧ counters fs1 = counters fs) ∨
  (pending fs ≤ pending fs' ≤ pending fs + k ∧ counters fs' = counters fs ∧ ∀ b, r ≠ Ok b).
Proof.
  intros Hc. unfold mbind, M_bind. destruct (c fs) as [[a|e| |] fs1] eqn:E1; destruct (Hc _ _ _ E1) as [H1 H2]; intros E2;
    [left; eauto 10|injection E2 as <- <-; right; split_and!; [lia|lia|done|done]..].
Qed.

(** The work of one extent. *)
Definition reclaim_one (ino snap : Z) (chain : list Z) '((key, visible_snap, extent_bytes) : VisibleSnapRow) : M (Fs D) error Z :=
  extent ← lift (extent_from_bytes extent_bytes);
  offset ← lift (extent_offset_from_key key);
  _ ← on_tree (delete_at (extent_key ino offset) snap chain);
  _ ← (if visible_snap =? snap then on_fs_store (free (x_data_block extent)) else mret tt);
  mret offset.
Lemma reclaim_extents_cons ino snap chain row extents last budget issued fs :
  reclaim_extents ino snap chain (row :: extents) last budget issued fs =
    (if budget =? 0 then mret (false, last, budget, issued) else
     offset ← reclaim_one ino snap chain row; reclaim_extents ino snap chain extents offset (budget - 1) (issued + 1)) fs.
Proof.
  destruct row as [[key vs] eb]. cbn [reclaim_extents]. destruct (budget =? 0); [done|]. unfold reclaim_one, mbind, M_bind, lift.
  destruct (extent_from_bytes eb) as [x|e| |]; [|done..]. destruct (extent_offset_from_key key) as [off|e| |]; [|done..].
  destruct (on_tree _ fs) as [[b|e| |] fs1]; [|done..]. destruct (vs =? snap); [|done]. by destruct (on_fs_store _ fs1) as [[]].
Qed.
Lemma spends_reclaim_one ino snap chain row : spends 1 (reclaim_one ino snap chain row).
Proof.
  destruct row as [[key vs] eb]. unfold reclaim_one. do 2 (apply spends_0_bind; [done|apply spends_lift|intros ?]).
  apply (spends_bind 1 0); [done|apply spends_on_tree, logs_delete|intros _].
  apply spends_0_bind; [done| |intros _; apply (spends_lift (Ok _))]. destruct (_ =? _); [apply spends_store|apply (spends_lift (Ok _))].
Qed.

(** One work item spends its budget and no more; it stops early only when the
    budget is gone. *)
Lemma reclaim_extents_spends ino snap chain extents last budget issued fs r fs' :
  0 ≤ budget → reclaim_extents ino snap chain extents last budget issued fs = (r, fs') →
  pending fs ≤ pending fs' ≤ pending fs + budget ∧ counters fs' = counters fs ∧
  ∀ fin last' b n, r = Ok (fin, last', b, n) →
    0 ≤ b ≤ budget ∧ pending fs' ≤ pending fs + (budget - b) ∧ (fin = false → b = 0) ∧ n - issued = budget - b.
Proof.
  revert last budget issued fs. induction extents as [|row extents IH]; intros last budget issued fs Hb.
  { intros [= <- <-]. split_and!; [lia|lia|done|]. intros ? ? ? ? [= <- <- <- <-]. split_and!; [lia|lia|lia|done|lia]. }
  rewrite reclaim_extents_cons. destruct (Z.eqb_spec budget 0) as [->|Hne].
  { intros [= <- <-]. split_and!; [lia|lia|done|]. intros ? ? ? ? [= <- <- <- <-]. split_and!; [lia|lia|lia|done|lia]. }
  intros [(off & fs1 & E & H1 & H2)|(H1 & H2 & H3)]%(bind_cases 1); [| |apply spends_reclaim_one].
  - destruct (IH off (budget - 1) (issued + 1) fs1 ltac:(lia) E) as (H3 & H4 & H5). split_and!; [lia|lia|congruence|].
    intros fin last' b n Hr. destruct (H5 fin last' b n Hr) as (H6 & H7 & H8 & H9). split_and!; [lia|lia|lia|done|lia].
  - split_and!; [lia|lia|done|]. intros fin last' b n Hr. by destruct (H3 (fin, last', b, n)).
Qed.

Lemma spends_weaken {E A} k k' (c : M (Fs D) E A) : k ≤ k' → spends k c → spends k' c.
Proof. intros Hk Hc fs r fs' E1. destruct (Hc _ _ _ E1). split; [lia|done]. Qed.

(** A run that logs at most [k] records and counts between [lo] and [hi]
    operations. *)
Definition swept (k lo hi : Z) fs (r : res Z) fs' : Prop :=
  pending fs ≤ pending fs' ≤ pending fs + k ∧ counters fs' = counters fs ∧ ∀ n, r = Ok n → lo ≤ n ≤ hi.

Lemma swept_bind {A} k1 k2 k lo hi (c : M (Fs D) error A) (f : A → M (Fs D) error Z) fs r fs' :
  spends k1 c → 0 ≤ k2 → k1 + k2 ≤ k → (∀ a fs1, f a fs1 = (r, fs') → swept k2 lo hi fs1 r fs') →
  (c ≫= f) fs = (r, fs') → swept k lo hi fs r fs'.
Proof.
  intros Hc Hk2 Hk Hf [(a & fs1 & E & H1 & H2)|(H1 & H2 & H3)]%(bind_cases k1); [| |done].
  - destruct (Hf _ _ E) as (H3 & H4 & H5). split_and!; [lia|lia|congruence|done].
  - split_and!; [lia|lia|done|]. intros n ->. by destruct (H3 n).
Qed.
Lemma swept_weaken k lo hi k' lo' hi' fs r fs' :
  swept k lo hi fs r fs' → k ≤ k' → lo' ≤ lo → hi ≤ hi' → swept k' lo' hi' fs r fs'.
Proof. intros (H1 & H2 & H3) ? ? ?. split_and!; [lia|lia|done|]. intros n Hn. specialize (H3 n Hn). lia. Qed.

(** The budget, and one record of progress when it runs out half way. *)
Definition with_progress (budget : Z) : Z := if budget =? 0 then 0 else budget + 1.
Lemma with_progress_le budget : 0 ≤ budget → budget ≤ with_progress budget ≤ budget + 1.
Proof. unfold with_progress. destruct (Z.eqb_spec budget 0); lia. Qed.

Lemma reclaim_orphans_spends orphans budget issued fs r fs' :
  0 ≤ budget → reclaim_orphans orphans budget issued fs = (r, fs') →
  swept (with_progress budget) issued (issued + budget) fs r fs'.
Proof.
  revert budget issued fs. induction orphans as [|[[ino snap] next] orphans IH]; intros budget issued fs Hb; cbn [reclaim_orphans].
  { intros [= <- <-]. pose proof (with_progress_le budget Hb). split_and!; [lia|lia|done|]. intros n [= <-]. lia. }
  unfold with_progress at 1. destruct (Z.eqb_spec budget 0) as [->|Hne]; [intros [= <- <-]; split_and!; [lia|lia|done|]; intros n [= <-]; lia|].
  assert (spends 1 (delete_deleted_inode (D := D) ino snap)) as Hdel by apply spends_on_tree, logs_delete.
  assert (∀ b k fs1, 0 < b → b + k = budget + issued → issued ≤ k →
    (_ ← delete_deleted_inode ino snap; reclaim_orphans orphans (b - 1) (k + 1)) fs1 = (r, fs') →
    swept (b + 1) issued (issued + budget) fs1 r fs') as Hnext.
  { intros b k fs1 Hb0 Hk Hi. apply (swept_bind 1 b); [done|lia|lia|]. intros _ fs2 E. pose proof (with_progress_le (b - 1)).
    eapply swept_weaken; [by apply IH, E; lia|lia..]. }
  apply (swept_bind 0 (budget + 1)); [apply spends_get_snapshot|lia|lia|]. intros [meta|] fs1; [|apply Hnext; lia].
  apply (swept_bind 0 (budget + 1)); [apply spends_chain|lia|lia|]. intros chain fs2. cbn zeta.
  apply (swept_bind 0 (budget + 1)); [apply spends_on_tree, logs_scan|lia|lia|]. intros rows fs3.
  unfold mbind at 1, M_bind at 1.
  destruct (reclaim_extents ino snap chain rows next budget issued fs3) as [[[[[fin last'] b] k]|e| |] fs4] eqn:E4;
    destruct (reclaim_extents_spends _ _ _ _ _ _ _ _ _ _ Hb E4) as (H7 & H8 & H9); [|intros [= <- <-]; split_and!; [lia|lia|done|done]..].
  destruct (H9 fin last' b k eq_refl) as (H10 & H11 & H12 & H13). intros E.
  enough (swept (b + 1) issued (issued + budget) fs4 r fs') as (S1 & S2 & S3) by (split_and!; [lia|lia|congruence|done]).
  destruct fin; [destruct (Z.eqb_spec b 0) as [->|Hnb]; [|by eapply Hnext, E; lia]|specialize (H12 eq_refl); subst b].
  - eapply swept_weaken; [apply (IH 0 k fs4 ltac:(lia) E)|cbn; lia|lia|lia].
  - revert E. apply (swept_bind 1 0); [|lia|lia|].
    + destruct (_ =? _); [apply (spends_weaken 0); [lia|apply (spends_lift (Ok _))]|]. apply spends_on_tree, logs_insert.
    + intros _ fs5 E. eapply swept_weaken; [apply (IH 0 k fs5 ltac:(lia) E)|cbn; lia|lia|lia].
Qed.

(** *** Checkpoint *)
Lemma logs_checkpoint : logs 0 (btree_checkpoint (D := D)).
Proof.
  unfold btree_checkpoint. apply logs_0_bind; [done|apply logs_gets|intros root].
  apply logs_0_bind; [done|apply logs_in_store|intros [root' freed]].
  apply logs_0_bind; [done|apply logs_set_root|intros _]. apply logs_in_store.
Qed.

(** A checkpoint logs nothing; when it succeeds, one frame at most is newer. *)
Definition synced (r : res unit) fs fs' : Prop :=
  pending fs' = pending fs ∧ journal fs' = journal fs ∧ next_journal_seq fs' = next_journal_seq fs ∧
  last_checkpoint_seq fs' = match r with Ok _ => sat_sub (next_journal_seq fs) 1 | _ => last_checkpoint_seq fs end.

Lemma synced_bind {A} (c : M (Fs D) error A) f fs r fs' :
  spends 0 c → (∀ a fs1, f a fs1 = (r, fs') → synced r fs1 fs') → (c ≫= f) fs = (r, fs') → synced r fs fs'.
Proof.
  intros Hc Hf [(a & fs1 & E & H1 & H2)|(H1 & H2 & H3)]%(bind_cases 0); [| |done].
  - destruct (Hf _ _ E) as (H3 & H4 & H5 & H6). injection H2 as J1 J2 J3. unfold synced. rewrite <- J1, <- J2, <- J3. by split_and!; [lia|..].
  - injection H2 as J1 J2 J3. split_and!; [lia|done..|]. rewrite J3. destruct r as [[]|e| |]; [by destruct (H3 tt)|done..].
Qed.

Lemma sync_spends fs r fs' : fs_sync fs = (r, fs') → synced r fs fs'.
Proof.
  unfold fs_sync. apply synced_bind; [apply spends_on_tree, logs_checkpoint|intros _ fs1].
  apply synced_bind; [apply spends_store|intros head fs2]. apply synced_bind; [apply spends_store|intros _ fs3].
  rewrite gets_bind. intros [(? & fs4 & E4 & H1 & H2)|(H1 & H2 & H3)]%(bind_cases 0); [| |apply spends_store].
  2: { injection H2 as J1 J2 J3. split_and!; [lia|done..|]. rewrite J3. destruct r as [[]|e| |]; [by destruct (H3 tt)|done..]. }
  revert E4. intros [(? & fs5 & E5 & H3 & H4)|(H3 & H4 & H5)]%(bind_cases 0); [| |apply spends_store].
  - injection E5 as <- <-. rewrite H2 in H4. injection H4 as J1 J2 J3. split_and!; [unfold pending in *; cbn; lia|cbn; congruence..|done].
  - rewrite H2 in H4. injection H4 as J1 J2 J3. split_and!; [lia|done..|]. rewrite J3. destruct r as [[]|e| |]; [by destruct (H5 tt)|done..].
Qed.

(** *** Appending frames *)
(** At most [k] frames are appended, whatever the outcome, and exactly [k] when the
    computation succeeds. *)
Definition appends {A} (k : Z) (c : M (Fs D) error A) : Prop := ∀ fs r fs',
  c fs = (r, fs') → 0 ≤ next_journal_seq fs → next_journal_seq fs + k < 2 ^ 64 →
  next_journal_seq fs ≤ next_journal_seq fs' ≤ next_journal_seq fs + k ∧ last_checkpoint_seq fs' = last_checkpoint_seq fs ∧
  ∀ a, r = Ok a → next_journal_seq fs' = next_journal_seq fs + k.

Lemma spends_appends {A} k (c : M (Fs D) error A) : spends k c → appends 0 c.
Proof. intros Hc fs r fs' E _ _. destruct (Hc _ _ _ E) as [_ J]. injection J as _ J2 J3. split; [lia|]. split; [lia|]. intros. lia. Qed.

Lemma appends_bind {A B} k1 k2 (c : M (Fs D) error A) (f : A → M (Fs D) error B) :
  0 ≤ k2 → appends k1 c → (∀ a, appends k2 (f a)) → appends (k1 + k2) (c ≫= f).
Proof.
  intros Hk Hc Hf fs r fs'. unfold mbind, M_bind. destruct (c fs) as [[a|e| |] fs1] eqn:E1; intros E2 H1 H2;
    destruct (Hc _ _ _ E1 H1 ltac:(lia)) as (H3 & H4 & H5); [|injection E2 as <- <-; split; [lia|done]..].
  specialize (H5 a eq_refl). destruct (Hf _ _ _ _ E2) as (H6 & H7 & H8); [lia|lia|]. split; [lia|]. split; [congruence|].
  intros b Hb. rewrite (H8 b Hb). lia.
Qed.
Lemma appends_seq : appends 1 (take_journal_seq (D := D)).
Proof.
  intros fs r fs' [= <- <-] H1 H2. cbn. unfold u64. rewrite wrap_small by (unfold in_width; lia). split; [lia|done].
Qed.
Lemma appends_lift {A} (o : res A) : appends 0 (lift (S := Fs D) o).
Proof. apply (spends_appends 0), spends_lift. Qed.

Lemma appends_record rec : appends 1 (append_record (D := D) rec).
Proof.
  apply (appends_bind 1 0); [done|apply appends_seq|intros seq]. apply (appends_bind 0 0); [done|apply appends_lift|intros frame].
  apply (spends_appends 0), spends_store.
Qed.
Lemma appends_end : appends 1 (append_commit_end (D := D)).
Proof.
  apply (appends_bind 1 0); [done|apply appends_seq|intros seq].
  apply (appends_bind 0 0); [done|intros fs r fs' [= <- <-] ? ?; split; [lia|]; split; [done|]; intros; lia|intros fs]. apply (spends_appends 0), spends_store.
Qed.
Lemma appends_records recs : appends (Z.of_nat (length recs)) (forM_ recs (append_record (D := D))).
Proof.
  induction recs as [|rec recs IH]; cbn [forM_ length]; [apply (appends_lift (Ok _))|].
  replace (Z.of_nat (S (length recs))) with (1 + Z.of_nat (length recs)) by lia.
  apply appends_bind; [lia|apply appends_record|intros _; exact IH].
Qed.

(** The tail of a commit: the log goes to the ring and a closing frame after it. *)
Lemma append_log_count fs r fs' :
  (records ← on_tree drain_log; _ ← forM_ records append_record; _ ← append_commit_end; on_fs_store fsync) fs = (r, fs') →
  0 ≤ next_journal_seq fs → next_journal_seq fs + (pending fs + 1) < 2 ^ 64 →
  next_journal_seq fs ≤ next_journal_seq fs' ≤ next_journal_seq fs + (pending fs + 1) ∧
  last_checkpoint_seq fs' = last_checkpoint_seq fs ∧
  ∀ u, r = Ok u → next_journal_seq fs' = next_journal_seq fs + (pending fs + 1).
Proof.
  intros E H1 H2. unfold mbind at 1, M_bind at 1 in E. cbn in E.
  assert (appends (pending fs + 1) (_ ← forM_ (log (tree fs)) append_record; _ ← append_commit_end; on_fs_store fsync)) as Happ.
  { apply appends_bind; [lia|apply appends_records|intros _]. apply (appends_bind 1 0); [done|apply appends_end|intros _].
    apply (spends_appends 0), spends_store. }
  by destruct (Happ _ _ _ E) as (? & ? & ?).
Qed.
End spends.

(** ** Frames in the ring *)
Section frames.
Context {D : Type} `{!BlockDevice D} `{!Crc32}.
Implicit Types fs : Fs D.

(** Frames appended since the last checkpoint: those a mount would have to find. *)
Definition frames fs : Z := next_journal_seq fs - last_checkpoint_seq fs - 1.
(** A commit that finds the soft limit reached checkpoints before it appends. *)
Definition near_limit fs : bool := JOURNAL_RECLAIM_SOFT_LIMIT <=? sat_sub (next_journal_seq fs) (last_checkpoint_seq fs).
Definition frames_at_commit fs : Z := if near_limit fs then 0 else frames fs.
(** The group of a commit: the pending records and the closing frame. *)
Definition group_fits fs : Prop := frames_at_commit fs + (pending fs + 1) ≤ JOURNAL_CAPACITY.
#[global] Instance group_fits_dec fs : Decision (group_fits fs).
Proof. unfold group_fits. apply _. Defined.

Lemma group_fits_small fs : last_checkpoint_seq fs < next_journal_seq fs → pending fs ≤ 64 → group_fits fs.
Proof.
  intros Hs Hp. unfold group_fits, frames_at_commit, near_limit, sat_sub. assert (JOURNAL_CAPACITY = 1024 ∧ JOURNAL_RECLAIM_SOFT_LIMIT = 960) as [-> ->] by done.
  destruct (Z.leb_spec 960 (Z.max 0 (next_journal_seq fs - last_checkpoint_seq fs))); unfold frames; lia.
Qed.

(** Reclaim logs no more than what the soft limit leaves beside the pending records. *)
Lemma commit_reclaim_spends fs :
  let b := reclaim_budget_for_commit fs in
  0 ≤ last_checkpoint_seq fs < next_journal_seq fs →
  spends (Z.max 0 (JOURNAL_RECLAIM_SOFT_LIMIT - frames fs - (pending fs + 1)))
    (if 0 <? b then _ ← reclaim_deleted_inodes (D := D) b; mret tt else mret tt).
Proof.
  intros b Hs.
  assert (b = Z.max 0 (JOURNAL_RECLAIM_SOFT_LIMIT - (frames fs + 1) - (pending fs + 3))) as Eb.
  { unfold b, reclaim_budget_for_commit, sat_sub, frames, pending, RECLAIM_COMMIT_RESERVED_FRAMES. lia. }
  destruct (Z.ltb_spec 0 b); [|apply (spends_weaken 0); [lia|apply (spends_lift (Ok _))]].
  apply (spends_weaken (b + 1 + 0)); [lia|].
  apply spends_bind; [done| |intros _; apply (spends_lift (Ok _))]. unfold reclaim_deleted_inodes.
  apply spends_0_bind; [lia|apply spends_orphans|]. intros orphans fs1 r1 fs1' E1.
  destruct (reclaim_orphans_spends orphans b 0 fs1 r1 fs1' ltac:(lia) E1) as (S1 & S2 & _). pose proof (with_progress_le b ltac:(lia)). split; [lia|done].
Qed.

(** A run of a commit that starts with [f] frames and [p] pending records. *)
Definition grows (f p : Z) (r : res unit) fs' : Prop :=
  f ≤ frames fs' ≤ Z.max (f + (p + 1)) JOURNAL_RECLAIM_SOFT_LIMIT ∧ (r = Ok tt → f + (p + 1) ≤ frames fs').

(** The part of a commit after the soft-limit test. *)
Lemma commit_rest_grows fs r fs' :
  (reclaim_budget ← gets reclaim_budget_for_commit;
   _ ← (if 0 <? reclaim_budget then _ ← reclaim_deleted_inodes reclaim_budget; mret tt else mret tt);
   records ← on_tree drain_log;
   _ ← forM_ records append_record;
   _ ← append_commit_end;
   on_fs_store fsync) fs = (r, fs') →
  0 ≤ last_checkpoint_seq fs < next_journal_seq fs → next_journal_seq fs + pending fs + JOURNAL_CAPACITY < 2 ^ 64 →
  grows (frames fs) (pending fs) r fs'.
Proof.
  intros E Hs Hw. rewrite gets_bind in E. pose proof (commit_reclaim_spends fs Hs) as Hr.
  assert (0 ≤ pending fs) as Hp0 by (unfold pending; lia).
  assert (JOURNAL_CAPACITY = 1024 ∧ JOURNAL_RECLAIM_SOFT_LIMIT = 960) as [Ecap Esoft] by done. unfold grows, frames in *. rewrite Ecap, Esoft in *.
  revert E. intros [(? & fs1 & E & H1 & H2)|(H1 & H2 & H3)]%(bind_cases _ _ _ _ _ _ Hr); injection H2 as _ J2 J3.
  - destruct (append_log_count fs1 r fs' E) as (H4 & H5 & H6); [lia|lia|]. split; [lia|]. intros Hok. specialize (H6 tt Hok). lia.
  - split; [lia|]. intros Hok. by destruct (H3 tt).
Qed.
End frames.

(** ** The claim *)
Section claims.
Context {D : Type} `{!BlockDevice D} `{!Crc32}.
Implicit Types fs : Fs D.

(** C33: a commit stays within the journal ring exactly when its group fits. A commit
    that starts past the soft limit checkpoints first, which leaves no frame in the
    ring; its group is the pending records and a closing frame. However the commit
    ends, the frames since the last checkpoint are at most those it found, the group
    on top of them, or the soft limit: the records that reclaim adds are budgeted
    against the soft limit. When it returns [Ok] the whole group is in the ring, so
    it overruns the ring if and only if the group does not fit; nothing in the commit
    tests that. Up to 64 pending records always fit. *)
Theorem commit_overruns_ring_iff fs r fs' :
  journal fs = true → journal_commit fs = (r, fs') →
  0 ≤ last_checkpoint_seq fs < next_journal_seq fs → next_journal_seq fs + pending fs + JOURNAL_CAPACITY < 2 ^ 64 →
  frames fs ≤ JOURNAL_CAPACITY →
  frames fs' ≤ Z.max (frames fs) (Z.max (frames_at_commit fs + (pending fs + 1)) JOURNAL_RECLAIM_SOFT_LIMIT) ∧
  (group_fits fs → frames fs' ≤ JOURNAL_CAPACITY) ∧
  (r = Ok tt → (frames fs' ≤ JOURNAL_CAPACITY ↔ group_fits fs)) ∧
  (pending fs ≤ 64 → group_fits fs).
Proof using Type.
  intros Hj E Hs Hw Hf.
  enough (frames fs' ≤ Z.max (frames fs) (Z.max (frames_at_commit fs + (pending fs + 1)) JOURNAL_RECLAIM_SOFT_LIMIT) ∧
    (r = Ok tt → frames_at_commit fs + (pending fs + 1) ≤ frames fs')) as [H1 H2].
  { assert (JOURNAL_RECLAIM_SOFT_LIMIT ≤ JOURNAL_CAPACITY) as Hl by done. unfold group_fits in *. split; [done|]. split; [lia|].
    split; [intros Hok; specialize (H2 Hok); lia|]. apply group_fits_small. lia. }
  unfold journal_commit in E. rewrite gets_bind, Hj in E. cbn [negb] in E. rewrite gets_bind in E. unfold frames_at_commit. fold (near_limit fs) in E.
  assert (JOURNAL_CAPACITY = 1024) as Ecap by done.
  destruct (near_limit fs) eqn:Hnear.
  - unfold mbind at 1, M_bind at 1 in E. destruct (fs_sync fs) as [[[]|e| |] fs1] eqn:Es;
      destruct (sync_spends fs _ fs1 Es) as (H1 & H2 & H3 & H4);
      [|injection E as <- <-; unfold frames; rewrite H3, H4; split; [lia|discriminate]..].
    assert (last_checkpoint_seq fs1 = next_journal_seq fs - 1) as H5 by (unfold sat_sub in H4; lia). clear H4.
    destruct (commit_rest_grows fs1 r fs' E) as [G1 G2]; [lia|lia|]. assert (frames fs1 = 0) as F1 by (unfold frames; lia).
    rewrite F1, H1 in *. split; [lia|]. intros Hok. specialize (G2 Hok). lia.
  - destruct (commit_rest_grows fs r fs' E) as [G1 G2]; [lia|lia|]. split; [lia|]. intros Hok. specialize (G2 Hok). lia.
Qed.
End claims.

(** ** A concrete commit *)
#[local] Existing Instance sum_crc.

(** A new tree with [n] records pending, three sequence numbers after the last
    checkpoint. *)
Definition loaded (bt : Btree MemDevice) (n : nat) : Fs MemDevice :=
  {| tree := set_log (replicate n {| lr_sortable_key := versioned [Byte.x61] ROOT_SNAP; lr_kind := Live; lr_value := [] |}) bt;
     next_ino := 2; next_snap_id := 5; next_subvol_id := 2; current_subvol := 1;
     journal := true; next_journal_seq := 5; last_checkpoint_seq := 2 |}.

(** Twenty records stay in the ring; eleven hundred overrun it when the commit
    returns [Ok]. *)
Lemma commit_overruns_ring_iff_witness :
  ∃ bt, create_in in_memory = Ok bt ∧
    frames (journal_commit (loaded bt 20)).2 ≤ JOURNAL_CAPACITY ∧
    ((journal_commit (loaded bt 1100)).1 = Ok tt → JOURNAL_CAPACITY < frames (journal_commit (loaded bt 1100)).2).
Proof.
  destruct (create_in_ok in_memory 100) as (bt & E & _); [lia|lia|apply in_memory_room; unfold OP_BLOCKS; lia|exact (empty_cache_ok in_memory eq_refl)|].
  exists bt. split; [exact E|].
  assert (∀ n, pending (loaded bt n) = Z.of_nat n) as Hp by (intros n; unfold pending, pending_log_len, loaded; cbn [tree]; unfold set_log; cbn [log]; rewrite length_replicate; reflexivity).
  assert (JOURNAL_CAPACITY = 1024) as Ecap by reflexivity.
  split.
  - destruct (commit_overruns_ring_iff (loaded bt 20) _ _ eq_refl (surjective_pairing _)) as (_ & H1 & _ & H2);
      [cbn [loaded last_checkpoint_seq next_journal_seq]; lia|rewrite Hp, Ecap; cbn [loaded next_journal_seq]; lia|unfold frames; cbn [loaded last_checkpoint_seq next_journal_seq]; lia|].
    apply H1, H2. rewrite Hp. lia.
  - intros Hok. destruct (commit_overruns_ring_iff (loaded bt 1100) _ _ eq_refl (surjective_pairing _)) as (_ & _ & H1 & _);
      [cbn [loaded last_checkpoint_seq next_journal_seq]; lia|rewrite Hp, Ecap; cbn [loaded next_journal_seq]; lia|unfold frames; cbn [loaded last_checkpoint_seq next_journal_seq]; lia|].
    destruct (Z.lt_ge_cases JOURNAL_CAPACITY (frames (journal_commit (loaded bt 1100)).2)) as [H2|H2]; [exact H2|].
    apply (H1 Hok) in H2. unfold group_fits, frames_at_commit, near_limit, sat_sub, frames in H2. rewrite Hp, Ecap in H2.
    change JOURNAL_RECLAIM_SOFT_LIMIT with 960 in H2. cbn [loaded last_checkpoint_seq next_journal_seq] in H2. change (960 <=? Z.max 0 (5 - 2)) with false in H2. cbv iota in H2. lia.
Defined.
