(* ===== verification/Crash.v ===== *)
(** * Crash: what a mount finds after power is lost (src/fs.rs, src/journal.rs).

    [journal_commit] appends the records since the last commit to the ring as one
    group, after a checkpoint when the ring is nearly full. [journaled] ties a
    running file system to its image: the map of the last checkpoint, the records
    committed since, and those that are only in memory. It holds in every state
    that operations, commits and checkpoints reach, so a mount of the image at any
    moment finds what was committed last. *)
From Stdlib Require Import Strings.Byte.
From stdpp Require Import base list numbers gmap sorting.
From S2P Require Import Prelude Device BlockBtree NodeRep Merge Storage Journal StoreSpec Heap Btree Leaf Internal Tree TreeRead TreeWrite BtreeSpec Checkpoint FsTypes Fs FsSpec FsOps Snapshot FuseSpec Recovery Reclaim Commit.
#[local] Open Scope rfs_scope.
#[local] Open Scope Z_scope.

(** ** Records and their frames *)
Record rec_good (r : LogRecord) : Prop := {
  rg_key : sortable_wf (lr_sortable_key r);
  rg_value : (length (lr_value r) ≤ MAX_VALUE_SIZE)%nat;
  rg_typed : row_typed (lr_sortable_key r) (lr_value r, lr_kind r);
}.

Lemma wop_record_good o m r : wop_good o → wop_record o m = Some r → rec_good r.
Proof.
  intros [Ho Ht] Hr. pose proof (wop_record_wf _ _ _ Ho Hr) as Hk. destruct o as [key snap kind value|key snap chain]; cbn in *.
  - injection Hr as <-. destruct Ht. by split.
  - unfold delete_record in Hr. destruct (a_visible m key chain) as [[v s]|]; [|done]. injection Hr as <-.
    split; [done|cbn; lia|]. cbn [record_of lr_sortable_key lr_value lr_kind]. revert Ht. unfold row_typed.
    destruct (versioned key snap) as [|b z]; [done|]. destruct (layout (b2z b)) as [[[lo hi] size]|]; [|done].
    intros [? _]. split; [done|]. by case_decide.
Qed.
Lemma log_of_good ops m : Forall wop_good ops → Forall rec_good (log_of ops m).
Proof. intros Hops. apply log_of_Forall. eapply Forall_impl; [exact Hops|]. intros o Ho m' r. by apply wop_record_good. Qed.

Lemma a_replays_typed l m : Forall rec_good l → typed m → typed (a_replays l m).
Proof.
  intros Hl. revert m. induction Hl as [|r l [_ Hv Ht] _ IH]; intros m Hm; [done|]. apply IH. by apply typed_put.
Qed.

Section frames.
Context `{!Crc32} `{!Crc32Range}.

(** The frame a record travels in. *)
Record op_frame (r : LogRecord) (f : JournalFrame) : Prop := {
  of_ok : frame_ok f;
  of_len : jf_op_len f ≤ 184;
  of_kind : frame_kind_of f = Some LoggedOp;
  of_decode : decode_op (jf_op_kind f, payload_of f) = Ok r;
}.

Lemma logged_op_ok seq r :
  in_width 64 seq → rec_good r →
  ∃ f, logged_op seq (kind_to_u8 (lr_kind r)) (encode_log_record r) = Ok f ∧
    op_frame r (frame_stamp_checksum f) ∧ jf_seq (frame_stamp_checksum f) = seq.
Proof using All.
  intros Hs [[_ Hk] Hv _]. set (data := encode_log_record r).
  assert (length data ≤ JOURNAL_OP_CAPACITY)%nat as Hd by (apply log_record_fits; [exact Hk|done]).
  unfold logged_op. rewrite (proj2 (Nat.leb_le _ _) Hd). cbn [assert_that]. mred.
  cbn [frame_new jf_op_data]. rewrite splice_ok by (by rewrite length_replicate). mred.
  eexists. split; [done|]. split; [|done].
  assert (u16 (Z.of_nat (length data)) = Z.of_nat (length data)) as Eu.
  { apply wrap_small. unfold in_width, JOURNAL_OP_CAPACITY in *. lia. }
  rewrite Eu. match goal with |- op_frame _ (frame_stamp_checksum ?g) => set (f := g) end. split.
  - split; [apply stamp_wf|change (jf_seq (frame_stamp_checksum f)) with (jf_seq f); by apply stamp_valid]. split; cbn; try done.
    + unfold in_width. by destruct (lr_kind r).
    + change (in_width 16 (Z.of_nat (length data))). revert Hd. unfold in_width, JOURNAL_OP_CAPACITY. lia.
    + change (length (overwrite (replicate JOURNAL_OP_CAPACITY Byte.x00) 0 data) = JOURNAL_OP_CAPACITY).
      rewrite length_overwrite; [apply length_replicate|by rewrite length_replicate].
  - change (Z.of_nat (length data) ≤ 184). unfold JOURNAL_OP_CAPACITY in *. lia.
  - done.
  - change (decode_log_record (kind_to_u8 (lr_kind r)) (take (Z.to_nat (Z.of_nat (length data)))
      (overwrite (replicate JOURNAL_OP_CAPACITY Byte.x00) 0 data)) = Ok r).
    rewrite Nat2Z.id. unfold overwrite. rewrite take_0, app_nil_l, take_app_length. apply log_record_round_trip. lia.
Qed.
End frames.

(** ** Appending to the ring *)
Section append.
Context {D : Type} `{!BlockDevice D} `{!BlockDeviceLaws D} `{!BlockDeviceTotal D} `{!Crc32} `{!Crc32Range}.
Implicit Types fs : Fs D.

Record ringed fs (sb : Superblock) (h : nat) (t : Tree.tree) (cs : list (Z * list Z)) (frames : list JournalFrame) (m : amap) (n : Z) : Prop := {
  rn_models : bt_models (tree fs) m n;
  rn_durable : durable (store (tree fs)) sb h t cs frames;
  rn_seq : next_journal_seq fs = sb_journal_seq sb + 1 + Z.of_nat (length frames);
}.

(** Device writes apart from the blocks in use leave the data. *)
Lemma device_shelters (V : Z → Prop) (bt : Btree D) h t q d r :
  room (store bt) r → tree_at (store bt) q (root_block bt) h t →
  evolves2 nowhere V (store bt) (set_device d (store bt)) → (∀ k, V k → k < FIRST_DATA_BLOCK_NR) →
  shelters bt (set_store (set_device d (store bt)) bt).
Proof using All.
  intros Hr Ht Hev HV nr b (H1 & H2 & H3). split; [by apply Hev|]. split.
  - apply Hev; [done| |exact (held_block_ok _ _ _ Hr H1)|done]. intros Hv%HV. destruct H1. lia.
  - cbn [set_store store root_block]. rewrite (node_at_tree _ _ _ _ _ _ Ht) in H3.
    intros Hn. apply H3. eapply (node_at_tree _ q); [|exact Hn]. eapply tree_at_evolves; [exact Hev|by intros ? _ []|reflexivity|exact Ht].
Qed.

(** [k] frames later: the device and the sequence number have moved. *)
Definition pushed (k : nat) fs fs' : Prop :=
  shelters (tree fs) (tree fs') ∧
  ∃ d, fs' = set_journal_seq (next_journal_seq fs + Z.of_nat k) (set_tree (set_store (set_device d (store (tree fs))) (tree fs)) fs).

Lemma pushed_0 fs : pushed 0 fs fs.
Proof.
  split; [done|]. exists (device (store (tree fs))). rewrite Z.add_0_r. destruct fs as [bt]. destruct bt as [rb st]. by destruct st.
Qed.
Lemma pushed_app k1 k2 fs fs1 fs2 : pushed k1 fs fs1 → pushed k2 fs1 fs2 → pushed (k1 + k2) fs fs2.
Proof.
  intros [H1 [d1 ->]] [H2 [d2 ->]]. split; [by etransitivity|]. exists d2. unfold set_journal_seq, set_tree, set_store, set_device. cbn.
  by rewrite Nat2Z.inj_add, Z.add_assoc.
Qed.

Lemma ring_push fs sb h t cs frames m n f :
  ringed fs sb h t cs frames m n → frame_ok f → jf_op_len f ≤ 184 → jf_seq f = next_journal_seq fs →
  Z.of_nat (length frames) < JOURNAL_CAPACITY →
  ∃ fs', on_journal (append f) (set_journal_seq (u64 (next_journal_seq fs + 1)) fs) = (Ok tt, fs') ∧
    pushed 1 fs fs' ∧ ringed fs' sb h t cs (frames ++ [f]) m n.
Proof using All.
  intros [[(h' & t' & Ht & Hc) [Hr Hn Hq]] Hd Hseq] Hf Hlen Hjs Hcap. rewrite Hseq in Hjs.
  destruct (append_frame_ok _ _ _ _ _ _ _ f Hr Hd Hf Hlen Hjs Hcap) as (d & Ea & Hev & Hr' & Hd').
  assert (u64 (next_journal_seq fs + 1) = next_journal_seq fs + 1) as ->.
  { apply wrap_small. pose proof (rs_start _ _ _ (du_ring _ _ _ _ _ _ Hd)). unfold in_width. lia. }
  set (fs' := set_journal_seq (next_journal_seq fs + Z.of_nat 1) (set_tree (set_store (set_device d (store (tree fs))) (tree fs)) fs)).
  assert (shelters (tree fs) (tree fs')) as Hsh.
  { eapply device_shelters; [exact Hr|exact Ht|exact Hev|]. by intros k [_ Hk]. }
  exists fs'. split; [|split; [by split; [|exists d]|]].
  - unfold on_journal. apply on_fs_store_ok with (fs := set_journal_seq (next_journal_seq fs + 1) fs). unfold zoom. cbn. by rewrite Ea.
  - split; [|exact Hd'|].
    + split; [|split; [exact Hr'|done|done]]. exists h', t'. split; [|done].
      eapply tree_at_evolves; [exact Hev|by intros k _ []|reflexivity|exact Ht].
    + change (next_journal_seq fs') with (next_journal_seq fs + 1). rewrite Hseq, length_app. cbn [length]. lia.
Qed.

Lemma append_record_ok fs sb h t cs frames m n r :
  ringed fs sb h t cs frames m n → rec_good r → Z.of_nat (length frames) < JOURNAL_CAPACITY →
  ∃ fs' f, append_record r fs = (Ok tt, fs') ∧ op_frame r f ∧ pushed 1 fs fs' ∧ ringed fs' sb h t cs (frames ++ [f]) m n.
Proof using All.
  intros Hrn Hg Hcap. pose proof (rs_start _ _ _ (du_ring _ _ _ _ _ _ (rn_durable _ _ _ _ _ _ _ _ Hrn))) as Hst.
  destruct (logged_op_ok (next_journal_seq fs) r) as (f & El & Hof & Es); [|done|].
  { rewrite (rn_seq _ _ _ _ _ _ _ _ Hrn). unfold in_width. lia. }
  destruct (ring_push fs sb h t cs frames m n _ Hrn (of_ok _ _ Hof) (of_len _ _ Hof) Es Hcap) as (fs' & Ea & Hp & Hrn').
  exists fs', (frame_stamp_checksum f). split; [|done].
  unfold append_record, take_journal_seq. unfold mbind at 1, M_bind at 1. rewrite gets_bind, modify_bind. cbn beta iota.
  unfold mret, M_ret. by mstep El.
Qed.

Lemma append_records_ok l fs sb h t cs frames m n :
  ringed fs sb h t cs frames m n → Forall rec_good l → Z.of_nat (length frames + length l) ≤ JOURNAL_CAPACITY →
  ∃ fs' fl, forM_ l append_record fs = (Ok tt, fs') ∧ Forall2 op_frame l fl ∧ pushed (length l) fs fs' ∧
    ringed fs' sb h t cs (frames ++ fl) m n.
Proof using All.
  intros Hrn Hl. revert fs frames Hrn. induction Hl as [|r l Hr _ IH]; intros fs frames Hrn Hcap; cbn [length] in Hcap.
  { exists fs, []. rewrite app_nil_r. split; [done|]. split; [constructor|]. split; [apply pushed_0|done]. }
  destruct (append_record_ok fs sb h t cs frames m n r Hrn Hr ltac:(lia)) as (fs1 & f & E1 & Hf & Hp1 & Hrn1).
  destruct (IH fs1 (frames ++ [f]) Hrn1) as (fs' & fl & E & Hfl & Hp & Hrn'); [rewrite length_app; cbn [length]; lia|].
  exists fs', (f :: fl). cbn [forM_]. rewrite (M_bind_ok _ _ _ _ _ E1). split; [done|]. split; [by constructor|].
  split; [exact (pushed_app 1 _ _ _ _ Hp1 Hp)|]. by rewrite <- app_assoc in Hrn'.
Qed.
End append.

(** ** One commit group *)
Section group.
Context {D : Type} `{!BlockDevice D} `{!BlockDeviceLaws D} `{!BlockDeviceTotal D} `{!Crc32} `{!Crc32Range}.
Implicit Types fs : Fs D.

(** The frame that closes a group carries the scalars of the file system. *)
Record closes fs (e : JournalFrame) : Prop := {
  cl_kind : frame_kind_of e = Some CommitEnd;
  cl_next : jf_next_block_nr e = next_block_nr (store (tree fs));
  cl_counters : (jf_next_ino e, jf_next_snap_id e, jf_next_subvol_id e, jf_current_subvol e) = counters_of fs;
}.

Lemma append_commit_end_ok fs sb h t cs frames m n :
  ringed fs sb h t cs frames m n → counters_ok fs → Z.of_nat (length frames) < JOURNAL_CAPACITY →
  ∃ fs' e, append_commit_end fs = (Ok tt, fs') ∧ closes fs e ∧ pushed 1 fs fs' ∧ ringed fs' sb h t cs (frames ++ [e]) m n.
Proof using All.
  intros Hrn [Hc1 Hc2 Hc3 Hc4] Hcap. pose proof (rs_start _ _ _ (du_ring _ _ _ _ _ _ (rn_durable _ _ _ _ _ _ _ _ Hrn))) as Hst.
  pose proof Hrn as [[(h' & t' & Ht & _) [Hr Hn Hq]] _ Hseq].
  set (e := commit_end (next_journal_seq fs) (root_block (tree fs)) (next_block_nr (store (tree fs))) (next_bset_seq (tree fs))
    (next_ino fs) (next_snap_id fs) (next_subvol_id fs) (current_subvol fs)).
  assert (frame_ok (frame_stamp_checksum e)) as Hok.
  { split; [apply stamp_wf|change (jf_seq (frame_stamp_checksum e)) with (jf_seq e); by apply stamp_valid].
    pose proof Hr as ([? _ _] & _ & Hmax). assert (0 < FIRST_DATA_BLOCK_NR) by done. split; cbn; try done.
    - rewrite Hseq. unfold in_width. lia.
    - destruct (ta_owned _ _ _ _ _ Ht) as [_ Hh]. rewrite Forall_forall in Hh. rewrite <- (ta_root _ _ _ _ _ Ht).
      eapply held_width; [exact Hr|apply Hh, t_nr_blocks].
    - unfold in_width, OP_BLOCKS in *. lia.
    - unfold in_width. lia. }
  destruct (ring_push fs sb h t cs frames m n (frame_stamp_checksum e) Hrn Hok) as (fs' & Ea & Hp & Hrn'); [done|done|done|].
  exists fs', (frame_stamp_checksum e). split; [|by split; [split|]].
  unfold append_commit_end, take_journal_seq. unfold mbind at 1, M_bind at 1. rewrite gets_bind, modify_bind. cbn beta iota.
  unfold mret, M_ret. rewrite gets_bind. exact Ea.
Qed.

Lemma fsync_ok fs sb h t cs frames m n :
  ringed fs sb h t cs frames m n →
  ∃ fs', on_fs_store fsync fs = (Ok tt, fs') ∧ pushed 0 fs fs' ∧ ringed fs' sb h t cs frames m n.
Proof using All.
  intros [[(h' & t' & Ht & Hc) [Hr Hn Hq]] Hd Hseq].
  destruct (fsync_ev _ _ Hr) as (s' & E & Hev & Hr' & Hrd & Es). eexists. split; [by apply on_fs_store_ok|].
  split.
  { split; [rewrite Es in Hev |- *; eapply device_shelters; [exact Hr|exact Ht|exact Hev|by intros k []]|].
    exists (device s'); rewrite Es; cbn; by destruct fs; rewrite Z.add_0_r. }
  split; [|cbn|done].
  - split; [|split; [exact Hr'|done|done]]. exists h', t'. split; [|done].
    eapply tree_at_evolves; [exact Hev|by intros k _ []|reflexivity|exact Ht].
  - eapply (durable_step (store (tree fs))); [| | | | |exact Hr|exact Hd].
    + intros k. by rewrite Es.
    + by rewrite Es.
    + by rewrite Es.
    + intros k _ _ _ o len bs _ _. by rewrite Hrd.
    + eapply ring_same; [|apply Hd]. intros k _ o len bs _ _. by rewrite Hrd.
Qed.

Lemma commit_group_ok l fs sb h t cs frames m n :
  ringed fs sb h t cs frames m n → Forall rec_good l → counters_ok fs → Z.of_nat (length frames + length l + 1) ≤ JOURNAL_CAPACITY →
  ∃ fs' fl e, (_ ← forM_ l append_record; _ ← append_commit_end; on_fs_store fsync) fs = (Ok tt, fs') ∧
    pushed (S (length l)) fs fs' ∧ Forall2 op_frame l fl ∧ closes fs e ∧ ringed fs' sb h t cs (frames ++ fl ++ [e]) m n.
Proof using All.
  intros Hrn Hl Hc Hcap. destruct (append_records_ok l fs sb h t cs frames m n Hrn Hl ltac:(lia)) as (fs1 & fl & E1 & Hfl & Hp1 & Hrn1).
  pose proof (Forall2_length _ _ _ Hfl) as Hlen.
  destruct (append_commit_end_ok fs1 sb h t cs (frames ++ fl) m n Hrn1) as (fs2 & e & E2 & He & Hp2 & Hrn2).
  { destruct Hp1 as [_ [d ->]]. by destruct Hc. }
  { rewrite length_app. lia. }
  destruct (fsync_ok fs2 sb h t cs _ m n Hrn2) as (fs3 & E3 & Hp3 & Hrn3). rewrite <- app_assoc in Hrn3.
  exists fs3, fl, e. rewrite (M_bind_ok _ _ _ _ _ E1), (M_bind_ok _ _ _ _ _ E2). split; [done|]. split.
  { replace (S (length l)) with (length l + 1 + 0)%nat by lia. eapply pushed_app; [|exact Hp3]. by eapply pushed_app. }
  split; [done|]. split; [|done]. destruct Hp1 as [_ [d ->]]. by destruct He.
Qed.
End group.

(** *** What a group adds to recovery *)
Lemma mapM_app {E A B} (f : A → outcome E B) l1 l2 r1 r2 :
  mapM f l1 = Ok r1 → mapM f l2 = Ok r2 → mapM f (l1 ++ l2) = Ok (r1 ++ r2).
Proof.
  revert r1. induction l1 as [|x l1 IH]; intros r1; cbn [mapM app]; [by intros [= <-]|].
  intros (y & E1 & (r & E2 & [= <-])%outcome_bind_Ok_inv)%outcome_bind_Ok_inv E3. rewrite E1. mred. by rewrite (IH r E2 E3).
Qed.

Section recovered.
Context `{!Crc32} `{!Crc32Range}.

Lemma op_frames_kind l fl : Forall2 op_frame l fl → Forall (λ f, frame_kind_of f = Some LoggedOp) fl.
Proof. induction 1 as [|r f l fl Hf _ IH]; constructor; [apply Hf|done]. Qed.
Lemma op_frames_records l fl : Forall2 op_frame l fl → mapM decode_op ((λ f, (jf_op_kind f, payload_of f)) <$> fl) = Ok l.
Proof.
  induction 1 as [|r f l fl Hf _ IH]; [done|]. cbn [fmap list_fmap mapM]. rewrite (of_decode _ _ Hf). mred. by rewrite IH.
Qed.

Lemma group_records frames R l fl e :
  complete_run frames → records_of frames = Ok R → Forall2 op_frame l fl → frame_kind_of e = Some CommitEnd →
  complete_run (frames ++ fl ++ [e]) ∧ records_of (frames ++ fl ++ [e]) = Ok (R ++ l) ∧
  last (groups_of (frames ++ fl ++ [e])) = Some {| cg_ops := (λ f, (jf_op_kind f, payload_of f)) <$> fl; cg_end := e |}.
Proof.
  intros Hrun HR Hfl He. pose proof (op_frames_kind _ _ Hfl) as Hk. destruct (group_tail frames fl e Hrun Hk He) as [Eg Ec].
  split; [split|split].
  - apply Forall_app. split; [apply Hrun|]. apply Forall_app. split; [eapply Forall_impl; [exact Hk|]; by intros f ->|].
    apply Forall_singleton. by rewrite He.
  - rewrite Ec, !length_app. cbn [length]. lia.
  - unfold records_of. rewrite Eg, fmap_app, concat_app. eapply mapM_app; [exact HR|]. cbn. rewrite app_nil_r. by apply op_frames_records.
  - rewrite Eg. apply last_snoc.
Qed.
End recovered.

(** ** The invariant *)
Section journaled.
Context {D : Type} `{!BlockDevice D} `{!BlockDeviceLaws D} `{!BlockDeviceTotal D} `{!Crc32} `{!Crc32Range}.
Implicit Types fs : Fs D.

(** What a map and its counters need to be mounted. *)
Definition map_ok (m : amap) (c : Z * Z * Z * Z) : Prop :=
  let '(_, snap, subvol, cur) := c in ids_ok m snap subvol ∧ in_width 32 cur ∧ is_Some (a_subvol m cur).

(** The image of a running file system: the tree of the last checkpoint stands for
    [base], and the ring holds whole groups with the records [R]. A mount must have
    room to replay them, for [MOUNT_SLACK] writes in all. *)
Definition MOUNT_SLACK : Z := 2048.
Record image fs (sb : Superblock) (h : nat) (t : Tree.tree) (cs : list (Z * list Z)) (frames : list JournalFrame)
    (base : amap) (R : list LogRecord) : Prop := {
  im_durable : durable (store (tree fs)) sb h t cs frames;
  im_base k : base k = row_of <$> content t k;
  im_typed : typed base;
  im_run : complete_run frames;
  im_records : records_of frames = Ok R;
  im_good : Forall rec_good R;
  im_length : (length R ≤ length frames)%nat;
  im_next : sb_next_block_nr sb ≤ last_next_block sb frames ∧ last_next_block sb frames + OP_BLOCKS * MOUNT_SLACK ≤ 2 ^ 52;
  im_bset : sb_next_bset_seq sb + 2 * MOUNT_SLACK < 2 ^ 64 - 1;
  im_seq : next_journal_seq fs = sb_journal_seq sb + 1 + Z.of_nat (length frames) ∧ last_checkpoint_seq fs = sb_journal_seq sb;
}.

(** [mc] and [cc] are the map and the counters a mount finds, [m] is the map in
    memory; there is room for [n] more writes. *)
Record journaled fs (mc : amap) (cc : Z * Z * Z * Z) (m : amap) (n : Z) : Prop := {
  jn_image : ∃ sb h t cs frames base R, image fs sb h t cs frames base R ∧ a_replays R base ≡ mc ∧ last_counters sb frames = cc;
  jn_mounts : map_ok mc cc;
  jn_inv : fs_inv fs m n;
  jn_log : Forall rec_good (log (tree fs)) ∧ a_replays (log (tree fs)) mc ≡ m;
  jn_on : journal fs = true ∧ logging (tree fs) = true;
  jn_ino : in_width 64 (next_ino fs);
}.

Lemma image_frozen fs fs' n m sb h t cs frames base R :
  frozen (store (tree fs)) (store (tree fs')) → steady fs fs' → bt_models (tree fs) m n →
  image fs sb h t cs frames base R → image fs' sb h t cs frames base R.
Proof.
  intros Hf (_ & Hs & Hc & _) [_ [Hr _ _]] []. split; try done; [by eapply durable_frozen|]. by rewrite Hs, Hc.
Qed.

(** An operation adds its records to the log and leaves the image alone. *)
Lemma wrote_journaled fs fs' mc cc m n n' ops :
  journaled fs mc cc m n → wrote fs m ops fs' → steady fs fs' → fs_inv fs' (a_run ops m) n' → journaled fs' mc cc (a_run ops m) n'.
Proof.
  intros [(sb & h & t & cs & frames & base & R & Him & Hmc & Hcc) Hok Hinv [Hg Hlog] [Hj Hl] Hino] (L & K & G) Hst Hinv'.
  destruct Hst as (S1 & S2 & S3 & S4). unfold log_after in L. rewrite Hl in L. split; [|done|done| | |].
  - exists sb, h, t, cs, frames, base, R. split; [|done].
    eapply image_frozen; [apply K|done|apply Hinv|exact Him].
  - rewrite L. split; [apply Forall_app; split; [done|by apply log_of_good]|]. rewrite a_replays_app. by apply replays_run.
  - rewrite S1. split; [done|]. by rewrite (kp_logging _ _ K).
  - by rewrite S4.
Qed.

Lemma op_journaled fs mc cc m n o :
  journaled fs mc cc m (4 + n) → 0 ≤ n → fop_ok o →
  ∃ r fs' ops, run_fop o fs = (r, fs') ∧ (r = Ok tt ∨ ∃ e, r = Err e) ∧ journaled fs' mc cc (a_run ops m) n ∧ Forall no_extent ops.
Proof using All.
  intros Hj Hn Ho. destruct (step_inv fs m n o (jn_inv _ _ _ _ _ Hj) Hn Ho) as (r & fs' & ops & E & Hr & Hinv & [W Hx Hs]).
  exists r, fs', ops. split; [done|]. split; [done|]. split; [by eapply wrote_journaled|done].
Qed.

Lemma journaled_counters fs mc cc m n : journaled fs mc cc m n → counters_ok fs ∧ map_ok m (counters_of fs).
Proof.
  intros Hj. pose proof (jn_inv _ _ _ _ _ Hj) as [_ Hids Hw Hcur]. split; [|by split]. split; [apply Hj| |apply Hids|done].
  pose proof (io_snap _ _ _ Hids). unfold in_width, ROOT_SNAP in *. lia.
Qed.

(** A checkpoint leaves an empty ring. *)
Lemma synced_image fs m n fs' sb h t cs :
  synced_to fs m n fs' sb h t cs → fs_inv fs m n → MOUNT_SLACK ≤ n →
  image fs' sb h t cs [] m [] ∧ last_counters sb [] = counters_of fs.
Proof using All.
  intros Hy Hinv Hn. pose proof (sy_sb _ _ _ _ _ _ _ _ Hy) as (Z1 & Z2 & Z3 & Z4 & Z5 & Z6 & Z7). pose proof Hinv as [Hfs _ _ _].
  split; [|cbn; unfold counters_of; congruence]. split; try done; [apply Hy|apply Hy|apply Hfs| | |].
  - cbn. rewrite Z7. split; [done|]. destruct (sy_models _ _ _ _ _ _ _ _ Hy) as [_ [(_ & _ & Hroom) _ _]]. unfold OP_BLOCKS, MOUNT_SLACK in *. lia.
  - rewrite Z5. destruct (fm_bt _ _ _ Hfs) as [_ [_ _ [_ Hq]]]. lia.
  - rewrite (sy_rest _ _ _ _ _ _ _ _ Hy), Z6. cbn. lia.
Qed.

(** A checkpoint makes the map in memory the one a mount finds. *)
Lemma synced_journaled fs m n fs' sb h t cs :
  synced_to fs m n fs' sb h t cs → fs_inv fs m n → MOUNT_SLACK ≤ n →
  Forall rec_good (log (tree fs)) → a_replays (log (tree fs)) m ≡ m → journal fs = true → logging (tree fs) = true →
  in_width 64 (next_ino fs) →
  journaled fs' m (counters_of fs) m n ∧ log (tree fs') = log (tree fs) ∧ counters_of fs' = counters_of fs ∧
  next_journal_seq fs' = next_journal_seq fs ∧ last_checkpoint_seq fs' = next_journal_seq fs - 1.
Proof using All.
  intros Hy Hinv Hn Hg Hlog Hjo Hlo Hino. destruct (synced_image _ _ _ _ _ _ _ _ Hy Hinv Hn) as [Him Hlc].
  destruct Hy as [Y1 _ _ _ _ _ _ [L1 L2] Y5 _ _].
  assert (counters_of fs' = counters_of fs ∧ next_journal_seq fs' = next_journal_seq fs ∧ last_checkpoint_seq fs' = next_journal_seq fs - 1 ∧
    journal fs' = journal fs ∧ next_ino fs' = next_ino fs) as (C1 & C2 & C3 & C4 & C5) by (rewrite Y5; done).
  pose proof Hinv as [Hfs Hids Hw Hcur]. split; [|done]. split; [|done| | | |].
  - by exists sb, h, t, cs, [], m, [].
  - injection C1 as I1 I2 I3 I4. split; rewrite ?I2, ?I3, ?I4; [|done..]. split; [done|apply Hfs].
  - by rewrite L1.
  - by rewrite C4, L2.
  - by rewrite C5.
Qed.

Lemma sync_synced fs mc cc m n :
  journaled fs mc cc m n → 4 * next_block_nr (store (tree fs)) + OP_BLOCKS * n < 2 ^ 52 - 1 →
  next_journal_seq fs + 2 * JOURNAL_CAPACITY < 2 ^ 64 →
  ∃ fs' sb h t cs, fs_sync fs = (Ok tt, fs') ∧ synced_to fs m n fs' sb h t cs.
Proof using All.
  intros Hj Hbig Hseq. destruct (journaled_counters _ _ _ _ _ Hj) as [Hco _].
  pose proof Hj as [(sb & h & t & cs & frames & base & R & Him & Hmc & Hcc) _ Hinv _ _ _].
  pose proof (im_seq _ _ _ _ _ _ _ _ Him) as [Hns _]. pose proof (im_durable _ _ _ _ _ _ _ _ Him) as Hd.
  assert (0 ≤ sb_journal_seq sb) as Hsb by (destruct (du_wf _ _ _ _ _ _ Hd) as [Hw _]; apply (swf_jseq _ Hw)).
  apply (fs_sync_ok fs m n (sb_journal_seq sb + 1) frames); [apply Hinv|done|done|apply Hd|done|lia|done].
Qed.

Lemma sync_journaled fs mc cc m n :
  journaled fs mc cc m n → MOUNT_SLACK ≤ n → 4 * next_block_nr (store (tree fs)) + OP_BLOCKS * n < 2 ^ 52 - 1 →
  next_journal_seq fs + 2 * JOURNAL_CAPACITY < 2 ^ 64 →
  ∃ fs', fs_sync fs = (Ok tt, fs') ∧ journaled fs' m (counters_of fs) m n ∧ log (tree fs') = log (tree fs) ∧
    counters_of fs' = counters_of fs ∧ next_journal_seq fs' = next_journal_seq fs ∧ last_checkpoint_seq fs' = next_journal_seq fs - 1 ∧
    shelters (tree fs) (tree fs').
Proof using All.
  intros Hj Hn Hbig Hseq. pose proof Hj as [_ _ Hinv [Hg Hlog] [Hjo Hlo] Hino].
  destruct (sync_synced fs mc cc m n Hj Hbig Hseq) as (fs' & sb' & h' & t' & cs' & E & Hy).
  exists fs'. split; [done|]. edestruct (synced_journaled fs m n fs' sb' h' t' cs' Hy) as (Hj' & S1 & S2 & S3 & S4); try done.
  { rewrite <- Hlog at 1. by rewrite a_replays_idem. }
  do 5 (split; [done|]). apply Hy.
Qed.
End journaled.

(** ** Commits *)
Section commit.
Context {D : Type} `{!BlockDevice D} `{!BlockDeviceLaws D} `{!BlockDeviceTotal D} `{!Crc32} `{!Crc32Range}.
Implicit Types fs : Fs D.

Lemma reclaims_inv b fs m n n' ops fs' : fs_inv fs m n' → reclaims b fs m n ops fs' → fs_inv fs' (a_run ops m) n.
Proof using All.
  intros [_ Hids Hw Hcur] (Hfs' & T & _ & Hops & _). destruct (view_exists _ _ Hcur) as (s & l & Hv).
  pose proof (view_width _ _ _ _ Hv) as Ws. destruct (view_above _ _ _ _ _ _ Hv Hw Hids) as [Hlt _].
  assert (Forall (local_op s) ops) as Hloc by (eapply Forall_impl; [exact Hops|]; intros o; apply orphan_op_local).
  split; [done|..]; rewrite T; cbn [set_tree next_snap_id next_subvol_id current_subvol]; [by eapply ids_ok_local|done|].
  by rewrite (local_subvol s).
Qed.

Lemma reclaim_journaled b fs mc cc m n :
  journaled fs mc cc m (b + n) → 0 ≤ b → 0 ≤ n → reclaimable m →
  ∃ k ops fs', reclaim_deleted_inodes b fs = (Ok k, fs') ∧ journaled fs' mc cc (a_run ops m) n ∧ fs' = set_tree (tree fs') fs ∧
    (length (log (tree fs')) ≤ length (log (tree fs)) + length ops)%nat ∧ Z.of_nat (length ops) ≤ b ∧
    Forall orphan_op ops ∧ (no_orphans m → ops = []) ∧ shelters (tree fs) (tree fs').
Proof using All.
  intros Hj Hb Hn Hrec. pose proof (jn_inv _ _ _ _ _ Hj) as Hinv.
  destruct (reclaimable_ok b fs m n Hb Hn (fi_models _ _ _ Hinv) Hrec) as (k & ops & fs' & E & Hr & Hno).
  pose proof (reclaims_inv _ _ _ _ _ _ _ Hinv Hr) as Hinv'. pose proof Hr as (_ & T & W & Hops & Hl). pose proof W as (L & K & _).
  exists k, ops, fs'. split; [done|]. split; [by eapply wrote_journaled; [|exact W|apply steady_tree|]|].
  split; [done|]. split; [|split; [done|split; [done|split; [done|by eapply kept_shelters; [apply Hinv|]]]]].
  rewrite L. unfold log_after. rewrite length_app. pose proof (length_log_of ops m). destruct (logging (tree fs)); cbn [length]; lia.
Qed.

Definition commit_log : M (Fs D) error unit :=
  records ← on_tree drain_log;
  _ ← forM_ records append_record;
  _ ← append_commit_end;
  on_fs_store fsync.

(** The frames since the checkpoint, and those the log will add. *)
Definition ring_load fs : Z := next_journal_seq fs - last_checkpoint_seq fs + Z.of_nat (length (log (tree fs))).

Lemma commit_log_journaled fs mc cc m n :
  journaled fs mc cc m n → MOUNT_SLACK ≤ n → ring_load fs ≤ JOURNAL_CAPACITY →
  ∃ fs', commit_log fs = (Ok tt, fs') ∧ journaled fs' m (counters_of fs) m n ∧ counters_of fs' = counters_of fs ∧
    log (tree fs') = [] ∧ shelters (tree fs) (tree fs').
Proof using All.
  intros Hj Hn Hcap. destruct (journaled_counters _ _ _ _ _ Hj) as [Hco Hmo].
  pose proof Hj as [(sb & h & t & cs & frames & base & R & Him & Hmc & Hcc) _ Hinv [Hg Hlog] [Hjo Hlo] Hino].
  pose proof (im_seq _ _ _ _ _ _ _ _ Him) as [Hns Hlc]. pose proof (im_durable _ _ _ _ _ _ _ _ Him) as Hd.
  unfold ring_load in Hcap. set (l := log (tree fs)) in *. set (fs1 := set_tree (set_log [] (tree fs)) fs).
  assert (ringed fs1 sb h t cs frames m n) as Hrn by (split; [by destruct (fm_bt _ _ _ (fi_models _ _ _ Hinv))|exact Hd|exact Hns]).
  destruct (commit_group_ok l fs1 sb h t cs frames m n Hrn Hg) as (fs' & fl & e & E & [Hsh [d Hp]] & Hfl & He & [Hbt Hd' Hs']);
    [by destruct Hco|lia|].
  destruct (group_records frames R l fl e (im_run _ _ _ _ _ _ _ _ Him) (im_records _ _ _ _ _ _ _ _ Him) Hfl (cl_kind _ _ He)) as (G1 & G2 & G3).
  pose proof (Forall2_length _ _ _ Hfl) as Hlen.
  assert (counters_of fs' = counters_of fs ∧ journal fs' = journal fs ∧ last_checkpoint_seq fs' = last_checkpoint_seq fs ∧
    log (tree fs') = [] ∧ logging (tree fs') = logging (tree fs)) as (C1 & C2 & C3 & C4 & C5) by (rewrite Hp; done).
  exists fs'. split; [|split; [split; [|done| | | |]|split; [done|split; [done|exact Hsh]]]].
  - unfold commit_log. rewrite (M_bind_ok _ _ fs l fs1); [exact E|done].
  - exists sb, h, t, cs, (frames ++ fl ++ [e]), base, (R ++ l). split; [split|split].
    + exact Hd'.
    + apply Him.
    + apply Him.
    + done.
    + done.
    + apply Forall_app. split; [apply Him|done].
    + pose proof (im_length _ _ _ _ _ _ _ _ Him). rewrite !length_app. cbn [length]. lia.
    + unfold last_next_block. rewrite G3. cbn [cg_end]. rewrite (cl_next _ _ He). change (store (tree fs1)) with (store (tree fs)).
      split; [apply Hd|]. destruct (fm_bt _ _ _ (fi_models _ _ _ Hinv)) as [_ [(_ & _ & Hroom) _ _]]. unfold OP_BLOCKS, MOUNT_SLACK in *. lia.
    + apply Him.
    + split; [exact Hs'|by rewrite C3].
    + rewrite a_replays_app, Hmc. exact Hlog.
    + unfold last_counters. rewrite G3. cbn [cg_end]. exact (cl_counters _ _ He).
  - pose proof Hinv as [Hfs Hids Hw Hcur]. pose proof C1 as [= I1 I2 I3 I4]. split; rewrite ?I2, ?I3, ?I4; [|done..]. split; [done|apply Hfs].
  - rewrite C4. done.
  - by rewrite C2, C5.
  - injection C1 as -> _. done.
Qed.

(** What a commit leaves: the map in memory, less the work items [ops] retire, is
    the one a mount finds. *)
Record committed_as fs (m : amap) (n : Z) (ops : list wop) fs' : Prop := {
  ca_journaled : journaled fs' (a_run ops m) (counters_of fs) (a_run ops m) n;
  ca_counters : counters_of fs' = counters_of fs;
  ca_log : log (tree fs') = [];
  ca_ops : Forall orphan_op ops;
  ca_idle : no_orphans m → ops = [];
  ca_shelters : shelters (tree fs) (tree fs');
}.

(** The work items a commit reclaims before it writes its group. *)
Definition commit_begin : M (Fs D) error unit :=
  reclaim_budget ← gets reclaim_budget_for_commit;
  if 0 <? reclaim_budget then _ ← reclaim_deleted_inodes reclaim_budget; mret tt else mret tt.

Lemma journaled_at_least n' n fs mc cc m : 0 ≤ n' ≤ n → journaled fs mc cc m n → journaled fs mc cc m n'.
Proof. intros Hn []. split; try done. by eapply fs_inv_weaken. Qed.

Lemma begin_journaled fs mc cc m n :
  journaled fs mc cc m (JOURNAL_CAPACITY + n) → 0 ≤ n → reclaimable m →
  ∃ fs' ops, commit_begin fs = (Ok tt, fs') ∧ journaled fs' mc cc (a_run ops m) n ∧ fs' = set_tree (tree fs') fs ∧
    ring_load fs' ≤ Z.max (ring_load fs) JOURNAL_RECLAIM_SOFT_LIMIT ∧
    Forall orphan_op ops ∧ (no_orphans m → ops = []) ∧ shelters (tree fs) (tree fs').
Proof using All.
  intros Hj Hn Hrec. unfold commit_begin. rewrite gets_bind. set (b := reclaim_budget_for_commit fs).
  assert (JOURNAL_CAPACITY = 1024 ∧ JOURNAL_RECLAIM_SOFT_LIMIT = 960) as [Ecap Esoft] by done.
  assert (0 ≤ next_journal_seq fs - last_checkpoint_seq fs) as H0'.
  { destruct (jn_image _ _ _ _ _ Hj) as (sb & h & t & cs & frames & base & R & Him & _). destruct (im_seq _ _ _ _ _ _ _ _ Him). lia. }
  assert (b = Z.max 0 (JOURNAL_RECLAIM_SOFT_LIMIT - (next_journal_seq fs - last_checkpoint_seq fs) - (Z.of_nat (length (log (tree fs))) + 3))) as Eb.
  { unfold b, reclaim_budget_for_commit, sat_sub, pending_log_len, RECLAIM_COMMIT_RESERVED_FRAMES. lia. }
  destruct (Z.ltb_spec 0 b) as [Hb|Hb].
  - destruct (reclaim_journaled b fs mc cc m n) as (k & ops & fs1 & E & Hj1 & T & Hl & Hlb & Hops & Hno & Hsh);
      [by eapply journaled_at_least; [|exact Hj]; lia|lia|lia|done|].
    exists fs1, ops. rewrite (M_bind_ok _ _ _ _ _ E). do 3 (split; [done|]). split; [|done].
    unfold ring_load. rewrite T. cbn [set_tree next_journal_seq last_checkpoint_seq tree]. lia.
  - exists fs, []. split; [done|]. split; [by eapply journaled_at_least; [|exact Hj]; lia|].
    split; [by destruct fs|]. split; [lia|]. split; [constructor|]. by split.
Qed.

(** The part of a commit after the soft-limit test. *)
Lemma commit_rest_journaled fs mc cc m n :
  journaled fs mc cc m (JOURNAL_CAPACITY + n) → MOUNT_SLACK ≤ n →
  ring_load fs ≤ JOURNAL_CAPACITY → reclaimable m →
  ∃ fs' ops, (reclaim_budget ← gets reclaim_budget_for_commit;
     _ ← (if 0 <? reclaim_budget then _ ← reclaim_deleted_inodes reclaim_budget; mret tt else mret tt);
     commit_log) fs = (Ok tt, fs') ∧ committed_as fs m n ops fs'.
Proof using All.
  intros Hj Hn Ho Hrec. assert (JOURNAL_CAPACITY = 1024 ∧ JOURNAL_RECLAIM_SOFT_LIMIT = 960) as [Ecap Esoft] by done.
  destruct (begin_journaled fs mc cc m n Hj ltac:(unfold MOUNT_SLACK in *; lia) Hrec) as (fs1 & ops & E1 & Hj1 & T1 & Hl1 & Hops & Hno & Hsh).
  unfold commit_begin in E1. rewrite gets_bind in E1 |- *. rewrite (M_bind_ok _ _ _ _ _ E1).
  destruct (commit_log_journaled fs1 mc cc _ n Hj1 Hn) as (fs' & E & Hj' & C & Hlog & Hsh'); [unfold ring_load in *; lia|].
  assert (counters_of fs1 = counters_of fs) as C1 by (rewrite T1; done). rewrite C1 in *. exists fs', ops. split; [exact E|].
  split; [done|done|done|done|done|by etransitivity].
Qed.

(** A short log fits whatever the ring holds. *)
Lemma journaled_fits fs mc cc m n : journaled fs mc cc m n → Z.of_nat (length (log (tree fs))) ≤ 64 → group_fits fs.
Proof using All.
  intros Hj Hl. apply group_fits_small; [|exact Hl].
  destruct (jn_image _ _ _ _ _ Hj) as (sb & h & t & cs & frames & base & R & Him & _). destruct (im_seq _ _ _ _ _ _ _ _ Him).
  lia.
Qed.

(** A commit makes the map in memory, less the work items it retires, the one a
    mount finds. *)
Lemma commit_journaled fs mc cc m n :
  journaled fs mc cc m (JOURNAL_CAPACITY + n) → MOUNT_SLACK ≤ n → group_fits fs →
  4 * next_block_nr (store (tree fs)) + OP_BLOCKS * (JOURNAL_CAPACITY + n) < 2 ^ 52 - 1 →
  next_journal_seq fs + 2 * JOURNAL_CAPACITY < 2 ^ 64 →
  reclaimable m →
  ∃ fs' ops, journal_commit fs = (Ok tt, fs') ∧ committed_as fs m n ops fs'.
Proof using All.
  intros Hj Hn Hp Hbig Hseq Hrec. assert (JOURNAL_CAPACITY = 1024 ∧ JOURNAL_RECLAIM_SOFT_LIMIT = 960) as [Ecap Esoft] by done.
  unfold journal_commit. rewrite gets_bind, (proj1 (jn_on _ _ _ _ _ Hj)). cbn [negb]. rewrite gets_bind. fold commit_log.
  fold (near_limit fs). unfold group_fits, frames_at_commit, frames, pending, pending_log_len in Hp. destruct (near_limit fs).
  - destruct (sync_journaled fs mc cc m _ Hj) as (fs1 & E1 & Hj1 & L1 & C1 & S1 & S2 & Hsh); [lia|done|done|].
    rewrite (M_bind_ok _ _ _ _ _ E1).
    edestruct commit_rest_journaled as (fs' & ops & E & [A1 A2 A3 A4 A5 A6]); [exact Hj1|done|unfold ring_load; rewrite S1, S2, L1; lia|done|].
    exists fs', ops. split; [exact E|]. rewrite C1 in A1, A2. split; [done|done|done|done|done|by etransitivity].
  - rewrite (M_bind_ok (mret tt) _ fs _ fs eq_refl). eapply commit_rest_journaled; [exact Hj|done|unfold ring_load; lia|done].
Qed.
End commit.

(** ** Mounting after a crash *)
Lemma a_subvol_equiv m m' id : m ≡ m' → a_subvol m id = a_subvol m' id.
Proof. intros Hm. unfold a_subvol. by rewrite Hm. Qed.
Lemma a_snapshot_equiv m m' x : m ≡ m' → a_snapshot m x = a_snapshot m' x.
Proof. intros Hm. unfold a_snapshot. by rewrite Hm. Qed.
Lemma seen_equiv m m' k l : m ≡ m' → seen m k l = seen m' k l.
Proof. intros Hm. unfold seen. by rewrite Hm. Qed.

Lemma map_ok_equiv m m' c : m ≡ m' → map_ok m c → map_ok m' c.
Proof.
  intros Hm. destruct c as [[[ino snap] subvol] cur]. intros ([H1 H2 H3 H4 H5] & Hw & Hc). split; [|by rewrite <- (a_subvol_equiv m m')].
  split; [done|done| | |].
  - intros k s Hs Hle. specialize (Hm (versioned k s)). rewrite H3 in Hm by done. by destruct (m' (versioned k s)).
  - intros id sv Hid. rewrite <- (a_subvol_equiv m m') by done. by apply H4.
  - intros id Hid Hwd. rewrite <- (a_subvol_equiv m m') by done. by apply H5.
Qed.

Section mounts.
Context {D : Type} `{!BlockDevice D} `{!BlockDeviceLaws D} `{!BlockDeviceTotal D} `{!Crc32} `{!Crc32Range}.
Implicit Types fs : Fs D.

(** Two states that no read of names, inodes, snapshots or subvolumes tells apart. *)
Record agree fs fs' : Prop := {
  ag_counters : counters_of fs' = counters_of fs;
  ag_inode ino : (get_inode ino fs').1 = (get_inode ino fs).1 ∧ ∃ o, (get_inode ino fs).1 = Ok o;
  ag_dirent p name : (length name ≤ MAX_NAME_LEN)%nat →
    (lookup_dirent p name fs').1 = (lookup_dirent p name fs).1 ∧ ∃ o, (lookup_dirent p name fs).1 = Ok o;
  ag_subvol id : (get_subvol id fs').1 = (get_subvol id fs).1 ∧ ∃ o, (get_subvol id fs).1 = Ok o;
  ag_snapshot x : (get_snapshot x fs').1 = (get_snapshot x fs).1 ∧ ∃ o, (get_snapshot x fs).1 = Ok o;
}.

Lemma reads_agree {A} (c : M (Fs D) error A) a m m' n n' fs fs' :
  reads m (current_subvol fs) c a → reads m' (current_subvol fs') c a → fs_models fs m n → fs_models fs' m' n' →
  (c fs').1 = (c fs).1 ∧ ∃ o, (c fs).1 = Ok o.
Proof.
  intros H1 H2 Hfs Hfs'. destruct (H1 fs n Hfs eq_refl) as (fs1 & E1 & _). destruct (H2 fs' n' Hfs' eq_refl) as (fs2 & E2 & _).
  rewrite E1, E2. eauto.
Qed.

Lemma equiv_agree fs fs' m m' n n' :
  fs_inv fs m n → fs_inv fs' m' n' → m ≡ m' → counters_of fs' = counters_of fs → agree fs fs'.
Proof using All.
  intros [Hfs _ _ Hcur] [Hfs' _ _ _] Hm C. pose proof C as [= _ _ _ Ec]. pose proof (fm_typed _ _ _ Hfs) as Ht. pose proof (fm_typed _ _ _ Hfs') as Ht'.
  destruct (view_exists _ _ Hcur) as (s & l & Hv).
  assert (view m' (current_subvol fs') s l) as Hv'.
  { rewrite Ec. eapply view_ext; [exact Hv|symmetry; by apply a_subvol_equiv|intros x _; symmetry; by apply a_snapshot_equiv]. }
  split; [done| | | |].
  - intros ino. eapply (reads_agree _ (a_inode m l ino)); [by eapply get_inode_reads| |exact Hfs|exact Hfs'].
    unfold a_inode. rewrite (seen_equiv m m') by done. by eapply get_inode_reads.
  - intros p name Hn. eapply (reads_agree _ (a_dirent m l p name)); [by eapply lookup_dirent_reads| |exact Hfs|exact Hfs'].
    unfold a_dirent. rewrite (seen_equiv m m') by done. by eapply lookup_dirent_reads.
  - intros id. eapply (reads_agree _ (a_subvol m id)); [by apply get_subvol_reads| |exact Hfs|exact Hfs'].
    rewrite (a_subvol_equiv m m') by done. by apply get_subvol_reads.
  - intros x. eapply (reads_agree _ (a_snapshot m x)); [by apply get_snapshot_reads| |exact Hfs|exact Hfs'].
    rewrite (a_snapshot_equiv m m') by done. by apply get_snapshot_reads.
Qed.

(** The mount of an image, when power was lost with [fl] frames of an unfinished
    group in the ring. *)
Lemma image_mounts fs (s : BlockStore D) p sb h t cs frames base R l fl mc :
  image fs sb h t cs frames base R → durable s sb h t cs (frames ++ fl) → Forall2 op_frame l fl →
  a_replays R base ≡ mc → map_ok mc (last_counters sb frames) →
  ∃ N, ∀ fuel, (N ≤ fuel)%nat → ∃ fs' m', open_on fuel (with_device (device s) p) = Ok fs' ∧
    fs_inv fs' m' (MOUNT_SLACK - JOURNAL_CAPACITY) ∧ m' ≡ mc ∧ counters_of fs' = last_counters sb frames.
Proof using All.
  intros [Hd Hb Hty Hrun Hrec Hg Hlen [Hn1 Hn2] Hq _] Hdu Hfl Hmc Hok. exists (S (length cs)). intros fuel Hf.
  destruct (ops_tail frames fl Hrun (op_frames_kind _ _ Hfl)) as [Eg _].
  assert (records_of (frames ++ fl) = Ok R ∧ last_next_block sb (frames ++ fl) = last_next_block sb frames ∧
    last_counters sb (frames ++ fl) = last_counters sb frames) as (E1 & E2 & E3).
  { unfold records_of, last_next_block, last_counters. by rewrite Eg. }
  pose proof (rs_length _ _ _ (du_ring _ _ _ _ _ _ Hd)) as Hcap. assert (JOURNAL_CAPACITY = 1024) as Ecap by done.
  destruct (open_on_ok fuel s p sb h t cs (frames ++ fl) base R (MOUNT_SLACK - JOURNAL_CAPACITY) Hdu Hb E1) as (fs' & E & [M1 M2 _ _ _] & _).
  - eapply Forall_impl; [exact Hg|]. by intros r [].
  - done.
  - by rewrite E2.
  - rewrite E2. unfold MOUNT_SLACK, OP_BLOCKS in *. lia.
  - unfold MOUNT_SLACK in *. lia.
  - lia.
  - rewrite E3 in M2. exists fs', (a_replays R base). split; [done|]. split; [|done].
    symmetry in Hmc. pose proof (map_ok_equiv _ _ _ Hmc Hok) as Hok'. rewrite <- M2 in Hok'. destruct Hok' as (Hids & Hw & Hc).
    split; [|done..]. split; [done|by apply a_replays_typed].
Qed.
End mounts.

(** ** Checkpoints that do not finish *)
Section checkpoint.
Context {D : Type} `{!BlockDevice D} `{!BlockDeviceLaws D} `{!BlockDeviceTotal D} `{!Crc32} `{!Crc32Range}.
Implicit Types fs : Fs D.

(** [fs_sync] up to the write of the superblock. *)
Definition checkpoint_steps : list (M (Fs D) error unit) :=
  [on_tree btree_checkpoint;
   _ ← on_fs_store persist_free_list; mret tt;
   on_fs_store fsync].

(** They write to blocks that were free. *)
Lemma checkpoint_steps_keep fs m n :
  bt_models (tree fs) m n → 4 * next_block_nr (store (tree fs)) < 2 ^ 52 - 1 →
  ∃ fs1 fs2 fs3, on_tree btree_checkpoint fs = (Ok tt, fs1) ∧ (_ ← on_fs_store persist_free_list; mret tt) fs1 = (Ok tt, fs2) ∧
    on_fs_store fsync fs2 = (Ok tt, fs3) ∧
    ∀ k, fixed (store (tree fs)) k → let kept fs' := same_bytes k (device (store (tree fs))) (device (store (tree fs'))) in
      kept fs1 ∧ kept fs2 ∧ kept fs3.
Proof using All.
  intros [Hm [Hr _ _]] Hbig. set (s := store (tree fs)) in *. assert (0 < FIRST_DATA_BLOCK_NR) as Hpos by done.
  assert (room s 0) as Hr0 by (destruct Hr as (? & ? & ?); split; [done|lia]).
  assert (FIRST_DATA_BLOCK_NR ≤ next_block_nr s) as Hnx by (destruct Hr as ([] & _); lia).
  destruct (btree_checkpoint_ok (tree fs) m (2 ^ 52 - 2 * next_block_nr s) Hm) as (s1 & h & t & E1 & _ & _ & _ & Hr1 & Hd1 & Hn1);
    [fold s; destruct Hr as (? & _ & _); split; [done|lia]|lia|].
  fold s in Hn1, Hd1. pose proof Hr1 as (Ha1 & _ & Hmax1). pose proof (unheld_length s1 Ha1) as Hul.
  destruct (persist_free_list_total s1) as (head & s2 & E2).
  destruct (persist_free_list_ok s1 s2 head) as (cs & Hp); [lia|lia| |done|].
  { apply Forall_forall. intros k Hk%(ao_range _ Ha1). unfold in_width. lia. }
  destruct (fsync_total s2) as (d & E3 & Hd). set (fs1 := set_tree (set_store s1 (set_root (t_nr t) (tree fs))) fs).
  set (fs2 := set_tree (set_store s2 (tree fs1)) fs1).
  exists fs1, fs2, (set_tree (set_store (set_device d s2) (tree fs2)) fs2). split; [unfold on_tree, zoom; by rewrite E1|].
  split; [by rewrite (M_bind_ok _ _ _ _ _ (on_fs_store_ok _ fs1 _ _ E2))|]. split; [exact (on_fs_store_ok _ fs2 _ _ E3)|].
  intros k Hk kept. pose proof (fixed_block_ok _ _ _ Hr0 Hk) as Hkb.
  assert (k < next_block_nr s) as Hlt.
  { destruct Hk as [[? _]|[Hk|?]]; [lia| |lia]. destruct Hr0 as ([_ _ Hrg] & _). assert (k ∈ unheld s) as Hu%Hrg by (apply elem_of_app; by right). lia. }
  assert (kept fs1) as K1 by exact (Hd1 k Hk).
  assert (kept fs2) as K2 by (unfold kept; etransitivity; [exact K1|]; apply (pe_dev _ _ _ _ Hp); [done|lia]).
  split; [done|]. split; [done|]. unfold kept. etransitivity; [exact K2|]. intros o len bs _ _. cbn. by rewrite (read_sync _ _ _ _ Hd).
Qed.

(** The image is below an exabyte and the sequence numbers have not run out. *)
Definition roomy fs : Prop :=
  next_block_nr (store (tree fs)) < 2 ^ 46 ∧ next_bset_seq (tree fs) < 2 ^ 62 ∧ next_journal_seq fs < 2 ^ 62.

Lemma roomy_journaled fs mc cc m : roomy fs → journaled fs mc cc m 0 → journaled fs mc cc m 4096.
Proof.
  intros (H1 & H2 & _) [Him Hok [[[Hm [(Ha & _ & _) _ [Hq _]]] Ht] Hids Hw Hc] Hl Hon Hi]. split; try done. split; [|done..]. split; [|done].
  split; [done|]. split; [split; [done|unfold OP_BLOCKS; lia]|lia|lia].
Qed.

(** Where power can be lost: between two operations, in a commit, which reclaims
    work items and then appends its group, after [k] frames of the group, or after
    [k] steps of a checkpoint. *)
Inductive crash_point fs : Fs D → Prop :=
  | crash_at_rest : crash_point fs fs
  | crash_in_commit k fs1 fs2 :
      roomy fs → commit_begin fs = (Ok tt, fs1) →
      next_journal_seq fs1 - last_checkpoint_seq fs1 + Z.of_nat k ≤ JOURNAL_CAPACITY →
      forM_ (take k (log (tree fs1))) append_record fs1 = (Ok tt, fs2) → crash_point fs fs2
  | crash_in_checkpoint k fs1 : roomy fs → forM_ (take k checkpoint_steps) id fs = (Ok tt, fs1) → crash_point fs fs1.

(** At each of these points the image of the last commit is still there. *)
Lemma crash_point_durable fs fs1 mc cc m :
  journaled fs mc cc m 0 → no_extents m → crash_point fs fs1 →
  ∃ fsi sb h t cs frames base R l fl s, image fsi sb h t cs frames base R ∧ a_replays R base ≡ mc ∧ last_counters sb frames = cc ∧
    Forall2 op_frame l fl ∧ durable s sb h t cs (frames ++ fl) ∧ device s = device (store (tree fs1)).
Proof using All.
  intros Hj Hno Hc. destruct Hc as [|k fs1 fs2 Hr Eb Hcap E|k fs1 (Hbig & _) E].
  - destruct (jn_image _ _ _ _ _ Hj) as (sb & h & t & cs & frames & base & R & Him & Hmc & Hcc).
    exists fs, sb, h, t, cs, frames, base, R, [], [], (store (tree fs)). rewrite app_nil_r. pose proof (im_durable _ _ _ _ _ _ _ _ Him). by split_and!.
  - destruct (begin_journaled fs mc cc m 2048) as (fs1' & ops & Eb' & Hj1 & _); [apply (journaled_at_least _ 4096); [done|by apply roomy_journaled]|lia|by left|].
    rewrite Eb in Eb'. injection Eb' as <-.
    destruct (jn_image _ _ _ _ _ Hj1) as (sb & h & t & cs & frames & base & R & Him & Hmc & Hcc).
    pose proof (im_seq _ _ _ _ _ _ _ _ Him) as [S1 S2]. pose proof (im_durable _ _ _ _ _ _ _ _ Him) as Hd.
    destruct (append_records_ok (take k (log (tree fs1))) fs1 sb h t cs frames (a_run ops m) 2048) as (fs2' & fl & E' & Hfl & _ & Hrn1);
      [split; [apply Hj1|done|done]|by apply Forall_take, Hj1|rewrite length_take; lia|].
    rewrite E in E'. injection E' as <-. exists fs1, sb, h, t, cs, frames, base, R, (take k (log (tree fs1))), fl, (store (tree fs2)).
    do 4 (split; [done|]). split; [apply Hrn1|done].
  - destruct (jn_image _ _ _ _ _ Hj) as (sb & h & t & cs & frames & base & R & Him & Hmc & Hcc).
    pose proof (im_durable _ _ _ _ _ _ _ _ Him) as Hd. pose proof (fm_bt _ _ _ (fi_models _ _ _ (jn_inv _ _ _ _ _ Hj))) as Hbt.
    assert (∀ k, fixed (store (tree fs)) k → same_bytes k (device (store (tree fs))) (device (store (tree fs1)))) as Hsame.
    { destruct (checkpoint_steps_keep fs m 0 Hbt ltac:(lia)) as (fa & fb & fc & Ea & Eb & Ec & Hk).
      unfold checkpoint_steps in E. destruct k as [|[|[|k]]]; cbn [take forM_ id] in E.
      - injection E as <-. done.
      - rewrite (M_bind_ok _ _ _ _ _ Ea) in E. injection E as <-. intros k Hf. by apply Hk.
      - rewrite (M_bind_ok _ _ _ _ _ Ea), (M_bind_ok _ _ _ _ _ Eb) in E. injection E as <-. intros k Hf. by apply Hk.
      - rewrite take_nil in E. rewrite (M_bind_ok _ _ _ _ _ Ea), (M_bind_ok _ _ _ _ _ Eb), (M_bind_ok _ _ _ _ _ Ec) in E.
        injection E as <-. intros k' Hf. by apply Hk. }
    exists fs, sb, h, t, cs, frames, base, R, [], [], (set_device (device (store (tree fs1))) (store (tree fs))).
    rewrite app_nil_r. do 4 (split; [done|]). split; [|done].
    eapply (durable_step (store (tree fs))); [done|reflexivity|done| | |apply Hbt|exact Hd].
    + intros k' Hf _ _. by apply Hsame.
    + eapply ring_same; [|apply Hd]. intros k' Hk'. apply Hsame. right. right. lia.
Qed.
End checkpoint.

(** ** Histories *)
Section history.
Context {D : Type} `{!BlockDevice D} `{!BlockDeviceLaws D} `{!BlockDeviceTotal D} `{!Crc32} `{!Crc32Range}.
Implicit Types fs : Fs D.

Inductive event : Type :=
  | EOp (o : fop)
  | ECommit
  | ESync.
Definition run_event (e : event) : M (Fs D) FsError unit :=
  match e with
  | EOp o => run_fop o
  | ECommit => from_btree journal_commit
  | ESync => from_btree fs_sync
  end.
Definition commits (e : event) : Prop := match e with EOp _ => False | _ => True end.

(** The group of a commit fits the ring. *)
Definition event_ok fs (e : event) : Prop :=
  match e with
  | EOp o => fop_ok o
  | ECommit => group_fits fs
  | ESync => True
  end.
Inductive history : list event → Fs D → Fs D → Prop :=
  | history_nil fs : history [] fs fs
  | history_cons e es fs r fs1 fs' :
      roomy fs → event_ok fs e → run_event e fs = (r, fs1) → history es fs1 fs' → history (e :: es) fs fs'.

Lemma journaled_weaken fs mc cc m n : 0 ≤ n → journaled fs mc cc m n → journaled fs mc cc m 0.
Proof. intros Hn []. split; try done. by eapply fs_inv_weaken; [|done]; lia. Qed.

Lemma event_journaled e fs mc cc m :
  journaled fs mc cc m 0 → no_extents m → roomy fs → event_ok fs e →
  ∃ r fs' mc' cc' m', run_event e fs = (r, fs') ∧ (r = Ok tt ∨ ¬ commits e ∧ ∃ x, r = Err x) ∧ journaled fs' mc' cc' m' 0 ∧ no_extents m' ∧
    (commits e → mc' = m' ∧ cc' = counters_of fs') ∧ (¬ commits e → mc' = mc ∧ cc' = cc).
Proof using All.
  intros Hj Hno Hr Ho. pose proof (roomy_journaled _ _ _ _ Hr Hj) as Hj4. destruct Hr as (R1 & R2 & R3).
  assert (JOURNAL_CAPACITY = 1024) as Ecap by done. destruct e as [o| |]; cbn [run_event commits event_ok] in *.
  - destruct (op_journaled fs mc cc m 4092 o) as (r & fs' & ops & E & Hres & Hj' & Hops); [done|lia|done|].
    exists r, fs', mc, cc, (a_run ops m). split; [done|]. split; [destruct Hres; [by left|right; auto]|].
    split; [by eapply journaled_weaken; [|exact Hj']|]. split; [by apply no_extents_run|done].
  - destruct (commit_journaled fs mc cc m 3072) as (fs' & ops & E & [Hj' C _ Hops _ _]);
      [by rewrite Ecap|unfold MOUNT_SLACK; lia|done|unfold OP_BLOCKS; lia|lia|by left|].
    exists (Ok tt), fs', (a_run ops m), (counters_of fs), (a_run ops m). unfold from_btree, mapping_err. rewrite E. split; [done|]. split; [by left|].
    split; [by eapply journaled_weaken; [|exact Hj']|]. rewrite C. split; [|done].
    apply no_extents_run; [|done]. eapply Forall_impl; [exact Hops|apply orphan_op_plain].
  - destruct (sync_journaled fs mc cc m 4096 Hj4) as (fs' & E & Hj' & _ & C & _); [unfold MOUNT_SLACK; lia|unfold OP_BLOCKS; lia|lia|].
    exists (Ok tt), fs', m, (counters_of fs), m. unfold from_btree, mapping_err. rewrite E. split; [done|]. split; [by left|].
    split; [by eapply journaled_weaken; [|exact Hj']|]. by rewrite C.
Qed.

(** A state whose map in memory is the one a mount finds. *)
Definition saved fs : Prop := ∃ m, journaled fs m (counters_of fs) m 0 ∧ no_extents m.

Lemma history_journaled es fs fs' mc cc m :
  history es fs fs' → journaled fs mc cc m 0 → no_extents m →
  ∃ mc' cc' m', journaled fs' mc' cc' m' 0 ∧ no_extents m' ∧ (Forall (λ e, ¬ commits e) es → mc' = mc ∧ cc' = cc).
Proof using All.
  intros Hh. revert mc cc m. induction Hh as [fs|e es fs r fs1 fs' Hr Ho E _ IH]; intros mc cc m Hj Hno; [by exists mc, cc, m|].
  destruct (event_journaled e fs mc cc m Hj Hno Hr Ho) as (r' & fs1' & mc1 & cc1 & m1 & E' & _ & Hj1 & Hno1 & _ & H2).
  rewrite E in E'. injection E' as <- <-. destruct (IH _ _ _ Hj1 Hno1) as (mc' & cc' & m' & Hj' & Hno' & H3).
  exists mc', cc', m'. split; [done|]. split; [done|]. intros [Ha Hb]%Forall_cons. destruct (H2 Ha) as [<- <-]. by apply H3.
Qed.

Lemma history_app es1 es2 fs fs' : history (es1 ++ es2) fs fs' → ∃ fs1, history es1 fs fs1 ∧ history es2 fs1 fs'.
Proof.
  revert fs. induction es1 as [|e es1 IH]; intros fs Hh; [exists fs; split; [constructor|done]|].
  inversion Hh as [|? ? ? r fs1 ? Hr Ho E Hh']; subst. destruct (IH _ Hh') as (fs2 & H1 & H2). exists fs2. split; [by econstructor|done].
Qed.

(** The state after a commit or a checkpoint is saved. *)
Lemma history_saved es fs fs' :
  history es fs fs' → saved fs → (∀ e, last es = Some e → commits e) → saved fs'.
Proof using All.
  intros Hh (m & Hj & Hno) Hl. destruct es as [|e es] using rev_ind; [inversion Hh; subst; by exists m|]. clear IHes.
  apply history_app in Hh as (fs1 & Hh1 & Hh2). destruct (history_journaled _ _ _ _ _ _ Hh1 Hj Hno) as (mc & cc & m1 & Hj1 & Hno1 & _).
  inversion Hh2 as [|? ? ? r fs2 ? Hr Ho E Hh']; subst. inversion Hh'; subst.
  destruct (event_journaled e fs1 mc cc m1 Hj1 Hno1 Hr Ho) as (r' & fs2 & mc' & cc' & m' & E' & _ & Hj' & Hno' & Hc & _).
  rewrite E in E'. injection E' as <- <-. destruct Hc as [-> ->]; [apply Hl, last_snoc|]. by exists m'.
Qed.

(** Mounting what a crash leaves. *)
Lemma mount_agrees p fsc fs fs1 mc cc m :
  journaled fsc mc cc mc 0 → counters_of fsc = cc → journaled fs mc cc m 0 → no_extents m → crash_point fs fs1 →
  ∃ N, ∀ fuel, (N ≤ fuel)%nat → ∃ fs', open_on fuel (with_device (device (store (tree fs1))) p) = Ok fs' ∧ agree fsc fs'.
Proof using All.
  intros Hjc Hcc Hj Hno Hcrash. pose proof (jn_inv _ _ _ _ _ Hjc) as Hinvc. pose proof (jn_mounts _ _ _ _ _ Hj) as Hok. subst cc.
  destruct (crash_point_durable fs fs1 mc _ m Hj Hno Hcrash) as (fsi & sb & h & t & cs & frames & base & R & l & fl & s & Him & Hmc & Hc & Hfl & Hd & <-).
  rewrite <- Hc in Hok. destruct (image_mounts fsi s p sb h t cs frames base R _ fl mc Him Hd Hfl Hmc Hok) as [N HN].
  exists N. intros fuel Hf. destruct (HN fuel Hf) as (fs' & m' & Eo & Hinv' & Hm' & C). exists fs'. split; [done|].
  eapply equiv_agree; [exact Hinvc|exact Hinv'|by symmetry|]. congruence.
Qed.
End history.

(** ** A new image *)
Section create.
Context `{!Crc32} `{!Crc32Range}.

Definition JOURNAL_END : Z := (FIRST_JOURNAL_BLOCK + JOURNAL_BLOCKS) * BLOCK_BYTES.
Definition blank : FileDevice := {| file := replicate (Z.to_nat JOURNAL_END) Byte.x00 |}.

Lemma frame_offset_end seq : frame_offset seq + JOURNAL_FRAME_SIZE ≤ JOURNAL_END.
Proof.
  rewrite frame_offset_eq. pose proof (ring_pos_range seq) as Hp. revert Hp.
  unfold JOURNAL_END, JOURNAL_FRAME_SIZE, JOURNAL_CAPACITY, FIRST_JOURNAL_BLOCK, JOURNAL_BLOCKS, ENTRIES_PER_BLOCK, BLOCK_BYTES. lia.
Qed.

(** A ring of zeros holds no frame. *)
Lemma blank_ring start : 0 ≤ start → start + 2 * JOURNAL_CAPACITY < 2 ^ 64 → ring_state blank start [].
Proof using Type.
  intros Hs0 Hs1. split; [done|done|done|]. intros j _. unfold read_frame. cbn [read_at FileDevice_BlockDevice].
  unfold file_read_at. change (Z.to_nat JOURNAL_FRAME_SIZE =? 0)%nat with false. cbn iota.
  pose proof (frame_offset_end (start + j)). pose proof (frame_offset_nonneg (start + j)).
  rewrite (proj2 (Nat.leb_le _ _)).
  - cbn [file blank]. rewrite drop_replicate, take_replicate, Nat.min_l.
    + vm_compute. done.
    + assert (0 < JOURNAL_FRAME_SIZE) by done. lia.
  - cbn [file blank]. rewrite length_replicate. assert (0 < JOURNAL_FRAME_SIZE) by done. lia.
Qed.

Lemma blank_room r : 0 ≤ r ≤ 2 ^ 52 - 100 → room (with_device blank true) r.
Proof using Type.
  intros Hr. split; [|cbn [with_device next_block_nr]; unfold FIRST_DATA_BLOCK_NR, FIRST_JOURNAL_BLOCK, JOURNAL_BLOCKS; lia].
  split; cbn; [unfold FIRST_DATA_BLOCK_NR, FIRST_JOURNAL_BLOCK, JOURNAL_BLOCKS; lia|constructor|]. by intros nr Hn%elem_of_nil.
Qed.
Lemma seed_no_extents : no_extents seed_map.
Proof using Type. apply no_extents_run; [by repeat constructor|done]. Qed.
Lemma blank_image : exec (on_device (set_len (u64 JOURNAL_END))) create_image = Ok (tt, with_device blank true).
Proof using Type. reflexivity. Qed.

#[local] Strategy 100 [initialize_with seed fs_sync].
Lemma create_steps bt fs fs' :
  create_in (with_device blank true) = Ok bt → seed bt ROOT_INO = Ok fs →
  fs_sync (set_tree (set_log [] (tree fs)) (set_journal true 1 fs)) = (Ok tt, fs') → fs_create = Ok fs'.
Proof using Type.
  intros E1 E2 E3. unfold fs_create, create_on. fold JOURNAL_END.
  rewrite (outcome_bind_ok _ _ _ blank_image). cbn beta iota.
  rewrite (outcome_bind_ok _ _ _ E1), (outcome_bind_ok _ _ _ E2). cbn zeta.
  rewrite (outcome_bind_ok (exec (on_tree drain_log) (set_journal true 1 fs)) _ (log (tree fs), set_tree (set_log [] (tree fs)) (set_journal true 1 fs)) eq_refl).
  cbn beta iota. by rewrite (outcome_bind_ok _ _ _ (exec_ok _ _ _ _ E3)).
Qed.

(** [Fs::create] returns, and what it has built is on the device. *)
Definition CREATE_ROOM : Z := 20849998270000.
Definition SEED_COUNTERS : Z * Z * Z * Z := (ROOT_INO, ROOT_SNAP - 1, ROOT_SUBVOL + 1, ROOT_SUBVOL).
Lemma fs_create_seeded : ∃ fs, fs_create = Ok fs ∧ journaled fs seed_map SEED_COUNTERS seed_map 4096 ∧ counters_of fs = SEED_COUNTERS ∧
  log (tree fs) = [].
Proof using All.
  destruct (create_in_ok (with_device blank true) (2 + CREATE_ROOM)) as (bt & E1 & Hbt & _ & Hl & Hf1);
    [unfold CREATE_ROOM; lia|unfold CREATE_ROOM; lia|apply blank_room; unfold OP_BLOCKS, CREATE_ROOM; lia|by apply empty_cache_ok|].
  destruct (seed_ok bt CREATE_ROOM ROOT_INO Hbt ltac:(done)) as (fs & E2 & Hinv & Ec & Ei & Es & Ev & [K1 K2]).
  set (fs1 := set_tree (set_log [] (tree fs)) (set_journal true 1 fs)).
  assert (fs_inv fs1 seed_map CREATE_ROOM) as Hinv1.
  { destruct Hinv as [[[Hm Hb] Ht] Hids Hw Hc]. split; [|exact Hids|exact Hw|exact Hc]. split; [split; [exact Hm|exact Hb]|exact Ht]. }
  assert (next_ino fs1 = ROOT_INO ∧ next_snap_id fs1 = ROOT_SNAP - 1 ∧ next_subvol_id fs1 = ROOT_SUBVOL + 1 ∧
    current_subvol fs1 = ROOT_SUBVOL) as (E7 & E4 & E5 & E6) by (cbn; auto).
  assert (in_width 64 (next_ino fs1) ∧ counters_ok fs1) as [Hino Hco].
  { split; [by rewrite E7|].
    split; [rewrite E7|rewrite E4|rewrite E5|rewrite E6]; done. }
  assert (ring_state (device (store (tree fs1))) 1 []) as Hring.
  { eapply ring_frozen; [exact K2|]. eapply ring_frozen; [exact Hf1|]. by apply blank_ring. }
  destruct (fs_sync_ok fs1 seed_map 4096 1 []) as (fs' & sb & h & t & cs & E3 & Hy).
  - eapply bt_models_weaken; [|apply Hinv1]. unfold CREATE_ROOM. lia.
  - destruct (fm_bt _ _ _ (fi_models _ _ _ Hinv1)) as [_ [(_ & _ & Hroom) _ _]]. unfold OP_BLOCKS, CREATE_ROOM in *. lia.
  - exact Hco.
  - exact Hring.
  - done.
  - done.
  - done.
  - exists fs'. split; [exact (create_steps bt fs fs' E1 E2 E3)|].
    destruct (synced_journaled fs1 seed_map 4096 fs' sb h t cs Hy) as (Hj & L & C & _);
      [eapply fs_inv_weaken; [|exact Hinv1]; unfold CREATE_ROOM; lia|done|constructor|reflexivity|done|exact (eq_trans K1 Hl)|done|].
    assert (counters_of fs1 = SEED_COUNTERS) as C0 by (unfold counters_of, SEED_COUNTERS; by rewrite E7, E4, E5, E6).
    rewrite C0 in Hj, C. split; [exact Hj|split; [exact C|exact L]].
Qed.
Lemma fs_create_ok : ∃ fs, fs_create = Ok fs ∧ saved fs.
Proof using All.
  destruct fs_create_seeded as (fs & E & Hj & C & _). exists fs. split; [exact E|]. exists seed_map. rewrite C.
  split; [apply (journaled_weaken _ _ _ _ 4096); [done|exact Hj]|exact seed_no_extents].
Qed.
End create.

Section claims.
Context `{!Crc32} `{!Crc32Range}.
Implicit Types fs : Fs FileDevice.

(** C1: a crash loses nothing that was committed, and shows nothing that was not.
    Create an image, run any sequence of [put_inode], [put_dirent], [unlink],
    [rename], [rmdir], [snapshot_subvol] and [switch_subvol] with checkpoints and
    commits among them, each commit with a group that fits into the ring
    ([group_fits]; [Commit] says what happens otherwise) ([es1]), up to a commit or
    checkpoint that leaves the state [fsc], go on with operations only ([es2]), and lose power:
    between two operations, in the next commit, after it has reclaimed work items
    and written any number of the frames of its group, or after any step of a
    checkpoint that precedes the superblock. The image then mounts,
    and every read of an inode, name, subvolume or snapshot, and every id counter,
    is as in [fsc]. Histories have no writes to file data and no truncates, and stay
    within the limits of [roomy]. *)
Theorem crash_recovers_last_commit es1 es2 fs0 fsc fs fs1 :
  fs_create = Ok fs0 → history es1 fs0 fsc → (∀ e, last es1 = Some e → commits e) →
  history es2 fsc fs → Forall (λ e, ¬ commits e) es2 → crash_point fs fs1 →
  ∃ N, ∀ fuel, (N ≤ fuel)%nat → ∃ fs', fs_open fuel (device (store (tree fs1))) = Ok fs' ∧ agree fsc fs'.
Proof using All.
  intros E0 Hh1 Hl Hh2 Hops Hc. destruct fs_create_ok as (fs0' & E0' & Hs0).
  assert (saved fs0) as Hs by (rewrite E0 in E0'; injection E0' as ->; exact Hs0).
  destruct (history_saved _ _ _ Hh1 Hs Hl) as (mc & Hjc & Hno). destruct (history_journaled _ _ _ _ _ _ Hh2 Hjc Hno) as (mc' & cc' & m & Hj & Hno' & Hsame).
  destruct (Hsame Hops) as [-> ->]. by eapply mount_agrees.
Qed.

(** C2: operations, commits and checkpoints return. Creating an image succeeds;
    after any history on it of [put_inode], [put_dirent], [unlink], [rename], [rmdir],
    [snapshot_subvol], [switch_subvol], checkpoints and commits whose group fits into
    the ring, within the limits of [roomy], one more of these operations returns [Ok]
    or an error, and one more such commit or checkpoint returns [Ok]. File writes and
    truncates are not in the history. *)
Theorem events_return :
  ∃ fs0, fs_create = Ok fs0 ∧
    ∀ es fs e, history es fs0 fs → roomy fs → event_ok fs e →
    ∃ r fs', run_event e fs = (r, fs') ∧ (r = Ok tt ∨ ¬ commits e ∧ ∃ x, r = Err x).
Proof using All.
  destruct fs_create_ok as (fs0 & E0 & m0 & Hj0 & Hno0). exists fs0. split; [exact E0|]. intros es fs e Hh Hr Ho.
  destruct (history_journaled _ _ _ _ _ _ Hh Hj0 Hno0) as (mc & cc & m & Hj & Hno & _).
  destruct (event_journaled e fs mc cc m Hj Hno Hr Ho) as (r & fs' & ? & ? & ? & E & Hres & _). eauto.
Qed.
End claims.

(** ** A concrete crash *)
#[local] Existing Instance sum_crc.

(** Whether a state is [roomy], computed. *)
Definition roomyb (fs : Fs FileDevice) : bool :=
  (next_block_nr (store (tree fs)) <? 2 ^ 46) && (next_bset_seq (tree fs) <? 2 ^ 62) && (next_journal_seq fs <? 2 ^ 62).
Lemma roomyb_ok fs : roomyb fs = true → roomy fs.
Proof. unfold roomyb, roomy. lia. Qed.

(** The state after a history, when every state along it has room. *)
Definition fit_event (e : event) (fs : Fs FileDevice) : option (Fs FileDevice) :=
  if roomyb fs && bool_decide (group_fits fs) then Some (run_event e fs).2 else None.
Fixpoint fit_run (es : list event) (fs : Fs FileDevice) : option (Fs FileDevice) :=
  match es with [] => Some fs | e :: es => fit_event e fs ≫= fit_run es end.
Lemma fit_event_inv e fs fs' :
  fit_event e fs = Some fs' → roomy fs ∧ group_fits fs ∧ fs' = (run_event e fs).2.
Proof.
  unfold fit_event. destruct (roomyb fs && bool_decide (group_fits fs)) eqn:Hf; [|discriminate]. intros [= <-].
  apply andb_true_iff in Hf as [Hf1 Hf2%bool_decide_eq_true]. split; [by apply roomyb_ok|done].
Qed.
Lemma fit_history es fs fs' : Forall (λ e, ∀ o, e = EOp o → fop_ok o) es → fit_run es fs = Some fs' → history es fs fs'.
Proof.
  intros Hes. revert fs. induction Hes as [|e es He _ IH]; intros fs; [intros [= <-]; constructor|]. cbn [fit_run].
  destruct (fit_event e fs) as [fs1|] eqn:E; [|discriminate]. apply fit_event_inv in E as (Hr & Hl & ->). intros Hrun.
  econstructor; [done| |apply surjective_pairing|by apply IH]. destruct e; cbn; auto.
Qed.

(** A name is made and committed, a second one is made, and power fails when one of
    the two frames of its commit is in the ring. *)
Definition crash_name : list byte := [Byte.x64].
Definition crash_setup : list event := [EOp (FPutDirent ROOT_INO demo_name demo_dirent); ECommit].
Definition crash_rest : list event := [EOp (FPutDirent ROOT_INO crash_name demo_dirent)].
(** The states of the run: after the commit, after the second name, and in the commit
    that does not finish, which reclaims and writes one frame. *)
Definition crash_run (fs0 : Fs FileDevice) : option (Fs FileDevice * Fs FileDevice * Fs FileDevice) :=
  fsc ← fit_run crash_setup fs0;
  fs ← fit_run crash_rest fsc;
  match commit_begin fs with
  | (Ok tt, fsb) =>
      if roomyb fs && (next_journal_seq fsb - last_checkpoint_seq fsb + 1 <=? JOURNAL_CAPACITY) then
        match forM_ (take 1 (log (tree fsb))) append_record fsb with
        | (Ok tt, fs1) => Some (fsc, fs, fs1)
        | _ => None
        end
      else None
  | _ => None
  end.
Definition crash_named (fs : Fs FileDevice) : bool :=
  match (lookup_dirent ROOT_INO demo_name fs).1, (lookup_dirent ROOT_INO crash_name fs).1 with Ok (Some _), Ok None => true | _, _ => false end.
Lemma crash_runs : match fs_create with Ok fs0 => match crash_run fs0 with Some (fsc, _, _) => crash_named fsc | _ => false end | _ => false end = true.
Proof. vm_compute. reflexivity. Qed.
Lemma crash_run_inv fs0 fsc fs fs1 :
  crash_run fs0 = Some (fsc, fs, fs1) → fit_run crash_setup fs0 = Some fsc ∧ fit_run crash_rest fsc = Some fs ∧ crash_point fs fs1.
Proof.
  unfold crash_run. destruct (fit_run crash_setup fs0) as [fsc'|]; [|discriminate]. cbn [mbind option_bind].
  destruct (fit_run crash_rest fsc') as [fs'|] eqn:E2; [|discriminate]. cbn [mbind option_bind].
  destruct (commit_begin fs') as [[[]|e| |] fsb] eqn:E3; [|discriminate..].
  destruct (roomyb fs' && _) eqn:E4; [|discriminate]. apply andb_true_iff in E4 as [Hr Hcap%Z.leb_le].
  destruct (forM_ _ append_record fsb) as [[[]|e| |] fs1'] eqn:E5; [|discriminate..]. intros [= <- <- <-].
  split; [reflexivity|]. split; [exact E2|]. exact (crash_in_commit fs' 1 _ _ (roomyb_ok _ Hr) E3 Hcap E5).
Qed.
Lemma crash_events_ok : Forall (λ e, ∀ o, e = EOp o → fop_ok o) (crash_setup ++ crash_rest).
Proof.
  unfold crash_setup, crash_rest. cbn [app]. repeat apply Forall_cons_2; [..|constructor]; intros o [= <-]; cbn; (split; [consts; lia|done]).
Qed.

Lemma crash_recovers_last_commit_witness :
  ∃ fs0 fsc fs fs1 N fs', fs_create = Ok fs0 ∧ crash_run fs0 = Some (fsc, fs, fs1) ∧ history crash_setup fs0 fsc ∧ history crash_rest fsc fs ∧
    fs_open N (device (store (tree fs1))) = Ok fs' ∧
    (∃ d, (lookup_dirent ROOT_INO demo_name fs').1 = Ok (Some d)) ∧ (lookup_dirent ROOT_INO crash_name fs').1 = Ok None.
Proof.
  destruct fs_create_ok as (fs0 & E0 & _). pose proof crash_runs as Hb. rewrite E0 in Hb.
  destruct (crash_run fs0) as [[[fsc fs] fs1]|] eqn:Er; [|discriminate]. destruct (crash_run_inv _ _ _ _ Er) as (F1 & F2 & Hp).
  pose proof crash_events_ok as Hok. apply Forall_app in Hok as [Ho1 Ho2].
  pose proof (fit_history _ _ _ Ho1 F1) as H1. pose proof (fit_history _ _ _ Ho2 F2) as H2.
  destruct (crash_recovers_last_commit crash_setup crash_rest fs0 fsc fs fs1 E0 H1) as [N HN].
  - intros e [= <-]. exact I.
  - exact H2.
  - apply Forall_singleton. intros [].
  - exact Hp.
  - destruct (HN N (le_n N)) as (fs' & Eo & [_ _ Hd _ _]). exists fs0, fsc, fs, fs1, N, fs'.
    split; [exact E0|]. split; [exact Er|]. split; [exact H1|]. split; [exact H2|]. split; [exact Eo|].
    destruct (Hd ROOT_INO demo_name) as [Ed _]; [cbn; consts; lia|]. destruct (Hd ROOT_INO crash_name) as [Ed' _]; [cbn; consts; lia|].
    rewrite Ed, Ed'. unfold crash_named in Hb. destruct ((lookup_dirent ROOT_INO demo_name fsc).1) as [[d|]|e| |]; [|discriminate..].
    destruct ((lookup_dirent ROOT_INO crash_name fsc).1) as [[d'|]|e| |]; [discriminate| |discriminate..]. split; [by exists d|reflexivity].
Defined.

Lemma events_return_witness :
  ∃ fs0 fs1 fs2, fs_create = Ok fs0 ∧ run_event ECommit fs0 = (Ok tt, fs1) ∧ run_event ESync fs0 = (Ok tt, fs2).
Proof.
  destruct events_return as (fs0 & E0 & Hall). pose proof crash_runs as Hb. rewrite E0 in Hb.
  destruct (crash_run fs0) as [[[fsc fs] fs1]|] eqn:Er; [|discriminate]. destruct (crash_run_inv _ _ _ _ Er) as (F1 & _). cbn [crash_setup fit_run] in F1.
  destruct (fit_event _ fs0) as [fs'|] eqn:E; [|discriminate]. apply fit_event_inv in E as (Hr & Hl & _).
  destruct (Hall [] fs0 ECommit (history_nil fs0) Hr Hl) as (r1 & fs2 & E1 & [->|[Hn _]]); [|exfalso; exact (Hn I)].
  destruct (Hall [] fs0 ESync (history_nil fs0) Hr I) as (r2 & fs3 & E2 & [->|[Hn _]]); [|exfalso; exact (Hn I)].
  exists fs0, fs2, fs3. split; [exact E0|]. split; [exact E1|exact E2].
Defined.
