(* ===== verification/Running.v ===== *)
(** * Running: an image-backed file system with file data (src/fs.rs).

    [running] joins the two invariants of a mounted image: what the journal and the
    last checkpoint hold ([journaled]) and the data blocks the extents name
    ([file_models]). Reads, writes, snapshots, commits and checkpoints keep it, and
    commits and checkpoints show every file the same bytes as before. *)
From Stdlib Require Import Strings.Byte.
From stdpp Require Import base list numbers gmap sorting.
From S2P Require Import Prelude Device BlockBtree NodeRep Merge Storage Journal StoreSpec Heap Btree Leaf Internal Tree TreeRead TreeWrite BtreeSpec Checkpoint FsTypes Fs FsSpec FsOps Snapshot FsData Serving FuseSpec Recovery Reclaim Commit Crash.
#[local] Open Scope rfs_scope.
#[local] Open Scope Z_scope.

Section running.
Context {D : Type} `{!BlockDevice D} `{!BlockDeviceLaws D} `{!BlockDeviceTotal D} `{!Crc32} `{!Crc32Range}.
Implicit Types fs : Fs D.

Record running fs (m : amap) (d : gmap Z (list byte)) (n : Z) : Prop := {
  ru_journaled : ∃ mc cc, journaled fs mc cc m n;
  ru_extents : extents_ok m d;
  ru_blocks nr b : d !! nr = Some b → stored (tree fs) nr b;
}.

Lemma running_files fs m d n : running fs m d n → file_models fs m d n.
Proof. intros [(mc & cc & Hj) Hx Hb]. split; [apply Hj|done|done]. Qed.
Lemma running_inv fs m d n : running fs m d n → fs_inv fs m n.
Proof. intros [(mc & cc & Hj) _ _]. apply Hj. Qed.
Lemma running_weaken n' n fs m d : 0 ≤ n' ≤ n → running fs m d n → running fs m d n'.
Proof. intros Hn [(mc & cc & Hj) Hx Hb]. split; [|done|done]. exists mc, cc. by eapply journaled_at_least. Qed.

Lemma length_log_after (bt : Btree D) ops m : (length (log_after bt ops m) ≤ length (log bt) + length ops)%nat.
Proof. unfold log_after. rewrite length_app. pose proof (length_log_of ops m). destruct (logging bt); cbn [length]; lia. Qed.

(** *** Room *)
Definition budget_of fs : Z := (2 ^ 52 - next_block_nr (store (tree fs))) / OP_BLOCKS.

Lemma running_roomy fs m d : roomy fs → running fs m d 0 → running fs m d (budget_of fs).
Proof.
  intros (H1 & H2 & _) [(mc & cc & [Him Hok [[[Hm [(Ha & _ & _) _ [Hq _]]] Ht] Hids Hw Hc] Hl Hon Hi]) Hx Hb]. split; [|done|done]. exists mc, cc.
  pose proof (ao_next _ Ha) as Hnx. assert (0 < FIRST_DATA_BLOCK_NR) by done. unfold budget_of, OP_BLOCKS.
  pose proof (Z.mul_div_le (2 ^ 52 - next_block_nr (store (tree fs))) 216 ltac:(lia)) as Hle.
  assert (0 ≤ (2 ^ 52 - next_block_nr (store (tree fs))) `div` 216) by (apply Z.div_pos; lia).
  assert ((2 ^ 52 - next_block_nr (store (tree fs))) `div` 216 ≤ 2 ^ 52) by (apply Z.div_le_upper_bound; lia).
  split; try done. split; [|done..]. split; [|done]. split; [done|]. split; [split; [done|unfold OP_BLOCKS; lia]|lia|lia].
Qed.
(** Writes take few blocks. *)
Lemma running_growth fs fs' m d k :
  running fs' m d (budget_of fs - k) → next_block_nr (store (tree fs')) ≤ next_block_nr (store (tree fs)) + OP_BLOCKS * (k + 1).
Proof.
  intros Hru. destruct (fm_bt _ _ _ (fi_models _ _ _ (running_inv _ _ _ _ Hru))) as [_ [(_ & _ & Hr) _ _]].
  unfold budget_of, OP_BLOCKS in *. pose proof (Z.mul_succ_div_gt (2 ^ 52 - next_block_nr (store (tree fs))) 216 ltac:(lia)). lia.
Qed.

(** *** Reads and writes *)
(** Writes that leave data blocks alone. *)
Lemma running_wrote fs fs' m d ops n n' :
  running fs m d n → wrote fs m ops fs' → steady fs fs' → fs_inv fs' (a_run ops m) n' → extents_ok (a_run ops m) d →
  running fs' (a_run ops m) d n'.
Proof using All.
  intros Hru W Hst Hinv Hx. pose proof Hru as [(mc & cc & Hj) _ Hb]. split; [|done|].
  - exists mc, cc. by eapply wrote_journaled.
  - intros nr b Hnr. eapply kept_shelters; [apply (running_inv _ _ _ _ Hru)|apply W|by apply Hb].
Qed.
Lemma running_quiet fs fs' m d n : running fs m d n → fs_models fs' m n → fs_quiet fs fs' → running fs' m d n.
Proof using All.
  intros Hru Hf Hq. eapply (running_wrote _ _ _ _ []); [done|by apply wrote_nil|apply steady_tree, Hq| |apply Hru].
  eapply fs_inv_quiet; [by apply (running_inv _ _ _ _ Hru)|done|done].
Qed.
Lemma running_reads {E A} fs m d n cur (c : M (Fs D) E A) P :
  dreads m d cur c P → running fs m d n → current_subvol fs = cur →
  ∃ a fs', c fs = (Ok a, fs') ∧ P a ∧ running fs' m d n ∧ fs_quiet fs fs'.
Proof using All.
  intros Hc Hru Hcur. destruct (Hc fs n (running_files _ _ _ _ Hru) Hcur) as (a & fs' & E1 & HP & Hf & Hq).
  exists a, fs'. do 2 (split; [done|]). split; [by eapply running_quiet; [|apply Hf|]|done].
Qed.

(** Writes of one subvolume. *)
Lemma running_writes {E A} fs m d k n s l (c : M (Fs D) E A) P :
  dwrites m d (current_subvol fs) k c P → (∀ a ops d', P a ops d' → Forall (local_op s) ops ∧ Forall wop_good ops) →
  running fs m d (k + n) → 0 ≤ n → view m (current_subvol fs) s l →
  ∃ a ops d' fs', c fs = (Ok a, fs') ∧ P a ops d' ∧ running fs' (a_run ops m) d' n ∧ fs' = set_tree (tree fs') fs ∧
    (length (log (tree fs')) ≤ length (log (tree fs)) + length ops)%nat.
Proof using All.
  intros Hc HP Hru Hn Hv. destruct (Hc fs n (running_files _ _ _ _ Hru) Hn eq_refl) as (a & ops & d' & fs' & E1 & Ha & Hf & T & L & K).
  destruct (HP a ops d' Ha) as [Hloc Hgood]. exists a, ops, d', fs'. do 2 (split; [done|]). split; [|split; [done|by rewrite L; apply length_log_after]].
  pose proof Hru as [(mc & cc & Hj) _ _]. pose proof (jn_inv _ _ _ _ _ Hj) as [_ Hids Hw Hcur]. split; [|apply Hf|apply Hf]. exists mc, cc.
  eapply wrote_journaled; [exact Hj|by split|by apply steady_tree|].
  pose proof (view_width _ _ _ _ Hv) as Ws. destruct (view_above _ _ _ _ _ _ Hv Hw Hids) as [Hlt _].
  split; [apply Hf|..]; rewrite T; cbn [set_tree next_snap_id next_subvol_id current_subvol];
    [by eapply ids_ok_local|done|by rewrite (local_subvol s)].
Qed.

Lemma running_performs {E A} fs m d n s l (c : M (Fs D) E A) a ops :
  performs m (current_subvol fs) c a ops → Forall no_extent ops → Forall (local_op s) ops → Forall wop_good ops →
  running fs m d (Z.of_nat (length ops) + n) → 0 ≤ n → view m (current_subvol fs) s l →
  ∃ fs', c fs = (Ok a, fs') ∧ running fs' (a_run ops m) d n ∧ fs' = set_tree (tree fs') fs ∧
    (length (log (tree fs')) ≤ length (log (tree fs)) + length ops)%nat.
Proof using All.
  intros Hc Hx Hloc Hgood Hru Hn Hv.
  destruct (running_writes fs m d _ n s l c _ (performs_dwrites m d _ c a ops Hc Hx)) as (a' & ops' & d' & fs' & E1 & (-> & -> & ->) & H1);
    [by intros ? ? ? (-> & -> & ->)|done|done|done|]. by exists fs'.
Qed.

(** *** Commits and checkpoints *)
(** A few writes after a state with room, there is room for a checkpoint. *)
Lemma budget_slack fs fs' m d k :
  roomy fs → running fs' m d (budget_of fs - k) → 0 ≤ k ≤ 64 →
  running fs' m d (JOURNAL_CAPACITY + MOUNT_SLACK) ∧
  4 * next_block_nr (store (tree fs')) + OP_BLOCKS * (JOURNAL_CAPACITY + MOUNT_SLACK) < 2 ^ 52 - 1.
Proof using All.
  intros (H1 & _) Hru Hk. pose proof (running_growth _ _ _ _ _ Hru) as Hg. assert (JOURNAL_CAPACITY = 1024) as Ecap by done.
  unfold MOUNT_SLACK, OP_BLOCKS in *. rewrite Ecap. split; [|lia]. eapply running_weaken; [|exact Hru]. unfold budget_of, OP_BLOCKS.
  assert (2 ^ 40 ≤ (2 ^ 52 - next_block_nr (store (tree fs))) / 216) by (apply Z.div_le_lower_bound; lia). lia.
Qed.

Lemma running_commit fs0 fs m d k :
  roomy fs0 → running fs m d (budget_of fs0 - k) → 0 ≤ k ≤ 64 → next_journal_seq fs = next_journal_seq fs0 →
  group_fits fs → no_orphans m →
  ∃ fs', journal_commit fs = (Ok tt, fs') ∧ running fs' m d 0 ∧ counters_of fs' = counters_of fs ∧ log (tree fs') = [].
Proof using All.
  intros Hro Hru Hk Hs Hl Hno. assert (JOURNAL_CAPACITY = 1024) as Ecap by done.
  destruct (budget_slack _ _ _ _ _ Hro Hru Hk) as [[(mc & cc & Hj) Hx Hb] Hbig].
  destruct (commit_journaled fs mc cc m MOUNT_SLACK Hj ltac:(done) Hl Hbig) as (fs' & ops & E & [Hj' C Hlog _ Hidle Hsh]);
    [destruct Hro as (_ & _ & ?); lia|by right|].
  rewrite (Hidle Hno) in Hj'. exists fs'. split; [done|]. split; [|done]. eapply (running_weaken _ MOUNT_SLACK); [done|].
  split; [by eexists _, _|done|]. intros nr b Hb'. by apply Hsh, Hb.
Qed.

Lemma running_sync fs m d :
  roomy fs → running fs m d 0 →
  ∃ fs', fs_sync fs = (Ok tt, fs') ∧ running fs' m d 0 ∧ counters_of fs' = counters_of fs ∧ log (tree fs') = log (tree fs).
Proof using All.
  intros Hro Hru%running_roomy; [|done]. rewrite <- (Z.sub_0_r (budget_of fs)) in Hru. assert (JOURNAL_CAPACITY = 1024) as Ecap by done.
  destruct (budget_slack _ _ _ _ _ Hro Hru ltac:(lia)) as [[(mc & cc & Hj) Hx Hb] Hbig].
  destruct (sync_journaled fs mc cc m _ Hj) as (fs' & E & Hj' & L & C & _ & _ & Hsh); [done|done|destruct Hro as (_ & _ & ?); lia|].
  exists fs'. split; [done|]. split; [|done]. eapply (running_weaken _ (JOURNAL_CAPACITY + MOUNT_SLACK)); [done|].
  split; [by eexists _, _|done|]. intros nr b Hb'. by apply Hsh, Hb.
Qed.

Lemma running_fits fs m d n : running fs m d n → Z.of_nat (length (log (tree fs))) ≤ 64 → group_fits fs.
Proof using All. intros [(mc & cc & Hj) _ _]. by eapply journaled_fits. Qed.

(** With no work items, reclaiming is a read. *)
Lemma reclaim_idle_reads m cur b : typed m → no_orphans m → reads (D := D) m cur (reclaim_deleted_inodes b) 0.
Proof using All. intros Hm Hno. eapply reads_bind; [by apply list_orphans_reads|]. apply reads_ret. Qed.

(** *** Subvolumes *)
Lemma running_switch fs m d n id :
  running fs m d n → in_width 32 id → is_Some (a_subvol m id) →
  ∃ fs', switch_subvol id fs = (Ok tt, fs') ∧ running fs' m d n ∧ current_subvol fs' = id ∧ log (tree fs') = log (tree fs).
Proof using All.
  intros Hru Hid [sv Hsv]. destruct (switch_inv fs m n id (running_inv _ _ _ _ Hru) Hid) as (fs' & E & Hinv & Ec & Hst & W).
  rewrite Hsv in E, Ec. exists fs'. split; [done|]. split; [by eapply (running_wrote _ _ _ _ []); [..|apply Hru]|].
  split; [done|]. destruct W as (-> & _). apply log_after_nil.
Qed.

Lemma running_snapshot fs m d n src sv :
  running fs m d (4 + n) → 0 ≤ n → in_width 32 src → a_subvol m src = Some sv → 2 ≤ next_snap_id fs → next_subvol_id fs < U32_MAX →
  ∃ fs', snapshot_subvol src fs = (Ok (next_subvol_id fs), fs') ∧
    running fs' (a_run (snapshot_ops src (next_snap_id fs) (next_subvol_id fs) sv) m) d n ∧
    current_subvol fs' = current_subvol fs ∧ next_journal_seq fs' = next_journal_seq fs ∧
    (length (log (tree fs')) ≤ length (log (tree fs)) + 4)%nat.
Proof using All.
  intros Hru Hn Hsrc Hsv H1 H2.
  destruct (snapshot_taken fs m n src sv (running_inv _ _ _ _ Hru) Hn Hsrc Hsv H1 H2) as (fs' & E & Hinv & [W Hx Hst] & Ec).
  exists fs'. split; [done|]. split; [|split; [done|split; [apply Hst|by destruct W as (-> & _); apply length_log_after]]].
  eapply running_wrote; [done|done|done|done|by apply no_extent_ok; [|apply Hru]].
Qed.

(** *** Mounting a checkpoint *)
Lemma running_served fs m d n : running fs m d n → served fs m d n.
Proof. intros Hru. split; [by eapply running_inv|by apply running_files]. Qed.

(** A mount of the image that a checkpoint leaves. *)
Lemma synced_mounts fs m d n fs1 sb h t cs :
  synced_to fs m n fs1 sb h t cs → fs_inv fs m n → MOUNT_SLACK ≤ n → extents_ok m d → (∀ nr b, d !! nr = Some b → stored (tree fs) nr b) →
  ∀ fuel p, (length cs < fuel)%nat →
  ∃ fs', open_on fuel (with_device (device (store (tree fs1))) p) = Ok fs' ∧ served fs' m d 0 ∧ counters_of fs' = counters_of fs.
Proof using All.
  intros Hy Hinv Hn Hx Hb fuel p Hf. destruct (synced_image _ _ _ _ _ _ _ _ Hy Hinv Hn) as [[Hd Hm Hty _ _ _ _ [H1 H2] Hq _] Hlc].
  destruct (open_on_ok fuel (store (tree fs1)) p sb h t cs [] m [] 0 Hd Hm eq_refl) as (fs' & E & [M1 M2 _ _ _] & Hst);
    [constructor|done|done|cbn [length]; unfold MOUNT_SLACK, OP_BLOCKS in *; lia|cbn [length]; unfold MOUNT_SLACK in *; lia|done|].
  rewrite Hlc in M2. pose proof Hinv as [_ Hids Hw Hcur]. injection M2 as I1 I2 I3 I4.
  exists fs'. split; [done|]. split; [|unfold counters_of; congruence].
  assert (fs_models fs' m 0) as Hfs by (by split). split; [split; rewrite ?I2, ?I3, ?I4; done|]. split; [done|done|].
  intros nr b (Hh & [Hr _] & Hnn)%Hb%(sy_shelters _ _ _ _ _ _ _ _ Hy).
  destruct (sy_sb _ _ _ _ _ _ _ _ Hy) as (_ & _ & _ & _ & _ & _ & Z7). apply Hst; [rewrite Z7; apply Hh| |done].
  rewrite (node_at_tree _ _ _ _ _ _ (sy_tree _ _ _ _ _ _ _ _ Hy)) in Hnn. apply not_elem_of_app. split; [done|].
  intros Hl%(sy_listed _ _ _ _ _ _ _ _ Hy). by destruct Hh.
Qed.

Lemma running_remount fs m d :
  roomy fs → running fs m d 0 →
  ∃ fs1, fs_sync fs = (Ok tt, fs1) ∧ ∃ N, ∀ fuel p, (N ≤ fuel)%nat →
    ∃ fs', open_on fuel (with_device (device (store (tree fs1))) p) = Ok fs' ∧ served fs' m d 0 ∧ counters_of fs' = counters_of fs.
Proof using All.
  intros Hro Hru%running_roomy; [|done]. rewrite <- (Z.sub_0_r (budget_of fs)) in Hru. assert (JOURNAL_CAPACITY = 1024) as Ecap by done.
  destruct (budget_slack _ _ _ _ _ Hro Hru ltac:(lia)) as [[(mc & cc & Hj) Hx Hb] Hbig].
  destruct (sync_synced fs mc cc m _ Hj Hbig) as (fs1 & sb & h & t & cs & E & Hy); [destruct Hro as (_ & _ & ?); lia|].
  exists fs1. split; [done|]. exists (S (length cs)). intros fuel p Hf.
  by apply (synced_mounts fs m d _ fs1 sb h t cs Hy (jn_inv _ _ _ _ _ Hj)).
Qed.
End running.

(** ** Claims *)
Section claims.
Context {D : Type} `{!BlockDevice D} `{!BlockDeviceLaws D} `{!BlockDeviceTotal D} `{!Crc32} `{!Crc32Range}.
Implicit Types fs : Fs D.

(** C5: [sync] makes files durable, data included. After a checkpoint of a running
    image, a mount of its device succeeds; it has the same map, so the same names and
    inodes, and the same counters; and reading at any place of any file of any
    subvolume or snapshot returns there the bytes that it returned before. *)
Theorem sync_then_mount_keeps_files fs m d :
  roomy fs → running fs m d 0 →
  ∃ fs1, fs_sync fs = (Ok tt, fs1) ∧ ∃ N, ∀ fuel p, (N ≤ fuel)%nat →
    ∃ fs', open_on fuel (with_device (device (store (tree fs1))) p) = Ok fs' ∧ fs_models fs' m 0 ∧ counters_of fs' = counters_of fs ∧
      ∀ id s l ino offset size, in_width 32 id → view m id s l → in_width 64 ino → 0 ≤ offset → 0 ≤ size → offset + size < 2 ^ 64 →
        ∃ bytes, reads_in fs id ino offset size bytes ∧ reads_in fs' id ino offset size bytes.
Proof using All.
  intros Hro Hru. destruct (running_remount fs m d Hro Hru) as (fs1 & E & N & HN). exists fs1. split; [done|]. exists N. intros fuel p Hf.
  destruct (HN fuel p Hf) as (fs' & Eo & Hs & C). exists fs'. split; [done|]. split; [apply Hs|]. split; [done|].
  intros id s l ino offset size Hid Hv Hi Ho Hz Hend.
  exists (expected_bytes d m l ino offset size). split; [|by apply (read_in_served fs' m d 0 id s l)].
  apply (read_in_served fs m d 0 id s l); [by apply running_served|done..].
Qed.
End claims.

(** ** A concrete run *)
#[local] Existing Instance sum_crc.
Lemma create_running : ∃ fs, fs_create = Ok fs ∧ running fs seed_map ∅ 0.
Proof.
  destruct fs_create_seeded as (fs & E & Hj & _ & _). exists fs. split; [exact E|].
  split; [exists seed_map, SEED_COUNTERS; exact (journaled_at_least 0 4096 _ _ _ _ ltac:(lia) Hj)|exact seed_extents|done].
Qed.
Lemma create_roomy : match fs_create with Ok fs => roomyb fs && persistent (store (tree fs)) | _ => false end = true.
Proof. vm_compute. reflexivity. Qed.
#[local] Opaque fs_create fs_open seed_map.
Lemma sync_then_mount_keeps_files_witness :
  ∃ fs fs1 N fs', fs_create = Ok fs ∧ fs_sync fs = (Ok tt, fs1) ∧ fs_open N (device (store (tree fs1))) = Ok fs' ∧ fs_models fs' seed_map 0.
Proof.
  destruct create_running as (fs & E & Hru). pose proof create_roomy as Hro. rewrite E in Hro. apply andb_true_iff in Hro as [Hro%roomyb_ok _].
  destruct (sync_then_mount_keeps_files fs seed_map ∅ Hro Hru) as (fs1 & E1 & N & HN). destruct (HN N true ltac:(lia)) as (fs' & E2 & Hm & _).
  exists fs, fs1, N, fs'. split; [exact E|]. split; [exact E1|]. split; [exact E2|exact Hm].
Defined.
