(* ===== verification/Gc.v ===== *)
(** * Gc: mark-and-sweep frees exactly the orphans (src/fs.rs, gc).

    After the leading checkpoint, every block is a node of the tree, the data of a
    live extent at some snapshot, on the free list or in its chain, or an orphan.
    The sweep returns the orphans to the allocator and no other block, so that the
    image, at every moment, and every file keep what they hold. *)
From Stdlib Require Import Strings.Byte.
From stdpp Require Import base list numbers gmap.
From S2P Require Import Prelude Device BlockBtree NodeRep Merge Storage Journal StoreSpec Heap Btree Leaf Internal Tree TreeRead BtreeSpec Checkpoint FsTypes Fs FsSpec FsOps Snapshot FsData Recovery Crash Running.
#[local] Open Scope rfs_scope.
#[local] Open Scope Z_scope.

(** ** The marks *)
(** The data block of a live extent, at any snapshot. *)
Definition pinned (m : amap) (nr : Z) : Prop := ∃ k v x,
  head k = Some (z2b KIND_EXTENT) ∧ m k = Some (v, Live) ∧ extent_from_bytes v = Ok x ∧ x_data_block x = nr.

Lemma elem_of_mark_all hwm mark l nr : nr ∈ mark_all hwm mark l ↔ nr ∈ mark ∨ nr ∈ l ∧ nr < hwm.
Proof.
  unfold mark_all. revert mark. induction l as [|x l IH]; intros mark; cbn [foldl]; [rewrite elem_of_nil; tauto|].
  rewrite IH, elem_of_cons. unfold mark_live. destruct (Z.ltb_spec x hwm); [rewrite elem_of_union, elem_of_singleton|];
    (split; [intros [?|?]|intros [?|[[->|?] ?]]]); try tauto; try lia; destruct_or!; subst; tauto.
Qed.

(** Extents that a view shows pin their blocks. *)
Lemma a_extent_pinned m l ino off x : a_extent m l ino off = Some x → pinned m (x_data_block x).
Proof. intros (v & (s & Hv & _)%seen_Some & Hp)%decoded_Some. by exists (versioned (extent_key ino off) s), v, x. Qed.
Lemma pinned_held m d nr : typed m → extents_ok m d → pinned m nr → is_Some (d !! nr).
Proof.
  intros Hm Hx (k & v & x & Hh & Hk & He & <-). pose proof (Hm _ _ Hk) as Ht. unfold row_typed in Ht. destruct k as [|b k]; [done|]. injection Hh as ->.
  change (layout (b2z (z2b KIND_EXTENT))) with (Some (17, 17, 16)%nat) in Ht. destruct Ht as [Hl _]. set (k' := z2b KIND_EXTENT :: k) in *.
  destruct (extent_key_of (take 17 k') (z2b KIND_EXTENT)) as (ino & off & Ek & Hi & Ho); [rewrite length_take; lia|done|done|].
  assert (k' = versioned (extent_key ino off) (from_be (drop 17 k'))) as Ekey.
  { unfold versioned. rewrite <- Ek, to_from_be_len by (rewrite length_drop; lia). by rewrite take_drop. }
  rewrite Ekey in Hk. destruct (Hx ino off (from_be (drop 17 k')) v Hi Ho) as (x' & He' & [_ _ _ (b & Hb & _)]); [|done|].
  { pose proof (from_be_range (drop 17 k')) as Hr. rewrite length_drop in Hr. by replace (length k' - 17)%nat with 4%nat in Hr by lia. }
  rewrite He in He'. injection He' as <-. by exists b.
Qed.

(** Files whose pinned blocks stay read the same. *)
Definition same_pinned (m : amap) (d d' : gmap Z (list byte)) : Prop := d' ⊆ d ∧ ∀ nr, pinned m nr → d' !! nr = d !! nr.
Lemma same_pinned_reads m d d' l ino offset size :
  same_pinned m d d' → expected_bytes d' m l ino offset size = expected_bytes d m l ino offset size.
Proof.
  intros [_ Hp]. unfold expected_bytes. destruct (a_inode m l ino) as [i|]; [|done]. apply list_fmap_ext. intros _ pos _. unfold byte_at.
  destruct (a_extent m l ino (block_floor pos)) as [x|] eqn:Ex; [|done]. by rewrite (Hp _ (a_extent_pinned _ _ _ _ _ Ex)).
Qed.
Lemma same_pinned_extents m d d' : same_pinned m d d' → extents_ok m d → extents_ok m d'.
Proof.
  intros [_ Hp] Hx ino off snap v Hi Ho Hs Hv. destruct (Hx ino off snap v Hi Ho Hs Hv) as (x & He & [H1 H2 H3 H4]).
  exists x. split; [done|]. split; [done..|]. rewrite Hp; [done|]. by exists (versioned (extent_key ino off) snap), v, x.
Qed.

(** The range that [gc] scans holds the extents. *)
Lemma extent_rows m k r :
  typed m → m k = Some r →
  scanned (versioned [z2b KIND_EXTENT] 0) (versioned [z2b (KIND_EXTENT + 1)] 0) k ↔ head k = Some (z2b KIND_EXTENT).
Proof.
  intros Hm Hk. pose proof (Hm _ _ Hk) as Ht. unfold row_typed in Ht. destruct k as [|b k]; [done|].
  assert (4 ≤ length k)%nat as Hl.
  { unfold layout in Ht. repeat case_match; try done; simplify_eq; destruct Ht as [Ht _]; cbn [length] in Ht; lia. }
  pose proof (bytes_cmp_zeros 4 k Hl) as Hz. unfold scanned, bytes_lt, versioned. cbn [app head]. change (to_be 4 0) with (replicate 4 Byte.x00).
  cbn [bytes_cmp]. change (b2z (z2b KIND_EXTENT)) with 3. change (b2z (z2b (KIND_EXTENT + 1))) with 4.
  assert (b2z b = 3 ↔ Some b = Some (z2b KIND_EXTENT)) as <-.
  { split; [intros E; by rewrite <- (z2b_b2z b), E|by intros [= ->]]. }
  destruct (Z.compare_spec (b2z b) 3), (Z.compare_spec (b2z b) 4); (split; [intros [? ?]|intros ?]); try done; lia.
Qed.

(** The blocks that the rows of the scan name are the pinned ones. *)
Lemma live_blocks_rows rows :
  Forall (λ x, (row_val x).2 = Live → ∃ e, extent_from_bytes (row_val x).1 = Ok e) rows →
  ∃ l, live_extent_blocks rows = Ok l ∧
    ∀ nr, nr ∈ l ↔ ∃ x e, x ∈ rows ∧ (row_val x).2 = Live ∧ extent_from_bytes (row_val x).1 = Ok e ∧ x_data_block e = nr.
Proof.
  unfold live_extent_blocks. induction rows as [|x rows IH] using rev_ind; intros Hall.
  { exists []. split; [done|]. intros nr. split; [by intros ?%elem_of_nil|by intros (x & e & ?%elem_of_nil & _)]. }
  apply Forall_app in Hall as [Hall Hx]. rewrite Forall_singleton in Hx. destruct (IH Hall) as (l & E & Hl). rewrite foldO_app, E. mred. cbn [foldO].
  destruct x as [[[k s] kind] v]. cbn [row_val fst snd] in Hx. case_decide as Hk; mred.
  - destruct (Hx Hk) as [e He]. rewrite He. mred. eexists. split; [done|]. intros nr. rewrite elem_of_app, Hl, list_elem_of_singleton. split.
    + intros [(x & e' & Hin & H1)| ->]; [exists x, e'; split; [apply elem_of_app; by left|done]|].
      exists (k, s, kind, v), e. split; [apply elem_of_snoc|done].
    + intros (x & e' & [Hin| ->%list_elem_of_singleton]%elem_of_app & H1 & H2 & <-); [left; by exists x, e'|right; cbn in H2; congruence].
  - exists l. split; [done|]. intros nr. rewrite Hl. split; intros (x & e & Hin & H1 & H2); exists x, e.
    + split; [apply elem_of_app; by left|done].
    + apply elem_of_app in Hin as [Hin| ->%list_elem_of_singleton]; [by split|done].
Qed.

Lemma live_blocks_pinned m rows :
  typed m → row_list m (versioned [z2b KIND_EXTENT] 0) (versioned [z2b (KIND_EXTENT + 1)] 0) rows →
  ∃ l, live_extent_blocks rows = Ok l ∧ ∀ nr, nr ∈ l ↔ pinned m nr.
Proof.
  intros Hm Hr. assert (∀ x, x ∈ rows → m (row_key x) = Some (row_val x) ∧ head (row_key x) = Some (z2b KIND_EXTENT)) as Hin.
  { intros x Hx. destruct (proj1 (rl_exact _ _ _ _ Hr (row_key x) (row_val x))) as [Hsc Hrow]; [by exists x|].
    split; [done|]. by apply (extent_rows m _ _ Hm Hrow). }
  destruct (live_blocks_rows rows) as (l & E & Hl).
  { apply Forall_forall. intros x [Hrow Hh]%Hin HL. pose proof (Hm _ _ Hrow) as Ht. unfold row_typed in Ht.
    destruct (row_key x) as [|b k]; [done|]. injection Hh as ->. change (layout (b2z (z2b KIND_EXTENT))) with (Some (17, 17, 16)%nat) in Ht.
    destruct Ht as [_ Ht]. specialize (Ht HL). destruct (extent_parses _ Ht) as [e (v & [= <-] & He)%decoded_Some]. by exists e. }
  exists l. split; [done|]. intros nr. rewrite Hl. split.
  - intros (x & e & [Hrow Hh]%Hin & HL & He & Hnr). exists (row_key x), (row_val x).1, e. split_and!; [done| |done|done].
    rewrite Hrow. destruct (row_val x) as [v kind]. cbn in *. by subst.
  - intros (k & v & e & Hh & Hrow & He & Hnr).
    destruct (proj2 (rl_exact _ _ _ _ Hr k (v, Live))) as (x & Hx & _ & Hv); [split; [by apply (extent_rows m _ _ Hm Hrow)|done]|].
    exists x, e. by rewrite Hv.
Qed.

(** ** Marking and sweeping *)
Section sweep.
Context {D : Type} `{!BlockDevice D} `{!BlockDeviceLaws D} `{!BlockDeviceTotal D} `{!Crc32} `{!Crc32Range}.
Implicit Types (s : BlockStore D) (fs : Fs D).

Lemma forest_children {A} (R : bound → bound → A → Prop) lo ks hi ch : forest R lo ks hi ch → Forall (λ c, ∃ l u, R l u c) ch.
Proof using Type.
  revert lo ch. induction ks as [|k ks IH]; intros lo [|c ch]; cbn [forest]; try done.
  - intros [-> Hc]. apply Forall_singleton. by exists lo, hi.
  - intros [Hc Hf]. constructor; [by exists lo, (Some k)|by eapply IH].
Qed.

(** The walk lists the nodes of the tree, each once. *)
Lemma collect_blocks_ok h s q lo hi t fuel out :
  tree_ok h s q lo hi t → (h < fuel)%nat →
  ∃ s', collect_node_blocks_rec fuel out (t_nr t) s = (Ok (out ++ blocks t), s') ∧ same_heap s s'.
Proof using All.
  revert s lo hi t fuel out. induction h as [|h IH]; intros s lo hi t [|fuel] out Ht Hf; try lia;
    destruct t as [nr bs|nr ks ch]; try (destruct Ht as [_ Ht]; by destruct Ht); cbn [collect_node_blocks_rec t_nr blocks].
  - destruct Ht as (_ & (n & Hn & Hok) & _). destruct (with_node_loads s nr n (λ node, if level node =? 0 then Ok [] else children node) Hn) as (s' & E & Hs).
    rewrite (M_bind_ok _ _ _ [] s'); [by exists s'|]. rewrite E. by rewrite (lo_level _ _ _ Hok).
  - destruct Ht as (_ & (n & Hn & Hok) & _ & Hfo). destruct (with_node_loads s nr n (λ node, if level node =? 0 then Ok [] else children node) Hn) as (s1 & E & Hs).
    rewrite (M_bind_ok _ _ _ (t_nr <$> ch) s1).
    2: { rewrite E. assert (level n = Z.of_nat (S h)) as -> by (by apply (inode_level _ _ _ _ Hok)).
         rewrite (proj2 (Z.eqb_neq _ 0)) by lia. by rewrite (inode_children _ _ _ _ Hok). }
    apply forest_children in Hfo.
    assert (∀ out s0, same_heap s s0 → ∃ s', foldM (collect_node_blocks_rec fuel) out (t_nr <$> ch) s0 = (Ok (out ++ concat (map blocks ch)), s') ∧ same_heap s s')
      as Hch.
    { clear E Hok. induction Hfo as [|c ch (l & u & Hc) _ IHc]; intros out0 s0 Hs0; cbn [fmap list_fmap foldM map concat].
      - exists s0. by rewrite app_nil_r.
      - destruct (IH s0 l u c fuel out0 (same_heap_tree _ _ _ _ _ _ _ Hs0 Hc) ltac:(lia)) as (s2 & E2 & Hs2).
        destruct (IHc (out0 ++ blocks c) s2) as (s3 & E3 & Hs3); [by etrans|]. exists s3. rewrite (M_bind_ok _ _ _ _ _ E2), app_assoc. done. }
    destruct (Hch (out ++ [nr]) s1 Hs) as (s' & E' & Hs'). exists s'. rewrite E', <- app_assoc. done.
Qed.

(** What [gc] marks: the superblock and the ring, nodes, pinned blocks, free blocks. *)
Lemma gc_mark_ok fs m n h t :
  fs_models fs m n → tree_at (store (tree fs)) (next_bset_seq (tree fs)) (root_block (tree fs)) h t →
  let s := store (tree fs) in
  ∃ mark s', gc_mark fs = (Ok (next_block_nr s, mark), set_tree (set_store s' (tree fs)) fs) ∧ same_heap s s' ∧
    ∀ nr, nr ∈ mark ↔ nr < next_block_nr s ∧ (0 ≤ nr < FIRST_DATA_BLOCK_NR ∨ nr ∈ blocks t ∨ pinned m nr ∨ nr ∈ unheld s).
Proof using All.
  intros [Hbt Hm] Ht s. pose proof Hbt as [_ Hb]. pose proof (height_fuel _ _ _ _ _ _ _ (ta_ok _ _ _ _ _ Ht) (ta_owned _ _ _ _ _ Ht) (budget_room _ _ _ Hb)) as Hfuel.
  destruct (collect_blocks_ok h s _ _ _ t TREE_FUEL [] (ta_ok _ _ _ _ _ Ht) ltac:(lia)) as (s1 & E1 & Hs1). cbn [app] in E1.
  rewrite (ta_root _ _ _ _ _ Ht) in E1. destruct (read_models _ _ _ _ Hs1 Hbt) as [Hbt1 _].
  destruct (range_scan_all_reads (set_store s1 (tree fs)) m n [z2b KIND_EXTENT] [z2b (KIND_EXTENT + 1)] Hbt1) as (s2 & rows & E2 & Hs2 & Hrows);
    [cbn; consts; lia..|]. destruct (live_blocks_pinned m rows Hm Hrows) as (l & E3 & Hl).
  exists (mark_all (next_block_nr s) (mark_all (next_block_nr s) (mark_all (next_block_nr s) (mark_all (next_block_nr s)
    (mark_all (next_block_nr s) ∅ (seqZ 0 FIRST_DATA_BLOCK_NR)) (blocks t)) l) (free_list s)) (last_chain_blocks s)), s2.
  assert (same_heap s s2) as Hs by (by etrans). split; [|split; [done|]].
  - unfold gc_mark. rewrite gets_bind. cbn zeta.
    rewrite (M_bind_ok _ _ _ (blocks t) (set_tree (set_store s1 (tree fs)) fs)).
    2: { unfold on_tree, zoom, collect_live_node_blocks. rewrite gets_bind, (in_store_ok _ _ _ _ E1). done. }
    rewrite (M_bind_ok _ _ _ rows (set_tree (set_store s2 (tree fs)) fs)).
    2: { unfold on_tree, zoom. cbn [set_tree tree]. by rewrite E2. }
    rewrite E3, (M_bind_ok _ _ _ l (set_tree (set_store s2 (tree fs)) fs)), !gets_bind by done.
    unfold free_list_snapshot, chain_blocks_snapshot. cbn [id set_tree set_store tree store]. by rewrite (sh_free _ _ Hs), (sh_chain _ _ Hs).
  - intros nr. rewrite !elem_of_mark_all, elem_of_seqZ, Hl. unfold unheld. rewrite elem_of_app, elem_of_empty, Z.add_0_l. tauto.
Qed.

(** Sweeping frees the blocks that have no mark. *)
Definition swept (hwm : Z) (mark : gset Z) : list Z :=
  filter (λ nr, nr ∉ mark) (seqZ FIRST_DATA_BLOCK_NR (hwm - FIRST_DATA_BLOCK_NR)).

Lemma sweep_frees l (mark : gset Z) r fs s' :
  forM_ (filter (λ nr, nr ∉ mark) l) free (store (tree fs)) = (Ok tt, s') →
  foldM (λ reclaimed nr, if bool_decide (nr ∈ mark) then mret reclaimed else _ ← on_fs_store (free nr); mret (reclaimed + 1)) r l fs =
    (Ok (r + Z.of_nat (length (filter (λ nr, nr ∉ mark) l))), set_tree (set_store s' (tree fs)) fs).
Proof using Type.
  revert r fs. induction l as [|nr l IH]; intros r fs; cbn [foldM].
  { rewrite filter_nil. intros [= <-]. rewrite Z.add_0_r. destruct fs as [bt]. by destruct bt. }
  rewrite filter_cons. destruct (decide (nr ∉ mark)) as [Hn|Hn].
  - cbn [forM_]. rewrite (M_bind_ok _ _ _ _ _ (free_eq nr (store (tree fs)))). intros E.
    erewrite (M_bind_ok _ _ _ (r + 1)); [|rewrite bool_decide_eq_false_2 by done; erewrite (M_bind_ok _ _ _ tt); [done|]; by apply on_fs_store_ok, free_eq].
    rewrite IH; [|exact E]. cbn [length]. do 2 f_equal. lia.
  - intros E. rewrite (M_bind_ok _ _ _ r fs); [by apply IH|]. rewrite bool_decide_eq_true_2; [done|]. by destruct (decide (nr ∈ mark)).
Qed.
Lemma gc_sweep_ok hwm mark fs :
  ∃ s', gc_sweep hwm mark fs = (Ok (Z.of_nat (length (swept hwm mark))), set_tree (set_store s' (tree fs)) fs) ∧
    released (store (tree fs)) (swept hwm mark) s'.
Proof using Type.
  destruct (free_all_ok (swept hwm mark) (store (tree fs))) as (s' & E & Hr). exists s'. split; [|done].
  unfold gc_sweep. by rewrite (sweep_frees (seqZ FIRST_DATA_BLOCK_NR (hwm - FIRST_DATA_BLOCK_NR)) mark 0 fs s' E).
Qed.

(** *** The image and the files *)
Section released.
Context {s s' : BlockStore D} {F : list Z} (Hf : released s F s').

Lemma released_tree_at q root h t : (∀ k, k ∈ blocks t → k ∉ F) → tree_at s q root h t → tree_at s' q root h t.
Proof using Hf.
  intros HF [Hok Hroot [Hnd Hh] Hp Hso]. split; [|done| | |by apply (released_ok Hf)].
  - eapply tree_ok_frame; [|reflexivity|done]. intros k n Hk. by apply (released_loads Hf), HF.
  - split; [done|]. rewrite Forall_forall in Hh |- *. intros k Hk. apply (released_held Hf). auto.
  - intros x k Hx Hc Hk. apply (released_calm Hf), (Hp x); [done| |done]. unfold cached in *.
    rewrite (rf_kept _ _ _ Hf) in Hc; [done|]. apply HF, (subtree_blocks x t Hx), t_nr_blocks.
Qed.

(** Blocks of the tree and of the chain apart, the image does not need any. *)
Lemma released_durable sb h t cs frames :
  (∀ k, k ∈ blocks t → k ∉ F) → Forall (λ k, k ∈ last_chain_blocks s) (fst <$> cs) → durable s sb h t cs frames → durable s' sb h t cs frames.
Proof using Hf.
  intros HF Hch []. assert (∀ k, k ∈ blocks t → held s' k) as Hheld.
  { intros k Hk. rewrite Forall_forall in du_held. apply (released_held Hf). auto. }
  split; rewrite ?(rf_device _ _ _ Hf), ?(rf_next _ _ _ Hf); try done.
  - eapply tree_ok_frame; [|reflexivity|done]. intros k n Hk [_ Hl]. split; [by apply Hheld|].
    cbn [cold set_data_cache set_node_cache node_cache] in *. rewrite lookup_empty in *. unfold on_disk in *. cbn in *.
    by rewrite (rf_device _ _ _ Hf).
  - by apply Forall_forall.
  - eapply Forall_impl; [exact Hch|]. intros k Hk. right. left. by rewrite (rf_chain _ _ _ Hf).
Qed.
End released.
End sweep.

(** ** The collection *)
Section collect.
Context {D : Type} `{!BlockDevice D} `{!BlockDeviceLaws D} `{!BlockDeviceTotal D} `{!Crc32} `{!Crc32Range}.
Implicit Types (s : BlockStore D) (fs : Fs D).

(** With the marks of [gc_mark], the sweep takes the orphans. *)
Lemma elem_of_swept s m t (mark : gset Z) nr :
  (∀ nr, nr ∈ mark ↔ nr < next_block_nr s ∧ (0 ≤ nr < FIRST_DATA_BLOCK_NR ∨ nr ∈ blocks t ∨ pinned m nr ∨ nr ∈ unheld s)) →
  nr ∈ swept (next_block_nr s) mark ↔ held s nr ∧ (nr ∉ blocks t) ∧ ¬ pinned m nr.
Proof using Type.
  intros Hmark. unfold swept, held. rewrite list_elem_of_filter, elem_of_seqZ, Hmark.
  assert (0 < FIRST_DATA_BLOCK_NR) by done. split.
  - intros [Hn Hr]. assert (FIRST_DATA_BLOCK_NR ≤ nr < next_block_nr s) as Hr' by lia.
    split_and!; try lia; intros ?; apply Hn; (split; [lia|tauto]).
  - intros [[Hr Hu] [Hb Hp]]. split; [|lia]. intros [_ [?|[?|[?|?]]]]; [lia|done..].
Qed.

(** A file system right after a checkpoint. *)
Record quiesced fs (m : amap) (cc : Z * Z * Z * Z) (n : Z) (h : nat) (t : Tree.tree) : Prop := {
  qu_journaled : journaled fs m cc m n;
  qu_tree : tree_at (store (tree fs)) (next_bset_seq (tree fs)) (root_block (tree fs)) h t;
  qu_content k : m k = row_of <$> content t k;
  qu_image : ∃ sb cs, image fs sb h t cs [] m [] ∧ last_counters sb [] = cc ∧
    Forall (λ k, k ∈ last_chain_blocks (store (tree fs))) (fst <$> cs);
}.

(** Only the store has changed, and the checkpointed tree is still there. *)
Lemma quiesced_store fs m cc n h t s' :
  quiesced fs m cc n h t → (∀ sb cs, Forall (λ k, k ∈ last_chain_blocks (store (tree fs))) (fst <$> cs) →
    durable (store (tree fs)) sb h t cs [] → durable s' sb h t cs [] ∧ Forall (λ k, k ∈ last_chain_blocks s') (fst <$> cs)) →
  tree_at s' (next_bset_seq (tree fs)) (root_block (tree fs)) h t → alloc_ok s' → next_block_nr s' = next_block_nr (store (tree fs)) →
  quiesced (set_tree (set_store s' (tree fs)) fs) m cc n h t.
Proof using Type.
  intros [Hj Ht Hc (sb & cs & Him & Hlc & Hch)] Hd Ht' Ha Hn. destruct (Hd sb cs Hch (im_durable _ _ _ _ _ _ _ _ Him)) as [Hd' Hch'].
  assert (image (set_tree (set_store s' (tree fs)) fs) sb h t cs [] m []) as Him' by (by destruct Him; split).
  destruct Hj as [_ Hok [[[_ [Hr H1 H2]] Hty] Hids Hw Hcur] Hl Hon Hi].
  assert (bt_models (set_store s' (tree fs)) m n) as Hbt.
  { split; [by exists h, t|]. split; [|done|done]. destruct Hr as (_ & ? & ?). split; [done|]. cbn. by rewrite Hn. }
  split; [|done|done|by exists sb, cs]. split; [|done|by split; [split|done..]|done..]. exists sb, h, t, cs, [], m, []. by split_and!.
Qed.

Lemma mark_sweep_ok fs m cc n h t :
  quiesced fs m cc n h t → (∀ nr, pinned m nr → held (store (tree fs)) nr) →
  ∃ mark s2 s3, let s := store (tree fs) in
    gc_mark fs = (Ok (next_block_nr s, mark), set_tree (set_store s2 (tree fs)) fs) ∧
    gc_sweep (next_block_nr s) mark (set_tree (set_store s2 (tree fs)) fs) =
      (Ok (Z.of_nat (length (swept (next_block_nr s) mark))), set_tree (set_store s3 (tree fs)) fs) ∧
    quiesced (set_tree (set_store s3 (tree fs)) fs) m cc n h t ∧ next_block_nr s3 = next_block_nr s ∧
    (∀ nr, nr ∈ swept (next_block_nr s) mark ↔ held s nr ∧ (nr ∉ blocks t) ∧ ¬ pinned m nr) ∧
    (∀ nr, held s3 nr ↔ nr ∈ blocks t ∨ pinned m nr) ∧
    (∀ nr b, nr ∉ swept (next_block_nr s) mark → stored (tree fs) nr b → stored (set_store s3 (tree fs)) nr b).
Proof using All.
  intros Hq Hpin. pose proof Hq as [Hj Ht Hc _]. pose proof (fi_models _ _ _ (jn_inv _ _ _ _ _ Hj)) as Hfs. pose proof (fm_bt _ _ _ Hfs) as [_ [Hr _ _]].
  destruct (gc_mark_ok fs m n h t Hfs Ht) as (mark & s2 & E1 & Hs & Hmark). pose proof (same_heap_tree_at _ _ _ _ _ _ Hs Ht) as Ht2.
  destruct (gc_sweep_ok (next_block_nr (store (tree fs))) mark (set_tree (set_store s2 (tree fs)) fs)) as (s3 & E2 & Hrel).
  cbn [set_tree set_store tree store] in Hrel. pose proof (λ nr, elem_of_swept (store (tree fs)) m t mark nr Hmark) as HF.
  set (F := swept _ mark) in *. assert (∀ k, k ∈ blocks t → k ∉ F) as HbF by (intros k Hk HkF; by apply HF in HkF as (_ & ? & _)).
  assert (Forall (held s2) F) as HhF by (apply Forall_forall; intros k (Hk & _)%HF; by apply (same_heap_held _ _ _ Hs)).
  pose proof (released_tree_at Hrel _ _ _ _ HbF Ht2) as Ht3.
  assert (∀ nr, held s3 nr ↔ nr ∈ blocks t ∨ pinned m nr) as Hheld.
  { intros nr. rewrite (released_held Hrel), <- (same_heap_held _ _ _ Hs), HF. destruct (ta_owned _ _ _ _ _ Ht) as [_ Ho]. rewrite Forall_forall in Ho.
    destruct (decide (nr ∈ blocks t)) as [Hb|Hb]; [specialize (Ho nr Hb); tauto|]. specialize (Hpin nr). split; [|tauto].
    intros [Hh Hn]. right. pose proof Hh as [Hrg Hu]. destruct (decide (nr ∈ mark)) as [(_ & [?|[?|[?|?]]])%Hmark|Hk]; [lia|done|done|done|].
    destruct Hn. split_and!; [done|done|]. intros Hp. apply Hk, Hmark. tauto. }
  exists mark, s2, s3. cbn zeta. do 2 (split; [done|]). split; [|split; [by rewrite (rf_next _ _ _ Hrel), (sh_next _ _ Hs)|split_and!; [done|done|]]].
  - apply quiesced_store; [done| |done| |by rewrite (rf_next _ _ _ Hrel), (sh_next _ _ Hs)].
    + intros sb cs Hch Hd. split; [|by rewrite (rf_chain _ _ _ Hrel), (sh_chain _ _ Hs)]. apply (released_durable Hrel); [done|by rewrite (sh_chain _ _ Hs)|].
      eapply durable_frozen; [by apply same_heap_frozen|exact Hr|done].
    + apply (released_alloc Hrel); [eapply same_heap_alloc; [done|apply Hr]|apply NoDup_filter, NoDup_seqZ|done].
  - intros nr b Hp (H1 & H2 & H3). rewrite (node_at_tree _ _ _ _ _ _ Ht) in H3.
    split; [by apply (released_held Hrel); rewrite <- (same_heap_held _ _ _ Hs)|]. split.
    + apply (released_data Hrel); [done|by apply Hs].
    + cbn [set_store store root_block]. by rewrite (node_at_tree _ _ _ _ _ _ Ht3).
Qed.

Lemma sync_quiesced fs mc cc m n :
  journaled fs mc cc m n → MOUNT_SLACK ≤ n → 4 * next_block_nr (store (tree fs)) + OP_BLOCKS * n < 2 ^ 52 - 1 →
  next_journal_seq fs + 2 * JOURNAL_CAPACITY < 2 ^ 64 →
  ∃ fs' h t, fs_sync fs = (Ok tt, fs') ∧ quiesced fs' m (counters_of fs) n h t ∧ log (tree fs') = log (tree fs) ∧
    counters_of fs' = counters_of fs ∧ next_journal_seq fs' = next_journal_seq fs ∧
    next_block_nr (store (tree fs')) ≤ 4 * next_block_nr (store (tree fs)) + 1 ∧ shelters (tree fs) (tree fs').
Proof using All.
  intros Hj Hn Hbig Hseq. destruct (sync_synced fs mc cc m n Hj Hbig Hseq) as (fs' & sb & h & t & cs & E & Hy).
  pose proof Hj as [_ _ Hinv [Hg Hlog] [Hjo Hlo] Hino]. destruct (synced_image _ _ _ _ _ _ _ _ Hy Hinv Hn) as [Him Hlc].
  edestruct (synced_journaled fs m n fs' sb h t cs Hy) as (Hj' & S1 & S2 & S3 & _); try done.
  { rewrite <- Hlog at 1. by rewrite a_replays_idem. }
  exists fs', h, t. split; [done|]. split; [|do 3 (split; [done|]); split; apply Hy].
  split; [done|apply Hy|apply Hy|]. exists sb, cs. split; [done|]. split; [done|apply Hy].
Qed.
End collect.

(** ** Claims *)
Section claims.
Context {D : Type} `{!BlockDevice D} `{!BlockDeviceLaws D} `{!BlockDeviceTotal D} `{!Crc32} `{!Crc32Range}.
Implicit Types fs : Fs D.

(** The steps of a collection: [fs1] after the leading checkpoint, [fs2] with the
    marks, [fs3] swept, [fs'] after the trailing checkpoint. *)
Record collection fs (m : amap) (d : gmap Z (list byte)) (r : Z) fs' (d' : gmap Z (list byte)) : Prop := {
  gc_steps : ∃ fs1 hwm mark fs2 fs3,
    fs_sync fs = (Ok tt, fs1) ∧ gc_mark fs1 = (Ok (hwm, mark), fs2) ∧ gc_sweep hwm mark fs2 = (Ok r, fs3) ∧ fs_sync fs3 = (Ok tt, fs') ∧
    (∀ nr, held (store (tree fs3)) nr ↔ node_at (store (tree fs3)) (root_block (tree fs3)) nr ∨ pinned m nr) ∧
    (∃ orphans : gset Z, size orphans = Z.to_nat r ∧ ∀ nr, nr ∈ orphans ↔ held (store (tree fs1)) nr ∧ ¬ held (store (tree fs3)) nr) ∧
    (∃ cc, journaled fs3 m cc m 0);
  gc_running : running fs' m d' 0;
  gc_data : same_pinned m d d';
  gc_rest : counters_of fs' = counters_of fs ∧ log (tree fs') = log (tree fs);
}.

Lemma collection_ok fs m d :
  roomy fs → running fs m d 0 → ∃ r fs' d', 0 ≤ r ∧ collection fs m d r fs' d'.
Proof using All.
  intros Hro Hru. pose proof (running_roomy _ _ _ Hro Hru) as Hru0. rewrite <- (Z.sub_0_r (budget_of fs)) in Hru0. assert (JOURNAL_CAPACITY = 1024) as Ecap by done.
  destruct (budget_slack _ _ _ _ _ Hro Hru0 ltac:(lia)) as [[(mc & cc & Hj) Hx Hb] Hbig]. set (n := JOURNAL_CAPACITY + MOUNT_SLACK) in *.
  assert (MOUNT_SLACK ≤ n) as Hn by done. pose proof Hro as (Hnx & _ & Hsq).
  destruct (sync_quiesced fs mc cc m n Hj Hn Hbig ltac:(lia)) as (fs1 & h & t & E1 & Hq1 & L1 & C1 & S1 & G1 & Sh1).
  pose proof (fm_typed _ _ _ (fi_models _ _ _ (jn_inv _ _ _ _ _ Hj))) as Hm.
  assert (∀ nr b, d !! nr = Some b → stored (tree fs1) nr b) as Hb1 by (intros nr b Hnr; by apply Sh1, Hb).
  destruct (mark_sweep_ok fs1 m (counters_of fs) n h t Hq1) as (mark & s2 & s3 & E2 & E3 & Hq3 & Hn3 & HF & Hheld & Hst).
  { intros nr [b Hd]%(pinned_held m d nr Hm Hx). by apply (Hb1 nr b). }
  set (fs3 := set_tree (set_store s3 (tree fs1)) fs1) in *. pose proof Hq3 as [Hj3 Ht3 _ _].
  assert (next_block_nr (store (tree fs3)) = next_block_nr (store (tree fs1))) as Hn3' by done.
  destruct (sync_journaled fs3 m _ m n Hj3 Hn) as (fs' & E4 & Hj' & L' & C' & _ & _ & Sh'); [rewrite Hn3'; unfold OP_BLOCKS, n, MOUNT_SLACK in *; rewrite Ecap in *; lia|change (next_journal_seq fs3) with (next_journal_seq fs1); lia|].
  set (F := swept (next_block_nr (store (tree fs1))) mark) in *.
  exists (Z.of_nat (length F)), fs', (filter (λ p, p.1 ∉ F) d). split; [lia|].
  assert (same_pinned m d (filter (λ p, p.1 ∉ F) d)) as Hsp.
  { split; [apply map_filter_subseteq|]. intros nr Hp. apply option_eq. intros b. rewrite map_lookup_filter_Some. split; [by intros []|].
    intros Hd. split; [done|]. cbn. by intros (_ & _ & ?)%HF. }
  split; [|split| |].
  - exists fs1, (next_block_nr (store (tree fs1))), mark, (set_tree (set_store s2 (tree fs1)) fs1), fs3. do 4 (split; [done|]). split; [|split].
    + intros nr. rewrite (node_at_tree _ _ _ _ _ _ Ht3). apply Hheld.
    + exists (list_to_set F). split.
      { rewrite size_list_to_set; [lia|]. apply NoDup_filter, NoDup_seqZ. }
      intros nr. rewrite elem_of_list_to_set, HF. cbn [fs3 set_tree set_store tree store]. rewrite Hheld. tauto.
    + exists (counters_of fs). by eapply journaled_at_least; [|exact Hj3].
  - exists m, (counters_of fs3). by eapply journaled_at_least; [|exact Hj'].
  - by eapply same_pinned_extents.
  - intros nr b [Hd HnF]%map_lookup_filter_Some. apply Sh', Hst; [done|by apply Hb1].
  - done.
  - split; [by rewrite C'|by rewrite L'].
Qed.

Lemma gc_eq fs m d r fs' d' : persistent (store (tree fs)) = true → collection fs m d r fs' d' → gc fs = (Ok r, fs').
Proof using Type.
  intros Hp [(fs1 & hwm & mark & fs2 & fs3 & E1 & E2 & E3 & E4 & _) _ _ _]. unfold gc. rewrite gets_bind. cbn [id]. rewrite Hp. cbn [negb].
  rewrite (M_bind_ok _ _ _ _ _ E1), (M_bind_ok _ _ _ _ _ E2). cbn beta iota. rewrite (M_bind_ok _ _ _ _ _ E3), (M_bind_ok _ _ _ _ _ E4). done.
Qed.

(** C4: garbage collection frees exactly the orphans. On a running image [gc]
    returns. The sweep leaves in use exactly the nodes of the tree and the data blocks
    of live extents at any snapshot, and the number returned is the number of blocks
    it gave back. Power lost before the trailing checkpoint leaves an image that
    mounts with the whole map; afterwards the file system runs on with the same map,
    and every file of every snapshot has the bytes it had. *)
Theorem gc_frees_exactly_orphans fs m d :
  roomy fs → running fs m d 0 → persistent (store (tree fs)) = true →
  ∃ r fs' d', gc fs = (Ok r, fs') ∧ collection fs m d r fs' d' ∧
    ∀ l ino offset size, expected_bytes d' m l ino offset size = expected_bytes d m l ino offset size.
Proof using All.
  intros Hro Hru Hp. destruct (collection_ok fs m d Hro Hru) as (r & fs' & d' & _ & Hc). exists r, fs', d'.
  split; [by eapply gc_eq|]. split; [done|]. intros l ino offset size. apply same_pinned_reads, Hc.
Qed.

(** Without a device to go back to, [gc] does nothing. *)
Lemma gc_keeps_running fs m d :
  roomy fs → running fs m d 0 →
  ∃ r fs' d', gc fs = (Ok r, fs') ∧ running fs' m d' 0 ∧ same_pinned m d d' ∧ counters_of fs' = counters_of fs ∧ log (tree fs') = log (tree fs).
Proof using All.
  intros Hro Hru. destruct (persistent (store (tree fs))) eqn:Hp.
  - destruct (collection_ok fs m d Hro Hru) as (r & fs' & d' & _ & Hc). exists r, fs', d'. split; [by eapply gc_eq|]. by destruct Hc.
  - exists 0, fs, d. unfold gc. rewrite gets_bind. cbn [id]. rewrite Hp. done.
Qed.
End claims.

(** ** A concrete run *)
#[local] Existing Instance sum_crc.
#[local] Opaque fs_create seed_map.
Lemma gc_frees_exactly_orphans_witness :
  ∃ fs r fs' d', fs_create = Ok fs ∧ gc fs = (Ok r, fs') ∧ running fs' seed_map d' 0.
Proof.
  destruct create_running as (fs & E & Hru). pose proof create_roomy as Hp. rewrite E in Hp. apply andb_true_iff in Hp as [Hro%roomyb_ok Hp].
  destruct (gc_frees_exactly_orphans fs seed_map ∅ Hro Hru Hp) as (r & fs' & d' & Eg & [_ Hru' _ _] & _).
  exists fs, r, fs', d'. split; [exact E|]. split; [exact Eg|exact Hru'].
Defined.
