(* ===== verification/Truncate.v ===== *)
(** * Truncate: cutting a file (src/fs.rs, [truncate_extents]).

    [truncate_extents] walks the extents the active subvolume sees: those past the new
    size lose their row and give their block back to the allocator, the one at the
    boundary is rewritten. When the blocks belong to this file and snapshot alone
    ([private_file]) the invariant of a served file system is kept and the file is cut;
    a block that a snapshot still names is given back all the same, and the next
    extent written anywhere goes there. *)
From Stdlib Require Import Strings.Byte.
From stdpp Require Import base list numbers gmap sorting.
From S2P Require Import Prelude Device BlockBtree NodeRep Storage Journal StoreSpec Heap Btree Tree TreeRead TreeWrite BtreeSpec Checkpoint ScanSpec FsTypes Fs FsSpec FsOps Snapshot Posix FsData Serving FuseSpec Pages Recovery Gc.
#[local] Open Scope rfs_scope.
#[local] Open Scope Z_scope.

(** ** Listing the extents of a file *)
(** [es] are the extents of [ino] that the chain sees, each offset once. *)
Record extents_of (m : amap) (l : list Z) (ino : Z) (es : list (Z * ExtentV1)) : Prop := {
  eo_exact off x : (off, x) ∈ es ↔ in_width 64 off ∧ a_extent m l ino off = Some x;
  eo_nodup : NoDup es.*1;
}.

Lemma file_scanned i j o s :
  in_width 64 i → i < U64_MAX → in_width 64 j → in_width 64 o →
  scanned (versioned (extent_range i).1 0) (versioned (extent_range i).2 0) (versioned (extent_key j o) s) ↔ j = i.
Proof.
  intros Hi Hmax Hj Ho. unfold extent_range. cbn [fst snd].
  rewrite sat_add64_small by done.
  assert (in_width 64 (i + 1) ∧ in_width 64 0) as [H1 H0] by (unfold in_width in *; lia).
  unfold scanned. rewrite <- bytes_ltb_false, <- bytes_ltb_true, !extent_key_ltb by done. unfold in_width in *.
  destruct (Z.ltb_spec j i), (Z.eqb_spec j i), (Z.ltb_spec o 0), (Z.ltb_spec j (i + 1)), (Z.eqb_spec j (i + 1)); cbn; split; intros; try lia; destruct_and?; try done; lia.
Qed.

Section list_extents.
Context {D : Type} `{!BlockDevice D} `{!BlockDeviceLaws D} `{!BlockDeviceTotal D} `{!Crc32} `{!Crc32Range}.
Context (m : amap) (cur s : Z) (l : list Z) (Hm : typed m) (Hv : view m cur s l) (ino : Z) (Hi : in_width 64 ino) (Hmax : ino < U64_MAX).

(** The rows of a scan of the file's extents, parsed. *)
Lemma parse_file_extents out :
  visible_list m l (extent_range ino).1 (extent_range ino).2 out →
  ∃ es, mapM parse_extent ((λ '(k, _, v), (k, v)) <$> out) = Ok es ∧ extents_of m l ino es.
Proof using Hm Hi Hmax.
  intros [Hsort Hx]. set (kvs := (λ '(k, _, v), (k, v)) <$> out).
  assert (∀ k v, (k, v) ∈ kvs → ∃ off x s, k = extent_key ino off ∧ in_width 64 off ∧
    a_visible m k l = Some (v, s) ∧ extent_from_bytes v = Ok x ∧ parse_extent (k, v) = Ok (off, x)) as Hkv.
  { intros k v ([[k' s'] v'] & [= -> ->] & Hin)%list_elem_of_fmap. apply Hx in Hin as [Hvis Hsc].
    pose proof Hvis as [Hst Hin]%a_visible_Some.
    destruct (extent_range_keys m _ _ _ _ k' s' Hm ltac:(by eexists) Hsc) as (_ & ino' & off & -> & Hi' & Ho).
    apply file_scanned in Hsc as ->; [|done..].
    assert (length v' = 16%nat) as Hlv by (eapply typed_size; [exact Hm|exact Hst|reflexivity|reflexivity]).
    destruct (extent_parses v' Hlv) as [x Hpx]. cbn in Hpx. destruct (extent_from_bytes v') as [x'| | |] eqn:Ex; try done.
    exists off, x', s'. split_and!; [done..|]. unfold parse_extent. rewrite extent_offset_key by done. mred. by rewrite Ex. }
  destruct (mapM_ok parse_extent kvs) as (es & E & HF).
  { intros [k v] Hin. destruct (Hkv k v Hin) as (off & x & s' & _ & _ & _ & _ & Ep). eauto. }
  assert (Forall2 (λ kv e, kv.1 = extent_key ino e.1) kvs es) as Hkeys.
  { apply Forall2_same_length_lookup_2; [by eapply Forall2_length|]. intros i [k v] [off x] Hk He.
    destruct (Hkv k v) as (off' & x' & _ & -> & _ & _ & _ & Ep); [by eapply list_elem_of_lookup_2|].
    pose proof (Forall2_lookup_lr _ _ _ _ _ _ HF Hk He) as Ep'. cbn beta in Ep'. assert (off' = off) as -> by congruence. done. }
  exists es. split; [done|]. split.
  - intros off x. rewrite a_extent_visible. split.
    + intros [i Hi']%list_elem_of_lookup. destruct (Forall2_lookup_r _ _ _ _ _ HF Hi') as ([k v] & Hk & Ep).
      destruct (Hkv k v) as (off' & x' & s' & -> & ? & ? & Ex & Ep'); [by eapply list_elem_of_lookup_2|].
      assert (off' = off ∧ x' = x) as [-> ->] by (rewrite Ep in Ep'; by injection Ep'). split; [done|]. eauto.
    + intros (Ho & v & s' & Hvis & Ex). assert ((extent_key ino off, v) ∈ kvs) as [i Hk]%list_elem_of_lookup.
      { apply list_elem_of_fmap. exists (extent_key ino off, s', v). split; [done|]. apply Hx. split; [done|]. by apply file_scanned. }
      destruct (Forall2_lookup_l _ _ _ _ _ HF Hk) as ([off' x'] & Hi' & Ep).
      unfold parse_extent in Ep. rewrite extent_offset_key in Ep by done. revert Ep. mred. rewrite Ex. mred. intros [= <- <-].
      by eapply list_elem_of_lookup_2.
  - apply (NoDup_fmap_1 (extent_key ino)). replace (extent_key ino <$> es.*1) with (kvs.*1).
    + apply (visible_keys_NoDup m l); [done|]. intros k s' v Hin. by apply Hx in Hin as [? _].
    + clear E HF Hkv. induction Hkeys as [|kv e kvs' es' Hk _ IH]; [done|]. cbn. by rewrite Hk, IH.
Qed.

Lemma list_extents_reads d : dreads (D := D) m d cur (list_extents ino) (extents_of m l ino).
Proof using All.
  unfold list_extents. eapply dreads_bind; [eapply (reads_dreads _ _ _ _ _ (eq l)); [by eapply current_chain_reads|done]|]. intros ? <-.
  rewrite (surjective_pairing (extent_range ino)). pose proof (view_chain_ok _ _ _ _ Hv) as Hc. unfold collect_extents.
  eapply (dreads_bind _ _ _ _ _ (λ kvs, ∃ out, kvs = (λ '(k, _, v), (k, v)) <$> out ∧ visible_list m l (extent_range ino).1 (extent_range ino).2 out)).
  { apply reads_some_dreads, reads_some_on_tree. intros bt n Hbt.
    destruct (visible_scan_ok bt m n (extent_range ino).1 (extent_range ino).2 l Hbt) as (bt' & out & _ & ? & ? & ? & Hvl);
      [cbn [extent_range fst]; rewrite length_extent_key; consts; lia|cbn [extent_range snd]; rewrite length_extent_key; consts; lia|done| | |].
    - apply (uniform_nothing_between _ _ _ 17). intros k sn Hs Hsc Hk. by destruct (extent_range_keys m ino 0 (sat_add64 ino 1) 0 k sn Hm Hk Hsc).
    - apply long_whole_keys. intros k sn Hs Hk Hsc. destruct (extent_range_keys m ino 0 (sat_add64 ino 1) 0 k sn Hm Hk Hsc) as [-> _].
      cbn [extent_range fst snd]. rewrite !length_extent_key. lia.
    - eexists bt', _. split_and!; [done|done|done|]. by exists out. }
  intros kvs (out & -> & Hvl). destruct (parse_file_extents out Hvl) as (es & E & Hes). by apply dreads_lift with es.
Qed.
End list_extents.

(** ** Who names a block *)
(** At most the row [k] is a live extent with the block [nr]. *)
Definition sole_row (m : amap) (k : list byte) (nr : Z) : Prop := ∀ k' v y,
  head k' = Some (z2b KIND_EXTENT) → m k' = Some (v, Live) → extent_from_bytes v = Ok y → x_data_block y = nr → k' = k.
(** The blocks of the file, as the chain [l] of snapshot [s] sees it, are named by its
    rows at [s] and by no other row. *)
Definition private_file (m : amap) (s : Z) (l : list Z) (ino : Z) : Prop := ∀ off x,
  in_width 64 off → a_extent m l ino off = Some x → sole_row m (versioned (extent_key ino off) s) (x_data_block x).

Lemma extent_head ino off s : head (versioned (extent_key ino off) s) = Some (z2b KIND_EXTENT).
Proof. done. Qed.
Lemma a_extent_row m l ino off x :
  a_extent m l ino off = Some x → ∃ v s, s ∈ l ∧ m (versioned (extent_key ino off) s) = Some (v, Live) ∧ extent_from_bytes v = Ok x.
Proof. intros (v & s & [Hm Hs]%a_visible_Some & Ex)%a_extent_visible. by exists v, s. Qed.

Lemma sole_row_mono m m' k nr :
  sole_row m k nr → (∀ k' v y, m' k' = Some (v, Live) → extent_from_bytes v = Ok y → x_data_block y = nr → m k' = Some (v, Live)) → sole_row m' k nr.
Proof. intros Hs Hm k' v y Hh Hk Hv Hy. by eapply Hs; [|eapply Hm| |]. Qed.

(** Deleting an extent whose block only its row at [s] names marks that row. *)
Lemma delete_own_row m s l ino off x :
  Forall (in_width 32) (s :: l) → a_extent m (s :: l) ino off = Some x → sole_row m (versioned (extent_key ino off) s) (x_data_block x) →
  a_wop (WDel (extent_key ino off) s (s :: l)) m = a_flip (versioned (extent_key ino off) s) Deleted m.
Proof.
  intros Hw (v & s' & Hvis & Ex)%a_extent_visible Hsole. cbn [a_wop]. unfold a_delete. rewrite Hvis.
  pose proof Hvis as [Hm Hs']%a_visible_Some. pose proof (Hsole _ _ _ (extent_head _ _ _) Hm Ex eq_refl) as Hk.
  rewrite Forall_forall in Hw. apply versioned_inj in Hk as [_ ->]; [by rewrite decide_True|by apply Hw|apply Hw; by left].
Qed.
Lemma flip_live m k k' v : a_flip k Deleted m k' = Some (v, Live) → k' ≠ k ∧ m k' = Some (v, Live).
Proof. unfold a_flip. case_decide as Hk; [|done]. destruct (m k') as [[]|]; [done|]. intros [=]. Qed.

(** ** Giving a block back *)
Section free.
Context {D : Type} `{!BlockDevice D} `{!BlockDeviceLaws D} `{!BlockDeviceTotal D} `{!Crc32} `{!Crc32Range}.
Implicit Types fs : Fs D.

(** The map is the same, and every other block that held data still does. *)
Lemma free_block_stored fs m n nr b :
  fs_models fs m n → stored (tree fs) nr b →
  ∃ fs', free_data_block nr fs = (Ok tt, fs') ∧ fs_models fs' m n ∧ fs' = set_tree (tree fs') fs ∧
    free_list (store (tree fs')) = free_list (store (tree fs)) ++ [nr] ∧
    ∀ k c, k ≠ nr → stored (tree fs) k c → stored (tree fs') k c.
Proof using All.
  intros [[Hmo [Hr Hn Hq]] Hty] (Hh & _ & Hnode).
  destruct (free_all_ok [nr] (store (tree fs))) as (s' & E & Hrel). cbn [forM_] in E.
  assert (free nr (store (tree fs)) = (Ok tt, s')) as E1.
  { revert E. unfold mbind, M_bind. rewrite free_eq. by intros [= <-]. }
  exists (set_tree (set_store s' (tree fs)) fs). split; [exact (on_fs_store_ok _ _ _ _ E1)|].
  destruct Hmo as (h & t & Ht & Hc). rewrite (node_at_tree _ _ _ _ _ _ Ht) in Hnode.
  assert (tree_at s' (next_bset_seq (tree fs)) (root_block (tree fs)) h t) as Ht'.
  { apply (released_tree_at Hrel); [|done]. by intros k Hk ->%list_elem_of_singleton. }
  split; [|split; [done|split; [apply Hrel|]]].
  - split; [|done]. split; [by exists h, t|]. split; [|done|done]. destruct Hr as (Ha & H1 & H2). cbn [set_tree set_store tree store] in *.
    split; [|by rewrite (rf_next _ _ _ Hrel)]. apply (released_alloc Hrel); [done|apply NoDup_singleton|by apply Forall_singleton].
  - intros k c Hne (H1 & H2 & H3). rewrite (node_at_tree _ _ _ _ _ _ Ht) in H3.
    assert (k ∉ [nr]) as Hin by (by intros ->%list_elem_of_singleton). split; [by apply (released_held Hrel)|].
    split; [by apply (released_data Hrel)|]. cbn [set_tree set_store tree store root_block]. by rewrite (node_at_tree _ _ _ _ _ _ Ht').
Qed.

Lemma free_block_models fs m d n nr b :
  file_models fs m d n → d !! nr = Some b → ¬ pinned m nr →
  ∃ fs', free_data_block nr fs = (Ok tt, fs') ∧ file_models fs' m (delete nr d) n ∧ fs' = set_tree (tree fs') fs.
Proof using All.
  intros [Hfs Hx Hb] Hd Hp. destruct (free_block_stored fs m n nr b Hfs (Hb _ _ Hd)) as (fs' & E & Hfs' & T & _ & Hst).
  exists fs'. split; [done|]. split; [|done]. split; [done| |].
  - intros ino off snap v Hi Ho Hs Hv. destruct (Hx ino off snap v Hi Ho Hs Hv) as (x & Ex & [F1 F2 F3 (c & F4 & F5)]).
    exists x. split; [done|]. split; [done..|]. exists c. split; [|done]. rewrite lookup_delete_ne; [done|]. intros ->. apply Hp.
    by exists (versioned (extent_key ino off) snap), v, x.
  - intros k c [Hne Hk]%lookup_delete_Some. apply Hst; [done|by apply Hb].
Qed.
End free.

(** ** What a truncate does to the bytes *)
(** From [new_size] on, the blocks at [offs] of the file are zero; nothing else is
    changed, in this chain or in one without the snapshot [s]. *)
Record trimmed (s : Z) (l : list Z) (ino new_size : Z) (offs : list Z) (m : amap) (d : gmap Z (list byte)) (ops : list wop)
    (d' : gmap Z (list byte)) : Prop := {
  tm_ops : Forall (λ o, kind_of (wop_key o) = Some KIND_EXTENT ∧ wop_snap o = s) ops;
  tm_bytes i p : in_width 64 i → in_width 64 p →
    byte_at d' (a_run ops m) l i p =
      if decide (i = ino ∧ new_size ≤ p ∧ block_floor p ∈ offs) then Byte.x00 else byte_at d m l i p;
  tm_other i p l' : in_width 64 i → in_width 64 p → Forall (in_width 32) l' → s ∉ l' →
    byte_at d' (a_run ops m) l' i p = byte_at d m l' i p;
}.

Lemma trimmed_nil s l ino new_size m d : trimmed s l ino new_size [] m d [] d.
Proof. split; [constructor| |done]. intros i p _ _. rewrite decide_False; [done|]. by intros (_ & _ & ?%elem_of_nil). Qed.
Lemma trimmed_app s l ino new_size offs1 offs2 m d ops1 d1 ops2 d2 :
  trimmed s l ino new_size offs1 m d ops1 d1 → trimmed s l ino new_size offs2 (a_run ops1 m) d1 ops2 d2 →
  trimmed s l ino new_size (offs1 ++ offs2) m d (ops1 ++ ops2) d2.
Proof.
  intros [O1 B1 X1] [O2 B2 X2]. split; [by apply Forall_app|..]; rewrite a_run_app.
  - intros i p Hi Hp. rewrite B2, B1 by done. repeat case_decide; try done; exfalso; rewrite ?elem_of_app in *; tauto.
  - intros i p l' Hi Hp Hl Hs. by rewrite X2, X1.
Qed.
Lemma trimmed_local s l ino new_size offs m d ops d' : trimmed s l ino new_size offs m d ops d' → Forall (local_op s) ops.
Proof. intros [Ho _ _]. eapply Forall_impl; [exact Ho|]. intros o [Hk Hs]. left. split; [right; by right|done]. Qed.

(** Nothing is left to do where no byte is past the new size. *)
Lemma trimmed_same s l ino new_size off m d :
  (∀ p, in_width 64 p → new_size ≤ p → block_floor p = off → byte_at d m l ino p = Byte.x00) → trimmed s l ino new_size [off] m d [] d.
Proof.
  intros Hz. split; [constructor| |done]. intros i p _ Hp. case_decide as Hc; [|done].
  destruct Hc as (-> & H1 & Hb%list_elem_of_singleton). by apply Hz.
Qed.

Section cut.
Context (m : amap) (d : gmap Z (list byte)) (s : Z) (l : list Z) (ino off : Z) (x : ExtentV1).
Context (Hx : extents_ok m d) (Hw : Forall (in_width 32) (s :: l)) (Hi : in_width 64 ino) (Ho : in_width 64 off).
Context (Hax : a_extent m (s :: l) ino off = Some x) (Hsole : sole_row m (versioned (extent_key ino off) s) (x_data_block x)).

Definition cut_op : wop := WDel (extent_key ino off) s (s :: l).
Lemma cut_live k v : a_run [cut_op] m k = Some (v, Live) → k ≠ versioned (extent_key ino off) s ∧ m k = Some (v, Live).
Proof using Hw Hax Hsole. unfold cut_op. cbn [a_run foldl]. rewrite (delete_own_row m s l ino off x) by done. apply flip_live. Qed.
Lemma cut_not_pinned : ¬ pinned (a_run [cut_op] m) (x_data_block x).
Proof using Hw Hax Hsole. intros (k & v & y & Hh & [Hne Hk]%cut_live & Hy & E). by destruct Hne; eapply Hsole. Qed.

(** What another place sees does not name the block. *)
Lemma cut_other_block i o l' y :
  Forall (in_width 32) l' → in_width 64 i → in_width 64 o → a_extent m l' i o = Some y →
  i ≠ ino ∨ o ≠ off ∨ s ∉ l' → x_data_block y ≠ x_data_block x.
Proof using Hsole Hi Ho Hw.
  intros Hl Hi' Ho' (v & s' & Hs' & Hm & Ey)%a_extent_row Hne E. pose proof (Hsole _ _ _ (extent_head _ _ _) Hm Ey E) as Hk.
  rewrite Forall_forall in Hl. apply Forall_cons in Hw as [Ws _].
  apply versioned_inj in Hk as [[-> ->]%extent_key_inj ->]; [|done..|by apply Hl|done]. tauto.
Qed.
Lemma cut_extent_other i o l' :
  Forall (in_width 32) l' → in_width 64 i → in_width 64 o → i ≠ ino ∨ o ≠ off ∨ s ∉ l' →
  a_extent (a_run [cut_op] m) l' i o = a_extent m l' i o.
Proof using Hi Ho Hw.
  intros Hl Hi' Ho' Hne. unfold a_extent. rewrite a_run_seen; [done|done|]. apply Forall_singleton. cbn [cut_op wop_key wop_snap].
  apply Forall_cons in Hw as [Ws _]. split; [done|]. destruct Hne as [Hne|[Hne|Hne]]; [left|left|by right]; by intros [? ?]%extent_key_inj.
Qed.

Lemma cut_trimmed new_size :
  new_size ≤ off → off mod 4096 = 0 → trimmed s (s :: l) ino new_size [off] m d [cut_op] (delete (x_data_block x) d).
Proof using All.
  intros Hns Hmod.
  assert (∀ i p l', Forall (in_width 32) l' → in_width 64 i → in_width 64 p → i ≠ ino ∨ block_floor p ≠ off ∨ s ∉ l' →
    byte_at (delete (x_data_block x) d) (a_run [cut_op] m) l' i p = byte_at d m l' i p) as Hsame.
  { intros i p l' Hl Hi' Hp Hne. pose proof (block_floor_width p Hp) as Hbp. unfold byte_at. rewrite cut_extent_other by done.
    destruct (a_extent m l' i (block_floor p)) as [y|] eqn:Ey; [|done]. by rewrite lookup_delete_ne by (apply not_eq_sym, (cut_other_block i (block_floor p) l' y); done). }
  split; [by apply Forall_singleton| |by intros; apply Hsame; auto].
  intros i p Hi' Hp. case_decide as Hc.
  - destruct Hc as (-> & _ & Hb%list_elem_of_singleton). unfold byte_at. rewrite Hb. unfold a_extent, cut_op. cbn [a_run foldl a_wop]. by rewrite a_delete_seen.
  - apply Hsame; [done..|]. destruct (decide (i = ino)) as [->|]; [|by left]. right. left. intros <-. apply Hc. split; [done|].
    split; [pose proof (block_floor_bounds p); lia|by left].
Qed.
End cut.

(** ** One extent *)
Section step.
Context {D : Type} `{!BlockDevice D} `{!BlockDeviceLaws D} `{!BlockDeviceTotal D} `{!Crc32} `{!Crc32Range}.
Implicit Types fs : Fs D.
Context (m : amap) (d : gmap Z (list byte)) (cur s : Z) (l : list Z) (Hm : typed m) (Hx : extents_ok m d) (Hv : view m cur (s) (s :: l)).
Context (ino off new_size : Z) (x : ExtentV1) (Hi : in_width 64 ino) (Ho : in_width 64 off) (Hns : in_width 64 new_size).
Context (Hax : a_extent m (s :: l) ino off = Some x) (Hsole : sole_row m (versioned (extent_key ino off) s) (x_data_block x)).

Lemma step_width : Forall (in_width 32) (s :: l).
Proof using Hv. by eapply chain_width. Qed.

(** What processing the extent leaves. *)
Definition processed fs n (c : M (Fs D) error unit) : Prop :=
  ∃ ops d' fs', c fs = (Ok tt, fs') ∧ trimmed s (s :: l) ino new_size [off] m d ops d' ∧ file_models fs' (a_run ops m) d' n ∧
    fs' = set_tree (tree fs') fs ∧
    (∀ o, in_width 64 o → o ≠ off → a_extent (a_run ops m) (s :: l) ino o = a_extent m (s :: l) ino o) ∧
    (∀ k nr, is_Some (d !! nr) → sole_row m k nr → sole_row (a_run ops m) k nr).

Lemma delete_extent_performs :
  performs (D := D) m cur (delete_extent ino off) (a_delete (extent_key ino off) s (s :: l) m).1 [cut_op s l ino off].
Proof using All.
  unfold delete_extent. eapply reads_performs; [by eapply current_snap_reads|]. eapply reads_performs; [by eapply current_chain_reads|].
  apply performs_delete; [split; [rewrite length_extent_key; consts; lia|by apply (view_chain_ok _ _ _ _ Hv)]|done].
Qed.

(** Past the new size: the row goes and the block is given back. *)
Lemma cut_processed fs n :
  file_models fs m d (2 + n) → 0 ≤ n → current_subvol fs = cur → new_size ≤ off →
  processed fs n (_ ← delete_extent ino off; free_data_block (x_data_block x)).
Proof using All.
  intros Hf Hn Hcur Hle. pose proof step_width as Hw. destruct (a_extent_fits m d _ ino off x Hx Hw Hi Ho Hax) as [Hmod _ _ (b & Hb & _)].
  pose proof Hf as [Hfs _ Hbl].
  destruct (delete_extent_performs fs (1 + n)) as (fs1 & E1 & Hfs1 & T1 & (_ & K1 & _)); [cbn [length]; by replace (Z.of_nat 1 + (1 + n)) with (2 + n) by lia|lia|done|].
  assert (file_models fs1 (a_run [cut_op s l ino off] m) d n) as Hf1.
  { eapply file_kept; [exact Hf|by eapply fs_models_weaken; [|exact Hfs1]; lia| |exact K1].
    intros i o sn v Wi Wo Ws [_ Hv']%(cut_live m s l ino off x Hw Hax Hsole). by apply (Hx i o sn v). }
  destruct (free_block_models fs1 _ d n (x_data_block x) b Hf1 Hb (cut_not_pinned m s l ino off x Hw Hax Hsole)) as (fs2 & E2 & Hf2 & T2).
  exists [cut_op s l ino off], (delete (x_data_block x) d), fs2. rewrite (M_bind_ok _ _ _ _ _ E1). split; [done|].
  split; [by apply (cut_trimmed m d s l ino off x)|]. split; [done|]. split; [by rewrite T2, T1 at 1|]. split.
  - intros o Wo Hne. apply cut_extent_other; [done..|]. auto.
  - intros k nr _ Hs. eapply sole_row_mono; [exact Hs|]. by intros k' v y [_ Hk]%(cut_live m s l ino off x Hw Hax Hsole) _ _.
Qed.

(** The extent that holds the new end is rewritten up to it. *)
Lemma boundary_processed fs n :
  file_models fs m d (2 + n) → 0 ≤ n → current_subvol fs = cur → off = block_floor new_size → off < new_size → new_size - off < x_len x →
  processed fs n (
    buf ← read_data_block (x_data_block x);
    gap ← lift (slice buf (Z.to_nat (new_size mod BLOCK_BYTES)) (Z.to_nat (x_len x)));
    buf ← lift (splice buf (Z.to_nat (new_size mod BLOCK_BYTES)) (zeros (length gap)));
    data ← lift (slice buf 0 (Z.to_nat (new_size mod BLOCK_BYTES)));
    put_extent ino off data).
Proof using All.
  intros Hf Hn Hcur Hoff Hlt Hcut. pose proof step_width as Hw.
  destruct (a_extent_fits m d _ ino off x Hx Hw Hi Ho Hax) as [Hmod Hlen Hend (b & Hb & Hbl)].
  assert (new_size mod BLOCK_BYTES = new_size - off) as -> by (rewrite Hoff, block_floor_eq; change BLOCK_BYTES with 4096; lia).
  set (t := Z.to_nat (new_size - off)). change BLOCK_SIZE with 4096%nat in Hbl.
  destruct (read_block_reads m d cur _ b Hb fs (2 + n) Hf Hcur) as (? & fs1 & E1 & <- & Hf1 & [T1 _]).
  destruct (put_extent_writes m d cur s (s :: l) Hm Hx Hv ino off Hi Ho Hmod (take t b)) with (fs := fs1) (n := n)
    as ([] & ops & d' & fs2 & E2 & (nr & -> & -> & Hd & Wnr) & Hf2 & T2 & _);
    [change BLOCK_SIZE with 4096%nat; rewrite length_take; lia|rewrite length_take; unfold in_width in *; lia|done|done|by rewrite T1|].
  assert (length (take t b) = t) as Elen by (rewrite length_take; lia).
  eexists _, _, fs2. split.
  { rewrite (M_bind_ok _ _ _ _ _ E1). erewrite bind_lift_ok by (apply slice_ok; lia).
    erewrite bind_lift_ok by (apply splice_ok; unfold zeros; rewrite length_replicate, length_take, length_drop; lia).
    erewrite bind_lift_ok by (apply slice_ok; rewrite length_overwrite; unfold zeros; rewrite ?length_replicate, ?length_take, ?length_drop; lia).
    rewrite drop_0, Nat.sub_0_r. unfold overwrite at 1. rewrite take_app_length' by done. exact E2. }
  split; [|split; [exact Hf2|split; [by rewrite T2, T1 at 1|split]]].
  - split; [by apply Forall_singleton| |].
    + intros i p Wi Wp. destruct (decide (i = ino ∧ block_floor p = off)) as [[-> Hp]|Hne].
      * pose proof (block_floor_bounds p) as Hbp. apply Forall_cons in Hw as [Ws Hw'].
        rewrite byte_at_put by (done || change BLOCK_SIZE with 4096%nat; lia). case_decide as Hc.
        -- by rewrite lookup_ge_None_2 by lia.
        -- assert (p < new_size) as Hpn by (destruct (decide (p < new_size)); [done|]; destruct Hc; split; [done|]; split; [lia|by apply list_elem_of_singleton]).
           rewrite lookup_take_lt by lia. unfold byte_at. rewrite Hp, Hax, (proj2 (Z.ltb_lt _ _)) by lia. by rewrite Hb.
      * rewrite decide_False by (intros (-> & _ & Hp%list_elem_of_singleton); by apply Hne).
        apply Forall_cons in Hw as [Ws Hw']. apply byte_at_put_other; try done; [by constructor|]. destruct (decide (i = ino)) as [->|]; [|by left]. right. left. intros ?. by apply Hne.
    + intros i p l' Wi Wp Hl' Hs. apply Forall_cons in Hw as [Ws Hw']. apply byte_at_put_other; try done. auto.
  - intros o Wo Hne. unfold a_extent. rewrite a_run_seen; [done|done|]. apply Forall_singleton. apply Forall_cons in Hw as [Ws _]. split; [done|]. left.
    by intros [_ ?]%extent_key_inj.
  - intros k nr' [b' Hb'] Hs. eapply sole_row_mono; [exact Hs|]. intros k' v y. cbn [a_run foldl extent_put a_wop]. unfold a_put. case_decide; [|done].
    rewrite take_ge by (rewrite length_extent_bytes by done; consts; lia). intros [= <-].
    rewrite extent_round_trip by (split; [|by split]; unfold in_width; cbn [extent_of x_len]; lia). intros [= <-]. cbn [extent_of x_data_block]. congruence.
Qed.

(** Any extent of the file. *)
Lemma truncate_extent_processed fs n :
  file_models fs m d (2 + n) → 0 ≤ n → current_subvol fs = cur → processed fs n (truncate_extent ino new_size (off, x)).
Proof using All.
  intros Hf Hn Hcur. pose proof step_width as Hw. destruct (a_extent_fits m d _ ino off x Hx Hw Hi Ho Hax) as [Hmod Hlen Hend (b & Hb & _)].
  unfold truncate_extent. destruct (Z.leb_spec new_size off) as [Hle|Hgt]; [by apply cut_processed|].
  destruct ((off =? block_floor new_size) && _ && _) eqn:Hcut.
  { apply andb_true_iff in Hcut as [[Hoff%Z.eqb_eq _]%andb_true_iff Hlt%Z.ltb_lt]. by apply boundary_processed. }
  exists [], d, fs. split; [done|]. split; [|split; [destruct Hf as [Hfs _ Hbl]; split; [eapply fs_models_weaken; [|exact Hfs]; lia|done|done]|split; [by destruct fs|done]]].
  apply trimmed_same. intros p Wp Hp Hpo. pose proof (block_floor_bounds p) as Hbp. unfold byte_at. rewrite Hpo, Hax.
  destruct (Z.ltb_spec (p - off) (x_len x)) as [Hlt|]; [exfalso|done].
  assert (block_floor new_size = off) as Hbn by (apply block_floor_of; [done|lia]).
  assert (0 < Z.to_nat (new_size mod BLOCK_BYTES))%nat as Ht by (change BLOCK_BYTES with 4096; pose proof (block_floor_eq new_size); lia).
  rewrite Hbn, Z.eqb_refl, (proj2 (Nat.ltb_lt _ _) Ht) in Hcut. cbn [andb] in Hcut. apply Z.ltb_ge in Hcut. lia.
Qed.
End step.

(** ** The whole file *)
Section truncate.
Context {D : Type} `{!BlockDevice D} `{!BlockDeviceLaws D} `{!BlockDeviceTotal D} `{!Crc32} `{!Crc32Range}.
Implicit Types fs : Fs D.

Lemma truncate_loop es fs m d n s l ino new_size :
  file_models fs m d (2 * Z.of_nat (length es) + n) → 0 ≤ n → view m (current_subvol fs) s (s :: l) → in_width 64 ino → in_width 64 new_size →
  NoDup es.*1 → Forall (λ e, in_width 64 e.1 ∧ a_extent m (s :: l) ino e.1 = Some e.2 ∧
    sole_row m (versioned (extent_key ino e.1) s) (x_data_block e.2)) es →
  ∃ ops d' fs', forM_ es (truncate_extent ino new_size) fs = (Ok tt, fs') ∧ trimmed s (s :: l) ino new_size es.*1 m d ops d' ∧
    file_models fs' (a_run ops m) d' n ∧ fs' = set_tree (tree fs') fs.
Proof using All.
  revert fs m d. induction es as [|[off x] es IH]; intros fs m d Hf Hn Hv Hi Hns Hnd Hes; cbn [forM_ length] in *.
  { exists [], d, fs. split; [done|]. split; [apply trimmed_nil|]. split; [by replace (2 * Z.of_nat 0 + n) with n in Hf by lia|by destruct fs]. }
  apply Forall_cons in Hes as [(Ho & Hax & Hsole) Hes]. rewrite fmap_cons in Hnd. apply NoDup_cons in Hnd as [Hnew Hnd]. cbn [fst snd] in *.
  destruct (truncate_extent_processed m d _ s l (fm_typed _ _ _ (fl_fs _ _ _ _ Hf)) (fl_ext _ _ _ _ Hf) Hv ino off new_size x Hi Ho Hns Hax Hsole
    fs (2 * Z.of_nat (length es) + n)) as (ops1 & d1 & fs1 & E1 & Ht1 & Hf1 & T1 & Hext & Hso);
    [by replace (2 + (2 * Z.of_nat (length es) + n)) with (2 * Z.of_nat (S (length es)) + n) by lia|lia|done|].
  pose proof (chain_width _ _ _ _ Hv) as Hw. pose proof Hw as [Ws _]%Forall_cons.
  destruct (IH fs1 (a_run ops1 m) d1 Hf1 Hn) as (ops2 & d2 & fs2 & E2 & Ht2 & Hf2 & T2); [| |done|done| |].
  - rewrite T1. eapply view_local; [exact Ws|by eapply trimmed_local|exact Hv].
  - done.
  - rewrite Forall_forall in Hes |- *. intros [o y] Hin. destruct (Hes _ Hin) as (Wo & Hay & Hsy). cbn [fst snd] in *. split; [done|].
    split; [rewrite Hext; [done|done|]; intros ->; apply Hnew; by apply (list_elem_of_fmap_2 fst _ (off, y))|].
    apply Hso; [|done]. destruct (a_extent_fits m d _ ino o y (fl_ext _ _ _ _ Hf) Hw Hi Wo Hay) as [_ _ _ (b & Hb & _)]. by exists b.
  - exists (ops1 ++ ops2), d2, fs2. rewrite (M_bind_ok _ _ _ _ _ E1). split; [done|]. rewrite a_run_app, fmap_cons.
    split; [by eapply (trimmed_app _ _ _ _ [off])|]. split; [done|by rewrite T2, T1 at 1].
Qed.

(** Writes at extent keys leave names and inodes alone. *)
Lemma extent_ops_view s l m ops :
  in_width 32 s → Forall (in_width 32) l → Forall (λ o, kind_of (wop_key o) = Some KIND_EXTENT ∧ wop_snap o = s) ops →
  view_of (a_run ops m) l ≡ view_of m l.
Proof using Type.
  intros Hs Hl Hops. assert (∀ k, kind_of k ≠ Some KIND_EXTENT → seen (a_run ops m) k l = seen m k l) as Hk.
  { intros k Hk. apply a_run_seen; [done|]. eapply Forall_impl; [exact Hops|]. intros o [Ho Hso]. split; [by rewrite Hso|]. left. by intros ->. }
  split; cbn [view_of names inodes]; intros; unfold a_dirent, a_inode; by rewrite Hk.
Qed.

Lemma extents_of_length m l ino es es' : extents_of m l ino es → extents_of m l ino es' → length es = length es'.
Proof using Type.
  intros [H1 N1] [H2 N2]. apply Permutation_length, NoDup_Permutation; [by eapply NoDup_fmap_1|by eapply NoDup_fmap_1|].
  intros [off x]. by rewrite H1, H2.
Qed.

Lemma truncate_trims fs m d n s l ino new_size es :
  served fs m d (2 * Z.of_nat (length es) + n) → 0 ≤ n → view m (current_subvol fs) s l → in_width 64 ino → ino < U64_MAX →
  in_width 64 new_size → extents_of m l ino es → private_file m s l ino →
  ∃ ops d' fs', truncate_extents ino new_size fs = (Ok tt, fs') ∧ trimmed s l ino new_size es.*1 m d ops d' ∧ served fs' (a_run ops m) d' n ∧
    fs' = set_tree (tree fs') fs.
Proof using All.
  intros [Hinv Hf] Hn Hv Hi Hmax Hns Hes Hpr. pose proof Hinv as [Hfs Hids Hw Hcur]. destruct (view_cons _ _ _ _ Hv) as (l' & -> & Hch).
  destruct (list_extents_reads m _ s _ (fm_typed _ _ _ Hfs) Hv ino Hi Hmax d fs _ Hf eq_refl) as (es' & fs1 & E1 & Hes' & Hf1 & [T1 _]).
  pose proof (extents_of_length _ _ _ _ _ Hes Hes') as El. rewrite El in Hf1.
  destruct (truncate_loop es' fs1 m d n s l' ino new_size Hf1 Hn) as (ops & d' & fs2 & E2 & Ht & Hf2 & T2); [by rewrite T1|done|done|apply Hes'| |].
  { apply Forall_forall. intros [off x] Hin. apply (eo_exact _ _ _ _ Hes') in Hin as [Ho Hax]. cbn [fst snd]. split; [done|]. split; [done|by apply Hpr]. }
  exists ops, d', fs2. unfold truncate_extents. rewrite (M_bind_ok _ _ _ _ _ E1). split; [done|].
  assert (fs2 = set_tree (tree fs2) fs) as T by (by rewrite T2, T1 at 1). split; [|split; [|exact T]].
  - destruct Ht as [O1 B1 X1]. split; [done| |done]. intros i p Wi Wp. rewrite B1 by done.
    assert (∀ o, o ∈ es'.*1 ↔ o ∈ es.*1) as Hiff; [|repeat case_decide; try done; exfalso; rewrite Hiff in *; tauto].
    intros o. rewrite !list_elem_of_fmap. split; intros ([o' x] & -> & Hin); exists (o', x); (split; [done|]);
      [by apply (eo_exact _ _ _ _ Hes), (eo_exact _ _ _ _ Hes')|by apply (eo_exact _ _ _ _ Hes'), (eo_exact _ _ _ _ Hes)].
  - split; [|done]. pose proof (trimmed_local _ _ _ _ _ _ _ _ _ Ht) as Hloc. pose proof (view_width _ _ _ _ Hv) as Ws.
    destruct (view_above _ _ _ _ _ _ Hv Hw Hids) as [Hlt _].
    split; [apply Hf2|..]; rewrite T; cbn [set_tree next_snap_id next_subvol_id current_subvol];
      [by eapply ids_ok_local|done|by rewrite (local_subvol s)].
Qed.
End truncate.

(** ** A block that a snapshot still names *)
Section shared.
Context {D : Type} `{!BlockDevice D} `{!BlockDeviceLaws D} `{!BlockDeviceTotal D} `{!Crc32} `{!Crc32Range}.
Implicit Types fs : Fs D.





End shared.

(** ** Claims *)
Section claims.
Context {D : Type} `{!BlockDevice D} `{!BlockDeviceLaws D} `{!BlockDeviceTotal D} `{!Crc32} `{!Crc32Range}.
Implicit Types fs : Fs D.

(** C12: [truncate_extents] cuts a file. When the blocks of the file are named by its
    rows at the active snapshot alone, it returns [Ok]; the file reads as zeros from
    the new size on and as before below it; every other file of the subvolume, and
    every file of the chains without this snapshot, reads as before; names and inodes
    are the same, and the file system is still well formed. *)
Theorem truncate_cuts_private_file fs m d n s l ino new_size es :
  served fs m d (2 * Z.of_nat (length es) + n) → 0 ≤ n → view m (current_subvol fs) s l → in_width 64 ino → ino < U64_MAX →
  in_width 64 new_size → extents_of m l ino es → private_file m s l ino →
  ∃ m' d' fs', truncate_extents ino new_size fs = (Ok tt, fs') ∧ served fs' m' d' n ∧ view m' (current_subvol fs') s l ∧ view_of m' l ≡ view_of m l ∧
    (∀ i p, in_width 64 i → in_width 64 p →
       byte_at d' m' l i p = if decide (i = ino ∧ new_size ≤ p) then Byte.x00 else byte_at d m l i p) ∧
    (∀ i p l', in_width 64 i → in_width 64 p → Forall (in_width 32) l' → s ∉ l' → byte_at d' m' l' i p = byte_at d m l' i p).
Proof using All.
  intros Hs Hn Hv Hi Hmax Hns Hes Hpr.
  destruct (truncate_trims fs m d n s l ino new_size es Hs Hn Hv Hi Hmax Hns Hes Hpr) as (ops & d' & fs' & E & Ht & Hs' & T).
  exists (a_run ops m), d', fs'. split; [done|]. split; [done|]. pose proof (view_width _ _ _ _ Hv) as Ws.
  split; [rewrite T; by eapply view_local; [exact Ws|eapply trimmed_local|]|].
  split; [apply (extent_ops_view s); [done|by eapply chain_width|apply Ht]|]. split; [|apply Ht].
  intros i p Wi Wp. rewrite (tm_bytes _ _ _ _ _ _ _ _ _ Ht) by done. repeat case_decide; try done; [tauto|].
  assert (a_extent m l ino (block_floor p) = None) as Hnone.
  { destruct (a_extent m l ino (block_floor p)) as [x|] eqn:E2; [exfalso|done]. destruct_and!. subst i.
    match goal with H1 : ¬ _ |- _ => apply H1 end. split; [done|]. split; [done|].
    apply (list_elem_of_fmap_2 fst _ (block_floor p, x)), (eo_exact _ _ _ _ Hes). split; [by apply block_floor_width|done]. }
  destruct_and!. subst i. unfold byte_at. by rewrite Hnone.
Qed.
End claims.

(** ** A concrete file *)
(** A map without extents, as rows. *)
Definition no_extent_rows (m : amap) : Prop := ∀ k, head k = Some (z2b KIND_EXTENT) → m k = None.

Lemma put_sole m ino off s len nr :
  no_extent_rows m → sole_row (a_run [extent_put ino off s len nr] m) (versioned (extent_key ino off) s) nr.
Proof. intros Hno k v y Hh. cbn [a_run foldl extent_put a_wop]. unfold a_put. case_decide as Hk; [by intros _ _ _|]. by rewrite Hno. Qed.
Lemma no_extent_rows_none m l ino off : no_extent_rows m → a_extent m l ino off = None.
Proof.
  intros Hno. destruct (a_extent m l ino off) as [x|] eqn:E; [exfalso|done]. apply a_extent_row in E as (v & s & _ & Hm & _). by rewrite Hno in Hm.
Qed.
Lemma put_only_extent m ino off s l len nr :
  no_extent_rows m → Forall (in_width 32) (s :: l) → in_width 64 ino → in_width 64 off → in_width 64 nr → 0 ≤ len ≤ 4096 →
  extents_of (a_run [extent_put ino off s len nr] m) (s :: l) ino [(off, extent_of len nr)].
Proof.
  intros Hno Hl Hi Ho Hnr Hlen. pose proof Hl as [Hs _]%Forall_cons. split; [|apply NoDup_singleton].
  intros o x. rewrite list_elem_of_singleton. split; [intros [= -> ->]; split; [done|by apply a_extent_put]|]. intros [Wo Hx].
  destruct (decide (o = off)) as [->|Hne]; [rewrite a_extent_put in Hx by done; by injection Hx as <-|].
  rewrite a_extent_put_other, no_extent_rows_none in Hx; [done|done|done..|]. left. congruence.
Qed.

Section put_served.
Context {D : Type} `{!BlockDevice D} `{!BlockDeviceLaws D} `{!BlockDeviceTotal D} `{!Crc32} `{!Crc32Range}.

Lemma put_extent_served (fs : Fs D) m d n s l ino off data :
  served fs m d (2 + n) → 0 ≤ n → view m (current_subvol fs) s l → in_width 64 ino → in_width 64 off → off mod 4096 = 0 →
  (length data ≤ BLOCK_SIZE)%nat → off + Z.of_nat (length data) < 2 ^ 64 →
  ∃ nr fs', put_extent ino off data fs = (Ok tt, fs') ∧ fs' = set_tree (tree fs') fs ∧ in_width 64 nr ∧
    served fs' (a_run [extent_put ino off s (Z.of_nat (length data)) nr] m) (<[nr := padded data]> d) n.
Proof using All.
  intros [Hinv Hf] Hn Hv Hi Ho Hmod Hl Hend. pose proof Hinv as [_ Hids Hw Hcur]. pose proof (view_width _ _ _ _ Hv) as Ws.
  destruct (put_extent_writes m d _ s l (fm_typed _ _ _ (fl_fs _ _ _ _ Hf)) (fl_ext _ _ _ _ Hf) Hv ino off Hi Ho Hmod data Hl Hend fs n Hf Hn eq_refl)
    as ([] & ops & d' & fs' & E & (nr & -> & -> & _ & Wnr) & Hf' & T & _).
  exists nr, fs'. do 3 (split; [done|]). split; [|done]. destruct (view_above _ _ _ _ _ _ Hv Hw Hids) as [Hlt _].
  assert (Forall (local_op s) [extent_put ino off s (Z.of_nat (length data)) nr]) as Hloc by (apply Forall_singleton; left; split; [right; by right|done]).
  split; [apply Hf'|..]; rewrite T; cbn [set_tree next_snap_id next_subvol_id current_subvol];
    [by eapply ids_ok_local|done|by rewrite (local_subvol s)].
Qed.
End put_served.

#[local] Existing Instance sum_crc.

Lemma demo_sized_rows : no_extent_rows demo_sized_map.
Proof.
  intros k Hk. unfold demo_sized_map, demo_sized_ops, seed_map, seed_ops. cbn [a_run foldl a_wop]. unfold a_put.
  repeat (case_decide; [exfalso; subst k; discriminate Hk|]). reflexivity.
Qed.

Lemma zero_width : in_width 64 0.
Proof. unfold in_width. lia. Qed.
Lemma demo_fits : (length demo_data ≤ BLOCK_SIZE)%nat.
Proof. apply Nat.leb_le. vm_compute. reflexivity. Qed.

(** A new file system whose file 2 has the bytes [demo_data] in one extent. *)
Lemma demo_extent_served :
  ∃ fs0 fs1 nr fs, fs_new = Ok fs0 ∧ put_inode 2 demo_sized fs0 = (Ok tt, fs1) ∧ put_extent 2 0 demo_data fs1 = (Ok tt, fs) ∧ in_width 64 nr ∧
    served fs (a_run [extent_put 2 0 ROOT_SNAP 3 nr] demo_sized_map) (<[nr := padded demo_data]> ∅) 100 ∧
    view (a_run [extent_put 2 0 ROOT_SNAP 3 nr] demo_sized_map) (current_subvol fs) ROOT_SNAP [ROOT_SNAP] ∧
    current_subvol fs = ROOT_SUBVOL ∧ next_snap_id fs = ROOT_SNAP - 1 ∧ next_subvol_id fs = ROOT_SUBVOL + 1.
Proof.
  destruct demo_sized_served as (fs0 & fs1 & E0 & E1 & Hs & Ec & Es & Ev).
  assert (view demo_sized_map (current_subvol fs1) ROOT_SNAP [ROOT_SNAP]) as Hv by (rewrite Ec; exact demo_sized_view).
  destruct (put_extent_served fs1 demo_sized_map ∅ 100 ROOT_SNAP [ROOT_SNAP] 2 0 demo_data) as (nr & fs & E & T & Wnr & Hs');
    [apply (served_weaken _ 200); [lia|exact Hs]|lia|exact Hv|exact demo_ino_width|exact zero_width|reflexivity|exact demo_fits|cbn [demo_data length]; lia|].
  exists fs0, fs1, nr, fs. split; [exact E0|]. split.
  { revert E1. cbn [run_sop run_fop]. unfold from_btree, mapping_err. destruct (put_inode 2 demo_sized fs0) as [[[]| | |] ?]; intros [= ->]; reflexivity. }
  split; [exact E|]. split; [exact Wnr|]. split; [exact Hs'|]. split; [|rewrite T; cbn [set_tree current_subvol next_snap_id next_subvol_id]; split; [exact Ec|split; [exact Es|exact Ev]]].
  rewrite T. cbn [set_tree current_subvol]. eapply view_local; [apply root_width| |exact Hv]. apply Forall_singleton. left. split; [right; right; reflexivity|reflexivity].
Qed.

(** The file is cut to one byte, and reads as that byte and zeros. *)
Lemma truncate_cuts_private_file_witness :
  ∃ fs0 fs1 fs2 fs3 m' d', fs_new = Ok fs0 ∧ put_inode 2 demo_sized fs0 = (Ok tt, fs1) ∧ put_extent 2 0 demo_data fs1 = (Ok tt, fs2) ∧
    truncate_extents 2 1 fs2 = (Ok tt, fs3) ∧ served fs3 m' d' 0 ∧
    byte_at d' m' [ROOT_SNAP] 2 0 = Byte.x72 ∧ byte_at d' m' [ROOT_SNAP] 2 1 = Byte.x00.
Proof.
  destruct demo_extent_served as (fs0 & fs1 & nr & fs2 & E0 & E1 & E2 & Wnr & Hs & Hv & _).
  assert (Forall (in_width 32) [ROOT_SNAP]) as Wl by (apply Forall_singleton; exact root_width).
  pose proof zero_width as W0. assert (in_width 64 1) as W1 by (unfold in_width; lia).
  pose proof (put_only_extent demo_sized_map 2 0 ROOT_SNAP [] 3 nr demo_sized_rows Wl demo_ino_width W0 Wnr ltac:(lia)) as Hes.
  destruct (truncate_cuts_private_file fs2 (a_run [extent_put 2 0 ROOT_SNAP 3 nr] demo_sized_map) (<[nr := padded demo_data]> ∅) 0 ROOT_SNAP [ROOT_SNAP] 2 1 [(0, extent_of 3 nr)])
    as (m' & d' & fs3 & E3 & Hs3 & _ & _ & Hb & _); [apply (served_weaken _ 100); [cbn; lia|exact Hs]|lia|exact Hv|exact demo_ino_width|cbn; lia|exact W1|exact Hes| |].
  { intros off x Wo Hx. assert ((off, x) ∈ [(0, extent_of 3 nr)]) as Hin by (apply (eo_exact _ _ _ _ Hes); split; [exact Wo|exact Hx]).
    apply list_elem_of_singleton in Hin as [= -> ->]. apply put_sole, demo_sized_rows. }
  exists fs0, fs1, fs2, fs3, m', d'. split; [exact E0|]. split; [exact E1|]. split; [exact E2|]. split; [exact E3|]. split; [exact Hs3|].
  rewrite (Hb 2 0 demo_ino_width W0), (Hb 2 1 demo_ino_width W1). rewrite decide_False by lia. rewrite decide_True by lia. split; [|reflexivity].
  change 3 with (Z.of_nat (length demo_data)).
  rewrite byte_at_put; [reflexivity|exact root_width|exact demo_ino_width|exact W0|exact Wnr|reflexivity|exact demo_fits|lia].
Defined.

