(* ===== verification/Runs.v ===== *)
(** * Runs: executions of the code that lose data (src/fs.rs, src/storage.rs).

    Three short sequences of operations, evaluated on the model with the byte-sum
    checksum of [StoreSpec], whose outcome is not the one the code's comments
    promise: a data block handed out twice after a crash, a free-list chain
    overwritten while the superblock still points at it (in general: [FreeChain]), and
    a block freed by an uncommitted truncate and written again before the commit
    (truncates in general: [Truncate]). They are evidence for the defects, not
    theorems about all runs. *)
From Stdlib Require Import Strings.Byte.
From stdpp Require Import base list numbers.
From S2P Require Import Prelude Device BlockBtree Storage Journal StoreSpec Btree FsTypes Fs.
#[local] Open Scope Z_scope.
#[local] Existing Instance sum_crc.

Definition file_inode (size : Z) : InodeV1 :=
  {| i_mode := 33188; i_uid := 0; i_gid := 0; i_nlink := 1; i_size := size;
     i_atime := 0; i_mtime := 0; i_ctime := 0; i_parent_ino := ROOT_INO |}.

Section runs.
Context {D : Type} `{!BlockDevice D}.

(** Free a block, checkpoint, then write file 3 into a block of the free list and
    commit. *)
Definition reuse_run : M (Fs D) error unit :=
  _ ← put_inode 2 (file_inode 1);
  _ ← put_inode 3 (file_inode 1);
  _ ← put_extent 2 0 [Byte.x61];
  _ ← truncate_extents 2 0;
  _ ← fs_sync;
  _ ← put_extent 3 0 [Byte.x62];
  journal_commit.

(** Read file 3, write two other files, read file 3 again. *)
Definition reread_run : M (Fs D) error (list byte * list byte) :=
  before ← fs_read_at 3 0 1;
  _ ← put_extent 4 0 [Byte.x63];
  _ ← put_extent 5 0 [Byte.x64];
  after ← fs_read_at 3 0 1;
  mret (before, after).

(** Commit a file, truncate it and write another one, without a commit. *)
Definition early_reuse_run : M (Fs D) error unit :=
  _ ← put_inode 2 (file_inode 1);
  _ ← put_extent 2 0 [Byte.x61];
  _ ← journal_commit;
  _ ← truncate_extents 2 0;
  put_extent 3 0 [Byte.x62].
End runs.

(** [open] restores the free list of the checkpoint although blocks of it were
    handed out to data since: after a crash the committed data of file 3 is read
    back once, and is then overwritten by new files. *)
Lemma crash_hands_out_data_block_again :
  (fs ← fs_create;
   '(_, fs) ← exec reuse_run fs;
   fs ← fs_open 10 (device (store (tree fs)));
   '(r, _) ← exec reread_run fs;
   Ok r) = Ok ([Byte.x62], [Byte.x64]).
Proof. vm_compute. reflexivity. Qed.

(** [load_free_list] puts the blocks of the chain itself on the free list while the
    superblock still points at the chain: the first write after a mount overwrites
    it, and after a crash the image no longer mounts. *)
Lemma chain_block_is_overwritten :
  (fs ← fs_create;
   '(_, fs) ← exec reuse_run fs;
   '(_, fs) ← exec fs_sync fs;
   fs ← fs_open 10 (device (store (tree fs)));
   '(_, fs) ← exec (_ ← put_extent 4 0 [Byte.x64]; journal_commit) fs;
   fs ← fs_open 10 (device (store (tree fs)));
   Ok (next_ino fs)) = Err (Io UnexpectedEof).
Proof. vm_compute. reflexivity. Qed.

(** [truncate_extents] frees the blocks at once, before a commit makes the removal of
    the extents durable: the next write reuses them on the device, and after a crash
    the committed file shows the bytes of another one. *)
Lemma uncommitted_truncate_loses_committed_data :
  (fs ← fs_create;
   '(_, fs) ← exec early_reuse_run fs;
   fs ← fs_open 10 (device (store (tree fs)));
   '(r, _) ← exec (fs_read_at 2 0 1) fs;
   Ok r) = Ok [Byte.x62].
Proof. vm_compute. reflexivity. Qed.
