(* ===== verification/Fuzz.v ===== *)
(** * Fuzz: the differential test of the library (fuzz/fuzz_targets/fs_ops.rs).

    A sequence of operations runs on an image and on a shadow map from slots to
    cells; the two are compared after every step. Decoding the input into
    operations is left to the caller, as are the temporary file and the messages of
    the assertions; an assertion that fails is [Panic]. *)
From Stdlib Require Import Strings.Byte.
From stdpp Require Import base list numbers gmap.
From S2P Require Import Prelude Device BlockBtree Storage Journal StoreSpec Btree FsTypes Fs.
#[local] Open Scope Z_scope.

Definition N_FILES : Z := 5.
Definition N_OFFSETS : Z := 4.
Definition MAX_OPS : nat := 256.
Definition MAX_SNAPS : nat := 4.
Definition BLOCK : Z := BLOCK_BYTES.

Inductive Op : Type :=
  | Write (file off : Z) (fill : byte) (len : Z)
  | Read (file off len : Z)
  | Unlink (file : Z)
  | Sync
  | Gc
  | Reclaim
  | Snapshot
  | DeleteSnap (which : Z)
  | Reopen.

Record Cell : Type := { c_fill : byte; c_len : nat }.
Definition Shadow : Type := gmap (Z * Z) Cell.
Record Snap : Type := { sn_subvol : Z; sn_content : Shadow }.

Definition ino_of (file : Z) : Z := 2 + file mod N_FILES.
Definition name_of (file : Z) : list byte := [z2b (97 + file mod N_FILES)].
Definition offset_of (off : Z) : Z := (off mod N_OFFSETS) * BLOCK.
(** [(file % N_FILES as u8) as usize] *)
Definition slot_of (file : Z) : nat := Z.to_nat (file mod N_FILES).

(** [c.expect(..)], whatever the error type, and [let _ = c]. *)
Definition must {S E A} (c : M S E A) : M S error A := λ s,
  match c s with
  | (Ok a, s) => (Ok a, s)
  | (Err _, s) => (Panic, s)
  | (Panic, s) => (Panic, s)
  | (OutOfFuel, s) => (OutOfFuel, s)
  end.
(** [c.ok()]. *)
Definition attempt {S E A} (c : M S E A) : M S error (option A) := λ s,
  match c s with
  | (Ok a, s) => (Ok (Some a), s)
  | (Err _, s) => (Ok None, s)
  | (Panic, s) => (Panic, s)
  | (OutOfFuel, s) => (OutOfFuel, s)
  end.

Section view.
Context {D : Type} `{!BlockDevice D} `{!Crc32}.
Abbreviation FM := (M (Fs D) error).

(** What a block of a cell holds: its first [len] bytes are [fill], the rest zero. *)
Definition cell_byte (c : Cell) (i : nat) : byte := if (i <? c_len c)%nat then c_fill c else Byte.x00.

Definition check_slot (shadow : Shadow) (ino off : Z) : FM unit :=
  got ← must (get_extent ino off);
  match shadow !! (ino, off), got with
  | Some cell, Some ext =>
      _ ← lift (assert_that (Z.to_nat (x_len ext) =? c_len cell)%nat);
      block ← must (read_data_block (x_data_block ext));
      lift (assert_that (forallb id (imap (λ i b, bool_decide (b = cell_byte cell i)) block)))
  | None, None => mret tt
  | Some _, None => lift Panic
  | None, Some _ => lift Panic
  end.
Definition check_view (shadow : Shadow) : FM unit :=
  forM_ (seqZ 0 N_FILES) (λ file, forM_ (seqZ 0 N_OFFSETS) (λ off_idx,
    check_slot shadow (ino_of file) (offset_of off_idx))).

Definition expected_byte (shadow : Shadow) (ino pos : Z) : byte :=
  let block_off := block_floor pos in
  match shadow !! (ino, block_off) with
  | Some cell => cell_byte cell (Z.to_nat (pos - block_off))
  | None => Byte.x00
  end.
Definition expected_read (shadow : Shadow) (ino size off len : Z) : list byte :=
  if size <=? off then [] else
  let stop := Z.min (off + len) size in
  (λ i, expected_byte shadow ino (off + Z.of_nat i)) <$> seq 0 (Z.to_nat (stop - off)).

Definition check_snapshots (snaps : list Snap) : FM unit :=
  _ ← forM_ snaps (λ snap,
        _ ← must (switch_subvol (sn_subvol snap));
        check_view (sn_content snap));
  must (switch_subvol ROOT_SUBVOL).

(** [Fs::create] is the caller's; this is the rest of [fresh]. *)
Definition plain_inode (mode nlink : Z) : InodeV1 :=
  {| i_mode := mode; i_uid := 0; i_gid := 0; i_nlink := nlink; i_size := 0; i_atime := 0; i_mtime := 0; i_ctime := 0;
     i_parent_ino := ROOT_INO |}.
Definition populate : FM unit :=
  _ ← must (put_inode ROOT_INO (plain_inode 16877 2));
  _ ← forM_ (seqZ 0 N_FILES) (λ file,
        let ino := ino_of file in
        _ ← must (put_inode ino (plain_inode 33188 1));
        must (put_dirent ROOT_INO (name_of file) (dirent_new ino FILE_KIND_REGULAR)));
  must journal_commit.
End view.

(** ** The loop *)
Record FuzzState (D : Type) : Type := {
  fz_fs : Fs D;
  active : Shadow;
  sizes : list Z;
  live : list bool;
  snaps : list Snap;
}.
Arguments fz_fs {D}. Arguments active {D}. Arguments sizes {D}. Arguments live {D}. Arguments snaps {D}.

Section loop.
Context {D : Type} `{!BlockDevice D} `{!Crc32}.
(** [Fs::open] on the image behind a device. *)
Context (reopen_image : D → res (Fs D)).
Abbreviation ZM := (M (FuzzState D) error).

Definition set_fs (fs : Fs D) (st : FuzzState D) : FuzzState D :=
  {| fz_fs := fs; active := active st; sizes := sizes st; live := live st; snaps := snaps st |}.
Definition set_active (a : Shadow) (st : FuzzState D) : FuzzState D :=
  {| fz_fs := fz_fs st; active := a; sizes := sizes st; live := live st; snaps := snaps st |}.
Definition set_sizes (l : list Z) (st : FuzzState D) : FuzzState D :=
  {| fz_fs := fz_fs st; active := active st; sizes := l; live := live st; snaps := snaps st |}.
Definition set_live (l : list bool) (st : FuzzState D) : FuzzState D :=
  {| fz_fs := fz_fs st; active := active st; sizes := sizes st; live := l; snaps := snaps st |}.
Definition set_snaps (l : list Snap) (st : FuzzState D) : FuzzState D :=
  {| fz_fs := fz_fs st; active := active st; sizes := sizes st; live := live st; snaps := l |}.
Definition with_fs {A} (c : M (Fs D) error A) : ZM A := zoom fz_fs set_fs c.

Definition with_size (size : Z) (i : InodeV1) : InodeV1 :=
  {| i_mode := i_mode i; i_uid := i_uid i; i_gid := i_gid i; i_nlink := i_nlink i; i_size := size;
     i_atime := i_atime i; i_mtime := i_mtime i; i_ctime := i_ctime i; i_parent_ino := i_parent_ino i |}.

(** One operation; [false] stands for [continue]. *)
Definition run_op (op : Op) : ZM bool :=
  match op with
  | Write file off fill len =>
      st ← gets id;
      alive ← lift (index (live st) (slot_of file));
      if negb alive then mret false else
      let ino := ino_of file in
      let offset := offset_of off in
      let len := len mod BLOCK + 1 in
      _ ← with_fs (must (put_extent ino offset (replicate (Z.to_nat len) fill)));
      o ← with_fs (must (get_inode ino));
      inode ← lift (expect o);
      let inode := with_size (Z.max (i_size inode) (offset + len)) inode in
      _ ← with_fs (must (put_inode ino inode));
      _ ← with_fs (must journal_commit);
      _ ← modify (set_active (<[(ino, offset) := {| c_fill := fill; c_len := Z.to_nat len |}]> (active st)));
      size ← lift (index (sizes st) (slot_of file));
      _ ← modify (set_sizes (<[slot_of file := Z.max size (offset + len)]> (sizes st)));
      mret true
  | Read file off len =>
      st ← gets id;
      let ino := ino_of file in
      let span := N_OFFSETS * BLOCK in
      let off := off mod (span + 1) in
      let len := len mod (span + 1) in
      got ← with_fs (must (fs_read_at ino off len));
      size ← lift (index (sizes st) (slot_of file));
      _ ← lift (assert_that (bool_decide (got = expected_read (active st) ino size off len)));
      mret true
  | Unlink file =>
      st ← gets id;
      alive ← lift (index (live st) (slot_of file));
      if negb alive then mret false else
      r ← with_fs (attempt (unlink ROOT_INO (name_of file)));
      match r with
      | None => mret true
      | Some _ =>
          _ ← with_fs (must journal_commit);
          _ ← with_fs (attempt (reclaim_deleted_inodes U64_MAX));
          _ ← with_fs (must journal_commit);
          let ino := ino_of file in
          _ ← modify (set_active (filter (λ '((i, _), _), i ≠ ino) (active st)));
          _ ← modify (set_sizes (<[slot_of file := 0]> (sizes st)));
          _ ← modify (set_live (<[slot_of file := false]> (live st)));
          mret true
      end
  | Sync => _ ← with_fs (must fs_sync); mret true
  | Gc => _ ← with_fs (must gc); mret true
  | Reclaim =>
      _ ← with_fs (attempt (reclaim_deleted_inodes U64_MAX));
      _ ← with_fs (must journal_commit);
      mret true
  | Snapshot =>
      r ← with_fs (attempt (snapshot_subvol ROOT_SUBVOL));
      match r with
      | None => mret true
      | Some sub =>
          _ ← with_fs (must journal_commit);
          st ← gets id;
          _ ← (if (length (snaps st) <? MAX_SNAPS)%nat
               then modify (set_snaps (snaps st ++ [{| sn_subvol := sub; sn_content := active st |}]))
               else mret tt);
          mret true
      end
  | DeleteSnap which =>
      st ← gets id;
      if (length (snaps st) =? 0)%nat then mret false else
      let idx := Z.to_nat (which mod Z.of_nat (length (snaps st))) in
      snap ← lift (index (snaps st) idx);
      r ← with_fs (attempt (delete_snapshot (sn_subvol snap)));
      match r with
      | None => mret true
      | Some _ =>
          _ ← with_fs (must journal_commit);
          _ ← modify (set_snaps (delete idx (snaps st)));
          mret true
      end
  | Reopen =>
      _ ← with_fs (must fs_sync);
      fs ← gets fz_fs;
      fs ← must (lift (reopen_image (device (store (tree fs)))));
      _ ← modify (set_fs fs);
      mret true
  end.

Definition check_all : ZM unit :=
  st ← gets id;
  _ ← with_fs (check_view (active st));
  with_fs (check_snapshots (snaps st)).

Definition fuzz_step (op : Op) : ZM unit :=
  checked ← run_op op;
  if checked : bool then check_all else mret tt.
(** The loop, on the operations decoded from the input. *)
Definition fuzz_ops (ops : list Op) : ZM unit := forM_ (take MAX_OPS ops) fuzz_step.

(** The final gauntlet. *)
Definition gauntlet : ZM unit :=
  _ ← with_fs (must gc);
  _ ← check_all;
  _ ← with_fs (must fs_sync);
  fs ← gets fz_fs;
  fs ← must (lift (reopen_image (device (store (tree fs)))));
  _ ← modify (set_fs fs);
  check_all.

Definition start_state (fs : Fs D) : FuzzState D :=
  {| fz_fs := fs; active := ∅; sizes := replicate (Z.to_nat N_FILES) 0; live := replicate (Z.to_nat N_FILES) true; snaps := [] |}.
End loop.

(** The whole target; [fuel] bounds the free-list chain of a mount. *)
Definition fuzz_target `{!Crc32} (fuel : nat) (ops : list Op) : res (FuzzState FileDevice) :=
  fs ← fs_create;
  '(_, fs) ← exec populate fs;
  '(_, st) ← exec (_ ← fuzz_ops (fs_open fuel) ops; gauntlet (fs_open fuel)) (start_state fs);
  Ok st.
