(* ===== verification/FuzzSpec.v ===== *)
(** * FuzzSpec: what the differential test checks (fuzz/fuzz_targets/fs_ops.rs).

    The assertions of the test decide exactly whether the shadow agrees with what
    the active subvolume shows, and the read oracle computes from the shadow what
    [Fs::read_at] promises of an agreeing state. *)
From Stdlib Require Import Strings.Byte.
From stdpp Require Import base list numbers gmap.
From S2P Require Import Prelude Device BlockBtree NodeRep Storage Journal StoreSpec Heap Btree TreeRead TreeWrite BtreeSpec FsTypes Fs FsSpec FsOps Snapshot Posix FsData Fuzz.
#[local] Open Scope rfs_scope.
#[local] Open Scope Z_scope.

(** ** Agreement *)
Definition cell_block (c : Cell) : list byte := cell_byte c <$> seq 0 BLOCK_SIZE.

(** The extent of a slot, as the cell says. *)
Definition slot_agrees (m : amap) (d : gmap Z (list byte)) (l : list Z) (shadow : Shadow) (ino off : Z) : bool :=
  match shadow !! (ino, off), a_extent m l ino off with
  | Some c, Some x => (Z.to_nat (x_len x) =? c_len c)%nat && bool_decide (d !! x_data_block x = Some (cell_block c))
  | None, None => true
  | _, _ => false
  end.
Definition slots : list (Z * Z) := file ← seqZ 0 N_FILES; off ← seqZ 0 N_OFFSETS; [(ino_of file, offset_of off)].
Definition view_agrees (m : amap) (d : gmap Z (list byte)) (l : list Z) (shadow : Shadow) : bool :=
  forallb (λ '(ino, off), slot_agrees m d l shadow ino off) slots.

Lemma view_agrees_slot m d l shadow ino off :
  view_agrees m d l shadow = true → (ino, off) ∈ slots → slot_agrees m d l shadow ino off = true.
Proof. unfold view_agrees. rewrite forallb_forall. intros Hv Hin. apply (Hv (ino, off)). by apply list_elem_of_In. Qed.

Lemma ino_width file : in_width 64 (ino_of file).
Proof. unfold ino_of, N_FILES, in_width. pose proof (Z.mod_pos_bound file 5). lia. Qed.
Lemma slot_ino file o : 0 ≤ o < N_OFFSETS → (ino_of file, o * BLOCK) ∈ slots.
Proof.
  intros Ho. unfold slots. apply list_elem_of_bind. exists (file mod N_FILES). split.
  - apply list_elem_of_bind. exists o. rewrite elem_of_seqZ. split; [|lia]. apply list_elem_of_singleton.
    unfold ino_of, offset_of. by rewrite Z.mod_mod, (Z.mod_small o) by done.
  - apply elem_of_seqZ. apply Z.mod_pos_bound. done.
Qed.

(** The two ways of comparing a block with a cell. *)
Lemma cell_block_check c b :
  length b = BLOCK_SIZE → forallb id (imap (λ i x, bool_decide (x = cell_byte c i)) b) = bool_decide (b = cell_block c).
Proof.
  intros Hl. apply eq_true_iff_eq. rewrite forallb_forall, bool_decide_eq_true. split.
  - intros Hall. apply list_eq_same_length with (n := BLOCK_SIZE); [unfold cell_block; by rewrite length_fmap, length_seq|done|].
    intros i x y Hi Hx Hy. unfold cell_block in Hy. rewrite list_lookup_fmap, lookup_seq_lt in Hy by done. injection Hy as <-.
    assert (imap (λ i x, bool_decide (x = cell_byte c i)) b !! i = Some (bool_decide (x = cell_byte c i))) as E
      by (by rewrite list_lookup_imap, Hx).
    apply list_elem_of_lookup_2, list_elem_of_In, Hall in E. by apply bool_decide_eq_true in E.
  - intros -> x Hin%list_elem_of_In%list_elem_of_lookup. destruct Hin as [i Hi]. rewrite list_lookup_imap in Hi.
    destruct (cell_block c !! i) as [y|] eqn:Ey; [|done]. injection Hi as <-.
    unfold cell_block in Ey. rewrite list_lookup_fmap in Ey. apply fmap_Some in Ey as (j & [-> _]%lookup_seq & ->).
    by apply bool_decide_eq_true.
Qed.

Section checks.
Context {D : Type} `{!BlockDevice D} `{!BlockDeviceLaws D} `{!BlockDeviceTotal D} `{!Crc32} `{!Crc32Range}.
Context (m : amap) (d : gmap Z (list byte)) (cur s : Z) (l : list Z) (Hm : typed m) (Hx : extents_ok m d) (Hv : view m cur s l).
Implicit Types fs : Fs D.

(** [c] passes when [b] holds, panics otherwise, and changes only caches. *)
Definition asserts (c : M (Fs D) error unit) (b : bool) : Prop := ∀ fs n,
  file_models fs m d n → current_subvol fs = cur →
  ∃ fs', c fs = (if b then Ok tt else Panic, fs') ∧ file_models fs' m d n ∧ fs_quiet fs fs'.

Lemma asserts_lift b : asserts (lift (assert_that b)) b.
Proof. intros fs n Hf _. exists fs. split; [by destruct b|]. split; [done|apply fs_quiet_refl]. Qed.
Lemma asserts_ret : asserts (mret tt) true.
Proof. intros fs n Hf _. exists fs. split; [done|]. split; [done|apply fs_quiet_refl]. Qed.
Lemma asserts_panic : asserts (lift Panic) false.
Proof. exact (asserts_lift false). Qed.
Lemma dreads_must {E A} (c : M (Fs D) E A) P : dreads m d cur c P → dreads m d cur (must c) P.
Proof. intros Hc fs n Hf Hcur. destruct (Hc fs n Hf Hcur) as (a & fs1 & E1 & H1). exists a, fs1. unfold must. by rewrite E1. Qed.
Lemma asserts_bind {A} (c : M (Fs D) error A) (k : A → M (Fs D) error unit) P b :
  dreads m d cur c P → (∀ a, P a → asserts (k a) b) → asserts (c ≫= k) b.
Proof.
  intros Hc Hk fs n Hf Hcur. destruct (Hc fs n Hf Hcur) as (a & fs1 & E1 & Ha & Hf1 & Hq1).
  destruct (Hk a Ha fs1 n Hf1) as (fs2 & E2 & Hf2 & Hq2); [by rewrite (fs_quiet_subvol _ _ Hq1)|].
  exists fs2. rewrite (M_bind_ok _ _ _ _ _ E1). split; [done|]. split; [done|by eapply fs_quiet_trans].
Qed.
Lemma asserts_seq c k b1 b2 : asserts c b1 → asserts k b2 → asserts (_ ← c; k) (b1 && b2).
Proof.
  intros Hc Hk fs n Hf Hcur. destruct (Hc fs n Hf Hcur) as (fs1 & E1 & Hf1 & Hq1). destruct b1; cbn [andb].
  - destruct (Hk fs1 n Hf1) as (fs2 & E2 & Hf2 & Hq2); [by rewrite (fs_quiet_subvol _ _ Hq1)|].
    exists fs2. rewrite (M_bind_ok _ _ _ _ _ E1). split; [done|]. split; [done|by eapply fs_quiet_trans].
  - exists fs1. unfold mbind, M_bind. rewrite E1. done.
Qed.
Lemma asserts_for {A} (xs : list A) (f : A → M (Fs D) error unit) (g : A → bool) :
  (∀ x, x ∈ xs → asserts (f x) (g x)) → asserts (forM_ xs f) (forallb g xs).
Proof.
  induction xs as [|x xs IH]; intros Hf; [apply asserts_ret|]. cbn [forM_ forallb]. apply asserts_seq; [apply Hf; by left|].
  apply IH. intros y Hy. apply Hf. by right.
Qed.

Lemma check_slot_asserts shadow ino off :
  in_width 64 ino → in_width 64 off → asserts (check_slot shadow ino off) (slot_agrees m d l shadow ino off).
Proof using All.
  intros Hi Ho. unfold check_slot, slot_agrees.
  eapply asserts_bind; [eapply dreads_must, (reads_dreads _ _ _ _ _ (eq _)); [by eapply get_extent_reads|reflexivity]|]. intros ? <-.
  destruct (shadow !! (ino, off)) as [c|], (a_extent m l ino off) as [x|] eqn:Ex; [|apply asserts_panic|apply asserts_panic|apply asserts_ret].
  apply asserts_seq; [apply asserts_lift|].
  destruct (xf_block _ _ _ (a_extent_fits m d l ino off x Hx (chain_width m cur s l Hv) Hi Ho Ex)) as (b & Hb & Hl).
  eapply asserts_bind; [by eapply dreads_must, read_block_reads|]. intros ? <-. rewrite (cell_block_check c b Hl), Hb.
  erewrite (bool_decide_ext (Some b = _)); [apply asserts_lift|]. split; [by intros [= ->]|by intros ->].
Qed.

Lemma forallb_bind {A B} (f : A → list B) (g : B → bool) xs : forallb g (xs ≫= f) = forallb (λ x, forallb g (f x)) xs.
Proof using Type. induction xs as [|x xs IH]; [done|]. cbn [mbind list_bind forallb]. rewrite forallb_app. by f_equal. Qed.
Lemma offset_width off : in_width 64 (offset_of off).
Proof using Type. unfold offset_of, N_OFFSETS, BLOCK, BLOCK_BYTES, in_width. pose proof (Z.mod_pos_bound off 4). lia. Qed.

Lemma check_view_asserts shadow : asserts (check_view shadow) (view_agrees m d l shadow).
Proof using All.
  unfold check_view, view_agrees, slots. rewrite forallb_bind. apply asserts_for. intros file _.
  rewrite forallb_bind. apply asserts_for. intros off _. cbn [forallb]. rewrite andb_true_r.
  apply check_slot_asserts; [apply ino_width|apply offset_width].
Qed.

(** What the cells of an agreeing shadow say of a byte. *)
Lemma expected_byte_at shadow file pos :
  view_agrees m d l shadow = true → 0 ≤ pos < N_OFFSETS * BLOCK →
  expected_byte shadow (ino_of file) pos = byte_at d m l (ino_of file) pos.
Proof using Hx Hv.
  intros Ha Hp. pose proof (block_floor_bounds pos) as Hb. pose proof (block_floor_nonneg pos ltac:(lia)) as Hn.
  set (o := block_floor pos) in *. assert (o mod 4096 = 0) as Hmod by apply block_floor_mod.
  pose proof (Z.div_exact o 4096 ltac:(lia)) as [_ Ho]. specialize (Ho Hmod). unfold N_OFFSETS, BLOCK, BLOCK_BYTES in Hp.
  assert ((ino_of file, o) ∈ slots) as Hin.
  { rewrite Ho, Z.mul_comm. apply slot_ino. unfold N_OFFSETS. pose proof (Z.div_lt_upper_bound o 4096 4). pose proof (Z.div_pos o 4096). lia. }
  pose proof (view_agrees_slot _ _ _ _ _ _ Ha Hin) as Hs. unfold slot_agrees in Hs. unfold expected_byte, byte_at. fold o.
  destruct (shadow !! (ino_of file, o)) as [c|], (a_extent m l (ino_of file) o) as [x|] eqn:Ex; try done.
  apply andb_true_iff in Hs as [Hl%Nat.eqb_eq Hd%bool_decide_eq_true].
  pose proof (a_extent_fits m d l (ino_of file) o x Hx (chain_width m cur s l Hv) (ino_width file) ltac:(unfold in_width; lia) Ex) as [_ Hxl _ _].
  rewrite Hd. cbn [mbind option_bind]. unfold cell_block. rewrite list_lookup_fmap, lookup_seq_lt by (consts; lia). cbn [fmap option_fmap option_map default].
  unfold cell_byte. rewrite Nat.add_0_l. destruct (Z.ltb_spec (pos - o) (x_len x)); [done|]. by rewrite (proj2 (Nat.ltb_ge _ _)) by lia.
Qed.

(** The read oracle: when the shadow agrees with the view and the tracked size with
    the inode, [read_at] on any range returns what [expected_read] computes. *)
Lemma read_oracle_agrees shadow file size off len :
  view_agrees m d l shadow = true → default 0 (i_size <$> a_inode m l (ino_of file)) = size → size ≤ N_OFFSETS * BLOCK →
  0 ≤ off ≤ N_OFFSETS * BLOCK → 0 ≤ len ≤ N_OFFSETS * BLOCK →
  dreads m d cur (fs_read_at (D := D) (ino_of file) off len) (eq (expected_read shadow (ino_of file) size off len)).
Proof using All.
  intros Ha Hs Hmax Ho Hl fs n Hf Hcur. unfold N_OFFSETS, BLOCK, BLOCK_BYTES in Hmax, Ho, Hl.
  destruct (read_at_reads m d _ s l Hm Hx Hv (ino_of file) off len (ino_width file) ltac:(lia) ltac:(lia) ltac:(lia) fs n Hf Hcur)
    as (bs & fs' & E & <- & Hf' & Hq).
  exists (expected_bytes d m l (ino_of file) off len), fs'. split; [done|]. split; [|done]. unfold expected_bytes, expected_read.
  destruct (a_inode m l (ino_of file)) as [inode|]; cbn in Hs; subst size; [|by rewrite (proj2 (Z.leb_le _ _)) by lia].
  destruct (Z.leb_spec (i_size inode) off); [by rewrite seqZ_nil by lia|]. unfold seqZ. rewrite <- list_fmap_compose.
  apply list_fmap_ext. intros i x Hx'%lookup_seq. destruct Hx' as [-> Hlt]. cbn.
  rewrite Z.add_comm. eapply expected_byte_at; [exact Ha|unfold N_OFFSETS, BLOCK, BLOCK_BYTES; lia].
Qed.
End checks.

(** ** Claims *)
Section claims.
Context {D : Type} `{!BlockDevice D} `{!BlockDeviceLaws D} `{!BlockDeviceTotal D} `{!Crc32} `{!Crc32Range}.
Implicit Types fs : Fs D.

(** The view check of the differential test is sound and complete. On any
    state, it passes exactly when every slot it covers shows the shadow's cell, the
    length of the extent and all 4096 bytes of its block, and has no extent where the
    shadow has none; otherwise it panics. It changes nothing a later operation sees. *)
Lemma view_check_decides_agreement fs m d n s l shadow :
  file_models fs m d n → view m (current_subvol fs) s l →
  ∃ fs', check_view shadow fs = (if view_agrees m d l shadow then Ok tt else Panic, fs') ∧ file_models fs' m d n.
Proof using All.
  intros Hf Hv. destruct (check_view_asserts m d _ s l (fm_typed _ _ _ (fl_fs _ _ _ _ Hf)) (fl_ext _ _ _ _ Hf) Hv shadow fs n Hf eq_refl)
    as (fs' & E & Hf' & _). eauto.
Qed.
End claims.
