(* ===== verification/FuzzRun.v ===== *)
(** * FuzzRun: the differential test passes (fuzz/fuzz_targets/fs_ops.rs).

    The invariant of the test's loop: the shadow of the active subvolume and the
    frozen shadow of every tracked snapshot agree with what the image shows. Writes,
    reads, checkpoints, garbage collections, reclaims and snapshots keep it, so that
    no assertion fires however they are interleaved, nor in the collection, the
    checkpoint and the remount at the end. *)
From Stdlib Require Import Strings.Byte.
From stdpp Require Import base list numbers gmap.
From S2P Require Import Prelude Device BlockBtree NodeRep Storage Journal StoreSpec Heap Btree TreeRead TreeWrite BtreeSpec FsTypes Fs FsSpec FsOps Snapshot Posix FsData Serving FuseSpec Recovery Reclaim Crash Running Gc Fuzz FuzzSpec.
#[local] Open Scope rfs_scope.
#[local] Open Scope Z_scope.

(** ** Agreement as the map changes *)
Lemma view_agrees_mono m d l shadow m' d' l' :
  view_agrees m d l shadow = true → d ⊆ d' → (∀ ino off, (ino, off) ∈ slots → a_extent m' l' ino off = a_extent m l ino off) →
  view_agrees m' d' l' shadow = true.
Proof.
  unfold view_agrees. rewrite !forallb_forall. intros Ha Hd Hx [ino off] Hin. specialize (Ha _ Hin). apply list_elem_of_In in Hin. cbn in *.
  unfold slot_agrees in *. rewrite Hx by done. destruct (shadow !! (ino, off)) as [c|], (a_extent m l ino off) as [x|]; try done.
  apply andb_true_iff in Ha as [Hl Hb%bool_decide_eq_true]. rewrite Hl. by apply bool_decide_eq_true, (lookup_weaken d).
Qed.

(** A collection keeps the blocks that a view shows. *)
Lemma view_agrees_pinned m d d' l shadow : same_pinned m d d' → view_agrees m d l shadow = true → view_agrees m d' l shadow = true.
Proof.
  intros [_ Hp]. unfold view_agrees. rewrite !forallb_forall. intros Ha [ino off] Hin. specialize (Ha _ Hin). cbn in *. unfold slot_agrees in *.
  destruct (shadow !! (ino, off)) as [c|], (a_extent m l ino off) as [x|] eqn:Ex; try done. by rewrite (Hp _ (a_extent_pinned _ _ _ _ _ Ex)).
Qed.

Lemma slots_width ino off : (ino, off) ∈ slots → in_width 64 ino ∧ in_width 64 off ∧ off mod 4096 = 0.
Proof.
  unfold slots. intros (file & Hin & _)%list_elem_of_bind. apply list_elem_of_bind in Hin as (o & Hin & _).
  apply list_elem_of_singleton in Hin as [= -> ->]. split; [apply ino_width|]. split; [apply offset_width|].
  unfold offset_of, BLOCK, BLOCK_BYTES. apply Z.mod_mul. done.
Qed.

(** The block a write of the test leaves. *)
Lemma padded_fill fill len : (len ≤ BLOCK_SIZE)%nat → padded (replicate len fill) = cell_block {| c_fill := fill; c_len := len |}.
Proof.
  intros Hl. apply list_eq_same_length with (n := BLOCK_SIZE);
    [unfold cell_block; by rewrite length_fmap, length_seq|apply length_padded; by rewrite length_replicate|].
  intros i x y Hi Hx Hy. unfold cell_block in Hy. rewrite list_lookup_fmap, lookup_seq_lt in Hy by done. injection Hy as <-.
  rewrite lookup_padded in Hx by (rewrite ?length_replicate; done). injection Hx as <-.
  unfold cell_byte. cbn [c_fill c_len]. destruct (Nat.ltb_spec i len); [by rewrite lookup_replicate_2|].
  by rewrite lookup_ge_None_2 by (by rewrite length_replicate).
Qed.

(** A write of the test: the cell is in the shadow and in the view. *)
Lemma view_agrees_put m d s l shadow ino off fill len nr :
  view_agrees m d (s :: l) shadow = true → extents_ok m d → Forall (in_width 32) (s :: l) → in_width 64 ino → in_width 64 off → in_width 64 nr →
  (0 < len ≤ BLOCK_SIZE)%nat → d !! nr = None →
  view_agrees (a_run [extent_put ino off s (Z.of_nat len) nr] m) (<[nr := padded (replicate len fill)]> d) (s :: l)
    (<[(ino, off) := {| c_fill := fill; c_len := len |}]> shadow) = true.
Proof.
  intros Ha Hx Hl Hi Ho Hnr Hlen Hd. assert (in_width 32 s) as Hs by (by inversion Hl). unfold view_agrees. apply forallb_forall. intros [i o] Hin%list_elem_of_In.
  destruct (slots_width _ _ Hin) as (Hi' & Ho' & _). unfold slot_agrees, Shadow in *. destruct (decide ((i, o) = (ino, off))) as [[= -> ->]|Hne].
  - rewrite lookup_insert_eq, a_extent_put by (done || (revert Hlen; consts; lia)). cbn [extent_of x_len x_data_block c_len].
    rewrite Nat2Z.id, Nat.eqb_refl, lookup_insert_eq, padded_fill by lia. by apply bool_decide_eq_true.
  - rewrite lookup_insert_ne by done. rewrite a_extent_put_other by auto. pose proof (view_agrees_slot _ _ _ _ _ _ Ha Hin) as Hslot.
    unfold slot_agrees, Shadow in Hslot. destruct (shadow !! (i, o)) as [c|], (a_extent m (s :: l) i o) as [x|] eqn:Ex; try done.
    destruct (xf_block _ _ _ (a_extent_fits m d (s :: l) i o x Hx Hl Hi' Ho' Ex)) as (b & Hb & _).
    by rewrite lookup_insert_ne by congruence.
Qed.

(** ** What the shadows say *)
Definition sized (size : Z) : InodeV1 := with_size size (plain_inode 33188 1).
Lemma sized_wf size : in_width 64 size → inode_wf (sized size).
Proof. intros Hs. by repeat split; try apply Hs. Qed.

(** A tracked snapshot, which the writable snapshot [s] cannot reach. *)
Definition frozen (m : amap) (d : gmap Z (list byte)) (s : Z) (sn : Snap) : Prop :=
  in_width 32 (sn_subvol sn) ∧ ∃ s' l', view m (sn_subvol sn) s' l' ∧ (s ∉ l') ∧ view_agrees m d l' (sn_content sn) = true.

Record file_tracked (m : amap) (l : list Z) (sizes : list Z) (live : list bool) (file : Z) (size : Z) (alive : bool) : Prop := {
  ft_size : sizes !! slot_of file = Some size;
  ft_live : live !! slot_of file = Some alive;
  ft_bound : 0 ≤ size ≤ N_OFFSETS * BLOCK;
  ft_inode : a_inode m l (ino_of file) = if alive then Some (sized size) else None;
  ft_dead : alive = false → size = 0;
}.

Lemma file_size_read m l sizes live file size alive :
  file_tracked m l sizes live file size alive → default 0 (i_size <$> a_inode m l (ino_of file)) = size.
Proof. intros [_ _ _ -> Hd]. destruct alive; [done|]. by rewrite Hd. Qed.

Record shadowed (m : amap) (d : gmap Z (list byte)) (s : Z) (l : list Z)
    (active : Shadow) (sizes : list Z) (live : list bool) (snaps : list Snap) : Prop := {
  sh_view : view m ROOT_SUBVOL s l;
  sh_active : view_agrees m d l active = true;
  sh_file file : ∃ size alive, file_tracked m l sizes live file size alive;
  sh_snaps : Forall (frozen m d s) snaps;
}.

Lemma shadowed_pinned m d d' s l active sizes live snaps :
  same_pinned m d d' → shadowed m d s l active sizes live snaps → shadowed m d' s l active sizes live snaps.
Proof.
  intros Hp [Hv Ha Hf Hsn]. split; [done|by eapply view_agrees_pinned|done|]. eapply Forall_impl; [exact Hsn|].
  intros sn (Hw & s' & l' & Hv' & Hn & Ha'). split; [done|]. exists s', l'. split_and!; [done|done|by eapply view_agrees_pinned].
Qed.


(** Snapshots other than the active one stay frozen under its writes. *)
Lemma frozen_local m d d' s ops sn :
  in_width 32 s → Forall (local_op s) ops → d ⊆ d' → frozen m d s sn → frozen (a_run ops m) d' s sn.
Proof.
  intros Hs Hops Hd (Hw & s' & l' & Hv & Hn & Ha). split; [done|]. exists s', l'. split; [by apply (view_local s)|]. split; [done|].
  eapply view_agrees_mono; [done|done|]. intros ino off _. unfold a_extent. pose proof (view_chain_ok _ _ _ _ Hv) as [_ Hwl].
  by rewrite (local_seen s) by (done || right; by right).
Qed.

(** *** A write *)
Definition write_ops (s ino off len nr size : Z) : list wop :=
  [extent_put ino off s len nr; WPut (inode_key ino) s Live (inode_as_bytes (sized size))].
Lemma write_ops_local s ino off len nr size : Forall (local_op s) (write_ops s ino off len nr size).
Proof. apply Forall_cons_2; [apply extent_put_local|]. apply Forall_singleton. left. split; [by left|done]. Qed.


Lemma a_extent_no_extent ops m l ino off : Forall no_extent ops → a_extent (a_run ops m) l ino off = a_extent m l ino off.
Proof. intros Hops. unfold a_extent, seen. rewrite (a_visible_ext m); [done|]. intros sn _. by apply no_extent_row. Qed.

Lemma a_inode_put m s l ino i :
  in_width 32 s → inode_wf i → a_inode (a_run [WPut (inode_key ino) s Live (inode_as_bytes i)] m) (s :: l) ino = Some i.
Proof.
  intros Hs Hi. unfold a_inode. cbn [a_run foldl a_wop]. rewrite a_put_seen; [|done|rewrite length_inode_bytes; consts; lia].
  unfold decoded. cbn [mbind option_bind]. by rewrite inode_round_trip.
Qed.
Lemma a_inode_other m l ino ops :
  Forall (in_width 32) l → Forall (λ o, in_width 32 (wop_snap o) ∧ wop_key o ≠ inode_key ino) ops → a_inode (a_run ops m) l ino = a_inode m l ino.
Proof.
  intros Hl Hops. unfold a_inode. rewrite a_run_seen; [done|done|]. eapply Forall_impl; [exact Hops|]. intros o [Hs Hk].
  split; [done|]. left. congruence.
Qed.

Lemma slot_ino_eq file file' : slot_of file = slot_of file' ↔ ino_of file = ino_of file'.
Proof.
  unfold slot_of, ino_of, N_FILES. pose proof (Z.mod_pos_bound file 5). pose proof (Z.mod_pos_bound file' 5). lia.
Qed.

Lemma shadowed_write m d s l active sizes live snaps file off fill len nr size :
  shadowed m d s l active sizes live snaps → extents_ok m d → file_tracked m l sizes live file size true →
  in_width 64 nr → (0 < len ≤ BLOCK_SIZE)%nat → d !! nr = None →
  let offset := offset_of off in let size' := Z.max size (offset + Z.of_nat len) in
  shadowed (a_run (write_ops s (ino_of file) offset (Z.of_nat len) nr size') m) (<[nr := padded (replicate len fill)]> d) s l
    (<[(ino_of file, offset) := {| c_fill := fill; c_len := len |}]> active) (<[slot_of file := size']> sizes) live snaps.
Proof.
  intros [Hv Ha Hf Hsn] Hx Ht Hnr Hlen Hd offset size'. pose proof (view_width _ _ _ _ Hv) as Hs. pose proof (view_chain_ok _ _ _ _ Hv) as [_ Hwl].
  destruct (view_head _ _ _ _ Hv) as (l' & -> & _).
  assert (0 ≤ offset ≤ 3 * 4096) as Hoff by (unfold offset, offset_of, N_OFFSETS, BLOCK, BLOCK_BYTES; pose proof (Z.mod_pos_bound off 4); lia).
  assert (0 ≤ size' ≤ N_OFFSETS * BLOCK) as Hsz.
  { destruct Ht as [_ _ Hb _ _]. unfold size', N_OFFSETS, BLOCK, BLOCK_BYTES in *. revert Hlen. consts. lia. }
  assert (in_width 64 size') as Hws by (unfold in_width, N_OFFSETS, BLOCK, BLOCK_BYTES in *; lia).
  set (put := extent_put (ino_of file) offset s (Z.of_nat len) nr). set (ip := WPut (inode_key (ino_of file)) s Live (inode_as_bytes (sized size'))).
  change (write_ops s (ino_of file) offset (Z.of_nat len) nr size') with ([put] ++ [ip]). rewrite a_run_app.
  split.
  - eapply (view_local s); [done|apply Forall_singleton; left; split; [by left|done]|].
    eapply (view_local s); [done|apply Forall_singleton, extent_put_local|done].
  - eapply view_agrees_mono; [|reflexivity|intros i o _; by apply a_extent_no_extent, Forall_singleton].
    apply view_agrees_put; [done|done|done|apply ino_width|apply offset_width|done|done|done].
  - intros file'. destruct (Hf file') as (size1 & alive & H1). destruct (decide (slot_of file' = slot_of file)) as [E|E].
    + exists size', true. destruct Ht as [T1 T2 T3 T4 T5]. split; [| | | |done].
      * rewrite E. apply list_lookup_insert_eq. by eapply lookup_lt_Some.
      * by rewrite E.
      * done.
      * apply slot_ino_eq in E. rewrite E. apply a_inode_put; [done|by apply sized_wf].
    + exists size1, alive. destruct H1 as [T1 T2 T3 T4 T5]. split; [by rewrite list_lookup_insert_ne|done|done| |done].
      rewrite <- T4. rewrite !a_inode_other; [done|done|..|done|]; apply Forall_singleton; (split; [done|]); [done|].
      intros E'%inode_key_inj; [|apply ino_width..]. apply E. by apply slot_ino_eq.
  - eapply Forall_impl; [exact Hsn|]. intros sn Hfr. rewrite <- a_run_app.
    eapply frozen_local; [done|apply write_ops_local|by apply insert_subseteq|done].
Qed.

(** *** A snapshot *)
Lemma frozen_snapshot m d s sv w v sn :
  a_subvol m ROOT_SUBVOL = Some sv → ids_ok m w v → 2 ≤ w → v_snap_id sv = s → frozen m d s sn →
  frozen (a_run (snapshot_ops ROOT_SUBVOL w v sv) m) d w sn.
Proof.
  intros Hsv Hids Hw <- (Hwd & s' & l' & Hv & Hn & Ha). destruct (chain_exists m (v_snap_id sv)) as [l Hl]; [by apply (a_subvol_wf _ _ _ Hsv)|].
  assert (sn_subvol sn ≠ ROOT_SUBVOL) as Hne.
  { intros E. destruct (view_head _ _ _ _ Hv) as (l0 & -> & _). destruct Hv as [Hv _]. rewrite E, Hsv in Hv. injection Hv as <-. apply Hn. by left. }
  destruct (snapshot_other m ROOT_SUBVOL w v sv l Hsv Hids Hw root_subvol_width Hl _ _ _ Hv Hwd Hne) as (Hv' & Hn' & Hseen).
  split; [done|]. exists s', l'. split; [done|]. split; [done|]. eapply view_agrees_mono; [done|done|]. intros ino off _.
  unfold a_extent. rewrite Hseen; [done|]. apply file_not_meta. right. by right.
Qed.

Lemma shadowed_snapshot m d s l active sizes live snaps sv w v :
  shadowed m d s l active sizes live snaps → a_subvol m ROOT_SUBVOL = Some sv → ids_ok m w v → 2 ≤ w →
  shadowed (a_run (snapshot_ops ROOT_SUBVOL w v sv) m) d w (w :: l) active sizes live (snaps ++ [{| sn_subvol := v; sn_content := active |}]).
Proof.
  intros [Hv Ha Hf Hsn] Hsv Hids Hw. pose proof Hv as [Hs Hl]. rewrite Hsv in Hs. injection Hs as <-.
  destruct (snapshot_views m ROOT_SUBVOL w v sv l Hsv Hids Hw root_subvol_width Hl) as [Hv1 Hv2].
  assert (∀ k x, file_key k → x = w ∨ x = w - 1 → seen (a_run (snapshot_ops ROOT_SUBVOL w v sv) m) k (x :: l) = seen m k l) as Hseen
    by (intros; by apply snapshot_seen).
  assert (∀ ino off x, x = w ∨ x = w - 1 → a_extent (a_run (snapshot_ops ROOT_SUBVOL w v sv) m) (x :: l) ino off = a_extent m l ino off) as Hxt.
  { intros ino off x Hx. unfold a_extent. rewrite Hseen; [done|right; by right|done]. }
  split; [done|by eapply view_agrees_mono; [done|done|intros ino off _; apply Hxt; auto]| |].
  - intros file. destruct (Hf file) as (size & alive & [T1 T2 T3 T4 T5]). exists size, alive. split; [done..| |done].
    rewrite <- T4. unfold a_inode. rewrite Hseen; [done|by left|auto].
  - apply Forall_app. split; [eapply Forall_impl; [exact Hsn|]; intros sn; by apply frozen_snapshot|]. apply Forall_singleton.
    split; [apply Hids|]. exists (w - 1), (w - 1 :: l). split; [done|]. split.
    + destruct (view_above _ _ _ _ _ _ Hv root_subvol_width Hids) as [_ Hab]. rewrite Forall_forall in Hab.
      intros [?|Hin%Hab]%elem_of_cons; lia.
    + by eapply view_agrees_mono; [done|done|intros ino off _; apply Hxt; auto].
Qed.

Lemma no_orphans_snapshot m src w v sv : no_orphans m → no_orphans (a_run (snapshot_ops src w v sv) m).
Proof.
  intros Hno k Hk. rewrite a_run_visible; [by apply Hno|by repeat constructor|].
  repeat apply Forall_cons_2; [..|constructor]; (split; [done|left; by intros ->]).
Qed.
Lemma no_orphans_write m s ino off len nr size : in_width 32 s → no_orphans m → no_orphans (a_run (write_ops s ino off len nr size) m).
Proof.
  intros Hs. apply (no_orphans_local _ s); [done|]. apply Forall_cons_2; [split; [right; by right|done]|].
  apply Forall_singleton. by split; [left|].
Qed.

(** ** The loop *)
Section loop.
Context {D : Type} `{!BlockDevice D} `{!BlockDeviceLaws D} `{!BlockDeviceTotal D} `{!Crc32} `{!Crc32Range}.
Implicit Types (fs : Fs D) (st : FuzzState D).

Record fuzz_inv st (m : amap) (d : gmap Z (list byte)) (s : Z) (l : list Z) : Prop := {
  fz_running : running (fz_fs st) m d 0;
  fz_current : current_subvol (fz_fs st) = ROOT_SUBVOL;
  fz_log : log (tree (fz_fs st)) = [];
  fz_orphans : no_orphans m;
  fz_shadowed : shadowed m d s l (active st) (sizes st) (live st) (snaps st);
}.

Lemma must_ok {S E A} (c : M S E A) s a s' : c s = (Ok a, s') → must c s = (Ok a, s').
Proof using Type. intros E1. unfold must. by rewrite E1. Qed.
Lemma attempt_ok {S E A} (c : M S E A) s a s' : c s = (Ok a, s') → attempt c s = (Ok (Some a), s').
Proof using Type. intros E1. unfold attempt. by rewrite E1. Qed.
Lemma with_fs_ok {A B} (c : M (Fs D) error A) (k : A → M (FuzzState D) error B) st a fs :
  c (fz_fs st) = (Ok a, fs) → (with_fs c ≫= k) st = k a (set_fs fs st).
Proof using Type. intros E. unfold with_fs, zoom, mbind, M_bind. by rewrite E. Qed.
Lemma with_fs_set {A B} (c : M (Fs D) error A) (k : A → M (FuzzState D) error B) st a fs fs' :
  c fs = (Ok a, fs') → (with_fs c ≫= k) (set_fs fs st) = k a (set_fs fs' st).
Proof using Type. intros E. by rewrite (with_fs_ok _ _ (set_fs fs st) _ _ E). Qed.

(** *** The checks *)
(** They pass in any state that shows the map and the data, and keep what reads
    and switches keep. *)
Section checks.
Context (m : amap) (d : gmap Z (list byte)) (Inv : Fs D → Prop).
Context (inv_files : ∀ fs, Inv fs → file_models fs m d 0).
Context (inv_quiet : ∀ fs fs', Inv fs → fs_models fs' m 0 → fs_quiet fs fs' → Inv fs').
Context (inv_switch : ∀ fs id, Inv fs → in_width 32 id → is_Some (a_subvol m id) →
  ∃ fs', switch_subvol id fs = (Ok tt, fs') ∧ Inv fs' ∧ current_subvol fs' = id ∧ log (tree fs') = log (tree fs)).

Lemma check_view_inv fs s l shadow :
  Inv fs → view m (current_subvol fs) s l → view_agrees m d l shadow = true →
  ∃ fs', check_view shadow fs = (Ok tt, fs') ∧ Inv fs' ∧ fs_quiet fs fs'.
Proof using All.
  intros Hi Hv Ha. pose proof (inv_files _ Hi) as Hf.
  destruct (check_view_asserts m d _ s l (fm_typed _ _ _ (fl_fs _ _ _ _ Hf)) (fl_ext _ _ _ _ Hf) Hv shadow fs 0 Hf eq_refl) as (fs' & E & Hf' & Hq).
  rewrite Ha in E. exists fs'. split; [done|]. split; [|done]. eapply inv_quiet; [done|apply Hf'|done].
Qed.

Lemma check_snaps_inv fs s sns :
  Inv fs → Forall (frozen m d s) sns →
  ∃ fs', forM_ sns (λ sn, _ ← must (switch_subvol (sn_subvol sn)); check_view (sn_content sn)) fs = (Ok tt, fs') ∧
    Inv fs' ∧ log (tree fs') = log (tree fs).
Proof using All.
  intros Hi Hsn. revert fs Hi. induction Hsn as [|sn sns (Hw & s' & l' & Hv & _ & Ha) _ IH]; intros fs Hi; [by exists fs|].
  assert (is_Some (a_subvol m (sn_subvol sn))) as Hsub by (destruct Hv as [Hv _]; apply fmap_Some in Hv as (sv & -> & _); by eexists).
  destruct (inv_switch fs _ Hi Hw Hsub) as (fs1 & E1 & Hi1 & C1 & L1).
  destruct (check_view_inv fs1 s' l' (sn_content sn) Hi1) as (fs2 & E2 & Hi2 & Hq2); [by rewrite C1|done|].
  destruct (IH fs2 Hi2) as (fs3 & E3 & Hi3 & L3). exists fs3. cbn [forM_]. split; [|split; [done|]].
  - assert ((_ ← must (switch_subvol (sn_subvol sn)); check_view (sn_content sn)) fs = (Ok tt, fs2)) as E
      by (by rewrite (M_bind_ok _ _ _ _ _ (must_ok _ _ _ _ E1))).
    by rewrite (M_bind_ok _ _ _ _ _ E).
  - destruct Hq2 as [_ [Hq _ _ _]]. congruence.
Qed.

Lemma check_all_inv st s l :
  Inv (fz_fs st) → current_subvol (fz_fs st) = ROOT_SUBVOL → shadowed m d s l (active st) (sizes st) (live st) (snaps st) →
  ∃ fs', check_all st = (Ok tt, set_fs fs' st) ∧ Inv fs' ∧ current_subvol fs' = ROOT_SUBVOL ∧ log (tree fs') = log (tree (fz_fs st)).
Proof using All.
  intros Hi Hc [Hv Ha Hf Hsn].
  destruct (check_view_inv (fz_fs st) s l (active st) Hi) as (fs1 & E1 & Hi1 & Hq1); [by rewrite Hc|done|].
  destruct (check_snaps_inv fs1 s (snaps st) Hi1 Hsn) as (fs2 & E2 & Hi2 & L2).
  assert (is_Some (a_subvol m ROOT_SUBVOL)) as Hsub by (destruct Hv as [Hv _]; apply fmap_Some in Hv as (sv & -> & _); by eexists).
  destruct (inv_switch fs2 ROOT_SUBVOL Hi2 root_subvol_width Hsub) as (fs3 & E3 & Hi3 & C3 & L3).
  exists fs3. split; [|split_and!; [done|done|destruct Hq1 as [_ [Hq _ _ _]]; congruence]].
  unfold check_all. rewrite gets_bind, (with_fs_ok _ _ _ _ _ E1). unfold check_snapshots, with_fs, zoom. cbn [set_fs fz_fs snaps].
  by rewrite (M_bind_ok _ _ _ _ _ E2), (must_ok _ _ _ _ E3).
Qed.
End checks.

(** After an operation that leaves the invariant, all checks pass. *)
Lemma check_all_passes st m d s l : fuzz_inv st m d s l → ∃ st', check_all st = (Ok tt, st') ∧ fuzz_inv st' m d s l.
Proof using All.
  intros [Hru Hc Hl Hno Hsh].
  destruct (check_all_inv m d (λ fs, running fs m d 0) (λ fs, running_files fs m d 0) (λ fs fs', running_quiet fs fs' m d 0)
    (λ fs id, running_switch fs m d 0 id) st s l Hru Hc Hsh) as (fs' & E & Hru' & C & L).
  exists (set_fs fs' st). split; [done|]. split; cbn [set_fs fz_fs active sizes live snaps]; [done|done|congruence|done|done].
Qed.

Lemma budget_large fs : roomy fs → 64 ≤ budget_of fs.
Proof using Type. intros (H1 & _). unfold budget_of, OP_BLOCKS. apply Z.div_le_lower_bound; lia. Qed.

(** *** Writes *)
Lemma set_tree_seq fs fs' : fs' = set_tree (tree fs') fs → next_journal_seq fs' = next_journal_seq fs ∧ current_subvol fs' = current_subvol fs.
Proof using Type. by intros ->. Qed.

Lemma inode_put_ok fs m d n s l ino i :
  typed m → running fs m d (1 + n) → 0 ≤ n → view m (current_subvol fs) s l →
  ∃ fs', put_inode ino i fs = (Ok tt, fs') ∧ running fs' (a_run [WPut (inode_key ino) s Live (inode_as_bytes i)] m) d n ∧
    fs' = set_tree (tree fs') fs ∧ (length (log (tree fs')) ≤ length (log (tree fs)) + 1)%nat.
Proof using All.
  intros Hm Hru Hn Hv. apply (running_performs fs m d n s l _ _ _ (put_inode_performs m _ s l ino i Hm Hv)); [by apply Forall_singleton| | |done|done|done];
    apply Forall_singleton; [left; split; [by left|done]|split; [cbn; consts; lia|apply inode_wop_typed]].
Qed.

(** The library calls of a write: the data, the size, the commit. *)
Lemma write_runs fs m d s l ino off fill len size :
  roomy fs → running fs m d 0 → log (tree fs) = [] → no_orphans m → view m (current_subvol fs) s l →
  in_width 64 ino → 0 ≤ off < 2 ^ 60 → off mod 4096 = 0 → (0 < len ≤ BLOCK_SIZE)%nat → a_inode m l ino = Some (sized size) →
  let size' := Z.max size (off + Z.of_nat len) in
  ∃ nr fs1 fs2 fs3 fs4, let m' := a_run (write_ops s ino off (Z.of_nat len) nr size') m in let d' := <[nr := padded (replicate len fill)]> d in
    put_extent ino off (replicate len fill) fs = (Ok tt, fs1) ∧ get_inode ino fs1 = (Ok (Some (sized size)), fs2) ∧
    put_inode ino (sized size') fs2 = (Ok tt, fs3) ∧ journal_commit fs3 = (Ok tt, fs4) ∧
    running fs4 m' d' 0 ∧ current_subvol fs4 = current_subvol fs ∧ log (tree fs4) = [] ∧ in_width 64 nr ∧ d !! nr = None.
Proof using All.
  intros Hro Hru0 Hlog Hno Hv Hi Ho Hmod Hlen Hino size'. pose proof (running_roomy _ _ _ Hro Hru0) as Hru. set (b := budget_of fs) in *.
  pose proof (view_width _ _ _ _ Hv) as Hs. pose proof (view_chain_ok _ _ _ _ Hv) as [_ Hwl].
  pose proof (budget_large fs Hro : 64 ≤ b) as Hb.
  assert (in_width 64 off) as Hwo by (unfold in_width; lia).
  pose proof (fm_typed _ _ _ (fi_models _ _ _ (running_inv _ _ _ _ Hru))) as Hm.
  destruct (running_writes fs m d 2 (b - 2) s l _ _
    (put_extent_writes m d _ s l Hm (ru_extents _ _ _ _ Hru) Hv ino off Hi Hwo Hmod (replicate len fill)
      ltac:(rewrite length_replicate; lia) ltac:(rewrite length_replicate; revert Hlen; consts; lia)))
    as ([] & ops1 & d' & fs1 & E1 & (nr & -> & -> & Hd & Hnr) & Hru1 & T1 & L1).
  { intros a ops d0 (nr & -> & _). split; apply Forall_singleton; [apply extent_put_local|split; [apply extent_put_ok|apply extent_put_typed]]. }
  { by replace (2 + (b - 2)) with b by lia. } { lia. } { done. }
  rewrite length_replicate in *. set (m1 := a_run [extent_put ino off s (Z.of_nat len) nr] m) in *.
  destruct (set_tree_seq _ _ T1) as [S1 C1].
  assert (view m1 (current_subvol fs1) s l) as Hv1 by (rewrite C1; apply (view_local s); [done|apply Forall_singleton, extent_put_local|done]).
  pose proof (fm_typed _ _ _ (fi_models _ _ _ (running_inv _ _ _ _ Hru1))) as Hm1.
  destruct (running_reads fs1 m1 _ (b - 2) _ _ _ (reads_dreads _ _ _ _ _ (eq _) (get_inode_reads m1 _ s l ino Hm1 Hv1) eq_refl) Hru1 eq_refl)
    as (o & fs2 & E2 & <- & Hru2 & Hq2).
  unfold m1 in E2. rewrite a_inode_other, Hino in E2 by (done || by apply Forall_singleton).
  pose proof Hq2 as [T2 [L2 _ _ _]]. destruct (set_tree_seq _ _ T2) as [S2 C2]. rewrite <- C2 in Hv1.
  destruct (inode_put_ok fs2 m1 (<[nr := padded (replicate len fill)]> d) (b - 3) s l ino (sized size') Hm1) as (fs3 & E3 & Hru3 & T3 & L3);
    [by replace (1 + (b - 3)) with (b - 2) by lia|lia|done|].
  destruct (set_tree_seq _ _ T3) as [S3 C3].
  destruct (running_commit fs fs3 _ _ 3 Hro Hru3) as (fs4 & E4 & Hru4 & C4 & L4); [lia|congruence| | |].
  { eapply running_fits; [exact Hru3|]. rewrite L2, Hlog in *. cbn [length] in *. lia. }
  { unfold m1. rewrite <- a_run_app. by apply no_orphans_write. }
  exists nr, fs1, fs2, fs3, fs4. unfold m1 in Hru4. rewrite <- a_run_app in Hru4. injection C4 as _ _ _ C4.
  split_and!; try done. congruence.
Qed.

Lemma lift_index_ok {S E A B} (l : list A) i x (k : A → M S E B) (st : S) : l !! i = Some x → (lift (index l i) ≫= k) st = k x st.
Proof using Type. intros Hx. unfold index. by rewrite Hx. Qed.

(** The commit after a few writes. *)
Lemma commit_step st fs1 m' d' s' l' sns k :
  roomy (fz_fs st) → running fs1 m' d' (budget_of (fz_fs st) - k) → 0 ≤ k ≤ 64 → next_journal_seq fs1 = next_journal_seq (fz_fs st) →
  current_subvol fs1 = ROOT_SUBVOL → (length (log (tree fs1)) ≤ 64)%nat → no_orphans m' →
  shadowed m' d' s' l' (active st) (sizes st) (live st) sns →
  ∃ fs2, journal_commit fs1 = (Ok tt, fs2) ∧ fuzz_inv (set_snaps sns (set_fs fs2 st)) m' d' s' l'.
Proof using All.
  intros Hro Hru Hk Hs Hc Hl Hno Hsh. destruct (running_commit _ fs1 m' d' k Hro Hru Hk Hs (running_fits _ _ _ _ Hru ltac:(lia)) Hno) as (fs2 & E & Hr & C & L).
  injection C as _ _ _ C. exists fs2. split; [done|]. split; cbn [set_snaps set_fs fz_fs active sizes live snaps]; [done|congruence|done|done|done].
Qed.

Lemma set_snaps_same st fs : set_snaps (snaps st) (set_fs fs st) = set_fs fs st.
Proof using Type. done. Qed.

(** *** One operation *)
Section ops.
Context (reopen_image : D → res (Fs D)).
(** [op] runs to the end of the loop body or to [continue], in the invariant. *)
Definition step_ok (op : Op) : Prop := ∀ st m d s l, fuzz_inv st m d s l → roomy (fz_fs st) →
  ∃ b st' m' d' s' l', run_op reopen_image op st = (Ok b, st') ∧ fuzz_inv st' m' d' s' l'.

Lemma write_step file off fill len : step_ok (Write file off fill len).
Proof using All.
  intros st m d s l Hinv Hro. pose proof Hinv as [Hru Hc Hl Hno Hsh]. destruct (sh_file _ _ _ _ _ _ _ _ Hsh file) as (size & alive & Ht).
  cbn [run_op]. rewrite gets_bind. cbn [id]. rewrite (lift_index_ok _ _ _ _ _ (ft_live _ _ _ _ _ _ _ Ht)).
  destruct alive; cbn [negb]; [|by exists false, st, m, d, s, l].
  set (n := Z.to_nat (len mod BLOCK + 1)).
  assert ((0 < n ≤ BLOCK_SIZE)%nat ∧ Z.of_nat n = len mod BLOCK + 1) as [Hn En].
  { unfold n, BLOCK, BLOCK_BYTES. pose proof (Z.mod_pos_bound len 4096). consts. lia. }
  assert (0 ≤ offset_of off < 2 ^ 60 ∧ offset_of off mod 4096 = 0) as [Ho Hmod].
  { unfold offset_of, N_OFFSETS, BLOCK, BLOCK_BYTES. pose proof (Z.mod_pos_bound off 4). split; [lia|by apply Z.mod_mul]. }
  destruct (write_runs (fz_fs st) m d s l (ino_of file) (offset_of off) fill n size Hro Hru Hl Hno)
    as (nr & fs1 & fs2 & fs3 & fs4 & E1 & E2 & E3 & E4 & Hru4 & C4 & L4 & Hnr & Hd);
    [rewrite Hc; apply Hsh|apply ino_width|done|done|done|apply Ht|].
  rewrite En in E3. rewrite (with_fs_ok _ _ _ _ _ (must_ok _ _ _ _ E1)), (with_fs_set _ _ _ _ _ _ (must_ok _ _ _ _ E2)).
  change ((lift (expect (Some (sized size))) ≫= ?k) ?x) with (k (sized size) x). cbn beta.
  change (with_size (Z.max (i_size (sized size)) ?x) (sized size)) with (sized (Z.max size x)).
  rewrite (with_fs_set _ _ _ _ _ _ (must_ok _ _ _ _ E3)), (with_fs_set _ _ _ _ _ _ (must_ok _ _ _ _ E4)).
  rewrite modify_bind, (lift_index_ok _ _ _ _ _ (ft_size _ _ _ _ _ _ _ Ht)), modify_bind.
  eexists true, _, _, _, s, l. split; [reflexivity|].
  split; cbn [set_sizes set_active set_fs fz_fs active sizes live snaps]; [exact Hru4|congruence|done| |].
  - apply no_orphans_write; [by eapply view_width, Hsh|done].
  - rewrite <- En. by apply shadowed_write; [|apply Hru|..].
Qed.

Lemma fuzz_inv_fs st m d s l fs' :
  fuzz_inv st m d s l → running fs' m d 0 → current_subvol fs' = current_subvol (fz_fs st) → log (tree fs') = log (tree (fz_fs st)) →
  fuzz_inv (set_fs fs' st) m d s l.
Proof using Type. intros [_ Hc Hl Hno Hsh] Hru C L. split; cbn [set_fs fz_fs active sizes live snaps]; [done|congruence|congruence|done|done]. Qed.

Lemma quiet_step {A} (c : M (Fs D) error A) st m d s l (P : A → Prop) :
  fuzz_inv st m d s l → dreads m d ROOT_SUBVOL c P →
  ∃ a fs', c (fz_fs st) = (Ok a, fs') ∧ P a ∧ fuzz_inv (set_fs fs' st) m d s l.
Proof using All.
  intros Hinv Hc. destruct (running_reads (fz_fs st) m d 0 _ c P Hc (fz_running _ _ _ _ _ Hinv) (fz_current _ _ _ _ _ Hinv)) as (a & fs' & E & Ha & Hru & Hq).
  pose proof Hq as [T [L _ _ _]]. destruct (set_tree_seq _ _ T) as [_ C]. exists a, fs'. do 2 (split; [done|]). by apply fuzz_inv_fs.
Qed.

Lemma fuzz_typed st m d s l : fuzz_inv st m d s l → typed m.
Proof using Type. intros Hinv. apply (fm_typed _ _ _ (fi_models _ _ _ (running_inv _ _ _ _ (fz_running _ _ _ _ _ Hinv)))). Qed.

Lemma read_step file off len : step_ok (Read file off len).
Proof using All.
  intros st m d s l Hinv Hro. pose proof (fz_shadowed _ _ _ _ _ Hinv) as Hsh. destruct (sh_file _ _ _ _ _ _ _ _ Hsh file) as (size & alive & Ht).
  cbn [run_op]. rewrite gets_bind. cbn [id].
  set (o := off mod (N_OFFSETS * BLOCK + 1)). set (n := len mod (N_OFFSETS * BLOCK + 1)).
  assert (0 ≤ o ≤ N_OFFSETS * BLOCK ∧ 0 ≤ n ≤ N_OFFSETS * BLOCK) as [Ho Hn].
  { unfold o, n, N_OFFSETS, BLOCK, BLOCK_BYTES. pose proof (Z.mod_pos_bound off (4 * 4096 + 1)). pose proof (Z.mod_pos_bound len (4 * 4096 + 1)). lia. }
  destruct (quiet_step (fs_read_at (ino_of file) o n) st m d s l _ Hinv
    (read_oracle_agrees m d _ s l (fuzz_typed _ _ _ _ _ Hinv) (ru_extents _ _ _ _ (fz_running _ _ _ _ _ Hinv)) (sh_view _ _ _ _ _ _ _ _ Hsh)
      (active st) file size o n (sh_active _ _ _ _ _ _ _ _ Hsh) (file_size_read _ _ _ _ _ _ _ Ht) (proj2 (ft_bound _ _ _ _ _ _ _ Ht)) Ho Hn)) as (bs & fs' & E & <- & Hinv').
  rewrite (with_fs_ok _ _ _ _ _ (must_ok _ _ _ _ E)), (lift_index_ok _ _ _ _ _ (ft_size _ _ _ _ _ _ _ Ht)).
  rewrite bool_decide_eq_true_2 by done. by eexists true, _, m, d, s, l.
Qed.

Lemma sync_step : step_ok Sync.
Proof using All.
  intros st m d s l Hinv Hro. destruct (running_sync (fz_fs st) m d Hro (fz_running _ _ _ _ _ Hinv)) as (fs' & E & Hru & C & L).
  injection C as _ _ _ C. cbn [run_op]. rewrite (with_fs_ok _ _ _ _ _ (must_ok _ _ _ _ E)).
  eexists true, _, m, d, s, l. split; [done|]. by apply fuzz_inv_fs.
Qed.

Lemma fuzz_inv_collected st m d s l :
  fuzz_inv st m d s l → roomy (fz_fs st) → ∃ r fs' d', gc (fz_fs st) = (Ok r, fs') ∧ fuzz_inv (set_fs fs' st) m d' s l.
Proof using All.
  intros [Hru Hc Hl Hno Hsh] Hro. destruct (gc_keeps_running (fz_fs st) m d Hro Hru) as (r & fs' & d' & E & Hru' & Hp & C & L).
  injection C as _ _ _ C. exists r, fs', d'. split; [done|].
  split; cbn [set_fs fz_fs active sizes live snaps]; [done|congruence|congruence|done|by eapply shadowed_pinned].
Qed.
Lemma gc_step : step_ok Gc.
Proof using All.
  intros st m d s l Hinv Hro. destruct (fuzz_inv_collected st m d s l Hinv Hro) as (r & fs' & d' & E & Hinv').
  cbn [run_op]. rewrite (with_fs_ok _ _ _ _ _ (must_ok _ _ _ _ E)). by eexists true, _, m, d', s, l.
Qed.

Lemma reclaim_step : step_ok Reclaim.
Proof using All.
  intros st m d s l Hinv Hro. pose proof Hinv as [Hru Hc Hl Hno Hsh]. pose proof (running_roomy _ _ _ Hro Hru) as Hru'.
  destruct (running_reads (fz_fs st) m d _ _ _ (λ _, True)
    (reads_dreads _ _ _ _ _ _ (reclaim_idle_reads m _ U64_MAX (fuzz_typed _ _ _ _ _ Hinv) Hno) I) Hru' eq_refl) as (n & fs1 & E1 & _ & Hru1 & Hq).
  pose proof Hq as [T [L _ _ _]]. destruct (set_tree_seq _ _ T) as [S1 C1]. rewrite <- (Z.sub_0_r (budget_of _)) in Hru1.
  destruct (commit_step st fs1 m d s l (snaps st) 0 Hro Hru1) as (fs2 & E2 & Hinv2);
    [lia|done|congruence|rewrite L, Hl; cbn; lia|done|done|]. rewrite set_snaps_same in Hinv2.
  cbn [run_op]. rewrite (with_fs_ok _ _ _ _ _ (attempt_ok _ _ _ _ E1)), (with_fs_set _ _ _ _ _ _ (must_ok _ _ _ _ E2)).
  by eexists true, _, m, d, s, l.
Qed.

Lemma snapshot_step : step_ok Snapshot.
Proof using All.
  intros st m d s l Hinv Hro. pose proof Hinv as [Hru Hc Hl Hno Hsh]. pose proof (running_roomy _ _ _ Hro Hru) as Hru'.
  pose proof (running_inv _ _ _ _ Hru) as [Hfs Hids _ _]. cbn [run_op].
  destruct (a_subvol m ROOT_SUBVOL) as [sv|] eqn:Hsv; [|by destruct (sh_view _ _ _ _ _ _ _ _ Hsh) as [Hv _]; rewrite Hsv in Hv].
  destruct (decide (2 ≤ next_snap_id (fz_fs st) ∧ next_subvol_id (fz_fs st) < U32_MAX)) as [[H1 H2]|Hex].
  - destruct (running_snapshot (fz_fs st) m d (budget_of (fz_fs st) - 4) ROOT_SUBVOL sv) as (fs1 & E1 & Hru1 & C1 & S1 & L1);
      [by replace (4 + (budget_of (fz_fs st) - 4)) with (budget_of (fz_fs st)) by lia|pose proof (budget_large _ Hro); lia|done|done|done|done|].
    pose proof (shadowed_snapshot m d s l _ _ _ _ sv _ _ Hsh Hsv Hids H1) as Hsh1. pose proof Hsh1 as [A1 A2 A3 [A4 _]%Forall_app].
    destruct (commit_step st fs1 _ d (next_snap_id (fz_fs st)) (next_snap_id (fz_fs st) :: l) (if (length (snaps st) <? MAX_SNAPS)%nat
      then snaps st ++ [{| sn_subvol := next_subvol_id (fz_fs st); sn_content := active st |}] else snaps st) 4 Hro Hru1) as (fs2 & E2 & Hinv2);
      [lia|done|congruence|rewrite Hl in L1; cbn in L1; lia|by apply no_orphans_snapshot|by case_match; [|split]|].
    rewrite (with_fs_ok _ _ _ _ _ (attempt_ok _ _ _ _ E1)). cbn beta iota. rewrite (with_fs_set _ _ _ _ _ _ (must_ok _ _ _ _ E2)), gets_bind.
    cbn [id set_fs snaps active]. destruct (length (snaps st) <? MAX_SNAPS)%nat; eexists true, _, _, d, _, _; (split; [reflexivity|exact Hinv2]).
  - destruct (snapshot_exhausted (fz_fs st) m 0 ROOT_SUBVOL sv Hfs Hsv ltac:(lia)) as (fs1 & E1 & Hfs1 & Hq).
    assert (attempt (snapshot_subvol ROOT_SUBVOL) (fz_fs st) = (Ok None, fs1)) as E by (unfold attempt; by rewrite E1).
    rewrite (with_fs_ok _ _ _ _ _ E). eexists true, _, m, d, s, l. split; [reflexivity|]. pose proof Hq as [T [L _ _ _]].
    destruct (set_tree_seq _ _ T) as [_ C]. apply fuzz_inv_fs; [done|by eapply running_quiet|done|done].
Qed.

(** The operations these cover. *)
Definition tracked_op (op : Op) : bool :=
  match op with Write _ _ _ _ | Read _ _ _ | Sync | Gc | Reclaim | Snapshot => true | Unlink _ | DeleteSnap _ | Reopen => false end.
Lemma op_step op : tracked_op op = true → step_ok op.
Proof using All.
  destruct op; try done; intros _; [apply write_step|apply read_step|apply sync_step|apply gc_step|apply reclaim_step|apply snapshot_step].
Qed.

Lemma fuzz_step_ok op st m d s l :
  tracked_op op = true → fuzz_inv st m d s l → roomy (fz_fs st) →
  ∃ st' m' d' s' l', fuzz_step reopen_image op st = (Ok tt, st') ∧ fuzz_inv st' m' d' s' l'.
Proof using All.
  intros Hop Hinv Hro. destruct (op_step op Hop st m d s l Hinv Hro) as (b & st1 & m1 & d1 & s1 & l1 & E1 & Hinv1).
  unfold fuzz_step. rewrite (M_bind_ok _ _ _ _ _ E1). destruct b; [|by exists st1, m1, d1, s1, l1].
  destruct (check_all_passes st1 _ _ _ _ Hinv1) as (st2 & E2 & Hinv2). by exists st2, m1, d1, s1, l1.
Qed.
End ops.
End loop.

(** ** The start *)
Definition file_ops (file : Z) : list wop :=
  [WPut (inode_key (ino_of file)) ROOT_SNAP Live (inode_as_bytes (plain_inode 33188 1));
   WPut (dirent_bytes ROOT_INO (name_of file)) ROOT_SNAP Live (dirent_as_bytes (dirent_new (ino_of file) FILE_KIND_REGULAR))].
Definition populate_ops : list wop :=
  WPut (inode_key ROOT_INO) ROOT_SNAP Live (inode_as_bytes (plain_inode 16877 2)) :: mbind file_ops (seqZ 0 N_FILES).
Definition populated_map : amap := a_run populate_ops seed_map.

Lemma populate_ops_local : Forall (λ o, file_key (wop_key o) ∧ wop_snap o = ROOT_SNAP) populate_ops ∧ Forall no_extent populate_ops.
Proof.
  unfold populate_ops, file_ops. cbn. split; repeat apply Forall_cons_2; try apply Forall_nil_2; try done;
    (split; [|done]); by (left + (right; left)).
Qed.

Lemma populated_shadowed : shadowed populated_map ∅ ROOT_SNAP [ROOT_SNAP] ∅ (replicate (Z.to_nat N_FILES) 0) (replicate (Z.to_nat N_FILES) true) [].
Proof.
  destruct populate_ops_local as [Hloc Hx]. split; [| | |done].
  - eapply (view_local ROOT_SNAP); [apply root_width| |apply seed_view]. eapply Forall_impl; [exact Hloc|]. intros o Ho. by left.
  - eapply (view_agrees_mono seed_map ∅ [ROOT_SNAP]); [by vm_compute|done|]. intros ino off _. by apply a_extent_no_extent.
  - intros file. exists 0, true. pose proof (Z.mod_pos_bound file 5 ltac:(lia)) as Hk.
    assert (∃ k, slot_of file = Z.to_nat k ∧ ino_of file = 2 + k ∧ 0 ≤ k < 5) as (k & Es & Ei & Hr) by (by exists (file mod 5)).
    split; rewrite ?Es, ?Ei; [..|done];
      assert (k = 0 ∨ k = 1 ∨ k = 2 ∨ k = 3 ∨ k = 4) as [->|[->|[->|[->| ->]]]] by lia; by vm_compute.
Qed.
Lemma populated_orphans : no_orphans populated_map.
Proof. eapply (no_orphans_local _ ROOT_SNAP); [apply root_width|apply populate_ops_local|apply seed_no_orphans]. Qed.

Section start.
Context {D : Type} `{!BlockDevice D} `{!BlockDeviceLaws D} `{!BlockDeviceTotal D} `{!Crc32} `{!Crc32Range}.
Implicit Types fs : Fs D.

Lemma performs_then {E A B} m cur (c : M (Fs D) E A) (k : A → M (Fs D) E B) a b ops1 ops2 :
  performs m cur c a ops1 → performs (a_run ops1 m) cur (k a) b ops2 → performs m cur (c ≫= k) b (ops1 ++ ops2).
Proof using Type.
  intros Hc Hk fs n Hfs Hn Hcur. rewrite length_app, Nat2Z.inj_add, <- Z.add_assoc in Hfs.
  destruct (Hc fs (Z.of_nat (length ops2) + n) Hfs ltac:(lia) Hcur) as (fs1 & E1 & Hfs1 & T1 & W1).
  destruct (Hk fs1 n Hfs1 Hn) as (fs2 & E2 & Hfs2 & T2 & W2); [by rewrite T1|].
  exists fs2. rewrite (M_bind_ok _ _ _ _ _ E1), a_run_app. do 2 (split; [done|]). split; [by rewrite T2, T1 at 1|by eapply wrote_app].
Qed.
Lemma performs_must {E A} m cur (c : M (Fs D) E A) a ops : performs m cur c a ops → performs m cur (must c) a ops.
Proof using Type. intros Hc fs n Hfs Hn Hcur. destruct (Hc fs n Hfs Hn Hcur) as (fs' & E1 & H1). exists fs'. by rewrite (must_ok _ _ _ _ E1). Qed.
Lemma performs_skip {E A} m cur (a : A) : performs (D := D) (E := E) m cur (mret a) a [].
Proof using Type. intros fs n Hfs Hn Hcur. exists fs. split; [done|]. split; [by rewrite Z.add_0_l in Hfs|]. split; [by destruct fs|apply wrote_nil, fs_quiet_refl]. Qed.

Lemma file_ops_good file : Forall (local_op ROOT_SNAP) (file_ops file) ∧ Forall wop_good (file_ops file).
Proof using Type.
  split; repeat apply Forall_cons_2; try apply Forall_nil_2.
  - left. by split; [left|].
  - left. by split; [right; left|].
  - split; [cbn; consts; lia|apply inode_wop_typed].
  - split; [by apply name_wop_ok; vm_compute; lia|apply dirent_wop_typed; [vm_compute; lia|done]].
Qed.
Lemma view_run m ops cur s l :
  typed m → view m cur s l → in_width 32 s → Forall (local_op s) ops → Forall wop_good ops → typed (a_run ops m) ∧ view (a_run ops m) cur s l.
Proof using Type.
  intros Hm Hv Hs Hloc Hg. split; [|by apply (view_local s)]. apply a_run_typed; [done|]. eapply Forall_impl; [exact Hg|]. by intros o [].
Qed.

(** One file, and all of them. *)
Lemma file_performs m cur l file :
  typed m → view m cur ROOT_SNAP l →
  performs (D := D) m cur (_ ← must (put_inode (ino_of file) (plain_inode 33188 1));
    must (put_dirent ROOT_INO (name_of file) (dirent_new (ino_of file) FILE_KIND_REGULAR))) tt (file_ops file).
Proof using All.
  intros Hm Hv. destruct (file_ops_good file) as [Hl Hg]. apply Forall_cons in Hl as [Hl _], Hg as [Hg _].
  destruct (view_run m [WPut (inode_key (ino_of file)) ROOT_SNAP Live (inode_as_bytes (plain_inode 33188 1))] cur ROOT_SNAP l Hm Hv root_width)
    as [Hm1 Hv1]; [by apply Forall_singleton..|].
  eapply (performs_then _ _ _ _ _ _ [_] [_]); [by eapply performs_must, put_inode_performs|].
  by eapply performs_must, put_dirent_performs; [..|vm_compute; lia|].
Qed.
Lemma files_performs files m cur l :
  typed m → view m cur ROOT_SNAP l →
  performs (D := D) m cur (forM_ files (λ file, _ ← must (put_inode (ino_of file) (plain_inode 33188 1));
    must (put_dirent ROOT_INO (name_of file) (dirent_new (ino_of file) FILE_KIND_REGULAR)))) tt (mbind file_ops files).
Proof using All.
  revert m. induction files as [|file files IH]; intros m Hm Hv; [apply performs_skip|].
  destruct (file_ops_good file) as [Hl Hg]. destruct (view_run m _ cur ROOT_SNAP l Hm Hv root_width Hl Hg) as [Hm1 Hv1].
  cbn [forM_ mbind list_bind]. by eapply performs_then; [eapply file_performs|apply IH].
Qed.

Lemma populate_ops_good : Forall (local_op ROOT_SNAP) populate_ops ∧ Forall wop_good populate_ops.
Proof using Type.
  assert (Forall (λ file, Forall (local_op ROOT_SNAP) (file_ops file) ∧ Forall wop_good (file_ops file)) (seqZ 0 N_FILES)) as Hall
    by (apply Forall_forall; intros file _; apply file_ops_good).
  split; (apply Forall_cons_2; [|apply Forall_bind; eapply Forall_impl; [exact Hall|]; by intros file []]).
  - left. by split; [left|].
  - split; [cbn; consts; lia|apply inode_wop_typed].
Qed.
Lemma populate_performs m cur l :
  typed m → view m cur ROOT_SNAP l →
  performs (D := D) m cur (_ ← must (put_inode ROOT_INO (plain_inode 16877 2));
    forM_ (seqZ 0 N_FILES) (λ file, _ ← must (put_inode (ino_of file) (plain_inode 33188 1));
      must (put_dirent ROOT_INO (name_of file) (dirent_new (ino_of file) FILE_KIND_REGULAR)))) tt populate_ops.
Proof using All.
  intros Hm Hv. destruct populate_ops_good as [Hl Hg]. apply Forall_cons in Hl as [Hl _], Hg as [Hg _].
  destruct (view_run m [WPut (inode_key ROOT_INO) ROOT_SNAP Live (inode_as_bytes (plain_inode 16877 2))] cur ROOT_SNAP l Hm Hv root_width)
    as [Hm1 Hv1]; [by apply Forall_singleton..|].
  eapply (performs_then _ _ _ _ _ _ [_]); [by eapply performs_must, put_inode_performs|by eapply files_performs].
Qed.

Lemma M_bind_then {S E A B C} (c1 : M S E A) (c2 : M S E B) (c3 : M S E C) s :
  ((_ ← c1; c2) ≫= λ _, c3) s = (_ ← c1; _ ← c2; c3) s.
Proof using Type. unfold mbind, M_bind. by destruct (c1 s) as [[] s1]. Qed.

Lemma populate_passes fs :
  roomy fs → running fs seed_map ∅ 0 → current_subvol fs = ROOT_SUBVOL → log (tree fs) = [] →
  ∃ fs', populate fs = (Ok tt, fs') ∧ fuzz_inv (start_state fs') populated_map ∅ ROOT_SNAP [ROOT_SNAP].
Proof using All.
  intros Hro Hru0 Hc Hl. pose proof (running_roomy _ _ _ Hro Hru0) as Hru. pose proof (budget_large fs Hro) as Hb.
  pose proof (fm_typed _ _ _ (fi_models _ _ _ (running_inv _ _ _ _ Hru))) as Hm. pose proof seed_view as Hv. rewrite <- Hc in Hv.
  destruct populate_ops_local as [_ Hx]. destruct populate_ops_good as [Hloc Hg]. assert (length populate_ops = 11%nat) as Hn by done.
  destruct (running_performs fs seed_map ∅ (budget_of fs - 11) ROOT_SNAP [ROOT_SNAP] _ _ _ (populate_performs _ _ _ Hm Hv) Hx Hloc Hg)
    as (fs1 & E1 & Hru1 & T1 & L1); [|lia|done|].
  { rewrite Hn. by replace (Z.of_nat 11 + (budget_of fs - 11)) with (budget_of fs) by lia. }
  destruct (set_tree_seq _ _ T1) as [S1 C1]. rewrite Hl, Hn in L1.
  destruct (commit_step (start_state fs) fs1 populated_map ∅ ROOT_SNAP [ROOT_SNAP] [] 11 Hro Hru1) as (fs2 & E2 & Hinv);
    [lia|done|congruence|cbn in L1; lia|apply populated_orphans|apply populated_shadowed|].
  exists fs2. split; [|exact Hinv]. unfold populate. rewrite <- M_bind_then, (M_bind_ok _ _ _ _ _ E1). by rewrite (must_ok _ _ _ _ E2).
Qed.
End start.

(** ** Claims *)
(** Every state along the run has room for the next operation, and those of the
    final collection and checkpoint too. The operations covered do not mount. *)
Definition unopened (image : FileDevice) : res (Fs FileDevice) := Panic.
Definition collect_and_check `{!Crc32} : M (FuzzState FileDevice) error unit := _ ← with_fs (must gc); check_all.
Definition room_end `{!Crc32} (st : FuzzState FileDevice) : bool :=
  roomyb (fz_fs st) && match collect_and_check st with (Ok _, st') => roomyb (fz_fs st') | _ => true end.
Fixpoint room_along `{!Crc32} (ops : list Op) (st : FuzzState FileDevice) : bool :=
  match ops with
  | [] => room_end st
  | op :: ops => roomyb (fz_fs st) && match fuzz_step unopened op st with (Ok _, st') => room_along ops st' | _ => true end
  end.
Definition room_for `{!Crc32} (ops : list Op) : bool :=
  match fs_create with
  | Ok fs => roomyb fs && match populate fs with (Ok _, fs') => room_along (take MAX_OPS ops) (start_state fs') | _ => true end
  | _ => true
  end.

Section claims.
Context `{!Crc32} `{!Crc32Range}.
#[local] Opaque fs_create fs_open seed_map populate.

Lemma tracked_step r r' op (st : FuzzState FileDevice) : tracked_op op = true → fuzz_step r op st = fuzz_step r' op st.
Proof using Type. by destruct op. Qed.

Lemma loop_passes ops st m d s l :
  fuzz_inv st m d s l → Forall (λ op, tracked_op op = true) ops → room_along ops st = true →
  ∃ st' m' d' s' l', (∀ r, forM_ ops (fuzz_step r) st = (Ok tt, st')) ∧ fuzz_inv st' m' d' s' l' ∧ room_end st' = true.
Proof using All.
  intros Hinv Hops. revert st m d s l Hinv. induction Hops as [|op ops Hop _ IH]; intros st m d s l Hinv; [by exists st, m, d, s, l|].
  cbn [room_along forM_]. intros [Hro%roomyb_ok Hal]%andb_true_iff.
  destruct (fuzz_step_ok unopened op st m d s l Hop Hinv Hro) as (st1 & m1 & d1 & s1 & l1 & E1 & Hinv1).
  rewrite E1 in Hal. destruct (IH st1 _ _ _ _ Hinv1 Hal) as (st' & m' & d' & s' & l' & E & H1). exists st', m', d', s', l'. split; [|done].
  intros r. rewrite (M_bind_ok _ _ _ tt st1); [apply E|]. by rewrite (tracked_step r unopened).
Qed.

(** The collection, the checkpoint and the remount at the end. *)
Lemma gauntlet_passes st m d s l :
  fuzz_inv st m d s l → room_end st = true → ∃ N, ∀ fuel, (N ≤ fuel)%nat → ∃ st', gauntlet (fs_open fuel) st = (Ok tt, st').
Proof using All.
  intros Hinv [Hro%roomyb_ok Hend]%andb_true_iff. destruct (fuzz_inv_collected unopened st m d s l Hinv Hro) as (r & fs1 & d' & E1 & Hinv1).
  destruct (check_all_passes _ _ _ _ _ Hinv1) as (st2 & E2 & [Hru Hc Hl Hno Hsh]). unfold collect_and_check in Hend.
  rewrite (with_fs_ok _ _ _ _ _ (must_ok _ _ _ _ E1)), E2 in Hend. apply roomyb_ok in Hend.
  destruct (running_remount (fz_fs st2) m d' Hend Hru) as (fs3 & E3 & N & HN). exists N. intros fuel Hf.
  destruct (HN fuel true Hf) as (fs4 & E4 & Hs & C). injection C as _ _ _ C.
  destruct (check_all_inv m d' (λ fs, served fs m d' 0) (λ fs, @proj2 _ _) (λ fs fs', served_quiet fs fs' m d' 0)
    (λ fs id, served_switch fs m d' 0 id) (set_fs fs4 st2) s l Hs) as (fs5 & E5 & _); [by cbn; rewrite C|done|].
  exists (set_fs fs5 st2). unfold gauntlet. rewrite (with_fs_ok _ _ _ _ _ (must_ok _ _ _ _ E1)), (M_bind_ok _ _ _ _ _ E2).
  rewrite (with_fs_ok _ _ _ _ _ (must_ok _ _ _ _ E3)), gets_bind. cbn [set_fs fz_fs].
  change (fs_open fuel (device (store (tree fs3))) = Ok fs4) in E4. rewrite E4, (M_bind_ok _ _ _ fs4 (set_fs fs3 st2)), modify_bind by done.
  exact E5.
Qed.

(** C3: the differential test passes. On a new image, any sequence of writes, reads,
    checkpoints, garbage collections, reclaims and snapshots runs to the end of the
    test: creating and filling the image succeeds, no call of the library fails, and no
    assertion fires after any step, neither on the bytes a read returns, nor on the
    extents and blocks of the active subvolume, nor on those of any tracked snapshot;
    nor in the end, after a collection and after a checkpoint and a remount. *)
Theorem differential_test_passes ops :
  Forall (λ op, tracked_op op = true) ops → room_for ops = true →
  ∃ N, ∀ fuel, (N ≤ fuel)%nat → ∃ st, fuzz_target fuel ops = Ok st.
Proof using All.
  intros Hops Hroom. destruct fs_create_seeded as (fs & E & Hj & C & L). injection C as _ _ _ C.
  unfold room_for in Hroom. rewrite E in Hroom. apply andb_true_iff in Hroom as [Hro%roomyb_ok Hal].
  assert (running fs seed_map ∅ 0) as Hru.
  { split; [exists seed_map, SEED_COUNTERS; eapply journaled_at_least; [|exact Hj]; lia|exact seed_extents|done]. }
  destruct (populate_passes fs Hro Hru C L) as (fs1 & E1 & Hinv). rewrite E1 in Hal.
  destruct (loop_passes _ (start_state fs1) _ _ _ _ Hinv (Forall_take _ _ _ Hops) Hal) as (st1 & m & d & s & l & E2 & Hinv1 & Hend).
  destruct (gauntlet_passes st1 m d s l Hinv1 Hend) as (N & HN). exists N. intros fuel Hf. destruct (HN fuel Hf) as (st & E3). exists st.
  unfold fuzz_target. rewrite E, (outcome_bind_ok (Ok fs) _ fs eq_refl), (outcome_bind_ok _ _ _ (exec_ok _ _ _ _ E1)). cbn beta iota.
  assert ((_ ← fuzz_ops (fs_open fuel) ops; gauntlet (fs_open fuel)) (start_state fs1) = (Ok tt, st)) as E4
    by (unfold fuzz_ops; by rewrite (M_bind_ok _ _ _ _ _ (E2 (fs_open fuel)))).
  by rewrite (outcome_bind_ok _ _ _ (exec_ok _ _ _ _ E4)).
Qed.
End claims.

(** ** Concrete runs *)
#[local] Existing Instance sum_crc.
(** A block is written twice, and the collection at the end frees the first copy. *)
Definition demo_ops : list Op := [Write 0 1 Byte.x61 9; Write 0 1 Byte.x62 3].
Lemma demo_ops_tracked : Forall (λ op, tracked_op op = true) demo_ops.
Proof. by repeat constructor. Qed.
Lemma demo_ops_fit : room_for demo_ops = true.
Proof. vm_compute. reflexivity. Qed.
Lemma differential_test_passes_witness : ∃ N, ∀ fuel, (N ≤ fuel)%nat → ∃ st, fuzz_target fuel demo_ops = Ok st.
Proof. exact (differential_test_passes demo_ops demo_ops_tracked demo_ops_fit). Defined.
