(* ===== verification/Main.v ===== *)
(** * Main: the command line (src/main.rs).

    [main] parses the arguments, builds the file system the options ask for and
    hands it to the session. The process sees a table of image files and its
    standard error; [process::exit] is an error of its monad that carries the
    status. The session is [fuser::mount2], a parameter. The arguments it accepts
    are given by a grammar, and the theorems about images compose the program with
    the crash results of the file system. *)
From Stdlib Require Import Strings.Byte.
From stdpp Require Import base list numbers gmap strings.
From S2P Require Import Prelude Device BlockBtree Storage Journal StoreSpec Heap Btree BtreeSpec FsTypes Fs FsSpec FsOps Snapshot Posix Fuse FuseSpec Recovery Crash.
#[local] Open Scope rfs_scope.
#[local] Open Scope Z_scope.

(** ** The process *)
Inductive message : Type :=
  | ImageNeedsPath
  | UnknownArg (arg : string)
  | Usage (prog : string)
  | ImageFailed (e : error)
  | MountFailed.

Record Host : Type := { stderr : list message; images : gmap string FileDevice }.
Definition set_images (f : gmap string FileDevice → gmap string FileDevice) (h : Host) : Host :=
  {| stderr := stderr h; images := f (images h) |}.
(** A process returns from [main], exits with a status, or panics. *)
Abbreviation Proc := (M Host Z).

Definition eprintln (msg : message) : Proc unit := modify (λ h, {| stderr := stderr h ++ [msg]; images := images h |}).
Definition exit {A} (status : Z) : Proc A := throw status.
Definition print_usage (prog : string) : Proc unit := eprintln (Usage prog).

Definition starts_with_dash (arg : string) : bool := String.prefix "-" arg.
Definition is_help (arg : string) : bool := bool_decide (arg = "-h"%string) || bool_decide (arg = "--help"%string).
Definition IMAGE_FLAG : string := "--image".

(** The loop over [args[1..]]. *)
Fixpoint parse_args (prog : string) (args : list string) (image mountpoint : option string) : Proc (option string * option string) :=
  match args with
  | [] => mret (image, mountpoint)
  | arg :: args =>
      if bool_decide (arg = IMAGE_FLAG) then
        match args with
        | [] => _ ← eprintln ImageNeedsPath; exit 2
        | path :: args => parse_args prog args (Some path) mountpoint
        end
      else if is_help arg then _ ← print_usage prog; exit 0
      else if negb (starts_with_dash arg) && bool_decide (mountpoint = None) then parse_args prog args image (Some arg)
      else
        _ ← eprintln (UnknownArg arg);
        _ ← print_usage prog;
        exit 2
  end.

(** The file system behind the mount: in memory, or on the image at a path. *)
Inductive Served : Type :=
  | InMemory (f : FuseFs MemDevice)
  | OnImage (path : string) (f : FuseFs FileDevice).

Section main.
Context `{!Crc32}.
(** [now_secs], [getuid] and [getgid], the bound on the free-list chain of a mount,
    and the session, which returns the error of [mount2]. *)
Context (req : Request) (now : Z) (fuel : nat) (mount2 : Served → string → M Host unit unit).

(** [FuseFs::create_image(&path)] and [FuseFs::open_image(&path)]: the image file
    is created, or must be there. *)
Definition put_image (path : string) (f : FuseFs FileDevice) : M Host error (FuseFs FileDevice) :=
  _ ← modify (set_images <[path := device (store (tree (fuse_fs f)))]>);
  mret f.
Definition create_at (path : string) : M Host error (FuseFs FileDevice) :=
  files ← gets images;
  match files !! path with
  | Some _ => throw (Io AlreadyExistsIo)
  | None => f ← lift (fuse_create_image req now); put_image path f
  end.
Definition open_at (path : string) : M Host error (FuseFs FileDevice) :=
  files ← gets images;
  match files !! path with
  | None => throw (Io NotFoundIo)
  | Some image => f ← lift (fuse_open_image fuel image); put_image path f
  end.

Definition on_error {E A} (msg : E → message) (c : M Host E A) : Proc A := λ h,
  match c h with
  | (Ok a, h) => (Ok a, h)
  | (Err e, h) => (_ ← eprintln (msg e); exit 1) h
  | (Panic, h) => (Panic, h)
  | (OutOfFuel, h) => (OutOfFuel, h)
  end.

(** [FuseFs::new()] has no error to return. *)
Definition infallible {A} (c : res A) : outcome Z A :=
  match c with Ok a => Ok a | OutOfFuel => OutOfFuel | _ => Panic end.

Definition build (image : option string) : Proc Served :=
  match image with
  | None => f ← lift (infallible (fuse_new req now)); mret (InMemory f)
  | Some path =>
      files ← gets images;
      f ← on_error ImageFailed (if bool_decide (is_Some (files !! path)) then open_at path else create_at path);
      mret (OnImage path f)
  end.

Definition main (args : list string) : Proc unit :=
  match args with
  | [] => lift Panic
  | prog :: args =>
      '(image, mountpoint) ← parse_args prog args None None;
      match mountpoint with
      | None => _ ← print_usage prog; exit 2
      | Some mountpoint =>
          fs ← build image;
          on_error (λ _, MountFailed) (mount2 fs mountpoint)
      end
  end.
End main.

(** What [build] does with a path. *)
Definition image_put (path : string) (f : FuseFs FileDevice) (h : Host) : Host :=
  set_images <[path := device (store (tree (fuse_fs f)))]> h.
Lemma build_creates `{!Crc32} req now fuel path h f :
  images h !! path = None → fuse_create_image req now = Ok f →
  build req now fuel (Some path) h = (Ok (OnImage path f), image_put path f h).
Proof.
  intros Hp Ef. unfold build. rewrite gets_bind, bool_decide_eq_false_2 by (rewrite Hp; by intros []).
  assert (create_at req now path h = (Ok f, image_put path f h)) as E.
  { unfold create_at. rewrite gets_bind, Hp. unfold lift, mbind, M_bind. by rewrite Ef. }
  unfold on_error, mbind, M_bind. by rewrite E.
Qed.
Lemma build_opens `{!Crc32} req now fuel path h image f :
  images h !! path = Some image → fuse_open_image fuel image = Ok f →
  build req now fuel (Some path) h = (Ok (OnImage path f), image_put path f h).
Proof.
  intros Hp Ef. unfold build. rewrite gets_bind, bool_decide_eq_true_2 by (rewrite Hp; by eexists).
  assert (open_at fuel path h = (Ok f, image_put path f h)) as E.
  { unfold open_at. rewrite gets_bind, Hp. unfold lift, mbind, M_bind. by rewrite Ef. }
  unfold on_error, mbind, M_bind. by rewrite E.
Qed.

(** ** The arguments *)
Inductive item : Type :=
  | Image (path : string)
  | Mountpoint (dir : string).
Definition render_item (i : item) : list string :=
  match i with Image path => [IMAGE_FLAG; path] | Mountpoint dir => [dir] end.
Definition render (items : list item) : list string := mbind render_item items.
Definition paths_of (items : list item) : list string := omap (λ i, match i with Image p => Some p | _ => None end) items.
Definition dirs_of (items : list item) : list string := omap (λ i, match i with Mountpoint d => Some d | _ => None end) items.

(** What the loop has read so far: images in any number, the last one counts, and
    at most one mount point, which does not look like an option. *)
Record reading (items : list item) (image mountpoint : option string) : Prop := {
  rd_image : image = last (paths_of items);
  rd_dir : dirs_of items = option_list mountpoint;
  rd_plain : Forall (λ d, starts_with_dash d = false) (dirs_of items);
}.

Lemma reading_nil : reading [] None None.
Proof. split; [done|done|constructor]. Qed.
Lemma reading_image items image mountpoint path :
  reading items image mountpoint → reading (items ++ [Image path]) (Some path) mountpoint.
Proof.
  intros [E1 E2 E3]. split; unfold paths_of, dirs_of; rewrite omap_app; cbn [omap list_omap]; [by rewrite last_snoc|by rewrite app_nil_r..].
Qed.
Lemma reading_dir items image dir :
  reading items image None → starts_with_dash dir = false → reading (items ++ [Mountpoint dir]) image (Some dir).
Proof.
  intros [E1 E2 E3] Hd. unfold dirs_of in E2. split; unfold paths_of, dirs_of; rewrite omap_app; cbn [omap list_omap].
  - by rewrite app_nil_r.
  - by rewrite E2.
  - apply Forall_app. by split; [|constructor].
Qed.

Lemma plain_not_flag dir : starts_with_dash dir = false → dir ≠ IMAGE_FLAG ∧ is_help dir = false.
Proof.
  intros Hd. split; [by intros ->|]. unfold is_help. rewrite !bool_decide_eq_false_2; [done|by intros ->..].
Qed.

(** The words of an item take the loop from one reading to the next. *)
Lemma parse_item prog i args items image mountpoint image' mountpoint' :
  reading items image mountpoint → reading (items ++ [i]) image' mountpoint' →
  parse_args prog (render_item i ++ args) image mountpoint = parse_args prog args image' mountpoint'.
Proof.
  intros [E1 E2 E3] [E1' E2' E3']. unfold paths_of, dirs_of in *. rewrite omap_app in *. destruct i as [path|dir]; cbn [omap list_omap app] in *.
  - rewrite last_snoc in E1'. rewrite app_nil_r, E2 in E2'. subst image'. cbn [render_item app parse_args].
    rewrite bool_decide_eq_true_2 by done. by destruct mountpoint, mountpoint'; simplify_eq.
  - rewrite app_nil_r, <- E1 in E1'. subst image'. apply Forall_app in E3' as [_ [Hd _]%Forall_cons].
    destruct mountpoint as [d|]; [by rewrite E2 in E2'; destruct mountpoint'|]. rewrite E2 in E2'.
    destruct mountpoint' as [d'|]; [|done]. injection E2' as <-. destruct (plain_not_flag dir Hd) as [H1 H2].
    cbn [render_item app parse_args]. rewrite bool_decide_eq_false_2, H2, Hd by done. done.
Qed.
Lemma reading_prefix items i image' mountpoint' :
  reading (items ++ [i]) image' mountpoint' → ∃ image mountpoint, reading items image mountpoint.
Proof.
  intros [E1 E2 E3]. unfold dirs_of in *. rewrite omap_app in *. apply Forall_app in E3 as [E3 _].
  exists (last (paths_of items)), (head (dirs_of items)). split; [done| |done]. unfold dirs_of.
  apply (f_equal length) in E2. rewrite length_app in E2.
  destruct (omap _ items) as [|d [|]]; [done|done|]. destruct mountpoint'; cbn in E2; lia.
Qed.
Lemma parse_render prog items args image mountpoint :
  reading items image mountpoint → parse_args prog (render items ++ args) None None = parse_args prog args image mountpoint.
Proof.
  revert args image mountpoint. induction items as [|i items IH] using rev_ind; intros args image mountpoint Hr.
  { destruct Hr as [-> E _]. by destruct mountpoint. }
  destruct (reading_prefix _ _ _ _ Hr) as (image0 & mountpoint0 & Hr0). unfold render. rewrite bind_app, <- app_assoc, (IH _ _ _ Hr0).
  cbn [mbind list_bind]. rewrite app_nil_r. by eapply parse_item.
Qed.

(** Where the loop stops. *)
Inductive stops (prog : string) (image mountpoint : option string) : list string → outcome Z (option string * option string) * list message → Prop :=
  | stops_end : stops prog image mountpoint [] (Ok (image, mountpoint), [])
  | stops_flag : stops prog image mountpoint [IMAGE_FLAG] (Err 2, [ImageNeedsPath])
  | stops_help arg args : is_help arg = true → stops prog image mountpoint (arg :: args) (Err 0, [Usage prog])
  | stops_unknown arg args :
      arg ≠ IMAGE_FLAG → is_help arg = false → starts_with_dash arg = true ∨ is_Some mountpoint →
      stops prog image mountpoint (arg :: args) (Err 2, [UnknownArg arg; Usage prog]).

Lemma stops_runs prog image mountpoint args r msgs h :
  stops prog image mountpoint args (r, msgs) →
  parse_args prog args image mountpoint h = (r, {| stderr := stderr h ++ msgs; images := images h |}).
Proof.
  inversion 1 as [| |arg args' Hh|arg args' Hf Hh Hd]; subst; cbn [parse_args].
  - rewrite app_nil_r. by destruct h.
  - done.
  - rewrite bool_decide_eq_false_2, Hh; [done|]. by intros ->.
  - rewrite bool_decide_eq_false_2, Hh by done. destruct (starts_with_dash arg); cbn [negb andb].
    + unfold mbind, M_bind, eprintln, print_usage, modify, exit, throw. cbn. by rewrite <- app_assoc.
    + destruct Hd as [?|[d ->]]; [done|]. unfold mbind, M_bind, eprintln, print_usage, modify, exit, throw. cbn. by rewrite <- app_assoc.
Qed.

(** Every argument list is a reading followed by a reason to stop. *)
Lemma parse_stops prog args items image mountpoint :
  reading items image mountpoint →
  ∃ items' image' mountpoint' tail r, args = render items' ++ tail ∧ reading (items ++ items') image' mountpoint' ∧
    stops prog image' mountpoint' tail r.
Proof.
  revert items image mountpoint. induction args as [args IH] using (induction_ltof1 _ length); unfold ltof in IH. intros items image mountpoint Hr.
  assert (∀ i rest image' mountpoint', args = render_item i ++ rest → reading (items ++ [i]) image' mountpoint' →
    ∃ items' image' mountpoint' tail r, args = render items' ++ tail ∧ reading (items ++ items') image' mountpoint' ∧
      stops prog image' mountpoint' tail r) as Hstep.
  { intros i rest image' mountpoint' -> Hi. destruct (IH rest) with (items := items ++ [i]) (image := image') (mountpoint := mountpoint')
      as (items' & im & mp & tail & r & -> & Hr' & Hs); [rewrite length_app; destruct i; cbn; lia|done|].
    exists (i :: items'), im, mp, tail, r. unfold render. cbn [mbind list_bind]. rewrite <- app_assoc. split; [done|].
    by rewrite <- app_assoc in Hr'. }
  assert (∀ r, stops prog image mountpoint args r → ∃ items' image' mountpoint' tail r, args = render items' ++ tail ∧
    reading (items ++ items') image' mountpoint' ∧ stops prog image' mountpoint' tail r) as Hstop.
  { intros r Hs. exists [], image, mountpoint, args, r. by rewrite app_nil_r. }
  destruct args as [|arg args]; [eapply Hstop; constructor|]. destruct (decide (arg = IMAGE_FLAG)) as [->|Hf].
  { destruct args as [|path args]; [eapply Hstop; constructor|]. eapply (Hstep (Image path) args); [done|by eapply reading_image]. }
  destruct (is_help arg) eqn:Hh; [eapply Hstop; by constructor|].
  destruct (starts_with_dash arg) eqn:Hd; [eapply Hstop, stops_unknown; auto|].
  destruct mountpoint as [d|]; [eapply Hstop, stops_unknown; eauto|]. eapply (Hstep (Mountpoint arg) args); [done|by eapply reading_dir].
Qed.

(** ** Images *)
Section images.
Context `{!Crc32} `{!Crc32Range}.

#[local] Opaque fs_create fs_open seed_map.
Lemma journaled_next_ino {D} `{!BlockDevice D} (fs : Fs D) mc cc m n k :
  in_width 64 k → journaled fs mc cc m n → journaled (set_next_ino k fs) mc cc m n.
Proof using Type.
  intros Hk [(sb & h & t & cs & frames & base & R & [] & Him) Hok [[] ? ? ?] Hl Hon _].
  split; [|done| |done|done|exact Hk]; [|by split].
  exists sb, h, t, cs, frames, base, R. by split.
Qed.

(** [FuseFs::create_image]: the image holds what [Fs::create] synced; the root
    inode is in memory and in the log. *)
Lemma fuse_create_ok req now :
  ∃ f, fuse_create_image req now = Ok f ∧ poisoned f = false ∧
    view (mount_map req now) (current_subvol (fuse_fs f)) ROOT_SNAP [ROOT_SNAP] ∧
    journaled (fuse_fs f) seed_map SEED_COUNTERS (mount_map req now) 4095.
Proof using All.
  destruct fs_create_seeded as (fs & E & Hj & C & _). pose proof C as [= C1 C2 C3 C4].
  set (fs1 := set_next_ino 2 fs).
  assert (alloc_ino fs = (Ok (next_ino fs), set_next_ino (u64 (next_ino fs + 1)) fs)) as E1 by reflexivity. rewrite C1 in E1.
  assert (journaled fs1 seed_map SEED_COUNTERS seed_map 4096) as Hj1 by exact (journaled_next_ino fs _ _ _ _ 2 two_width Hj).
  pose proof (jn_inv _ _ _ _ _ Hj1) as Hinv1. pose proof (fi_models _ _ _ Hinv1) as Hfs1.
  destruct (put_inode_performs seed_map ROOT_SUBVOL ROOT_SNAP [ROOT_SNAP] ROOT_INO (root_inode req now) (fm_typed _ _ _ Hfs1) seed_view fs1 4095)
    as (fs2 & E2 & Hfs2 & T2 & W2); [exact Hfs1|lia|exact C4|].
  exists {| fuse_fs := fs2; poisoned := false |}. cbn [fuse_fs poisoned].
  assert (current_subvol fs2 = ROOT_SUBVOL ∧ next_snap_id fs2 = ROOT_SNAP - 1 ∧ next_subvol_id fs2 = ROOT_SUBVOL + 1) as (Ec & Es & Ev).
  { rewrite T2. cbn [set_tree current_subvol next_snap_id next_subvol_id]. split; [exact C4|]. split; [exact C2|exact C3]. }
  split; [|split; [reflexivity|split]].
  - unfold fuse_create_image. rewrite (outcome_bind_ok _ _ _ E). exact (bootstrap_steps _ _ _ _ _ _ E1 eq_refl E2).
  - rewrite Ec. eapply (view_local ROOT_SNAP); [apply root_width| |apply seed_view]. apply Forall_singleton. left. split; [by left|done].
  - eapply wrote_journaled; [exact Hj1|exact W2|by apply steady_tree|].
    assert (Forall (local_op ROOT_SNAP) [WPut (inode_key ROOT_INO) ROOT_SNAP Live (inode_as_bytes (root_inode req now))]) as Hloc.
    { apply Forall_singleton. left. split; [by left|done]. }
    assert (in_width 32 ROOT_SUBVOL) as Hw by (unfold in_width, ROOT_SUBVOL; lia).
    split; [exact Hfs2|rewrite Es, Ev|rewrite Ec; exact Hw|].
    2: { rewrite Ec, (local_subvol ROOT_SNAP _ _ _ root_width Hloc), (seed_subvol _ Hw), decide_True by reflexivity. by eexists. }
    exact (ids_ok_local ROOT_SNAP _ _ _ _ seed_ids root_width ltac:(lia) Hloc).
Qed.

(** The root a fresh mount shows. *)
Lemma mount_map_root req now :
  in_width 32 (req_uid req) → in_width 32 (req_gid req) → in_width 64 now →
  a_inode (mount_map req now) [ROOT_SNAP] ROOT_INO = Some (root_inode req now).
Proof using Type.
  intros Hu Hg Hn. unfold a_inode, mount_map. cbn [a_run foldl a_wop]. rewrite a_put_seen; [|exact root_width|exact (proj1 (inode_wop_typed ROOT_INO ROOT_SNAP (root_inode req now)))].
  unfold decoded. cbn [mbind option_bind]. rewrite inode_round_trip; [done|].
  unfold root_inode, new_inode, inode_wf. cbn. by split_and!.
Qed.

(** A file system whose root directory is the one of a new mount. *)
Definition shows_root {D} `{!BlockDevice D} (req : Request) (now : Z) (f : FuseFs D) : Prop :=
  ∃ fs, getattr ROOT_INO (fuse_fs f) = (to_attr ROOT_INO (root_inode req now), fs).
Lemma mount_map_shows {D} `{!BlockDevice D} `{!BlockDeviceLaws D} `{!BlockDeviceTotal D} req now (f : FuseFs D) n :
  fs_models (fuse_fs f) (mount_map req now) n → view (mount_map req now) (current_subvol (fuse_fs f)) ROOT_SNAP [ROOT_SNAP] →
  in_width 32 (req_uid req) → in_width 32 (req_gid req) → in_width 64 now → shows_root req now f.
Proof using All.
  intros Hfs Hv Hu Hg Hn. destruct (getattr_answers _ _ _ _ (fm_typed _ _ _ Hfs) Hv ROOT_INO _ _ Hfs eq_refl) as (fs1 & E1 & _).
  exists fs1. rewrite E1. unfold spec_getattr. cbn [inodes view_of]. by rewrite mount_map_root.
Qed.

(** A mount of an image whose committed map is that of [Fs::create] has no root. *)
Lemma seed_root_missing {D} `{!BlockDevice D} `{!BlockDeviceLaws D} `{!BlockDeviceTotal D} (fs : Fs D) m n :
  fs_inv fs m n → m ≡ seed_map → current_subvol fs = ROOT_SUBVOL →
  ∃ fs', getattr ROOT_INO fs = (Err ENOENT, fs').
Proof using All.
  intros [Hfs _ _ _] Hm Hc. assert (view m (current_subvol fs) ROOT_SNAP [ROOT_SNAP]) as Hv.
  { rewrite Hc. eapply view_ext; [exact seed_view|by apply a_subvol_equiv|intros x _; by apply a_snapshot_equiv]. }
  destruct (getattr_answers m _ ROOT_SNAP [ROOT_SNAP] (fm_typed _ _ _ Hfs) Hv ROOT_INO fs n Hfs eq_refl) as (fs' & E & _).
  exists fs'. rewrite E. unfold spec_getattr. cbn [inodes view_of]. unfold a_inode. by rewrite (seen_equiv _ _ _ _ Hm).
Qed.

(** A mount of the image of a running file system, as it is. *)
Lemma journaled_opens (fs : Fs FileDevice) mc cc m n :
  journaled fs mc cc m n →
  ∃ N, ∀ fuel, (N ≤ fuel)%nat → ∃ f' m', fuse_open_image fuel (device (store (tree fs))) = Ok f' ∧
    fs_inv (fuse_fs f') m' (MOUNT_SLACK - JOURNAL_CAPACITY) ∧ m' ≡ mc ∧ counters_of (fuse_fs f') = cc.
Proof using All.
  intros [(sb & h & t & cs & frames & base & R & Him & Hmc & <-) Hok _ _ _ _].
  destruct (image_mounts fs (store (tree fs)) true sb h t cs frames base R [] [] mc Him) as [N HN];
    [rewrite app_nil_r; apply Him|constructor|exact Hmc|exact Hok|].
  exists N. intros fuel Hf. destruct (HN fuel Hf) as (fs' & m' & E & Hinv & Hm & C).
  exists {| fuse_fs := fs'; poisoned := false |}, m'. split; [|done]. unfold fuse_open_image.
  by rewrite (outcome_bind_ok (fs_open fuel _) _ _ E).
Qed.
End images.

Section claims.
Context `{!Crc32} `{!Crc32Range}.
#[local] Opaque fs_create fs_open seed_map.

(** C27: the argument loop accepts exactly the command lines of the grammar. It
    reads items, [--image <path>] any number of times with the last one counting and
    at most one mount point that does not start with a dash, in any order, and then
    stops: at the end with what it read, at a trailing [--image] or an argument it
    does not know with status 2, at [-h] or [--help] with status 0, printing what
    each calls for. Nothing else happens: it never panics and touches no image. *)
Theorem command_line_grammar prog args h r h' :
  parse_args prog args None None h = (r, h') ↔
  ∃ items image mountpoint tail msgs, args = render items ++ tail ∧ reading items image mountpoint ∧
    stops prog image mountpoint tail (r, msgs) ∧ h' = {| stderr := stderr h ++ msgs; images := images h |}.
Proof using Type.
  split.
  - intros E. destruct (parse_stops prog args [] None None reading_nil) as (items & image & mountpoint & tail & [r' msgs] & -> & Hr & Hs).
    rewrite (parse_render _ _ _ _ _ Hr), (stops_runs _ _ _ _ _ _ _ Hs) in E. injection E as <- <-. eauto 10.
  - intros (items & image & mountpoint & tail & msgs & -> & Hr & Hs & ->).
    by rewrite (parse_render _ _ _ _ _ Hr), (stops_runs _ _ _ _ _ _ _ Hs).
Qed.

(** C26: a start that needs no existing image always gets to the session. With a
    command line of the grammar, and an image that is not there yet or none at all,
    [main] prints nothing, builds a file system with its root directory, in memory or
    on a new image at the path, whose file then holds what a later start opens, and
    hands it to the session with the mount point; what the session reports decides
    the status. *)
Theorem new_mount_is_served req now fuel mount2 prog items image dir h :
  in_width 32 (req_uid req) → in_width 32 (req_gid req) → in_width 64 now →
  reading items image (Some dir) → (∀ path, image = Some path → images h !! path = None) →
  ∃ served h1, main req now fuel mount2 (prog :: render items) h = on_error (λ _, MountFailed) (mount2 served dir) h1 ∧
    match image with
    | None => h1 = h ∧ ∃ f, served = InMemory f ∧ poisoned f = false ∧ shows_root req now f
    | Some path => ∃ f, served = OnImage path f ∧ poisoned f = false ∧ h1 = image_put path f h ∧ shows_root req now f
    end.
Proof using All.
  intros Hu Hg Hn Hr Hp.
  assert (∀ served h1, build req now fuel image h = (Ok served, h1) →
    main req now fuel mount2 (prog :: render items) h = on_error (λ _, MountFailed) (mount2 served dir) h1) as Hmain.
  { intros served h1 E. cbn [main]. rewrite <- (app_nil_r (render items)), (parse_render _ _ _ _ _ Hr). cbn [parse_args].
    unfold mret, M_ret. unfold mbind at 1, M_bind at 1. by rewrite (M_bind_ok _ _ _ _ _ E). }
  destruct image as [path|].
  - destruct (fuse_create_ok req now) as (f & Ef & Hpo & Hc & Hj). exists (OnImage path f), (image_put path f h).
    split; [by apply Hmain, build_creates; [apply Hp|]|]. exists f. do 3 (split; [done|]).
    exact (mount_map_shows _ _ _ _ (fi_models _ _ _ (jn_inv _ _ _ _ _ Hj)) Hc Hu Hg Hn).
  - destruct (fuse_new_mounted req now 99) as (f & Ef & Hpo & _ & [Hfs Hv _ _]); [lia|]. exists (InMemory f), h.
    split; [apply Hmain; cbn [build]; by rewrite Ef|]. split; [done|]. exists f. do 2 (split; [done|]).
    exact (mount_map_shows _ _ _ _ Hfs Hv Hu Hg Hn).
Qed.

(** C36: a new image that is never written to loses its root directory. The first
    start creates the image and serves a file system with a root; when the process
    is killed before any operation commits, the second start opens the image without
    complaint and serves a file system that has no root, and whose next inode number
    is the root's. *)
Theorem killed_before_commit_loses_root req now path h :
  in_width 32 (req_uid req) → in_width 32 (req_gid req) → in_width 64 now → images h !! path = None →
  ∃ N, ∀ fuel, (N ≤ fuel)%nat →
  ∃ f h1 f' h2, build req now fuel (Some path) h = (Ok (OnImage path f), h1) ∧
    shows_root req now f ∧
    build req now fuel (Some path) h1 = (Ok (OnImage path f'), h2) ∧
    (∃ fs, getattr ROOT_INO (fuse_fs f') = (Err ENOENT, fs)) ∧ next_ino (fuse_fs f') = ROOT_INO.
Proof using All.
  intros Hu Hg Hn Hp. destruct (fuse_create_ok req now) as (f & Ef & _ & Hc & Hj).
  destruct (journaled_opens _ _ _ _ _ Hj) as [N HN]. exists N. intros fuel Hf.
  destruct (HN fuel Hf) as (f' & m' & Eo & Hinv & Hm & C). injection C as C1 _ _ C4.
  destruct (seed_root_missing _ _ _ Hinv Hm C4) as [fs2 E2].
  set (h1 := image_put path f h). exists f, h1, f', (image_put path f' h1).
  split; [by apply build_creates|]. split; [by apply (mount_map_shows _ _ _ _ (fi_models _ _ _ (jn_inv _ _ _ _ _ Hj)))|].
  split; [|split; [by exists fs2|exact C1]].
  eapply build_opens; [|exact Eo]. unfold h1, image_put, set_images. cbn [images]. by rewrite lookup_insert_eq.
Qed.
End claims.

#[local] Existing Instance sum_crc.
Lemma killed_before_commit_loses_root_witness :
  ∃ N f h1 f' h2 fs, build demo_req 7 N (Some "disk"%string) {| stderr := []; images := ∅ |} = (Ok (OnImage "disk" f), h1) ∧
    build demo_req 7 N (Some "disk"%string) h1 = (Ok (OnImage "disk" f'), h2) ∧ getattr ROOT_INO (fuse_fs f') = (Err ENOENT, fs).
Proof.
  destruct (killed_before_commit_loses_root demo_req 7 "disk" {| stderr := []; images := ∅ |} (proj1 demo_req_ok) (proj2 demo_req_ok))
    as [N HN]; [unfold in_width; lia|reflexivity|].
  destruct (HN N (le_n N)) as (f & h1 & f' & h2 & E1 & _ & E2 & [fs E3] & _). exists N, f, h1, f', h2, fs.
  split; [exact E1|]. split; [exact E2|exact E3].
Defined.

Definition demo_session : Served → string → M Host unit unit := λ _ _, mret tt.
Lemma new_mount_is_served_witness :
  ∃ f h1, main demo_req 7 9 demo_session ["rfs"; "--image"; "disk"; "/mnt"]%string {| stderr := []; images := ∅ |} = (Ok tt, h1) ∧
    h1 = image_put "disk" f {| stderr := []; images := ∅ |}.
Proof.
  assert (reading [Image "disk"; Mountpoint "/mnt"] (Some "disk"%string) (Some "/mnt"%string)) as Hr.
  { split; [reflexivity|reflexivity|by repeat constructor]. }
  destruct (new_mount_is_served demo_req 7 9 demo_session "rfs" _ _ _ {| stderr := []; images := ∅ |}
    (proj1 demo_req_ok) (proj2 demo_req_ok) ltac:(unfold in_width; lia) Hr) as (served & h1 & E & f & _ & _ & Hh & _); [reflexivity|].
  exists f, h1. split; [exact E|exact Hh].
Defined.
